(* ===== verification/_CoqProject ===== *)
-Q . S2P
Prelude.v
RustStd.v
Error.v
IoLayer.v
Tokenizer.v
Config.v
Json.v
HeaderJson.v
Storage.v
StorageSpec.v
Archive.v
ArchiveSpec.v
ArchiveConc.v
Scorers.v
ScorersSpec.v
Fuzzy.v
Icu.v
Query.v
QueryLaws.v
Analyzer.v
BuildQuery.v
BuildQuerySpec.v
Writer.v
Reader.v
ToyEngine.v
WriterSpec.v
ReaderSpec.v
ReaderConc.v
ReaderConcSpec.v
ToyProgs.v
Native.v
FuzzySpec.v
Ffi.v
FfiSpec.v
Jni.v
ToyJava.v
JniSpec.v
JavaRoundtrip.v
MiniAnalysis.v
MiniEngine.v
Conformance.v
EndToEnd.v
