(* ===== verification/Prelude.v ===== *)
(** * Verification of the Paimon full-text index library

    A development for the Rust crates under [src/]: [core] (the index
    library), [ffi] (its C interface) and [jni] (its Java bridge).  The library
    puts a full-text index of the Tantivy search engine into one archive file
    and searches it there.  A shallow embedding: a definition keeps the name of
    the function or type it models, and each file says which source it follows.

    ** The program and the files

    Writing.  Options become a configuration ([Tokenizer], [Config]: tokenizer.rs,
    config.rs); the configuration becomes a schema and a text analyzer
    ([Analyzer]: index.rs); documents go to the engine, and the files the engine
    leaves in a temporary directory are streamed into an archive ([Writer]:
    index.rs, [Storage]: storage.rs).  The archive is the envelope: magic,
    version, length and text of a JSON header ([Json], [HeaderJson]: the [serde]
    derives), then the files one after the other.

    Reading.  The header is read and validated ([Storage]); the archive becomes a
    read-only directory for the engine, with a cache of blocks shared by all
    handles ([Archive]: archive_directory.rs); a query text is decoded
    ([Query]: query.rs), checked and turned into a query of the engine
    ([BuildQuery]: index.rs), whose own parts (the demoting scorer, the sorted set,
    the prefixed automaton in [Scorers], the fuzzy term query and its weight in
    [Fuzzy]) are those of index.rs; [Reader] (index.rs) opens an archive and
    searches it, one call after the other; [ReaderConc] (index.rs) interleaves
    calls on one reader, with the mutex that guards the engine's reader and every
    read of the engine as atomic actions.  [Icu] (tokenizer/icu.rs) is the
    tokenizer over word boundaries.

    Boundaries.  [IoLayer] (io.rs) has the traits for positional reads and
    writes, as classes with their promises, the counters, and the in-memory
    implementations.  [Native] has what both foreign interfaces share: texts of
    errors, UTF-8 decoding, computations that may return, panic or be undefined.
    [Ffi] (ffi/src/lib.rs) is the C interface over the caller's memory and live
    handles, [Jni] (jni/src/lib.rs) the native methods over the state of a Java
    virtual machine.

    Shared.  [Prelude] (this file) has results, state-passing computations with
    errors ([ST]: an error keeps the state reached, as a Rust [&mut] does) and
    their postconditions ([wp]), lists and slices measured in [Z], loops of
    assignments, and the tactics.  [RustStd] has what the crates use of the
    standard library: machine integers with their widths, big-endian encodings,
    panics as values ([Fault]: an error, or a panic with its payload) with the
    operations that panic (overflow checks, a vector longer than [isize::MAX], a
    slice out of range), strings as lists of scalar values, path components,
    binary32 floats.
    [Error] (error.rs) keeps messages as the fragments the code formats.

    A file [XSpec] (or [QueryLaws], [ArchiveConc], [JavaRoundtrip]) holds the theorems about [X].
    [ToyEngine], [ToyProgs] and [ToyJava] are small instances of the parameters,
    on which the models run; every theorem with hypotheses is applied to a concrete input.
    [MiniEngine], with the analyzers of [MiniAnalysis], is an engine whose index
    is in the archive, whose terms come from the crate's ICU tokenizer where it is
    configured, and whose searches run the crate's own weights and scorers.  [Conformance] runs the tests of the
    repository that need no search, the golden archive included, and [EndToEnd]
    those that write an index, open it and search it, through the crate and
    through the C interface, with that engine.

    ** What the theorems show

    - The archive ([StorageSpec]): what is written reads back; [read_header]
      accepts exactly the archives of valid headers; files do not overlap; a
      failed write leaves a prefix; streaming equals writing from memory; every
      buffer, batch and header read is bounded.
    - The directory ([ArchiveSpec]): it refines the map from paths to contents,
      so caching and eviction never show; eviction is first in, first out; a
      read panics exactly where no vector holds its range or an overflow check
      fires, so never for files of at most [isize::MAX] bytes, but an accepted
      header can name a longer one.  [ArchiveConc] interleaves threads at the granularity of the
      cache's mutex: every interleaving returns the right bytes, a read panics
      where it would alone, a call returns
      after at most six of its own steps, a thread alone is the sequential code.
    - Configuration ([Config]): exactly the valid ones are accepted, the result
      does not depend on the order of the options unless two name one setting.
    - Queries ([QueryLaws], [BuildQuerySpec]): decoding terminates and inverts
      encoding; building succeeds exactly for acceptable queries, and the built
      query matches exactly the documents the query describes.
    - Scorers ([ScorersSpec]) and the ICU tokenizer ([Icu]): the demoted scores,
      the capped expansion of terms, the language of the automaton, and the
      tokens with their offsets.  [FuzzySpec] composes them: the documents of a
      fuzzy token, from [build_token_query] to the postings, are those of the
      first words of the dictionary within the edit distance and the prefix.
    - Writer and reader ([WriterSpec], [ReaderSpec]): counted and logged
      documents, a single write, the written archive opens again with the
      writer's files, and a search returns the rows its query describes, each
      with its score, the best first.
    - Concurrent searches ([ReaderConcSpec]): under every interleaving of calls on
      one reader, each call that finishes has the result of the same call alone,
      no read panics and one at a time holds the lock; every run ends, with
      every call finished.
    - C ([FfiSpec]): a program that passes null or valid pointers never meets
      undefined behaviour, and a panic of the core (of the engine, or of a read)
      is a failure like any other; failures set the error text; searches fill the
      caller's arrays with the rows and scores of the answer; a written file opens
      again through the callbacks.
    - Java ([JniSpec]): no undefined behaviour for handles that are 0 or live,
      and exceptions for failures; but nothing catches a panic there: a method
      aborts the process exactly when the core panics behind it;
      files implemented in Java keep the promises of the traits; result objects
      hold the rows and scores of the answer.  [JavaRoundtrip]: when the machine
      and the input refuse nothing, reads of up to [i32::MAX] bytes succeed, and
      an index written through Java opens again through Java.

    ** Parameters

    Code that is not part of the repository is a class, with what the program
    relies on as the laws of a second class: the engine ([WriterEngine],
    [ReaderEngine], [SchemaEngine], [TokenizerRegistry], [AnalysisEngine],
    [DocSet], [Scorer], [Weight], [DFA], [LevenshteinApi], [TermApi],
    [InvertedIndexApi], [SegmentApi]; laws [SchemaLaws], [RegistryLaws],
    [LogsDocuments], [SearchLaws], [RankLaws], [Enumerates], [Scores],
    [LevenshteinLaws], [TermLaws], [InvertedIndexLaws]; for interleavings, its
    computations as programs of reads, [EngineProgs], that stay inside the files,
    [EngineInside]), the text level of JSON
    ([JsonText], with the round trip of exact documents), the segmenter, the
    callbacks of a C program ([WriteCallbacks], [ReadCallbacks]) and the
    environment of a Java virtual machine ([JNIEnv]; laws [JavaFiles],
    [JavaResults], [JavaObliging], [JavaReferences]).  The toolchain's Unicode
    tables ([Unicode]), the pointer width ([Platform]), overflow checks
    ([Profile]), the order of a hash map ([HashOrder]) and the display of floats
    ([Display]) are classes too.  An allocator is the address a new handle gets.

    ** Loops

    Structural recursion where the source iterates over a collection.  With fuel:
    the eviction loop (as many rounds as the queue has entries: each round
    removes one), the loop that copies a file ([copy_fuel]: every round but the
    last copies a full buffer), [advance] of the ICU stream ([advance_fuel]:
    boundaries and bytes of the text, each round consumes one) and the decoding
    of queries (the depth of the JSON tree plus one).  For each a theorem or lemma
    shows that the fuel suffices.  The interleavings have no fuel: they are step
    relations, and the relation of steps is well founded.

    ** Not modelled, and why

    - [lib.rs] (re-exports), and the bindings and tools in Java and Python.
    - The test of an archive of ten thousand documents; of the test of two preads
      at once, the wait for the clock: the model has the schedules instead.
    - Panics of the query parser and of the tokenizers of the engine, and
      allocations that fail for want of memory.  The operations of the engine
      that read or write an index do panic in the model ([Fault]); the panic of a
      schema with a repeated field is shown not to happen; a panic under the
      lock of the engine's reader poisons it.
    - The temporary directory on disk: a listing of its entries, with the result
      of each system call, is what the writer sees of it.
    - Messages of [serde_json] and of the engine: carried as opaque texts.
    - C callbacks and Java files may change the state they act on, but a reader
      owns the state behind its C input; sharing it between readers is outside
      the model.  Objects of different types in the caller's memory do not
      overlap. *)

From stdpp Require Export base tactics list gmap strings sorting.
From Stdlib Require Export ZArith Lia.
From Stdlib Require Export Init.Byte.

#[global] Open Scope Z_scope.

(** ** Results

    Rust's [Result<A, E>], with the error type first so that [result E] is a
    monad; [x ← m; k] is the source's [let x = m?; k]. *)
Inductive result (E A : Type) : Type :=
| Ok (a : A)
| Err (e : E).
Arguments Ok {E A} a.
Arguments Err {E A} e.
#[global] Instance Ok_eq_inj {E A} : Inj (=) (=) (@Ok E A).
Proof. by intros a b [= ->]. Qed.

#[global] Instance result_ret E : MRet (result E) := fun A a => Ok a.
#[global] Instance result_bind E : MBind (result E) := fun A B f m =>
  match m with Ok a => f a | Err e => Err e end.
#[global] Instance result_fmap E : FMap (result E) := fun A B f m =>
  match m with Ok a => Ok (f a) | Err e => Err e end.

(** [Result::map_err] *)
Definition map_err {E E' A} (f : E -> E') (m : result E A) : result E' A :=
  match m with Ok a => Ok a | Err e => Err (f e) end.

(** [Option::ok_or_else] *)
Definition ok_or {E A} (o : option A) (e : E) : result E A :=
  match o with Some a => Ok a | None => Err e end.

(** [Result::is_ok] *)
Definition is_ok {E A} (m : result E A) : bool :=
  match m with Ok _ => true | Err _ => false end.

(** ** State-passing computations

    [ST S E A] is a fallible computation that threads a state [S]: an error
    keeps the state reached when it was raised (a partially written output,
    for instance), as a Rust [&mut] does. *)
Definition ST (S E A : Type) : Type := S -> result E A * S.

#[global] Instance ST_ret S E : MRet (ST S E) := fun A a s => (Ok a, s).
#[global] Instance ST_bind S E : MBind (ST S E) := fun A B f m s =>
  match m s with
  | (Ok a, s') => f a s'
  | (Err e, s') => (Err e, s')
  end.

Definition ST_lift {S E A} (m : result E A) : ST S E A := fun s => (m, s).
Definition ST_fail {S E A} (e : E) : ST S E A := fun s => (Err e, s).
Definition ST_map_err {S E E' A} (f : E -> E') (m : ST S E A) : ST S E' A :=
  fun s => let '(r, s') := m s in (map_err f r, s').
Definition ST_modify {S E} (f : S -> S) : ST S E unit := fun s => (Ok tt, f s).
Definition ST_gets {S E A} (f : S -> A) : ST S E A := fun s => (Ok (f s), s).

(** [for x in l { body(x)?; }], keeping the results. *)
Fixpoint result_mapM {E A B} (f : A -> result E B) (l : list A) : result E (list B) :=
  match l with
  | [] => Ok []
  | x :: l' => y ← f x; ys ← result_mapM f l'; Ok (y :: ys)
  end.

Fixpoint result_forM {E A} (f : A -> result E unit) (l : list A) : result E unit :=
  match l with
  | [] => Ok tt
  | x :: l' => _ ← f x; result_forM f l'
  end.

Fixpoint ST_forM {S E A} (f : A -> ST S E unit) (l : list A) : ST S E unit :=
  match l with
  | [] => mret tt
  | x :: l' => _ ← f x; ST_forM f l'
  end.

(** Every error of a computation is of some kind. *)
Definition errors_are {E A} (P : E -> Prop) (m : result E A) : Prop := ∀ e, m = Err e → P e.

(** ** Byte strings measured in [Z] *)
Definition blen {A} (l : list A) : Z := Z.of_nat (length l).

(** [&data[start..start+len]], for a range that is known to be in bounds. *)
Definition slice {A} (start len : Z) (l : list A) : list A :=
  take (Z.to_nat len) (drop (Z.to_nat start) l).

(** Changing the elements of a list one at a time along accessible ones ends. *)
Definition list_after {A} (after : A -> A -> Prop) (l' l : list A) : Prop :=
  ∃ i x x', l !! i = Some x ∧ after x' x ∧ l' = <[i:=x']> l.
Lemma list_after_acc {A} (after : A -> A -> Prop) l : Forall (Acc after) l → Acc (list_after after) l.
Proof.
  induction 1 as [|x l Hx _ Hl]; [constructor; by intros l' (i & ? & ? & ? & _)|].
  revert l Hl. induction Hx as [x Hx IHx]. intros l Hl. pose proof Hl as Hacc.
  induction Hl as [l _ IHl]. constructor. intros l' ([|i] & y & y' & Hy & Hafter & ->); cbn in Hy |- *.
  - injection Hy as ->. by apply IHx.
  - assert (list_after after (<[i:=y']> l) l) as Hstep by (by exists i, y, y').
    apply IHl; [done|]. by apply Hacc.
Qed.

(** ** Laws of the monads *)
Lemma bind_Ok {E A B} (m : result E A) (f : A -> result E B) b :
  m ≫= f = Ok b ↔ ∃ a, m = Ok a ∧ f a = Ok b.
Proof. destruct m; naive_solver. Qed.

Lemma Ok_inj {E A} (x y : A) : (Ok x : result E A) = Ok y → x = y.
Proof. congruence. Qed.

Lemma bind_unit_Ok {E B} (m : result E unit) (f : unit -> result E B) b :
  m ≫= f = Ok b ↔ m = Ok tt ∧ f tt = Ok b.
Proof. destruct m as [[]|]; naive_solver. Qed.

Lemma bind_Err {E A B} (m : result E A) (f : A -> result E B) e :
  m ≫= f = Err e ↔ m = Err e ∨ ∃ a, m = Ok a ∧ f a = Err e.
Proof. destruct m; naive_solver. Qed.

Lemma map_err_Ok {E E' A} (f : E -> E') (m : result E A) a :
  map_err f m = Ok a ↔ m = Ok a.
Proof. destruct m; naive_solver. Qed.

Lemma ok_or_Ok {E A} (o : option A) (e : E) a : ok_or o e = Ok a ↔ o = Some a.
Proof. destruct o; naive_solver. Qed.

Lemma fmap_Ok {E A B} (m : result E A) (f : A -> B) b :
  f <$> m = Ok b ↔ ∃ a, m = Ok a ∧ f a = b.
Proof. destruct m; cbn; naive_solver. Qed.

Lemma ST_bind_Ok {S E A B} (m : ST S E A) (f : A -> ST S E B) s b s' :
  (m ≫= f) s = (Ok b, s') ↔ ∃ a s1, m s = (Ok a, s1) ∧ f a s1 = (Ok b, s').
Proof. unfold mbind, ST_bind. destruct (m s) as [[] ?]; naive_solver. Qed.

Lemma ST_bind_run_Ok {S E A B} (m : ST S E A) (f : A -> ST S E B) s a s1 :
  m s = (Ok a, s1) → (m ≫= f) s = f a s1.
Proof. unfold mbind, ST_bind. by intros ->. Qed.

Lemma ST_bind_run_Err {S E A B} (m : ST S E A) (f : A -> ST S E B) s e s1 :
  m s = (Err e, s1) → (m ≫= f) s = (Err e, s1).
Proof. unfold mbind, ST_bind. by intros ->. Qed.

Lemma ST_bind_lift_Ok {S E A B} (a : A) (f : A -> ST S E B) :
  (ST_lift (Ok a) : ST S E A) ≫= f = f a.
Proof. done. Qed.

Lemma ST_bind_lift_Err {S E A B} (e : E) (f : A -> ST S E B) :
  (ST_lift (Err e) : ST S E A) ≫= f = ST_fail e.
Proof. done. Qed.

Lemma ST_map_err_Ok {S E E' A} (f : E -> E') (m : ST S E A) s a s' :
  ST_map_err f m s = (Ok a, s') ↔ m s = (Ok a, s').
Proof. unfold ST_map_err. destruct (m s) as [[] ?]; naive_solver. Qed.

Lemma result_mapM_Ok {E A B} (f : A -> result E B) l ys :
  result_mapM f l = Ok ys ↔ Forall2 (λ x y, f x = Ok y) l ys.
Proof.
  revert ys. induction l as [|x l IH]; intros ys; cbn.
  - split; [naive_solver | by inversion 1].
  - rewrite bind_Ok. split.
    + intros (y & Hy & (ys' & Hys & [= <-])%bind_Ok). constructor; [done|]. by apply IH.
    + inversion 1 as [|? y ? ys' Hy Hys]; subst. exists y. split; [done|].
      apply bind_Ok. exists ys'. by rewrite IH.
Qed.

Section ErrorsAre.
Context {E : Type} (P : E -> Prop).
Lemma errors_ok {A} (a : A) : errors_are P (Ok a).
Proof. by intros e. Qed.
Lemma errors_err {A} e : P e → errors_are P (Err e : result E A).
Proof. by intros Hp e' [= <-]. Qed.
Lemma errors_bind {A B} (m : result E A) (f : A -> result E B) :
  errors_are P m → (∀ a, m = Ok a → errors_are P (f a)) → errors_are P (m ≫= f).
Proof. intros Hm Hf e [He | (a & Ha & He)]%bind_Err; [by apply Hm|by eapply Hf]. Qed.
Lemma errors_ok_or {A} (o : option A) e : P e → errors_are P (ok_or o e).
Proof. destruct o; intros Hp; [apply errors_ok|by apply errors_err]. Qed.
Lemma errors_map_err {E' A} (f : E' -> E) (m : result E' A) :
  (∀ e, P (f e)) → errors_are P (map_err f m).
Proof. destruct m; intros Hp; [apply errors_ok|by apply errors_err]. Qed.
Lemma errors_mapM {A B} (f : A -> result E B) l :
  (∀ x, x ∈ l → errors_are P (f x)) → errors_are P (result_mapM f l).
Proof.
  induction l as [|x l IH]; cbn; intros Hf; [apply errors_ok|].
  apply errors_bind; [apply Hf; left|]. intros y _.
  apply errors_bind; [apply IH; intros z Hz; apply Hf; by right|]. intros; apply errors_ok.
Qed.
Lemma errors_forM {A} (f : A -> result E unit) l :
  (∀ x, x ∈ l → errors_are P (f x)) → errors_are P (result_forM f l).
Proof.
  induction l as [|x l IH]; cbn; intros Hf; [apply errors_ok|].
  apply errors_bind; [apply Hf; left|]. intros y _. apply IH. intros z Hz. apply Hf. by right.
Qed.
End ErrorsAre.

Lemma result_forM_Ok {E A} (f : A -> result E unit) l :
  result_forM f l = Ok tt ↔ Forall (λ x, f x = Ok tt) l.
Proof.
  induction l as [|x l IH]; cbn; [naive_solver|].
  rewrite bind_Ok, Forall_cons, <- IH. split; [intros ([] & ? & ?) | intros [? ?]]; eauto.
Qed.

(** ** Postconditions of state-passing computations

    [wp m Q s]: running [m] from [s] ends in a result and a state that satisfy
    [Q], errors included. *)
Definition wp {S E A} (m : ST S E A) (Q : result E A -> S -> Prop) (s : S) : Prop :=
  Q (m s).1 (m s).2.

Section Wp.
Context {S E : Type}.

Lemma wp_mono {A} (m : ST S E A) (Q Q' : result E A -> S -> Prop) s :
  wp m Q s → (∀ r s', Q r s' → Q' r s') → wp m Q' s.
Proof. unfold wp. eauto. Qed.

Lemma wp_bind {A B} (m : ST S E A) (f : A -> ST S E B) Q s :
  wp m (λ r s', match r with Ok a => wp (f a) Q s' | Err e => Q (Err e) s' end) s →
  wp (m ≫= f) Q s.
Proof. unfold wp, mbind, ST_bind. by destruct (m s) as [[]]. Qed.

Lemma wp_bind_post {A B} (m : ST S E A) (f : A -> ST S E B) P Q s :
  wp m P s → (∀ a s', P (Ok a) s' → wp (f a) Q s') → (∀ e s', P (Err e) s' → Q (Err e) s') →
  wp (m ≫= f) Q s.
Proof.
  intros Hm Hok Herr. apply wp_bind. eapply wp_mono; [exact Hm|]. intros [a|e] s'; auto.
Qed.

Lemma wp_bind_run {A B} (m : ST S E A) (f : A -> ST S E B) Q s a s1 :
  m s = (Ok a, s1) → wp (f a) Q s1 → wp (m ≫= f) Q s.
Proof. intros Hm Hf. apply wp_bind. unfold wp at 1. by rewrite Hm. Qed.

Lemma wp_bind_run_Err {A B} (m : ST S E A) (f : A -> ST S E B) (Q : result E B -> S -> Prop) s e s1 :
  m s = (Err e, s1) → Q (Err e) s1 → wp (m ≫= f) Q s.
Proof. intros Hm Hf. apply wp_bind. unfold wp at 1. by rewrite Hm. Qed.

Lemma wp_bind_assoc {A B C} (m : ST S E A) (f : A -> ST S E B) (g : B -> ST S E C) Q s :
  wp ((m ≫= f) ≫= g) Q s → wp (m ≫= λ a, f a ≫= g) Q s.
Proof. unfold wp, mbind, ST_bind. by destruct (m s) as [[]]. Qed.

Lemma wp_ret {A} (a : A) (Q : result E A -> S -> Prop) s : Q (Ok a) s → wp (mret a) Q s.
Proof. done. Qed.

Lemma wp_fail {A} e (Q : result E A -> S -> Prop) s : Q (Err e) s → wp (ST_fail e) Q s.
Proof. done. Qed.

Lemma wp_lift {A} r (Q : result E A -> S -> Prop) s : Q r s → wp (ST_lift r) Q s.
Proof. done. Qed.

Lemma wp_run {A} (m : ST S E A) Q s r s' : wp m Q s → m s = (r, s') → Q r s'.
Proof. unfold wp. intros H Hm. by rewrite Hm in H. Qed.
End Wp.

(** *** A part of the state that no step changes *)
Section Preserves.
Context {S E B : Type} (f : S -> B).

Definition preserves {E A} (m : ST S E A) : Prop := ∀ s, f (m s).2 = f s.

Lemma preserves_ret {A} (a : A) : preserves (mret (M := ST S E) a).
Proof. done. Qed.
Lemma preserves_fail {A} (e : E) : preserves (ST_fail (A := A) e).
Proof. done. Qed.
Lemma preserves_lift {A} (r : result E A) : preserves (ST_lift r).
Proof. done. Qed.
Lemma preserves_gets {A} (g : S -> A) : preserves (ST_gets (E := E) g).
Proof. done. Qed.
Lemma preserves_bind {A A'} (m : ST S E A) (g : A -> ST S E A') : preserves m → (∀ a, preserves (g a)) → preserves (m ≫= g).
Proof.
  intros Hm Hg s. unfold mbind, ST_bind. specialize (Hm s). destruct (m s) as [[a|e] s1]; [|done].
  cbn in Hm. by rewrite (Hg a s1).
Qed.
Lemma preserves_map_err {E' A} (g : E -> E') (m : ST S E A) : preserves m → preserves (ST_map_err g m).
Proof. intros Hm s. unfold ST_map_err. specialize (Hm s). by destruct (m s). Qed.
Lemma preserves_forM {A} (g : A -> ST S E unit) l : (∀ a, preserves (g a)) → preserves (ST_forM g l).
Proof. intros Hg. induction l as [|a l IH]; [apply preserves_ret|]. by apply preserves_bind. Qed.
Lemma preserves_if {A} (b : bool) (m m' : ST S E A) : preserves m → preserves m' → preserves (if b then m else m').
Proof. by destruct b. Qed.
End Preserves.
Create HintDb preserves.
#[export] Hint Resolve preserves_ret preserves_fail preserves_lift preserves_gets preserves_bind preserves_map_err preserves_forM preserves_if : preserves.


(** ** Lists and slices *)
Lemma blen_nonneg {A} (l : list A) : 0 ≤ blen l.
Proof. unfold blen. lia. Qed.

Lemma blen_nil {A} : blen (@nil A) = 0.
Proof. done. Qed.

Lemma blen_cons {A} (x : A) l : blen (x :: l) = 1 + blen l.
Proof. unfold blen. cbn [length]. lia. Qed.

Lemma blen_concat_elem {A} (ls : list (list A)) l : l ∈ ls → blen l ≤ blen (concat ls).
Proof.
  unfold blen. induction 1 as [l ls|l k ls _ IH]; cbn; rewrite length_app; lia.
Qed.
Lemma blen_app {A} (l k : list A) : blen (l ++ k) = blen l + blen k.
Proof. unfold blen. rewrite length_app. lia. Qed.

Lemma blen_slice {A} start len (l : list A) :
  0 ≤ start → 0 ≤ len → start + len ≤ blen l → blen (slice start len l) = len.
Proof. unfold blen, slice. rewrite length_take, length_drop. lia. Qed.

Lemma slice_app_l {A} start len (l k : list A) :
  0 ≤ start → 0 ≤ len → start + len ≤ blen l →
  slice start len (l ++ k) = slice start len l.
Proof.
  unfold slice, blen. intros. rewrite drop_app_le by lia.
  rewrite take_app_le; [done|]. rewrite length_drop. lia.
Qed.

Lemma slice_app_r {A} start len (l k : list A) :
  blen l ≤ start → slice start len (l ++ k) = slice (start - blen l) len k.
Proof.
  unfold slice, blen. intros. rewrite drop_app_ge by lia.
  do 2 f_equal. lia.
Qed.

Lemma slice_all {A} (l : list A) : slice 0 (blen l) l = l.
Proof. unfold slice, blen. rewrite Nat2Z.id. cbn. apply firstn_all. Qed.

Lemma slice_zero {A} start (l : list A) : slice start 0 l = [].
Proof. done. Qed.

Lemma slice_slice {A} s1 n1 s2 n2 (l : list A) :
  0 ≤ s1 → 0 ≤ s2 → 0 ≤ n2 → s2 + n2 ≤ n1 →
  slice s2 n2 (slice s1 n1 l) = slice (s1 + s2) n2 l.
Proof.
  intros. unfold slice. rewrite skipn_firstn_comm, drop_drop, take_take.
  f_equal; [lia|]. f_equal. lia.
Qed.

Lemma drop_slice {A} a n (l : list A) :
  0 ≤ a → 0 ≤ n → drop (Z.to_nat a) l = slice a n l ++ drop (Z.to_nat (a + n)) l.
Proof.
  intros. unfold slice. rewrite Z2Nat.inj_add, <- drop_drop by lia. by rewrite take_drop.
Qed.

Lemma slice_concat {A} (ls : list (list A)) i l :
  ls !! i = Some l →
  slice (blen (concat (take i ls))) (blen l) (concat ls) = l.
Proof.
  intros H. rewrite <- (take_drop_middle ls i l H) at 2.
  rewrite concat_app. cbn. rewrite slice_app_r by lia.
  rewrite Z.sub_diag, slice_app_l by (pose proof (blen_nonneg l); lia).
  apply slice_all.
Qed.

Lemma list_filter_id {A} (P : A -> Prop) `{!∀ x, Decision (P x)} l :
  Forall P l → filter P l = l.
Proof. induction 1; [done|]. rewrite filter_cons_True by done. congruence. Qed.

Lemma list_filter_none {A} (P : A -> Prop) `{!∀ x, Decision (P x)} l :
  Forall (λ x, ¬ P x) l → filter P l = [].
Proof. induction 1; [done|]. by rewrite filter_cons_False. Qed.

Lemma NoDup_fmap_elem {A B} (f : A -> B) l x y :
  NoDup (f <$> l) → x ∈ l → y ∈ l → f x = f y → x = y.
Proof.
  intros Hnd (i & Hi)%list_elem_of_lookup (j & Hj)%list_elem_of_lookup Hf.
  assert (i = j) as ->; [|congruence].
  eapply NoDup_lookup; [exact Hnd|..]; rewrite list_lookup_fmap.
  - by rewrite Hi.
  - by rewrite Hj, Hf.
Qed.

#[export] Hint Rewrite @blen_nil @blen_cons @blen_app : blen.

(** ** Loops of assignments

    [for entry in entries { config.field = decode(entry)?; }]: each entry
    assigns at most one field.  When the entries name pairwise different
    fields, their order does not matter. *)
Fixpoint apply_entries {E Entry Asg Cfg} (decode : Entry -> result E (option Asg))
    (assign : Asg -> Cfg -> Cfg) (entries : list Entry) (config : Cfg) : result E Cfg :=
  match entries with
  | [] => Ok config
  | entry :: entries' =>
      a ← decode entry;
      apply_entries decode assign entries' (from_option (λ a, assign a config) config a)
  end.

Section Assignments.
Context {E Entry Asg Cfg Slot : Type}.
Context (decode : Entry -> result E (option Asg)) (assign : Asg -> Cfg -> Cfg).
Context (slot : Asg -> Slot) (entry_slot : Entry -> option Slot).
Context (assign_comm : ∀ a b c, slot a ≠ slot b → assign a (assign b c) = assign b (assign a c)).
Context (decode_slot : ∀ e a, decode e = Ok a → slot <$> a = entry_slot e).

Let assign_opt (c : Cfg) (a : option Asg) : Cfg := from_option (λ a, assign a c) c a.

Lemma apply_entries_Ok l c c' :
  apply_entries decode assign l c = Ok c' ↔
  ∃ as_, Forall2 (λ e a, decode e = Ok a) l as_ ∧ c' = foldl assign_opt c as_.
Proof.
  revert c. induction l as [|e l IH]; intros c; cbn.
  - split; [intros [= <-]; by exists []|]. intros (as_ & Hf & ->). by inversion Hf.
  - rewrite bind_Ok. split.
    + intros (a & Ha & Hl). apply IH in Hl as (as_ & Hf & ->).
      exists (a :: as_). split; [by constructor|done].
    + intros (as_ & Hf & ->). inversion Hf as [|? a ? as' Ha Hf']; subst.
      exists a. split; [done|]. apply IH. by exists as'.
Qed.

Lemma foldl_assign_Permutation as1 as2 c :
  as1 ≡ₚ as2 → NoDup (slot <$> omap id as1) → foldl assign_opt c as1 = foldl assign_opt c as2.
Proof.
  intros Hp. revert c. induction Hp as [|[a|] l l' Hp IH|a b l|l l' l'' Hp1 IH1 Hp2 IH2];
    intros c Hnd; cbn in *.
  - done.
  - inversion Hnd; subst. by apply IH.
  - by apply IH.
  - destruct a as [a|], b as [b|]; cbn in *; try done.
    inversion Hnd as [|? ? Hni _]; subst. rewrite assign_comm; [done|].
    intros Heq. apply Hni. rewrite Heq. left.
  - rewrite IH1 by done. apply IH2. by rewrite <- Hp1.
Qed.

Lemma apply_entries_Permutation l l' c c' :
  l ≡ₚ l' → NoDup (omap entry_slot l) →
  apply_entries decode assign l c = Ok c' → apply_entries decode assign l' c = Ok c'.
Proof.
  intros Hp Hnd (as_ & Hf & ->)%apply_entries_Ok. apply apply_entries_Ok.
  destruct (Permutation.Permutation_Forall2 Hp Hf) as (as' & Hpa & Hf').
  exists as'. split; [done|]. apply foldl_assign_Permutation; [done|].
  replace (slot <$> omap id as_) with (omap entry_slot l); [done|].
  clear -Hf decode_slot. induction Hf as [|e a l as_ Ha _ IH]; [done|]. cbn.
  rewrite <- (decode_slot _ _ Ha), IH. by destruct a.
Qed.
End Assignments.

(** ** Automation *)
Create HintDb paimon.
#[export] Hint Resolve blen_nonneg : paimon.

(** Invert every [Ok] result of a chain of [?] in the hypotheses. *)
Ltac inv_ok :=
  repeat match goal with
  | H : mbind _ _ = Ok _ |- _ => apply bind_Ok in H as (? & ? & H)
  | H : mbind _ _ _ = (Ok _, _) |- _ => apply ST_bind_Ok in H as (? & ? & ? & H)
  | H : fmap _ _ = Ok _ |- _ => apply fmap_Ok in H as (? & ? & ?)
  | H : map_err _ _ = Ok _ |- _ => apply map_err_Ok in H
  | H : ok_or _ _ = Ok _ |- _ => apply ok_or_Ok in H
  | H : ST_map_err _ _ _ = (Ok _, _) |- _ => apply ST_map_err_Ok in H
  | H : Ok _ = Ok _ |- _ => injection H as H
  | H : (Ok _, _) = (Ok _, _) |- _ => injection H as H
  | H : Err _ = Ok _ |- _ => discriminate H
  | H : (Err _, _) = (Ok _, _) |- _ => discriminate H
  | H : mret _ _ = (Ok _, _) |- _ => injection H as H
  | H : mret _ = Ok _ |- _ => injection H as H
  end; subst.

(** Case on the tests a hypothesis still branches on, keeping the equations. *)
Ltac case_if_in H :=
  match type of H with
  | context [if ?b then _ else _] => destruct b eqn:?
  end.

(** Turn boolean comparisons in the hypotheses into propositions. *)
Ltac bool_to_prop :=
  repeat match goal with
  | H : negb _ = true |- _ => apply negb_true_iff in H
  | H : negb _ = false |- _ => apply negb_false_iff in H
  | H : bool_decide _ = true |- _ => apply bool_decide_eq_true_1 in H
  | H : bool_decide _ = false |- _ => apply bool_decide_eq_false_1 in H
  | H : andb _ _ = true |- _ => apply andb_true_iff in H as [? ?]
  | H : orb _ _ = false |- _ => apply orb_false_iff in H as [? ?]
  | H : Z.ltb _ _ = true |- _ => apply Z.ltb_lt in H
  | H : Z.ltb _ _ = false |- _ => apply Z.ltb_ge in H
  | H : Z.leb _ _ = true |- _ => apply Z.leb_le in H
  | H : Z.leb _ _ = false |- _ => apply Z.leb_gt in H
  | H : Z.eqb _ _ = true |- _ => apply Z.eqb_eq in H
  | H : Z.eqb _ _ = false |- _ => apply Z.eqb_neq in H
  end.
