(* ===== verification/RustStd.v ===== *)
(** * The fragment of the Rust standard library the crate relies on

    Machine integers (as [Z] with their width), big-endian encodings, [str]
    (a list of Unicode scalar values), [Path] components on Unix, and binary32
    floats.  The Unicode tables behind [char::is_alphanumeric] and
    [str::to_lowercase], which change with the toolchain, and the pointer
    width of the target and the checks of the build are type classes.  A
    panic is a value with its payload ([Fault]), where integer addition,
    allocation and slicing raise it. *)

From stdpp Require Import pretty.
From S2P Require Import Prelude.
From Stdlib Require Import Floats.SpecFloat Strings.Ascii.
#[local] Open Scope Z_scope.

(** ** Machine integers *)
Definition u8_max : Z := 2 ^ 8 - 1.
Definition u32_max : Z := 2 ^ 32 - 1.
Definition u64_max : Z := 2 ^ 64 - 1.
Definition i32_max : Z := 2 ^ 31 - 1.
Definition i64_max : Z := 2 ^ 63 - 1.

(** [usize] has the width of the target's pointers. *)
Class Platform := { pointer_bits : Z; pointer_bits_ok : pointer_bits = 32 ∨ pointer_bits = 64 }.
Definition usize_max `{Platform} : Z := 2 ^ pointer_bits - 1.
Definition isize_max `{Platform} : Z := 2 ^ (pointer_bits - 1) - 1.
(** Whether the build checks the overflow of [+]. *)
Class Profile := overflow_checks : bool.

Definition platform64 : Platform := {| pointer_bits := 64; pointer_bits_ok := or_intror eq_refl |}.
Definition platform32 : Platform := {| pointer_bits := 32; pointer_bits_ok := or_introl eq_refl |}.

(** [checked_add], [saturating_add], [try_from] between unsigned types whose
    largest value is [max], and wrapping addition. *)
Definition checked_add (max a b : Z) : option Z :=
  if a + b <=? max then Some (a + b) else None.
Definition saturating_add (max a b : Z) : Z := Z.min max (a + b).
Definition try_from_unsigned (max a : Z) : option Z :=
  if a <=? max then Some a else None.
Definition wrapping_add_u64 (a b : Z) : Z := (a + b) mod 2 ^ 64.
Definition wrapping_sub_u64 (a b : Z) : Z := (a - b) mod 2 ^ 64.

(** [x as u64] of an [i64] and [x as i64] of a [u64]. *)
Definition i64_as_u64 (a : Z) : Z := a mod 2 ^ 64.
Definition u64_as_i64 (a : Z) : Z := if a <=? i64_max then a else a - 2 ^ 64.

#[export] Instance byte_eq_dec : EqDecision byte := Byte.byte_eq_dec.

Definition byte_of_Z (z : Z) : byte :=
  default x00 (Byte.of_N (Z.to_N (z mod 2 ^ 8))).
Definition Z_of_byte (b : byte) : Z := Z.of_N (Byte.to_N b).

(** [u32::to_be_bytes] and [u32::from_be_bytes]. *)
Definition u32_to_be_bytes (z : Z) : list byte :=
  [byte_of_Z (Z.shiftr z 24); byte_of_Z (Z.shiftr z 16);
   byte_of_Z (Z.shiftr z 8); byte_of_Z z].
Definition u32_from_be_bytes (bs : list byte) : Z :=
  foldl (λ acc b, Z.lor (Z.shiftl acc 8) (Z_of_byte b)) 0 bs.

(** ** [char] and [str] *)
Abbreviation char := Z (only parsing).
Abbreviation str := (list Z) (only parsing).

(** A literal of the source (all of them are ASCII). *)
Definition lit (s : string) : str :=
  (λ a, Z.of_N (N_of_ascii a)) <$> String.list_ascii_of_string s.

Definition str_eqb (s t : str) : bool := bool_decide (s = t).
Definition int_to_string (n : Z) : str := lit (pretty n).

(** ** Panics *)

(** What a panic carries: a [String], a [&str], or something else. *)
Inductive Payload : Type := PayloadString (s : str) | PayloadStr (s : str) | PayloadOther.
(** How a computation with errors [E] ends badly: with its error, or unwound
    by a panic. *)
Inductive Fault (E : Type) : Type := Failed (e : E) | Panicked (p : Payload).
Arguments Failed {E} e.
Arguments Panicked {E} p.
#[export] Instance Payload_eq_dec : EqDecision Payload.
Proof. solve_decision. Defined.

Definition panicked {E A} (r : result (Fault E) A) : bool :=
  match r with Err (Panicked _) => true | _ => false end.
(** A function applied to the error, but not to a panic. *)
Definition map_fault {E F} (f : E -> F) (e : Fault E) : Fault F :=
  match e with Failed e => Failed (f e) | Panicked p => Panicked p end.

(** Computations and results without panics among those that have them. *)
Definition fallible {S E A} (m : ST S E A) : ST S (Fault E) A := ST_map_err Failed m.
Definition ST_try {S E A} (r : result E A) : ST S (Fault E) A := ST_lift (map_err Failed r).

Section Panics.
Context `{Platform} `{Profile} {S E : Type}.

(** [a + b] on [usize]. *)
Definition usize_add (a b : Z) : ST S (Fault E) Z :=
  if a + b <=? usize_max then mret (a + b)
  else if overflow_checks then ST_fail (Panicked (PayloadStr (lit "attempt to add with overflow")))
  else mret ((a + b) mod 2 ^ pointer_bits).

(** The allocation of [vec!\[0u8; len\]]: no vector has more than
    [isize::MAX] bytes. *)
Definition alloc (len : Z) : ST S (Fault E) unit :=
  if isize_max <? len then ST_fail (Panicked (PayloadStr (lit "capacity overflow"))) else mret tt.

(** [bytes\[start..stop\]] for [start <= stop]. *)
Definition slice_range (start stop : Z) (bytes : list byte) : ST S (Fault E) (list byte) :=
  if blen bytes <? stop then
    ST_fail (Panicked (PayloadString (lit "range end index " ++ int_to_string stop ++
      lit " out of range for slice of length " ++ int_to_string (blen bytes))))
  else mret (slice start (stop - start) bytes).
End Panics.

(** [char::is_whitespace]: the Unicode property [White_Space]. *)
Definition char_is_whitespace (c : char) : bool :=
  ((9 <=? c) && (c <=? 13)) || (c =? 32) || (c =? 0x85) || (c =? 0xA0) || (c =? 0x1680)
  || ((0x2000 <=? c) && (c <=? 0x200A)) || (c =? 0x2028) || (c =? 0x2029)
  || (c =? 0x202F) || (c =? 0x205F) || (c =? 0x3000).

Fixpoint drop_while {A} (p : A -> bool) (l : list A) : list A :=
  match l with
  | [] => []
  | x :: l' => if p x then drop_while p l' else l
  end.

(** [str::trim]. *)
Definition trim_start (s : str) : str := drop_while char_is_whitespace s.
Definition trim_end (s : str) : str := reverse (drop_while char_is_whitespace (reverse s)).
Definition trim (s : str) : str := trim_end (trim_start s).

Definition is_empty {A} (l : list A) : bool := match l with [] => true | _ => false end.

(** [str::split] on a set of characters: [n] separators give [n + 1] pieces. *)
Fixpoint split_on {A} (sep : A -> bool) (s : list A) : list (list A) :=
  match s with
  | [] => [[]]
  | c :: s' =>
      if sep c then [] :: split_on sep s'
      else match split_on sep s' with
           | piece :: rest => (c :: piece) :: rest
           | [] => [[c]]
           end
  end.

(** [str::strip_prefix] and [str::ends_with]. *)
Fixpoint strip_prefix (p s : str) : option str :=
  match p, s with
  | [], _ => Some s
  | a :: p', b :: s' => if a =? b then strip_prefix p' s' else None
  | _ :: _, [] => None
  end.
Definition ends_with (s suffix : str) : bool :=
  match strip_prefix (reverse suffix) (reverse s) with Some _ => true | None => false end.

(** [s.replace(from, to)] for a one-character pattern. *)
Definition replace_char (from : char) (to_ : str) (s : str) : str :=
  s ≫= λ c, if c =? from then to_ else [c].

Definition is_ascii (c : char) : bool := (0 <=? c) && (c <? 128).
Definition ascii_lower (c : char) : char := if (65 <=? c) && (c <=? 90) then c + 32 else c.
Definition ascii_alphanumeric (c : char) : bool :=
  ((48 <=? c) && (c <=? 57)) || ((65 <=? c) && (c <=? 90)) || ((97 <=? c) && (c <=? 122)).
Definition eq_ignore_ascii_case (s t : str) : bool :=
  str_eqb (ascii_lower <$> s) (ascii_lower <$> t).

(** The toolchain's Unicode tables, with what the standard library documents
    about ASCII. *)
Class Unicode := {
  char_is_alphanumeric : char -> bool;
  str_to_lowercase : str -> str;
  char_is_alphanumeric_ascii c : is_ascii c = true → char_is_alphanumeric c = ascii_alphanumeric c;
  str_to_lowercase_ascii s :
    forallb is_ascii s = true → str_to_lowercase s = ascii_lower <$> s
}.

(** Tables that know ASCII only. *)
#[local] Obligation Tactic := idtac.
Program Definition ascii_unicode : Unicode := {|
  char_is_alphanumeric := ascii_alphanumeric;
  str_to_lowercase := fmap ascii_lower
|}.
Next Obligation. done. Qed.
Next Obligation. done. Qed.

(** [str::parse::<usize>()]. *)
Fixpoint parse_digits (max acc : Z) (s : str) : option Z :=
  match s with
  | [] => Some acc
  | c :: s' =>
      if (48 <=? c) && (c <=? 57) then
        let acc' := acc * 10 + (c - 48) in
        if acc' <=? max then parse_digits max acc' s' else None
      else None
  end.
Definition parse_unsigned (max : Z) (s : str) : option Z :=
  match s with
  | [] => None
  | [c] => parse_digits max 0 [c]
  | c :: s' => if c =? 43 then parse_digits max 0 s' else parse_digits max 0 s
  end.

(** ** UTF-8 *)
Definition len_utf8 (c : char) : Z :=
  if c <? 0x80 then 1 else if c <? 0x800 then 2 else if c <? 0x10000 then 3 else 4.
Definition encode_utf8 (c : char) : list byte :=
  if c <? 0x80 then [byte_of_Z c]
  else if c <? 0x800 then
    [byte_of_Z (0xC0 + Z.shiftr c 6); byte_of_Z (0x80 + c mod 64)]
  else if c <? 0x10000 then
    [byte_of_Z (0xE0 + Z.shiftr c 12); byte_of_Z (0x80 + Z.shiftr c 6 mod 64);
     byte_of_Z (0x80 + c mod 64)]
  else
    [byte_of_Z (0xF0 + Z.shiftr c 18); byte_of_Z (0x80 + Z.shiftr c 12 mod 64);
     byte_of_Z (0x80 + Z.shiftr c 6 mod 64); byte_of_Z (0x80 + c mod 64)].
(** [str::as_bytes] and [str::len]. *)
Definition as_bytes (s : str) : list byte := s ≫= encode_utf8.
Definition str_len (s : str) : Z := foldr (λ c n, len_utf8 c + n) 0 s.

(** ** [Path] on Unix *)
Inductive Component : Type := RootDir | CurDir | ParentDir | Normal (name : str).

#[export] Instance Component_eq_dec : EqDecision Component.
Proof. solve_decision. Defined.
#[export] Instance Component_countable : Countable Component.
Proof.
  refine (inj_countable'
    (λ c, match c with
          | RootDir => inl (inl tt) | CurDir => inl (inr tt)
          | ParentDir => inr (inl tt) | Normal s => inr (inr s) end)
    (λ c, match c with
          | inl (inl _) => RootDir | inl (inr _) => CurDir
          | inr (inl _) => ParentDir | inr (inr s) => Normal s end) _).
  by intros [].
Defined.

Definition is_separator (c : char) : bool := c =? 47.
Definition parse_component (piece : str) : option Component :=
  if is_empty piece then None
  else if str_eqb piece (lit ".") then None
  else if str_eqb piece (lit "..") then Some ParentDir
  else Some (Normal piece).
(** [Path::new(p).components()]; two paths are equal (and hash alike) exactly
    when their components are. *)
Definition components (p : str) : list Component :=
  let pieces := split_on is_separator p in
  let lead :=
    match p, pieces with
    | 47 :: _, _ => [RootDir]
    | _, piece :: _ => if str_eqb piece (lit ".") then [CurDir] else []
    | _, [] => []
    end in
  lead ++ omap parse_component pieces.

(** ** Binary32 floats *)
Abbreviation f32 := spec_float (only parsing).
#[export] Instance spec_float_eq_dec : EqDecision spec_float.
Proof. solve_decision. Defined.

Definition f32_make (m e : Z) : f32 := binary_normalize 24 128 m e false.
Definition f32_zero : f32 := S754_zero false.
Definition f32_one : f32 := f32_make 1 0.
Definition f32_half : f32 := f32_make 1 (-1).
(** [f32::EPSILON], 2^-23. *)
Definition f32_epsilon : f32 := f32_make 1 (-23).
Definition f32_is_finite (x : f32) : bool :=
  match x with S754_zero _ | S754_finite _ _ _ => true | _ => false end.
Definition f32_mul (x y : f32) : f32 := SFmul 24 128 x y.
Definition f32_sub (x y : f32) : f32 := SFsub 24 128 x y.
Definition f32_abs (x : f32) : f32 := SFabs x.
Definition f32_le (x y : f32) : bool := SFleb x y.
Definition f32_lt (x y : f32) : bool := SFltb x y.

(** ** Lemmas: integers and encodings *)
Lemma Z_of_byte_range b : 0 ≤ Z_of_byte b < 256.
Proof.
  unfold Z_of_byte. pose proof (Byte.to_N_bounded b). lia.
Qed.

Lemma Z_of_byte_of_Z z : Z_of_byte (byte_of_Z z) = z mod 256.
Proof.
  unfold Z_of_byte, byte_of_Z. change (2 ^ 8) with 256.
  pose proof (Z.mod_pos_bound z 256 ltac:(lia)) as Hb.
  destruct (Byte.of_N (Z.to_N (z mod 256))) as [b|] eqn:E; cbn.
  - apply Byte.to_of_N in E. rewrite E. lia.
  - apply Byte.of_N_None_iff in E. lia.
Qed.

Lemma byte_of_Z_of_byte b : byte_of_Z (Z_of_byte b) = b.
Proof.
  unfold byte_of_Z. rewrite Z.mod_small by apply Z_of_byte_range.
  unfold Z_of_byte. by rewrite N2Z.id, Byte.of_to_N.
Qed.

Lemma lor_shiftl_byte a b : 0 ≤ b < 256 → Z.lor (Z.shiftl a 8) b = a * 256 + b.
Proof.
  intros Hb. pose proof (Z.add_lor_land (Z.shiftl a 8) b) as Hsum.
  enough (Z.land (Z.shiftl a 8) b = 0) by (rewrite Z.shiftl_mul_pow2 in * by lia; lia).
  apply Z.bits_inj'. intros n Hn.
  rewrite Z.land_spec, Z.bits_0, Z.shiftl_spec by lia.
  destruct (Z.ltb_spec n 8); [by rewrite Z.testbit_neg_r by lia|].
  apply andb_false_intro2, Z.testbit_false; [done|].
  rewrite Z.div_small; [done|]. pose proof (Z.pow_le_mono_r 2 8 n). lia.
Qed.

Lemma u32_be_roundtrip z :
  0 ≤ z ≤ u32_max → u32_from_be_bytes (u32_to_be_bytes z) = z.
Proof.
  intros Hz. unfold u32_from_be_bytes, u32_to_be_bytes, u32_max in *. cbn [foldl].
  rewrite !lor_shiftl_byte by apply Z_of_byte_range.
  rewrite !Z_of_byte_of_Z, !Z.shiftr_div_pow2 by lia.
  Z.to_euclidean_division_equations. lia.
Qed.

Lemma u32_be_roundtrip' bs :
  length bs = 4%nat → u32_to_be_bytes (u32_from_be_bytes bs) = bs.
Proof.
  destruct bs as [|b0 [|b1 [|b2 [|b3 [|]]]]]; try done. intros _.
  unfold u32_from_be_bytes, u32_to_be_bytes. cbn [foldl].
  rewrite !lor_shiftl_byte, !Z.shiftr_div_pow2 by (lia || apply Z_of_byte_range).
  assert (∀ z b, z mod 256 = Z_of_byte b → byte_of_Z z = b) as Hb.
  { intros z b H. rewrite <- (byte_of_Z_of_byte b), <- H. unfold byte_of_Z.
    change (2 ^ 8) with 256. by rewrite Zmod_mod. }
  pose proof (Z_of_byte_range b0). pose proof (Z_of_byte_range b1).
  pose proof (Z_of_byte_range b2). pose proof (Z_of_byte_range b3).
  repeat f_equal; apply Hb; Z.to_euclidean_division_equations; lia.
Qed.

Lemma u32_from_be_bytes_range bs :
  length bs = 4%nat → 0 ≤ u32_from_be_bytes bs ≤ u32_max.
Proof.
  destruct bs as [|b0 [|b1 [|b2 [|b3 [|]]]]]; try done. intros _.
  unfold u32_from_be_bytes, u32_max. cbn [foldl].
  rewrite !lor_shiftl_byte by apply Z_of_byte_range.
  pose proof (Z_of_byte_range b0). pose proof (Z_of_byte_range b1).
  pose proof (Z_of_byte_range b2). pose proof (Z_of_byte_range b3). lia.
Qed.

Lemma checked_add_Some max a b c : checked_add max a b = Some c ↔ a + b ≤ max ∧ c = a + b.
Proof. unfold checked_add. destruct (Z.leb_spec (a + b) max); naive_solver lia. Qed.

Lemma checked_add_None max a b : checked_add max a b = None ↔ max < a + b.
Proof. unfold checked_add. destruct (Z.leb_spec (a + b) max); naive_solver lia. Qed.

Lemma try_from_unsigned_Some max a b : try_from_unsigned max a = Some b ↔ a ≤ max ∧ b = a.
Proof. unfold try_from_unsigned. destruct (Z.leb_spec a max); naive_solver lia. Qed.

Lemma wrapping_add_u64_small a b :
  0 ≤ a + b ≤ u64_max → wrapping_add_u64 a b = a + b.
Proof. unfold wrapping_add_u64, u64_max. intros. rewrite Z.mod_small; lia. Qed.

Lemma wrapping_sub_u64_small a b :
  0 ≤ a - b ≤ u64_max → wrapping_sub_u64 a b = a - b.
Proof. unfold wrapping_sub_u64, u64_max. intros. rewrite Z.mod_small; lia. Qed.

Lemma usize_max_bounds `{Platform} : u32_max ≤ usize_max ≤ u64_max.
Proof. unfold usize_max. destruct pointer_bits_ok as [-> | ->]; unfold u32_max, u64_max; lia. Qed.

Lemma isize_max_bounds `{Platform} : i32_max ≤ isize_max ≤ i64_max ∧ isize_max < usize_max.
Proof.
  unfold isize_max, usize_max. destruct pointer_bits_ok as [-> | ->]; unfold i32_max, i64_max; lia.
Qed.

Lemma alloc_Ok `{Platform} {S E} len (s : S) : len ≤ isize_max → alloc (E := E) len s = (Ok tt, s).
Proof. unfold alloc. by destruct (Z.ltb_spec isize_max len); [lia|]. Qed.

Lemma alloc_run `{Platform} {S E A} len (k : ST S (Fault E) A) s a s' :
  (alloc len ≫= λ _, k) s = (Ok a, s') → len ≤ isize_max ∧ k s = (Ok a, s').
Proof. unfold alloc, mbind, ST_bind. by destruct (Z.ltb_spec isize_max len). Qed.

Lemma alloc_keeps `{Platform} {S E A} len (k : ST S (Fault E) A) s (P : S -> Prop) :
  P s → (len ≤ isize_max → P (k s).2) → P ((alloc len ≫= λ _, k) s).2.
Proof. unfold alloc, mbind, ST_bind. destruct (Z.ltb_spec isize_max len); cbn; auto. Qed.

Lemma fallible_state {S E A} (m : ST S E A) s : (fallible m s).2 = (m s).2.
Proof. unfold fallible, ST_map_err. by destruct (m s). Qed.

Lemma fallible_Ok {S E A} (m : ST S E A) s a s' : fallible m s = (Ok a, s') ↔ m s = (Ok a, s').
Proof. apply ST_map_err_Ok. Qed.

Lemma fallible_run {S E A} (m : ST S E A) s a s' : fallible m s = (Ok a, s') → m s = (Ok a, s').
Proof. apply fallible_Ok. Qed.

Lemma map_fault_err_Ok {E F A} (f : E -> F) (r : result (Fault E) A) a :
  map_err (map_fault f) r = Ok a ↔ r = Ok a.
Proof. destruct r as [a'|[e|p]]; cbn; naive_solver. Qed.

Lemma row_id_cast_roundtrip r : 0 ≤ r ≤ i64_max → u64_as_i64 (i64_as_u64 r) = r.
Proof.
  unfold u64_as_i64, i64_as_u64, i64_max. intros.
  rewrite Z.mod_small by lia. by destruct (Z.leb_spec r (2 ^ 63 - 1)); lia.
Qed.

#[export] Hint Resolve Z_of_byte_range usize_max_bounds : paimon.

(** ** Lemmas: strings *)
Lemma str_eqb_eq s t : str_eqb s t = true ↔ s = t.
Proof. unfold str_eqb. apply bool_decide_eq_true. Qed.

Lemma str_eqb_neq s t : str_eqb s t = false ↔ s ≠ t.
Proof. unfold str_eqb. apply bool_decide_eq_false. Qed.

Lemma is_empty_true {A} (l : list A) : is_empty l = true ↔ l = [].
Proof. by destruct l. Qed.

Lemma is_empty_false {A} (l : list A) : is_empty l = false ↔ l ≠ [].
Proof. by destruct l. Qed.

Lemma drop_while_nil {A} (p : A -> bool) l : drop_while p l = [] ↔ Forall (λ x, p x = true) l.
Proof.
  induction l as [|x l IH]; cbn; [by split|]. rewrite Forall_cons.
  destruct (p x); naive_solver.
Qed.

Lemma reverse_nil_iff {A} (l : list A) : reverse l = [] ↔ l = [].
Proof. split; [|by intros ->]. intros H. by rewrite <- (reverse_involutive l), H. Qed.

(** [trim] leaves nothing exactly of the strings made of white space. *)
Lemma trim_nil s : trim s = [] ↔ Forall (λ c, char_is_whitespace c = true) s.
Proof.
  unfold trim, trim_end, trim_start.
  rewrite reverse_nil_iff, drop_while_nil, Forall_reverse.
  induction s as [|c s IH]; cbn; [by split|]. rewrite Forall_cons.
  destruct (char_is_whitespace c) eqn:E; [naive_solver|].
  rewrite Forall_cons. naive_solver.
Qed.

Lemma split_on_nonempty {A} (sep : A -> bool) s : split_on sep s ≠ [].
Proof. destruct s as [|c s]; cbn; [done|]. destruct (sep c); [done|]. by destruct (split_on sep s). Qed.

Lemma split_on_none {A} (sep : A -> bool) s :
  Forall (λ c, sep c = false) s → split_on sep s = [s].
Proof. induction 1 as [|c s Hc _ IH]; cbn; [done|]. by rewrite Hc, IH. Qed.

Lemma split_on_pieces {A} (sep : A -> bool) s :
  Forall (Forall (λ c, sep c = false)) (split_on sep s).
Proof.
  induction s as [|c s IH]; cbn; [by repeat constructor|].
  destruct (sep c) eqn:E; [by constructor|].
  destruct (split_on sep s); inversion IH; subst; repeat constructor; auto.
Qed.

Lemma strip_prefix_Some p s t : strip_prefix p s = Some t ↔ s = p ++ t.
Proof.
  revert s. induction p as [|a p IH]; intros s; cbn; [naive_solver|].
  destruct s as [|b s]; [naive_solver|]. destruct (Z.eqb_spec a b); [subst|naive_solver].
  rewrite IH. naive_solver.
Qed.

Lemma ends_with_spec s suffix : ends_with s suffix = true ↔ ∃ t, s = t ++ suffix.
Proof.
  unfold ends_with. destruct (strip_prefix _ _) as [t|] eqn:E.
  - apply strip_prefix_Some in E. split; [intros _|done]. exists (reverse t).
    rewrite <- (reverse_involutive s), E, reverse_app, reverse_involutive. done.
  - split; [done|]. intros [t ->]. rewrite reverse_app in E.
    assert (strip_prefix (reverse suffix) (reverse suffix ++ reverse t) = Some (reverse t))
      by by apply strip_prefix_Some. congruence.
Qed.

Lemma str_len_app s t : str_len (s ++ t) = str_len s + str_len t.
Proof. unfold str_len. induction s as [|c s IH]; cbn; lia. Qed.

Lemma len_utf8_pos c : 1 ≤ len_utf8 c ≤ 4.
Proof. unfold len_utf8. repeat case_match; lia. Qed.

Lemma str_len_nonneg s : 0 ≤ str_len s.
Proof.
  induction s as [|c s IH]; cbn; [lia|]. fold (str_len s). pose proof (len_utf8_pos c). lia.
Qed.

(** [str::len] counts the bytes of [str::as_bytes]. *)
Lemma blen_as_bytes s : blen (as_bytes s) = str_len s.
Proof.
  induction s as [|c s IH]; [done|]. unfold as_bytes in *. rewrite bind_cons, blen_app, IH.
  cbn. f_equal. unfold encode_utf8, len_utf8. repeat case_match; done.
Qed.

(** ** Lemmas: paths *)
Lemma parse_component_Normal piece s :
  parse_component piece = Some (Normal s) ↔
  piece = s ∧ s ≠ [] ∧ s ≠ lit "." ∧ s ≠ lit "..".
Proof.
  unfold parse_component.
  destruct (is_empty piece) eqn:E1.
  { apply is_empty_true in E1. naive_solver. }
  apply is_empty_false in E1.
  destruct (str_eqb piece (lit ".")) eqn:E2.
  { apply str_eqb_eq in E2. naive_solver. }
  apply str_eqb_neq in E2.
  destruct (str_eqb piece (lit "..")) eqn:E3.
  { apply str_eqb_eq in E3. naive_solver. }
  apply str_eqb_neq in E3. naive_solver.
Qed.

(** A name without separator that is not empty, ["."] or [".."] is a single
    normal component. *)
Definition plain_name (s : str) : Prop :=
  s ≠ [] ∧ s ≠ lit "." ∧ s ≠ lit ".." ∧ Forall (λ c, is_separator c = false) s.

Lemma components_plain s : plain_name s → components s = [Normal s].
Proof.
  intros (H1 & H2 & H3 & H4). unfold components. rewrite split_on_none by done.
  assert (parse_component s = Some (Normal s)) as Hp by by apply parse_component_Normal.
  cbn [omap list_omap]. rewrite Hp.
  destruct s as [|c s]; [done|]. inversion H4 as [|? ? Hc _]; subst.
  assert (str_eqb (c :: s) (lit ".") = false) as -> by by apply str_eqb_neq.
  unfold is_separator in Hc. apply Z.eqb_neq in Hc.
  destruct c as [|c|c]; try done. repeat (destruct c as [c|c|]; try done).
Qed.

(** Names over which two paths with the same single component are equal. *)
Lemma components_plain_inj s t :
  plain_name s → plain_name t → components s = components t → s = t.
Proof. intros Hs Ht. rewrite !components_plain by done. congruence. Qed.
