(* ===== verification/Error.v ===== *)
(** * Errors ([core/src/error.rs])

    Error messages are kept as the sequence of fragments the source formats:
    literal text and the displayed values. *)

From S2P Require Import Prelude RustStd.

Inductive fragment : Type :=
| Txt (s : string)
| Str (s : str)
| Int (n : Z)
| Flt (x : f32).
Abbreviation message := (list fragment) (only parsing).

(** [std::io::ErrorKind], the kinds the crate raises. *)
Inductive ErrorKind : Type :=
| InvalidInput | InvalidData | UnexpectedEof | PermissionDenied | NotFound | Other.

(** [std::io::Error] *)
Record IoError : Type := io_error { kind : ErrorKind; io_message : message }.

(** A [serde_json::Error], without its text: malformed text, or a document that
    does not have the shape of the type. *)
Inductive JsonError : Type := JsonSyntax | JsonData.

(** A [tantivy::TantivyError], carried as its text. *)
Record TantivyError : Type := tantivy_error { tantivy_message : message }.

Inductive FtIndexError : Type :=
| InvalidOption (key : str) (message : message)
| InvalidQuery (message : message)
| InvalidStorage (message : message)
| Io (e : IoError)
| Json (e : JsonError)
| Tantivy (e : TantivyError).

(** [pub type Result<T>] *)
Abbreviation Result := (result FtIndexError) (only parsing).

Definition invalid_storage {A} (s : string) : Result A := Err (InvalidStorage [Txt s]).
Definition invalid_query {A} (s : string) : Result A := Err (InvalidQuery [Txt s]).

#[export] Instance fragment_eq_dec : EqDecision fragment.
Proof. solve_decision. Defined.
#[export] Instance ErrorKind_eq_dec : EqDecision ErrorKind.
Proof. solve_decision. Defined.
#[export] Instance IoError_eq_dec : EqDecision IoError.
Proof. solve_decision. Defined.
