(* ===== verification/IoLayer.v ===== *)
(** * Positional I/O ([core/src/io.rs])

    The traits [SeekRead] and [SeekWrite] are type classes over the state the
    implementation keeps behind the reference; the relaxed atomic counters of
    [ReadMetrics] are 64-bit words with wrapping arithmetic. *)

From S2P Require Import Prelude RustStd Error.

(** ** Requests and the reader trait *)

(** [ReadRequest]: the position and the length of the buffer to fill; the
    filled buffers are the result of [pread]. *)
Record ReadRequest : Type := read_request { pos : Z; buf_len : Z }.

Class SeekRead (S : Type) : Type :=
  pread : list ReadRequest -> ST S IoError (list (list byte)).

(** ** Read metrics *)
Record ReadMetrics : Type := {
  pread_calls : Z;
  pread_ranges : Z;
  pread_bytes : Z;
  cache_hits : Z;
  cache_misses : Z;
  cache_evictions : Z;
  cached_blocks : Z
}.

(** [ReadMetrics::default()] *)
Definition ReadMetrics_default : ReadMetrics :=
  {| pread_calls := 0; pread_ranges := 0; pread_bytes := 0; cache_hits := 0;
     cache_misses := 0; cache_evictions := 0; cached_blocks := 0 |}.

Definition record_pread (ranges : list ReadRequest) (m : ReadMetrics) : ReadMetrics :=
  {| pread_calls := wrapping_add_u64 (pread_calls m) 1;
     pread_ranges := wrapping_add_u64 (pread_ranges m) (blen ranges);
     pread_bytes := wrapping_add_u64 (pread_bytes m) (foldr (λ r n, buf_len r + n) 0 ranges);
     cache_hits := cache_hits m; cache_misses := cache_misses m;
     cache_evictions := cache_evictions m; cached_blocks := cached_blocks m |}.

Definition record_cache_hit (m : ReadMetrics) : ReadMetrics :=
  {| pread_calls := pread_calls m; pread_ranges := pread_ranges m; pread_bytes := pread_bytes m;
     cache_hits := wrapping_add_u64 (cache_hits m) 1; cache_misses := cache_misses m;
     cache_evictions := cache_evictions m; cached_blocks := cached_blocks m |}.

Definition record_cache_miss (m : ReadMetrics) : ReadMetrics :=
  {| pread_calls := pread_calls m; pread_ranges := pread_ranges m; pread_bytes := pread_bytes m;
     cache_hits := cache_hits m; cache_misses := wrapping_add_u64 (cache_misses m) 1;
     cache_evictions := cache_evictions m; cached_blocks := cached_blocks m |}.

Definition record_cache_insert (m : ReadMetrics) : ReadMetrics :=
  {| pread_calls := pread_calls m; pread_ranges := pread_ranges m; pread_bytes := pread_bytes m;
     cache_hits := cache_hits m; cache_misses := cache_misses m;
     cache_evictions := cache_evictions m;
     cached_blocks := wrapping_add_u64 (cached_blocks m) 1 |}.

Definition record_cache_eviction (m : ReadMetrics) : ReadMetrics :=
  {| pread_calls := pread_calls m; pread_ranges := pread_ranges m; pread_bytes := pread_bytes m;
     cache_hits := cache_hits m; cache_misses := cache_misses m;
     cache_evictions := wrapping_add_u64 (cache_evictions m) 1;
     cached_blocks := wrapping_sub_u64 (cached_blocks m) 1 |}.

(** [FullTextReadMetrics] and [ReadMetrics::snapshot]: the public copy. *)
Record FullTextReadMetrics : Type := {
  snap_pread_calls : Z;
  snap_pread_ranges : Z;
  snap_pread_bytes : Z;
  snap_cache_hits : Z;
  snap_cache_misses : Z;
  snap_cache_evictions : Z;
  snap_cached_blocks : Z
}.
Definition snapshot (m : ReadMetrics) : FullTextReadMetrics :=
  {| snap_pread_calls := pread_calls m; snap_pread_ranges := pread_ranges m;
     snap_pread_bytes := pread_bytes m; snap_cache_hits := cache_hits m;
     snap_cache_misses := cache_misses m; snap_cache_evictions := cache_evictions m;
     snap_cached_blocks := cached_blocks m |}.

(** The [Arc<ReadMetrics>] shared by the metered reader and the read cache: a
    cell inside the state [S] that several components update. *)
Class MetricsCell (S : Type) : Type := {
  metrics_of : S -> ReadMetrics;
  with_metrics : ReadMetrics -> S -> S
}.
Definition update_metrics {S} `{MetricsCell S} (f : ReadMetrics -> ReadMetrics) (s : S) : S :=
  with_metrics (f (metrics_of s)) s.

(** ** [MeteredSeekRead] ([core/src/index.rs]) *)
Record MeteredSeekRead (R : Type) : Type := metered { inner : R; metrics : ReadMetrics }.
Arguments metered {R} inner metrics.
Arguments inner {R}.
Arguments metrics {R}.

#[export] Instance MeteredSeekRead_metrics R : MetricsCell (MeteredSeekRead R) := {
  metrics_of := metrics;
  with_metrics m s := metered (inner s) m
}.

Definition MeteredSeekRead_pread {R} `{SeekRead R} (ranges : list ReadRequest) :
    ST (MeteredSeekRead R) IoError (list (list byte)) := λ s,
  let m := record_pread ranges (metrics s) in
  let '(r, inner') := pread ranges (inner s) in
  (r, metered inner' m).
#[export] Instance MeteredSeekRead_SeekRead R `{SeekRead R} : SeekRead (MeteredSeekRead R) :=
  MeteredSeekRead_pread.

(** ** [SliceReader] *)
Record SliceReader : Type := slice_reader { data : list byte }.
Definition SliceReader_len (r : SliceReader) : Z := blen (data r).
Definition SliceReader_is_empty (r : SliceReader) : bool := is_empty (data r).

Section SliceReader.
Context `{Platform}.

Fixpoint SliceReader_read (d : list byte) (ranges : list ReadRequest) :
    result IoError (list (list byte)) :=
  match ranges with
  | [] => Ok []
  | range :: ranges' =>
      start ← ok_or (try_from_unsigned usize_max (pos range))
                (io_error InvalidInput [Txt "offset overflow"]);
      stop ← ok_or (checked_add usize_max start (buf_len range))
                (io_error InvalidInput [Txt "range overflow"]);
      if blen d <? stop then Err (io_error UnexpectedEof [Txt "read past end of slice"])
      else
        bufs ← SliceReader_read d ranges';
        Ok (slice start (stop - start) d :: bufs)
  end.

#[export] Instance SliceReader_SeekRead : SeekRead SliceReader :=
  λ ranges r, (SliceReader_read (data r) ranges, r).
End SliceReader.

(** ** The writer trait and [PosWriter] *)
Class SeekWrite (W : Type) : Type := {
  write_all : list byte -> ST W IoError unit;
  flush : ST W IoError unit
}.

(** [std::io::Write], of which [PosWriter] wraps an implementation. *)
Class IoWrite (W : Type) : Type := {
  io_write_all : list byte -> ST W IoError unit;
  io_flush : ST W IoError unit
}.
(** [impl io::Write for Vec<u8>] *)
#[export] Instance vec_IoWrite : IoWrite (list byte) := {
  io_write_all buf w := (Ok tt, w ++ buf);
  io_flush w := (Ok tt, w)
}.

Record PosWriter (W : Type) : Type := pos_writer { into_inner : W }.
Arguments pos_writer {W} into_inner.
Arguments into_inner {W}.

Definition PosWriter_write_all {W} `{IoWrite W} (buf : list byte) : ST (PosWriter W) IoError unit :=
  λ w, let '(r, w') := io_write_all buf (into_inner w) in (r, pos_writer w').
Definition PosWriter_flush {W} `{IoWrite W} : ST (PosWriter W) IoError unit :=
  λ w, let '(r, w') := io_flush (into_inner w) in (r, pos_writer w').
#[export] Instance PosWriter_SeekWrite W `{IoWrite W} : SeekWrite (PosWriter W) := {
  write_all := PosWriter_write_all;
  flush := PosWriter_flush
}.

(** ** What the traits promise to their clients *)
Definition request_wf (r : ReadRequest) : Prop := 0 ≤ pos r ∧ 0 ≤ buf_len r.
Definition in_range (d : list byte) (r : ReadRequest) : Prop := pos r + buf_len r ≤ blen d.
Definition read_range (d : list byte) (r : ReadRequest) : list byte := slice (pos r) (buf_len r) d.

(** A reader over the immutable bytes [data_of]: a successful [pread] returns
    exactly the requested ranges, which lie inside the data. *)
Class ReadsData (S : Type) `{SeekRead S} (data_of : S -> list byte) : Prop := {
  pread_data reqs s : data_of (pread reqs s).2 = data_of s;
  pread_sound reqs s bufs s' :
    Forall request_wf reqs → pread reqs s = (Ok bufs, s') →
    Forall (in_range (data_of s)) reqs ∧ bufs = read_range (data_of s) <$> reqs
}.

(** It never fails on ranges inside the data, for data of up to [max_len] bytes,
    whose offsets are addresses. *)
Class ReadsAll `{Platform} (S : Type) `{SeekRead S} (data_of : S -> list byte) (max_len : Z) : Prop := {
  max_len_addressable : max_len ≤ usize_max;
  pread_complete reqs s :
    blen (data_of s) ≤ max_len → Forall request_wf reqs → Forall (in_range (data_of s)) reqs →
    is_ok (pread reqs s).1 = true
}.

(** It never fails on ranges inside [d], when those are its bytes. *)
Definition reads_within {S : Type} `{SeekRead S} (data_of : S -> list byte) (d : list byte) : Prop :=
  ∀ reqs s, data_of s = d → Forall request_wf reqs → Forall (in_range d) reqs →
    is_ok (pread reqs s).1 = true.
Lemma reads_within_limit `{Platform} {S : Type} `{SeekRead S} (data_of : S -> list byte) {max_len}
    `{!ReadsAll S data_of max_len} d : blen d ≤ max_len → reads_within data_of d.
Proof. intros Hd reqs s <- Hwf Hin. by apply pread_complete. Qed.

(** The metrics cell is separate from the data. *)
Class MetricsSeparate (S : Type) `{MetricsCell S} (data_of : S -> list byte) : Prop := {
  metrics_of_with m s : metrics_of (with_metrics m s) = m;
  data_of_with m s : data_of (with_metrics m s) = data_of s
}.

(** An output that appends: a successful [write_all] has appended the buffer,
    a failed one some prefix of it. *)
Class Appends (W : Type) `{SeekWrite W} (written : W -> list byte) : Prop := {
  write_all_ok buf w w' : write_all buf w = (Ok tt, w') → written w' = written w ++ buf;
  write_all_err buf w e w' : write_all buf w = (Err e, w') →
    ∃ p, p `prefix_of` buf ∧ written w' = written w ++ p;
  flush_written w : written (flush w).2 = written w
}.

(** An output that never fails. *)
Class NeverFails (W : Type) `{SeekWrite W} : Prop := {
  write_all_total buf w : (write_all buf w).1 = Ok tt;
  flush_total w : (flush w).1 = Ok tt
}.

(** ** [SliceReader] and [MeteredSeekRead] keep the promises *)
Section SliceReader_laws.
Context `{Platform}.

Lemma SliceReader_read_sound d reqs bufs :
  Forall request_wf reqs → SliceReader_read d reqs = Ok bufs →
  Forall (in_range d) reqs ∧ bufs = read_range d <$> reqs.
Proof.
  intros Hwf. revert bufs. induction Hwf as [|r reqs [Hp Hl] _ IH]; intros bufs Hr; cbn in Hr.
  { inv_ok. by split; [constructor|]. }
  inv_ok. apply try_from_unsigned_Some in H0 as [_ ->].
  apply checked_add_Some in H1 as [_ ->].
  case_if_in Hr; [done|]. inv_ok. bool_to_prop.
  destruct (IH _ H0) as [Hin ->]. split; [by constructor|].
  rewrite Z.add_simpl_l. done.
Qed.

Lemma SliceReader_read_complete d reqs :
  blen d ≤ usize_max → Forall request_wf reqs → Forall (in_range d) reqs →
  is_ok (SliceReader_read d reqs) = true.
Proof.
  intros Hd Hwf. induction Hwf as [|r reqs [Hp Hl] _ IH]; intros Hin; [done|].
  inversion Hin as [|? ? Hr Hin']; subst. unfold in_range in Hr. cbn.
  unfold try_from_unsigned. destruct (Z.leb_spec (pos r) usize_max); [|lia]. cbn.
  unfold checked_add. destruct (Z.leb_spec (pos r + buf_len r) usize_max); [|lia]. cbn.
  destruct (Z.ltb_spec (blen d) (pos r + buf_len r)); [lia|].
  by destruct (SliceReader_read d reqs); [|specialize (IH Hin')].
Qed.

#[export] Instance SliceReader_ReadsData : ReadsData SliceReader data.
Proof.
  split; [done|]. intros reqs s bufs s' Hwf [= Hr _]. by apply SliceReader_read_sound.
Qed.

#[export] Instance SliceReader_ReadsAll : ReadsAll SliceReader data usize_max.
Proof. split; [done|]. intros reqs s. apply SliceReader_read_complete. Qed.
End SliceReader_laws.

Section Metered_laws.
Context {R : Type} `{SeekRead R} (data_of : R -> list byte).

#[export] Instance MeteredSeekRead_ReadsData `{!ReadsData R data_of} :
  ReadsData (MeteredSeekRead R) (data_of ∘ inner).
Proof.
  split; unfold pread, MeteredSeekRead_SeekRead, MeteredSeekRead_pread.
  - intros reqs [r m]. cbn. pose proof (pread_data reqs r) as Hd.
    destruct (pread reqs r) as [res r']. by cbn in *.
  - intros reqs [r m] bufs s' Hwf Hr. cbn in *.
    destruct (pread reqs r) as [res r'] eqn:E. simplify_eq. by eapply pread_sound.
Qed.

#[export] Instance MeteredSeekRead_ReadsAll `{Platform} `{!ReadsAll R data_of max_len} :
  ReadsAll (MeteredSeekRead R) (data_of ∘ inner) max_len.
Proof.
  split; [by eapply max_len_addressable|]. intros reqs [r m] Hd Hwf Hin. unfold pread, MeteredSeekRead_SeekRead, MeteredSeekRead_pread.
  cbn in *. pose proof (pread_complete reqs r Hd Hwf Hin) as Hok.
  by destruct (pread reqs r).
Qed.

#[export] Instance MeteredSeekRead_separate : MetricsSeparate (MeteredSeekRead R) (data_of ∘ inner).
Proof. by split. Qed.
End Metered_laws.

#[export] Instance PosWriter_vec_NeverFails : NeverFails (PosWriter (list byte)).
Proof. by split. Qed.

(** [PosWriter<Vec<u8>>] appends and never fails. *)
#[export] Instance PosWriter_vec_Appends : Appends (PosWriter (list byte)) into_inner.
Proof.
  split.
  - by intros buf [w] [w'] [= <-].
  - intros buf [w] e w'. unfold write_all; cbn. discriminate.
  - by intros [w].
Qed.
