(* ===== verification/Tokenizer.v ===== *)
(** * Tokenizer configuration ([core/src/tokenizer.rs])

    [TokenizerConfig], its parsing from string options, and its validation.
    A [HashMap] of options is the list of its entries in iteration order:
    the order is arbitrary, and the theorems say when it does not matter. *)

From S2P Require Import Prelude RustStd Error.

Inductive TokenizerKind : Type :=
| Default | Simple | Whitespace | Raw | Ngram | Jieba | Icu | IcuSplit.

#[export] Instance TokenizerKind_eq_dec : EqDecision TokenizerKind.
Proof. solve_decision. Defined.

Record TokenizerConfig : Type := tokenizer_config {
  tokenizer : TokenizerKind;
  ngram_min_gram : Z;
  ngram_max_gram : Z;
  ngram_prefix_only : bool;
  jieba_search_mode : bool;
  jieba_ordinal_position : bool;
  lower_case : bool;
  max_token_length : Z;
  ascii_folding : bool;
  stem : bool;
  language : str;
  remove_stop_words : bool;
  stop_words : list str;
  with_position : bool
}.

#[export] Instance TokenizerConfig_eq_dec : EqDecision TokenizerConfig.
Proof. solve_decision. Defined.

(** [TokenizerConfig::default()] *)
Definition TokenizerConfig_default : TokenizerConfig := {|
  tokenizer := Default;
  ngram_min_gram := 3;
  ngram_max_gram := 3;
  ngram_prefix_only := false;
  jieba_search_mode := true;
  jieba_ordinal_position := true;
  lower_case := true;
  max_token_length := 40;
  ascii_folding := true;
  stem := true;
  language := lit "english";
  remove_stop_words := true;
  stop_words := [];
  with_position := true
|}.

(** An assignment [config.field = value] of the source. *)
Inductive Assignment : Type :=
| Set_tokenizer (v : TokenizerKind)
| Set_ngram_min_gram (v : Z)
| Set_ngram_max_gram (v : Z)
| Set_ngram_prefix_only (v : bool)
| Set_jieba_search_mode (v : bool)
| Set_jieba_ordinal_position (v : bool)
| Set_lower_case (v : bool)
| Set_max_token_length (v : Z)
| Set_ascii_folding (v : bool)
| Set_stem (v : bool)
| Set_language (v : str)
| Set_remove_stop_words (v : bool)
| Set_stop_words (v : list str)
| Set_with_position (v : bool).

Definition assign (a : Assignment) (config : TokenizerConfig) : TokenizerConfig :=
  let 'tokenizer_config tk mn mx po sm op lc ml af st la rs sw wp := config in
  match a with
  | Set_tokenizer v => tokenizer_config v mn mx po sm op lc ml af st la rs sw wp
  | Set_ngram_min_gram v => tokenizer_config tk v mx po sm op lc ml af st la rs sw wp
  | Set_ngram_max_gram v => tokenizer_config tk mn v po sm op lc ml af st la rs sw wp
  | Set_ngram_prefix_only v => tokenizer_config tk mn mx v sm op lc ml af st la rs sw wp
  | Set_jieba_search_mode v => tokenizer_config tk mn mx po v op lc ml af st la rs sw wp
  | Set_jieba_ordinal_position v => tokenizer_config tk mn mx po sm v lc ml af st la rs sw wp
  | Set_lower_case v => tokenizer_config tk mn mx po sm op v ml af st la rs sw wp
  | Set_max_token_length v => tokenizer_config tk mn mx po sm op lc v af st la rs sw wp
  | Set_ascii_folding v => tokenizer_config tk mn mx po sm op lc ml v st la rs sw wp
  | Set_stem v => tokenizer_config tk mn mx po sm op lc ml af v la rs sw wp
  | Set_language v => tokenizer_config tk mn mx po sm op lc ml af st v rs sw wp
  | Set_remove_stop_words v => tokenizer_config tk mn mx po sm op lc ml af st la v sw wp
  | Set_stop_words v => tokenizer_config tk mn mx po sm op lc ml af st la rs v wp
  | Set_with_position v => tokenizer_config tk mn mx po sm op lc ml af st la rs sw v
  end.

(** [fn invalid] *)
Definition invalid {A} (key : string) (message : string) : Result A :=
  Err (InvalidOption (lit key) [Txt message]).

Definition TokenizerConfig_validate (c : TokenizerConfig) : Result unit :=
  if ngram_min_gram c =? 0 then invalid "ngram.min-gram" "must be positive"
  else if ngram_max_gram c =? 0 then invalid "ngram.max-gram" "must be positive"
  else if ngram_max_gram c <? ngram_min_gram c then
    invalid "ngram.min-gram" "must not exceed ngram.max-gram"
  else if max_token_length c =? 0 then invalid "max-token-length" "must be positive"
  else if negb (remove_stop_words c) && negb (is_empty (stop_words c)) then
    invalid "stop-words" "requires remove-stop-words=true"
  else Ok tt.

(** The prefix that [strip_prefix(..).or_else(..).unwrap_or(..)] removes. *)
Definition strip_namespace (raw_key : str) : str :=
  match strip_prefix (lit "fulltext.") raw_key with
  | Some key => key
  | None => default raw_key (strip_prefix (lit "tantivy.") raw_key)
  end.

Section Options.
Context `{Platform} `{Unicode}.

Definition normalize_option_key (key : str) : str := str_to_lowercase (trim key).

Definition parse_tokenizer (value : str) : Result TokenizerKind :=
  let value := str_to_lowercase (trim value) in
  if str_eqb value (lit "default") then Ok Default
  else if str_eqb value (lit "simple") then Ok Simple
  else if str_eqb value (lit "whitespace") then Ok Whitespace
  else if str_eqb value (lit "raw") then Ok Raw
  else if str_eqb value (lit "ngram") then Ok Ngram
  else if str_eqb value (lit "jieba") then Ok Jieba
  else if str_eqb value (lit "icu") then Ok Icu
  else if str_eqb value (lit "icu/split") then Ok IcuSplit
  else Err (InvalidOption (lit "tokenizer")
              [Txt "unsupported tokenizer '"; Str value; Txt "'"]).

Definition parse_usize (key : str) (value : str) : Result Z :=
  ok_or (parse_unsigned usize_max (trim value))
    (InvalidOption key [Txt "expected unsigned integer, got '"; Str value; Txt "'"]).

Definition parse_bool (key : str) (value : str) : Result bool :=
  let v := str_to_lowercase (trim value) in
  if str_eqb v (lit "true") then Ok true
  else if str_eqb v (lit "false") then Ok false
  else Err (InvalidOption key [Txt "expected boolean, got '"; Str value; Txt "'"]).

Definition is_semicolon (c : char) : bool := c =? 59.
Definition split_stop_words (value : str) : list str :=
  filter (λ word, word ≠ []) (trim <$> split_on is_semicolon value).

(** The body of the [for] loop of [from_options]: the assignment an entry
    performs, if its key is known. *)
Definition option_assignment (entry : str * str) : Result (option Assignment) :=
  let '(raw_key, value) := entry in
  let key := normalize_option_key (strip_namespace raw_key) in
  if str_eqb key (lit "tokenizer") then
    v ← parse_tokenizer value; Ok (Some (Set_tokenizer v))
  else if str_eqb key (lit "ngram.min-gram") then
    v ← parse_usize key value; Ok (Some (Set_ngram_min_gram v))
  else if str_eqb key (lit "ngram.max-gram") then
    v ← parse_usize key value; Ok (Some (Set_ngram_max_gram v))
  else if str_eqb key (lit "ngram.prefix-only") then
    v ← parse_bool key value; Ok (Some (Set_ngram_prefix_only v))
  else if str_eqb key (lit "jieba.search-mode") then
    v ← parse_bool key value; Ok (Some (Set_jieba_search_mode v))
  else if str_eqb key (lit "jieba.ordinal-position")
       || str_eqb key (lit "jieba.ordinal-position-mode") then
    v ← parse_bool key value; Ok (Some (Set_jieba_ordinal_position v))
  else if str_eqb key (lit "lower-case") then
    v ← parse_bool key value; Ok (Some (Set_lower_case v))
  else if str_eqb key (lit "max-token-length") then
    v ← parse_usize key value; Ok (Some (Set_max_token_length v))
  else if str_eqb key (lit "ascii-folding") then
    v ← parse_bool key value; Ok (Some (Set_ascii_folding v))
  else if str_eqb key (lit "stem") then
    v ← parse_bool key value; Ok (Some (Set_stem v))
  else if str_eqb key (lit "language") then
    Ok (Some (Set_language (str_to_lowercase (trim value))))
  else if str_eqb key (lit "remove-stop-words") then
    v ← parse_bool key value; Ok (Some (Set_remove_stop_words v))
  else if str_eqb key (lit "stop-words") then
    Ok (Some (Set_stop_words (split_stop_words value)))
  else if str_eqb key (lit "with-position") then
    v ← parse_bool key value; Ok (Some (Set_with_position v))
  else Ok None.

Definition apply_options (options : list (str * str)) (config : TokenizerConfig) :
    Result TokenizerConfig :=
  apply_entries option_assignment assign options config.

Definition TokenizerConfig_from_options (options : list (str * str)) : Result TokenizerConfig :=
  config ← apply_options options TokenizerConfig_default;
  _ ← TokenizerConfig_validate config;
  Ok config.
End Options.

(** ** Validity *)
Record TokenizerConfig_valid (c : TokenizerConfig) : Prop := {
  valid_min_gram : ngram_min_gram c ≠ 0;
  valid_max_gram : ngram_max_gram c ≠ 0;
  valid_gram_order : ngram_min_gram c ≤ ngram_max_gram c;
  valid_token_length : max_token_length c ≠ 0;
  valid_stop_words : remove_stop_words c = true ∨ stop_words c = []
}.

Lemma TokenizerConfig_validate_Ok c :
  TokenizerConfig_validate c = Ok tt ↔ TokenizerConfig_valid c.
Proof.
  unfold TokenizerConfig_validate, invalid. split.
  - intros Hv. repeat case_if_in Hv; try done. bool_to_prop. split; try done.
    destruct (remove_stop_words c); [by left|right].
    by destruct (stop_words c).
  - intros [H1 H2 H3 H4 H5].
    destruct (Z.eqb_spec (ngram_min_gram c) 0); [done|].
    destruct (Z.eqb_spec (ngram_max_gram c) 0); [done|].
    destruct (Z.ltb_spec (ngram_max_gram c) (ngram_min_gram c)); [lia|].
    destruct (Z.eqb_spec (max_token_length c) 0); [done|].
    destruct H5 as [-> | ->]; [done|]. by rewrite andb_false_r.
Qed.

Lemma TokenizerConfig_default_valid : TokenizerConfig_valid TokenizerConfig_default.
Proof. by apply TokenizerConfig_validate_Ok. Qed.

(** ** Order of the options *)

(** The field an assignment writes. *)
Definition slot (a : Assignment) : nat :=
  match a with
  | Set_tokenizer _ => 0 | Set_ngram_min_gram _ => 1 | Set_ngram_max_gram _ => 2
  | Set_ngram_prefix_only _ => 3 | Set_jieba_search_mode _ => 4
  | Set_jieba_ordinal_position _ => 5 | Set_lower_case _ => 6
  | Set_max_token_length _ => 7 | Set_ascii_folding _ => 8 | Set_stem _ => 9
  | Set_language _ => 10 | Set_remove_stop_words _ => 11 | Set_stop_words _ => 12
  | Set_with_position _ => 13
  end.

Lemma assign_comm a b c : slot a ≠ slot b → assign a (assign b c) = assign b (assign a c).
Proof. destruct a, b, c; try done. Qed.

(** The field named by a key, whatever the value. *)
Definition key_slot `{Unicode} (raw_key : str) : option nat :=
  let key := normalize_option_key (strip_namespace raw_key) in
  if str_eqb key (lit "tokenizer") then Some 0%nat
  else if str_eqb key (lit "ngram.min-gram") then Some 1%nat
  else if str_eqb key (lit "ngram.max-gram") then Some 2%nat
  else if str_eqb key (lit "ngram.prefix-only") then Some 3%nat
  else if str_eqb key (lit "jieba.search-mode") then Some 4%nat
  else if str_eqb key (lit "jieba.ordinal-position")
       || str_eqb key (lit "jieba.ordinal-position-mode") then Some 5%nat
  else if str_eqb key (lit "lower-case") then Some 6%nat
  else if str_eqb key (lit "max-token-length") then Some 7%nat
  else if str_eqb key (lit "ascii-folding") then Some 8%nat
  else if str_eqb key (lit "stem") then Some 9%nat
  else if str_eqb key (lit "language") then Some 10%nat
  else if str_eqb key (lit "remove-stop-words") then Some 11%nat
  else if str_eqb key (lit "stop-words") then Some 12%nat
  else if str_eqb key (lit "with-position") then Some 13%nat
  else None.

Section Order.
Context `{Platform} `{Unicode}.

Lemma option_assignment_slot e a :
  option_assignment e = Ok a → slot <$> a = key_slot e.1.
Proof.
  destruct e as [k v]. unfold option_assignment, key_slot. cbn [fst].
  intros H'. repeat case_if_in H'; inv_ok; done.
Qed.

Lemma apply_options_Permutation l l' c c' :
  l ≡ₚ l' → NoDup (omap (λ e : str * str, key_slot e.1) l) →
  apply_options l c = Ok c' → apply_options l' c = Ok c'.
Proof.
  apply (apply_entries_Permutation _ _ slot); auto using assign_comm, option_assignment_slot.
Qed.

Lemma from_options_Permutation l l' c :
  l ≡ₚ l' → NoDup (omap (λ e : str * str, key_slot e.1) l) →
  TokenizerConfig_from_options l = Ok c → TokenizerConfig_from_options l' = Ok c.
Proof.
  unfold TokenizerConfig_from_options. intros Hp Hnd H'. inv_ok.
  erewrite apply_options_Permutation by eauto. cbn. by rewrite H2.
Qed.
End Order.
