(* ===== verification/Config.v ===== *)
(** * Index configuration ([core/src/config.rs])

    [FullTextIndexConfig], its construction from string options and its
    validation, and [FullTextIndexMetadata]. *)

From S2P Require Import Prelude RustStd Error Tokenizer.

Record FullTextIndexConfig : Type := index_config {
  row_id_field : str;
  text_fields : list str;
  tokenizer_config_of : TokenizerConfig
}.

#[export] Instance FullTextIndexConfig_eq_dec : EqDecision FullTextIndexConfig.
Proof. solve_decision. Defined.

Definition default_row_id_field : str := lit "row_id".
Definition default_text_fields : list str := [lit "text"].
Definition FullTextIndexConfig_default : FullTextIndexConfig :=
  index_config default_row_id_field default_text_fields TokenizerConfig_default.

Definition FullTextIndexConfig_new : FullTextIndexConfig := FullTextIndexConfig_default.

(** The builder methods. *)
Definition with_tokenizer (t : TokenizerConfig) (c : FullTextIndexConfig) : FullTextIndexConfig :=
  index_config (row_id_field c) (text_fields c) t.
Definition with_text_fields (fields : list str) (c : FullTextIndexConfig) : FullTextIndexConfig :=
  index_config (row_id_field c) fields (tokenizer_config_of c).
Definition with_positions (with_positions : bool) (c : FullTextIndexConfig) : FullTextIndexConfig :=
  index_config (row_id_field c) (text_fields c)
    (assign (Set_with_position with_positions) (tokenizer_config_of c)).

(** [dedup_preserve_order] (and its twin [dedup_strs] over borrowed names):
    push every field that is not yet in [deduped]. *)
Fixpoint dedup_loop (deduped fields : list str) : list str :=
  match fields with
  | [] => deduped
  | field :: fields' =>
      if bool_decide (field ∈ deduped) then dedup_loop deduped fields'
      else dedup_loop (deduped ++ [field]) fields'
  end.
Definition dedup_preserve_order (fields : list str) : list str := dedup_loop [] fields.
Definition dedup_strs (fields : list str) : list str := dedup_loop [] fields.

Definition indexed_text_fields (c : FullTextIndexConfig) : list str := dedup_strs (text_fields c).
Definition default_text_field (c : FullTextIndexConfig) : str :=
  default (lit "text") (head (text_fields c)).

(** [fn invalid], as in tokenizer.rs. *)
Definition invalid {A} (key : string) (message : string) : Result A :=
  Err (InvalidOption (lit key) [Txt message]).

(** The loop of [validate] over the deduplicated field names. *)
Definition validate_field (row_id_field field : str) : Result unit :=
  if is_empty (trim field) then invalid "text-fields" "must not contain empty field names"
  else if str_eqb field row_id_field then
    invalid "text-fields" "must not contain the row id field"
  else Ok tt.
Definition validate (c : FullTextIndexConfig) : Result unit :=
  if is_empty (trim (row_id_field c)) then invalid "row-id-field" "must not be empty"
  else
    let fields := dedup_preserve_order (text_fields c) in
    if is_empty fields then invalid "text-fields" "must contain at least one field"
    else
      _ ← result_forM (validate_field (row_id_field c)) fields;
      TokenizerConfig_validate (tokenizer_config_of c).

Definition clean_name (value key : str) : Result str :=
  let value := trim value in
  if is_empty value then Err (InvalidOption key [Txt "must not be empty"]) else Ok value.

Definition is_field_separator (c : char) : bool := (c =? 44) || (c =? 59).
Definition split_text_fields (value : str) : Result (list str) :=
  let fields := filter (λ field, field ≠ []) (trim <$> split_on is_field_separator value) in
  let fields := dedup_preserve_order fields in
  if is_empty fields then invalid "text-fields" "must contain at least one field" else Ok fields.

(** The three locals of [from_options], and the assignments to them. *)
Record Locals : Type := locals {
  l_row_id_field : option str;
  l_text_field : option str;
  l_text_fields : option (list str)
}.
Inductive LocalAssignment : Type :=
| Set_row_id_field (v : str)
| Set_text_field (v : str)
| Set_text_fields (v : list str).
Definition assign_local (a : LocalAssignment) (l : Locals) : Locals :=
  match a with
  | Set_row_id_field v => locals (Some v) (l_text_field l) (l_text_fields l)
  | Set_text_field v => locals (l_row_id_field l) (Some v) (l_text_fields l)
  | Set_text_fields v => locals (l_row_id_field l) (l_text_field l) (Some v)
  end.

Section Options.
Context `{Platform} `{Unicode}.

Definition normalize_option_key (raw_key : str) : str :=
  replace_char 95 [45] (str_to_lowercase (trim (strip_namespace raw_key))).

(** The body of the [for] loop. *)
Definition local_assignment (entry : str * str) : Result (option LocalAssignment) :=
  let '(raw_key, value) := entry in
  let key := normalize_option_key raw_key in
  if str_eqb key (lit "row-id-field") then
    v ← clean_name value key; Ok (Some (Set_row_id_field v))
  else if str_eqb key (lit "text-field") then
    v ← clean_name value key; Ok (Some (Set_text_field v))
  else if str_eqb key (lit "text-fields") || str_eqb key (lit "columns") then
    v ← split_text_fields value; Ok (Some (Set_text_fields v))
  else Ok None.

Definition option_loop (options : list (str * str)) : Result Locals :=
  apply_entries local_assignment assign_local options (locals None None None).

(** [FullTextIndexConfig::from_options], over the entries of the map in its
    iteration order (the same for both loops). *)
Definition from_options (options : list (str * str)) : Result FullTextIndexConfig :=
  tk ← TokenizerConfig_from_options options;
  l ← option_loop options;
  let fields :=
    match l_text_fields l with
    | Some fields => fields
    | None => match l_text_field l with
              | Some field => [field]
              | None => default_text_fields
              end
    end in
  let fields := dedup_preserve_order fields in
  if is_empty fields then invalid "text-fields" "must contain at least one field"
  else
    let config := index_config (default default_row_id_field (l_row_id_field l)) fields tk in
    _ ← validate config;
    Ok config.
End Options.

Record FullTextIndexMetadata : Type := index_metadata {
  config : FullTextIndexConfig;
  document_count : Z;
  tantivy_version : str
}.
#[export] Instance FullTextIndexMetadata_eq_dec : EqDecision FullTextIndexMetadata.
Proof. solve_decision. Defined.

(** ** Deduplication *)
Lemma dedup_loop_app d k fields :
  dedup_loop (d ++ k) fields = d ++ dedup_loop k (filter (λ f, f ∉ d) fields).
Proof.
  revert k. induction fields as [|f fields IH]; intros k; [done|]. cbn [dedup_loop].
  destruct (decide (f ∈ d)).
  - rewrite bool_decide_true, filter_cons_False by set_solver. apply IH.
  - rewrite filter_cons_True by done. cbn [dedup_loop].
    destruct (decide (f ∈ k)).
    + rewrite !bool_decide_true by set_solver. apply IH.
    + rewrite !bool_decide_false by set_solver. rewrite <- app_assoc. apply IH.
Qed.

Lemma dedup_cons f fields :
  dedup_preserve_order (f :: fields)
  = f :: dedup_preserve_order (filter (λ x, x ≠ f) fields).
Proof.
  unfold dedup_preserve_order. cbn [dedup_loop]. rewrite bool_decide_false by set_solver.
  rewrite <- (app_nil_r ([] ++ [f])), dedup_loop_app. cbn. do 2 f_equal.
  apply list_filter_iff. intros x. set_solver.
Qed.

(** Induction following the first occurrences. *)
Lemma dedup_ind (P : list str -> Prop) :
  P [] → (∀ f fields, P (filter (λ x, x ≠ f) fields) → P (f :: fields)) → ∀ fields, P fields.
Proof.
  intros Hnil Hcons.
  assert (∀ n fields, (length fields < n)%nat → P fields) as H.
  { induction n as [|n IH]; intros fields Hn; [lia|].
    destruct fields as [|f fields]; [done|]. apply Hcons, IH.
    pose proof (length_filter (λ x, x ≠ f) fields). cbn in Hn. lia. }
  intros fields. apply (H (S (length fields))). lia.
Qed.

Lemma elem_of_dedup f fields : f ∈ dedup_preserve_order fields ↔ f ∈ fields.
Proof.
  induction fields as [|g fields IH] using dedup_ind; [done|].
  rewrite dedup_cons, !elem_of_cons, IH, list_elem_of_filter.
  destruct (decide (f = g)); naive_solver.
Qed.

Lemma NoDup_dedup fields : NoDup (dedup_preserve_order fields).
Proof.
  induction fields as [|f fields IH] using dedup_ind; [constructor|].
  rewrite dedup_cons. constructor; [|done].
  rewrite elem_of_dedup, list_elem_of_filter. naive_solver.
Qed.

Lemma dedup_NoDup_id fields : NoDup fields → dedup_preserve_order fields = fields.
Proof.
  induction 1 as [|f fields Hf _ IH]; [done|].
  rewrite dedup_cons, list_filter_id; [by rewrite IH|].
  apply Forall_forall. by intros x Hx ->.
Qed.

Lemma dedup_nil fields : dedup_preserve_order fields = [] ↔ fields = [].
Proof. destruct fields as [|f fields]; [done|]. by rewrite dedup_cons. Qed.

Lemma dedup_idemp fields :
  dedup_preserve_order (dedup_preserve_order fields) = dedup_preserve_order fields.
Proof. apply dedup_NoDup_id, NoDup_dedup. Qed.

(** The deduplicated names keep the order of their first occurrences. *)
Lemma dedup_sublist fields : dedup_preserve_order fields `sublist_of` fields.
Proof.
  induction fields as [|f fields IH] using dedup_ind; [constructor|].
  rewrite dedup_cons. apply sublist_skip. etrans; [apply IH|]. apply sublist_filter.
Qed.

(** ** Validity *)
Record FullTextIndexConfig_valid (c : FullTextIndexConfig) : Prop := {
  valid_row_id : trim (row_id_field c) ≠ [];
  valid_fields : text_fields c ≠ [];
  valid_names : Forall (λ f, trim f ≠ [] ∧ f ≠ row_id_field c) (text_fields c);
  valid_tokenizer : TokenizerConfig_valid (tokenizer_config_of c)
}.

Lemma validate_field_Ok r f : validate_field r f = Ok tt ↔ trim f ≠ [] ∧ f ≠ r.
Proof.
  unfold validate_field, invalid. rewrite <- is_empty_false, <- str_eqb_neq.
  destruct (is_empty (trim f)), (str_eqb f r); naive_solver.
Qed.

Lemma validate_Ok c : validate c = Ok tt ↔ FullTextIndexConfig_valid c.
Proof.
  unfold validate, invalid. destruct (is_empty (trim (row_id_field c))) eqn:E1.
  { apply is_empty_true in E1. split; [done|]. intros []; congruence. }
  apply is_empty_false in E1.
  destruct (is_empty (dedup_preserve_order (text_fields c))) eqn:E2.
  { apply is_empty_true in E2. rewrite dedup_nil in E2. split; [done|]. intros []; congruence. }
  apply is_empty_false in E2. rewrite dedup_nil in E2.
  rewrite bind_Ok. split.
  - intros ([] & Hf & Ht). apply result_forM_Ok in Hf. split; try done.
    + apply Forall_forall. intros f Hin. rewrite <- elem_of_dedup in Hin.
      rewrite Forall_forall in Hf. by apply validate_field_Ok, Hf.
    + by apply TokenizerConfig_validate_Ok.
  - intros [_ _ Hn Ht]. exists tt. split; [|by apply TokenizerConfig_validate_Ok].
    apply result_forM_Ok, Forall_forall. intros f Hin. rewrite elem_of_dedup in Hin.
    rewrite Forall_forall in Hn. by apply validate_field_Ok, Hn.
Qed.

Lemma default_config_valid : validate FullTextIndexConfig_default = Ok tt.
Proof. done. Qed.

(** ** Order of the options *)
Definition local_slot (a : LocalAssignment) : nat :=
  match a with Set_row_id_field _ => 0 | Set_text_field _ => 1 | Set_text_fields _ => 2 end.

Definition config_slot `{Unicode} (raw_key : str) : option nat :=
  let key := normalize_option_key raw_key in
  if str_eqb key (lit "row-id-field") then Some 0%nat
  else if str_eqb key (lit "text-field") then Some 1%nat
  else if str_eqb key (lit "text-fields") || str_eqb key (lit "columns") then Some 2%nat
  else None.

Section Order.
Context `{Platform} `{Unicode}.

Lemma assign_local_comm a b l :
  local_slot a ≠ local_slot b → assign_local a (assign_local b l) = assign_local b (assign_local a l).
Proof. by destruct a, b. Qed.

Lemma local_assignment_slot e a :
  local_assignment e = Ok a → local_slot <$> a = config_slot e.1.
Proof.
  destruct e as [k v]. unfold local_assignment, config_slot. cbn [fst].
  intros H'. repeat case_if_in H'; inv_ok; done.
Qed.

Lemma option_loop_Permutation l l' r :
  l ≡ₚ l' → NoDup (omap (λ e : str * str, config_slot e.1) l) →
  option_loop l = Ok r → option_loop l' = Ok r.
Proof.
  apply (apply_entries_Permutation _ _ local_slot);
    auto using assign_local_comm, local_assignment_slot.
Qed.
End Order.

(** ** Namespaces *)
Section Namespaces.
Context `{Platform} `{Unicode}.

(** A key that carries no namespace of its own. *)
Definition bare_key (key : str) : Prop :=
  strip_prefix (lit "fulltext.") key = None ∧ strip_prefix (lit "tantivy.") key = None.
Definition qualify (namespace : str) (entry : str * str) : str * str :=
  (namespace ++ entry.1, entry.2).

Lemma strip_namespace_bare key : bare_key key → strip_namespace key = key.
Proof. intros [H1 H2]. unfold strip_namespace. by rewrite H1, H2. Qed.

Lemma strip_namespace_qualified ns key :
  ns = lit "fulltext." ∨ ns = lit "tantivy." → strip_namespace (ns ++ key) = key.
Proof.
  unfold strip_namespace. intros [-> | ->].
  - by rewrite (proj2 (strip_prefix_Some (lit "fulltext.") (lit "fulltext." ++ key) key)).
  - assert (strip_prefix (lit "fulltext.") (lit "tantivy." ++ key) = None) as -> by done.
    by rewrite (proj2 (strip_prefix_Some (lit "tantivy.") (lit "tantivy." ++ key) key)).
Qed.
End Namespaces.

Lemma apply_entries_fmap {E Entry Asg Cfg} (decode : Entry -> result E (option Asg))
    (assign : Asg -> Cfg -> Cfg) (f : Entry -> Entry) l c :
  Forall (λ e, decode (f e) = decode e) l →
  apply_entries decode assign (f <$> l) c = apply_entries decode assign l c.
Proof.
  intros Hl. revert c. induction Hl as [|e l He _ IH]; intros c; [done|]. cbn.
  rewrite He. destruct (decode e); [|done]. apply IH.
Qed.

(** ** Properties *)
Section Properties.
Context `{Platform} `{Unicode}.

Lemma validate_err c e : validate c = Err e → ∃ key msg, e = InvalidOption key msg.
Proof.
  unfold validate, invalid. intros Hv. repeat case_if_in Hv; [by simplify_eq; eauto..|].
  apply bind_Err in Hv as [Hf | (_ & _ & Ht)].
  - clear -Hf. induction (dedup_preserve_order (text_fields c)) as [|f fs IH]; cbn in Hf; [done|].
    apply bind_Err in Hf as [Hf | (_ & _ & Hf)]; [|by apply IH].
    unfold validate_field, invalid in Hf. repeat case_if_in Hf; by simplify_eq; eauto.
  - unfold TokenizerConfig_validate, Tokenizer.invalid in Ht.
    repeat case_if_in Ht; by simplify_eq; eauto.
Qed.

(** C31: [FullTextIndexConfig::validate] accepts exactly the configurations
    with a non-blank row id field, at least one text field, no blank text
    field and none named like the row id field, and a valid tokenizer
    configuration (positive and ordered n-gram sizes, positive token length,
    stop words only when they are removed); every rejection is an
    [InvalidOption] error. *)
Theorem validate_accepts_exactly_valid c :
  (validate c = Ok tt ↔ FullTextIndexConfig_valid c) ∧
  (∀ e, validate c = Err e → ∃ key msg, e = InvalidOption key msg).
Proof. split; [apply validate_Ok | apply validate_err]. Qed.

(** C32: every configuration [from_options] builds is valid, and its text
    fields are pairwise different. *)
Theorem from_options_valid options c :
  from_options options = Ok c → FullTextIndexConfig_valid c ∧ NoDup (text_fields c).
Proof.
  unfold from_options, invalid. intros Ho. inv_ok. case_if_in Ho; inv_ok.
  split; [|apply NoDup_dedup]. destruct x1. by apply validate_Ok.
Qed.

(** C30: when no two keys of the option map name the same setting, the
    configuration does not depend on the (arbitrary) iteration order of the
    map. *)
Theorem from_options_order_independent options options' c :
  options ≡ₚ options' →
  NoDup (omap (λ e : str * str, key_slot e.1) options) →
  NoDup (omap (λ e : str * str, config_slot e.1) options) →
  from_options options = Ok c → from_options options' = Ok c.
Proof.
  unfold from_options. intros Hp Hnd1 Hnd2 Ho. inv_ok.
  rewrite (from_options_Permutation _ _ _ Hp Hnd1 H1). cbn.
  rewrite (option_loop_Permutation _ _ _ Hp Hnd2 H2). cbn. exact Ho.
Qed.

(** Keys may carry the namespace [fulltext.] or [tantivy.]: qualifying
    every bare key gives the same result, error or configuration. *)
Theorem from_options_namespaces ns options :
  ns = lit "fulltext." ∨ ns = lit "tantivy." →
  Forall (λ e, bare_key e.1) options →
  from_options (qualify ns <$> options) = from_options options.
Proof.
  intros Hns Hbare. unfold from_options, TokenizerConfig_from_options, apply_options, option_loop.
  rewrite !apply_entries_fmap; [done|..]; (eapply Forall_impl; [exact Hbare|]);
    intros [k v] Hk; unfold local_assignment, option_assignment, normalize_option_key, qualify;
    cbn in *; by rewrite strip_namespace_qualified, strip_namespace_bare by done.
Qed.
End Properties.

#[local] Existing Instance platform64.
#[local] Existing Instance ascii_unicode.

Definition sample_options : list (str * str) :=
  [(lit "text-fields", lit "title, body;title"); (lit "row_id_field", lit " id ");
   (lit "fulltext.tokenizer", lit "icu/split"); (lit "max-token-length", lit "+64")].

Definition sample_config : FullTextIndexConfig :=
  index_config (lit "id") [lit "title"; lit "body"]
    (assign (Set_max_token_length 64) (assign (Set_tokenizer IcuSplit) TokenizerConfig_default)).

Lemma from_options_valid_witness :
  FullTextIndexConfig_valid sample_config ∧ NoDup (text_fields sample_config).
Proof. apply (from_options_valid sample_options). vm_compute. reflexivity. Defined.

Lemma from_options_order_independent_witness :
  from_options (reverse sample_options) = Ok sample_config.
Proof.
  apply (from_options_order_independent sample_options).
  - symmetry. apply reverse_Permutation.
  - apply (bool_decide_unpack _). vm_compute. exact I.
  - apply (bool_decide_unpack _). vm_compute. exact I.
  - vm_compute. reflexivity.
Defined.

Lemma from_options_namespaces_witness :
  from_options (qualify (lit "fulltext.") <$> [(lit "columns", lit "a;b")])
  = from_options [(lit "columns", lit "a;b")].
Proof.
  apply from_options_namespaces; [by left|].
  repeat constructor; vm_compute; reflexivity.
Defined.

(** When two keys name the same setting, the last one the iteration visits
    wins: the configuration depends on the hash order. *)
Lemma from_options_conflict_order_dependent :
  let a := (lit "fulltext.tokenizer", lit "raw") in
  let b := (lit "tokenizer", lit "ngram") in
  (tokenizer ∘ tokenizer_config_of <$> from_options [a; b]) = Ok Ngram ∧
  (tokenizer ∘ tokenizer_config_of <$> from_options [b; a]) = Ok Raw.
Proof. vm_compute. done. Qed.

(** [_] is read as [-] in the keys of [config.rs] only: the tokenizer options
    ignore a key spelled with underscores. *)
Lemma underscore_keys :
  (text_fields <$> from_options [(lit "text_fields", lit "a,b")]) = Ok [lit "a"; lit "b"] ∧
  (with_position ∘ tokenizer_config_of <$> from_options [(lit "with_position", lit "false")])
  = Ok true.
Proof. vm_compute. done. Qed.
