(* ===== verification/Json.v ===== *)
(** * JSON documents and the derived [serde] implementations

    [serde_json] turns text into the tree [json] and back; its text level is a
    parameter ([JsonText]).  What [#[derive(Serialize, Deserialize)]] and the
    [#[serde(..)]] attributes of the source make of a tree is modelled here
    (structs, enums, defaults, aliases, duplicate and unknown keys) and used
    by the components that declare serializable types. *)

From S2P Require Import Prelude RustStd Error.

(** A number is an integer of the [i64]/[u64] range or a binary64 float. *)
Inductive json : Type :=
| JNull
| JBool (b : bool)
| JInt (z : Z)
| JFloat (x : SpecFloat.spec_float)
| JString (s : str)
| JArray (l : list json)
| JObject (kvs : list (str * json)).

Section json_ind.
Context (P : json -> Prop).
Context (Hnull : P JNull) (Hbool : ∀ b, P (JBool b)) (Hint : ∀ z, P (JInt z)).
Context (Hfloat : ∀ x, P (JFloat x)) (Hstring : ∀ s, P (JString s)).
Context (Harray : ∀ l, Forall P l → P (JArray l)).
Context (Hobject : ∀ kvs, Forall (P ∘ snd) kvs → P (JObject kvs)).
Fixpoint json_nested_ind (j : json) : P j :=
  match j with
  | JNull => Hnull | JBool b => Hbool b | JInt z => Hint z
  | JFloat x => Hfloat x | JString s => Hstring s
  | JArray l => Harray l
      ((fix go l : Forall P l := match l with
        | [] => Forall_nil_2 P
        | x :: l => Forall_cons_2 P x l (json_nested_ind x) (go l) end) l)
  | JObject kvs => Hobject kvs
      ((fix go l : Forall (P ∘ snd) l := match l with
        | [] => Forall_nil_2 (P ∘ snd)
        | x :: l => Forall_cons_2 (P ∘ snd) x l (json_nested_ind x.2) (go l) end) kvs)
  end.
End json_ind.

(** The trees whose text reads back: integers of the machine types, no float
    (their printing is not exact in every configuration of [serde_json]), and
    a nesting below the recursion limit of the parser. *)
Fixpoint json_exact (j : json) : bool :=
  match j with
  | JNull | JBool _ | JString _ => true
  | JInt z => (- 2 ^ 63 <=? z) && (z <=? u64_max)
  | JFloat _ => false
  | JArray l => forallb json_exact l
  | JObject kvs => forallb (λ kv, json_exact kv.2) kvs
  end.
Fixpoint json_depth (j : json) : Z :=
  match j with
  | JArray l => 1 + foldr (λ j n, Z.max (json_depth j) n) 0 l
  | JObject kvs => 1 + foldr (λ kv n, Z.max (json_depth kv.2) n) 0 kvs
  | _ => 0
  end.

(** [serde_json::to_vec] and [serde_json::from_slice] at the level of trees. *)
Class JsonText : Type := {
  json_to_vec : json -> result JsonError (list byte);
  json_from_slice : list byte -> result JsonError json;
  json_text_roundtrip j : json_exact j = true → json_depth j ≤ 127 →
    ∃ text, json_to_vec j = Ok text ∧ json_from_slice text = Ok j
}.

(** ** Derived [Deserialize] *)
Definition de_bool (j : json) : result JsonError bool :=
  match j with JBool b => Ok b | _ => Err JsonData end.
Definition de_string (j : json) : result JsonError str :=
  match j with JString s => Ok s | _ => Err JsonData end.
(** An unsigned integer type with largest value [max]. *)
Definition de_unsigned (max : Z) (j : json) : result JsonError Z :=
  match j with
  | JInt z => if (0 <=? z) && (z <=? max) then Ok z else Err JsonData
  | _ => Err JsonData
  end.
Definition de_vec {A} (de : json -> result JsonError A) (j : json) : result JsonError (list A) :=
  match j with JArray l => result_mapM de l | _ => Err JsonData end.
Definition de_option {A} (de : json -> result JsonError A) (j : json) : result JsonError (option A) :=
  match j with JNull => Ok None | _ => a ← de j; Ok (Some a) end.

(** The values given to the fields of a struct: by key (unknown keys are
    ignored, a repeated one is an error) or by position in an array. *)
Definition field_value (names : list str) (kvs : list (str * json)) :
    result JsonError (option json) :=
  match filter (λ kv : str * json, kv.1 ∈ names) kvs with
  | [] => Ok None
  | [(_, v)] => Ok (Some v)
  | _ => Err JsonData
  end.
Definition struct_fields (fields : list (list str)) (j : json) :
    result JsonError (list (option json)) :=
  match j with
  | JObject kvs => result_mapM (λ names, field_value names kvs) fields
  | JArray l =>
      if (length l <=? length fields)%nat
      then Ok ((Some <$> l) ++ replicate (length fields - length l) None)
      else Err JsonData
  | _ => Err JsonData
  end.
(** A field without and with a default. *)
Definition required {A} (de : json -> result JsonError A) (v : option json) : result JsonError A :=
  match v with Some j => de j | None => Err JsonData end.
Definition with_default {A} (dflt : A) (de : json -> result JsonError A) (v : option json) :
    result JsonError A :=
  match v with Some j => de j | None => Ok dflt end.

(** An externally tagged enum of unit variants: the variant's name, or an
    object of one entry with that name and [null]. *)
Definition de_unit_variant {A} (variant : str -> option A) (j : json) : result JsonError A :=
  match j with
  | JString s => ok_or (variant s) JsonData
  | JObject [(s, JNull)] => ok_or (variant s) JsonData
  | _ => Err JsonData
  end.

(** ** Lemmas *)
Lemma de_unsigned_JInt max z : 0 ≤ z ≤ max → de_unsigned max (JInt z) = Ok z.
Proof.
  intros. cbn. destruct (Z.leb_spec 0 z), (Z.leb_spec z max); try lia. done.
Qed.

Lemma de_unsigned_Ok max j z : de_unsigned max j = Ok z ↔ j = JInt z ∧ 0 ≤ z ≤ max.
Proof.
  split.
  - destruct j; cbn; try done. intros H. case_if_in H; [|done]. bool_to_prop. naive_solver.
  - intros [-> ?]. by apply de_unsigned_JInt.
Qed.

Lemma de_vec_fmap {A} (de : json -> result JsonError A) (en : A -> json) l :
  Forall (λ a, de (en a) = Ok a) l → de_vec de (JArray (en <$> l)) = Ok l.
Proof.
  intros Hl. cbn. apply result_mapM_Ok. apply Forall2_fmap_l.
  apply Forall_Forall2_diag. exact Hl.
Qed.

Lemma field_value_zip ks vs i k v :
  NoDup ks → List.length ks = List.length vs → ks !! i = Some k → vs !! i = Some v →
  field_value [k] (zip ks vs) = Ok (Some v).
Proof.
  intros Hnd Hlen Hk Hv. unfold field_value.
  assert (filter (λ kv : str * json, kv.1 ∈ [k]) (zip ks vs) = [(k, v)]) as ->; [|done].
  revert vs i Hlen Hk Hv. induction Hnd as [|k' ks Hni Hnd IH]; intros [|v' vs] i Hlen Hk Hv; try done.
  cbn [zip zip_with]. destruct i as [|i]; cbn in Hk, Hv.
  - simplify_eq. rewrite filter_cons_True by (cbn; set_solver). f_equal.
    apply list_filter_none, Forall_forall.
    intros [k' v'] Hin%elem_of_zip_l Heq. cbn in *. set_solver.
  - assert (k' ≠ k) by (intros ->; by apply Hni, (list_elem_of_lookup_2 _ i)).
    rewrite filter_cons_False by (cbn; set_solver). eapply IH; eauto.
Qed.

(** A struct written with its keys once each, in order, gives every field its
    value. *)
Lemma struct_fields_object ks vs :
  NoDup ks → List.length ks = List.length vs →
  struct_fields ((λ k, [k]) <$> ks) (JObject (zip ks vs)) = Ok (Some <$> vs).
Proof.
  intros Hnd Hlen. cbn. apply result_mapM_Ok, Forall2_fmap, Forall2_same_length_lookup.
  split; [done|]. intros i k v Hk Hv. by eapply field_value_zip.
Qed.

Lemma json_depth_le_cons_obj k v kvs n :
  json_depth v + 1 ≤ n → json_depth (JObject kvs) ≤ n → json_depth (JObject ((k, v) :: kvs)) ≤ n.
Proof. cbn. lia. Qed.

Lemma json_depth_array n l : 1 ≤ n → Forall (λ j, json_depth j + 1 ≤ n) l → json_depth (JArray l) ≤ n.
Proof. intros Hn. induction 1; cbn in *; lia. Qed.

Lemma json_exact_array (A : Type) (en : A -> json) l :
  Forall (λ a, json_exact (en a) = true) l → json_exact (JArray (en <$> l)) = true.
Proof. induction 1 as [|a l Ha _ IH]; cbn in *; [done|]. by rewrite Ha. Qed.

(** ** A text level to run the model with

    Not JSON syntax: an injective encoding of trees, which is all the
    development asks of the text. *)
Fixpoint json_to_tree (j : json) : gen_tree (bool + Z + SpecFloat.spec_float + str) :=
  match j with
  | JNull => GenNode 0 []
  | JBool b => GenLeaf (inl (inl (inl b)))
  | JInt z => GenLeaf (inl (inl (inr z)))
  | JFloat x => GenLeaf (inl (inr x))
  | JString s => GenLeaf (inr s)
  | JArray l => GenNode 1 (json_to_tree <$> l)
  | JObject kvs =>
      GenNode 2 ((λ kv : str * json, GenNode 3 [GenLeaf (inr kv.1); json_to_tree kv.2]) <$> kvs)
  end.
Fixpoint json_of_tree (t : gen_tree (bool + Z + SpecFloat.spec_float + str)) : json :=
  match t with
  | GenLeaf (inl (inl (inl b))) => JBool b
  | GenLeaf (inl (inl (inr z))) => JInt z
  | GenLeaf (inl (inr x)) => JFloat x
  | GenLeaf (inr s) => JString s
  | GenNode 1 l => JArray (json_of_tree <$> l)
  | GenNode 2 l =>
      JObject ((λ t, match t with
                     | GenNode 3 [GenLeaf (inr k); v] => (k, json_of_tree v)
                     | _ => ([], JNull) end) <$> l)
  | _ => JNull
  end.
Lemma json_of_to_tree j : json_of_tree (json_to_tree j) = j.
Proof.
  induction j as [|b|z|x|s|l IH|kvs IH] using json_nested_ind; cbn; try done.
  - f_equal. rewrite <- list_fmap_compose. induction IH as [|j l Hj _ IHl]; [done|].
    cbn in *. by rewrite Hj, IHl.
  - f_equal. rewrite <- list_fmap_compose. induction IH as [|[k v] l Hj _ IHl]; [done|].
    cbn in *. by rewrite Hj, IHl.
Qed.

#[export] Instance spec_float_countable : Countable SpecFloat.spec_float.
Proof.
  refine (inj_countable'
    (λ x, match x with
          | SpecFloat.S754_zero b => inl (inl b) | SpecFloat.S754_infinity b => inl (inr b)
          | SpecFloat.S754_nan => inr None | SpecFloat.S754_finite b m e => inr (Some (b, m, e)) end)
    (λ x, match x with
          | inl (inl b) => SpecFloat.S754_zero b | inl (inr b) => SpecFloat.S754_infinity b
          | inr None => SpecFloat.S754_nan
          | inr (Some (b, m, e)) => SpecFloat.S754_finite b m e end) _).
  by intros [].
Defined.

Fixpoint positive_to_bytes (p : positive) : list byte :=
  match p with
  | xH => []
  | xO p => x00 :: positive_to_bytes p
  | xI p => x01 :: positive_to_bytes p
  end.
Fixpoint positive_of_bytes (bs : list byte) : option positive :=
  match bs with
  | [] => Some xH
  | x00 :: bs => xO <$> positive_of_bytes bs
  | x01 :: bs => xI <$> positive_of_bytes bs
  | _ => None
  end.
Lemma positive_of_to_bytes p : positive_of_bytes (positive_to_bytes p) = Some p.
Proof. induction p as [p IH|p IH|]; cbn; by rewrite ?IH. Qed.

Program Definition tree_text : JsonText := {|
  json_to_vec j := Ok (positive_to_bytes (encode (json_to_tree j)));
  json_from_slice bs :=
    ok_or (p ← positive_of_bytes bs; t ← decode p; Some (json_of_tree t)) JsonSyntax
|}.
Next Obligation.
  intros j _ _. eexists. split; [done|].
  rewrite positive_of_to_bytes. cbn. rewrite decode_encode. cbn. by rewrite json_of_to_tree.
Qed.

(** Read the fields of a struct that was written with its keys in order. *)
Ltac read_struct :=
  match goal with
  | |- context [struct_fields ?fs (JObject ?kvs)] =>
      change (struct_fields fs (JObject kvs)) with
        (struct_fields ((λ k, [k]) <$> kvs.*1) (JObject (zip kvs.*1 kvs.*2)));
      rewrite (struct_fields_object kvs.*1 kvs.*2);
      [|apply (bool_decide_unpack _); vm_compute; exact I|done]
  end; cbn [mbind result_bind fmap list_fmap fst snd].
