(* ===== verification/HeaderJson.v ===== *)
(** * The header and its JSON form

    [IndexHeader] and [ArchiveFileEntry] ([core/src/storage.rs]) and the
    serialization derived for them, for [FullTextIndexMetadata] and
    [FullTextIndexConfig] ([core/src/config.rs]) and for [TokenizerConfig]
    ([core/src/tokenizer.rs]), with the round trip through JSON. *)

From S2P Require Import Prelude RustStd Error Json Tokenizer Config.

Record ArchiveFileEntry : Type := archive_file {
  name : str;
  offset : Z;
  length : Z
}.
Record IndexHeader : Type := index_header {
  metadata : FullTextIndexMetadata;
  files : list ArchiveFileEntry
}.
#[export] Instance ArchiveFileEntry_eq_dec : EqDecision ArchiveFileEntry.
Proof. solve_decision. Defined.
#[export] Instance IndexHeader_eq_dec : EqDecision IndexHeader.
Proof. solve_decision. Defined.

(** ** Serialization *)
(** [#[serde(rename_all = "snake_case")]] and [#[serde(rename = "icu/split")]]. *)
Definition TokenizerKind_name (k : TokenizerKind) : str :=
  match k with
  | Default => lit "default" | Simple => lit "simple" | Whitespace => lit "whitespace"
  | Raw => lit "raw" | Ngram => lit "ngram" | Jieba => lit "jieba" | Icu => lit "icu"
  | IcuSplit => lit "icu/split"
  end.
Definition TokenizerKind_variant (s : str) : option TokenizerKind :=
  head (filter (λ k, TokenizerKind_name k = s)
          [Default; Simple; Whitespace; Raw; Ngram; Jieba; Icu; IcuSplit]).

Definition TokenizerConfig_to_json (c : TokenizerConfig) : json := JObject [
  (lit "tokenizer", JString (TokenizerKind_name (tokenizer c)));
  (lit "ngram_min_gram", JInt (ngram_min_gram c));
  (lit "ngram_max_gram", JInt (ngram_max_gram c));
  (lit "ngram_prefix_only", JBool (ngram_prefix_only c));
  (lit "jieba_search_mode", JBool (jieba_search_mode c));
  (lit "jieba_ordinal_position", JBool (jieba_ordinal_position c));
  (lit "lower_case", JBool (lower_case c));
  (lit "max_token_length", JInt (max_token_length c));
  (lit "ascii_folding", JBool (ascii_folding c));
  (lit "stem", JBool (stem c));
  (lit "language", JString (language c));
  (lit "remove_stop_words", JBool (remove_stop_words c));
  (lit "stop_words", JArray (JString <$> stop_words c));
  (lit "with_position", JBool (with_position c))].

Definition FullTextIndexConfig_to_json (c : FullTextIndexConfig) : json := JObject [
  (lit "row_id_field", JString (row_id_field c));
  (lit "text_fields", JArray (JString <$> text_fields c));
  (lit "tokenizer", TokenizerConfig_to_json (tokenizer_config_of c))].

Definition FullTextIndexMetadata_to_json (m : FullTextIndexMetadata) : json := JObject [
  (lit "config", FullTextIndexConfig_to_json (config m));
  (lit "document_count", JInt (document_count m));
  (lit "tantivy_version", JString (tantivy_version m))].

Definition ArchiveFileEntry_to_json (f : ArchiveFileEntry) : json := JObject [
  (lit "name", JString (name f));
  (lit "offset", JInt (offset f));
  (lit "length", JInt (length f))].

Definition IndexHeader_to_json (h : IndexHeader) : json := JObject [
  (lit "metadata", FullTextIndexMetadata_to_json (metadata h));
  (lit "files", JArray (ArchiveFileEntry_to_json <$> files h))].

(** ** Deserialization *)
Section Deserialize.
Context `{Platform}.

(** [#[serde(default)]] on the container: a missing field keeps its value in
    [TokenizerConfig::default()]. *)
Definition TokenizerConfig_from_json (j : json) : result JsonError TokenizerConfig :=
  let d := TokenizerConfig_default in
  slots ← struct_fields [[lit "tokenizer"]; [lit "ngram_min_gram"]; [lit "ngram_max_gram"];
    [lit "ngram_prefix_only"]; [lit "jieba_search_mode"]; [lit "jieba_ordinal_position"];
    [lit "lower_case"]; [lit "max_token_length"]; [lit "ascii_folding"]; [lit "stem"];
    [lit "language"]; [lit "remove_stop_words"]; [lit "stop_words"]; [lit "with_position"]] j;
  match slots with
  | [s0; s1; s2; s3; s4; s5; s6; s7; s8; s9; s10; s11; s12; s13] =>
      tk ← with_default (tokenizer d) (de_unit_variant TokenizerKind_variant) s0;
      mn ← with_default (ngram_min_gram d) (de_unsigned usize_max) s1;
      mx ← with_default (ngram_max_gram d) (de_unsigned usize_max) s2;
      po ← with_default (ngram_prefix_only d) de_bool s3;
      sm ← with_default (jieba_search_mode d) de_bool s4;
      op ← with_default (jieba_ordinal_position d) de_bool s5;
      lc ← with_default (lower_case d) de_bool s6;
      ml ← with_default (max_token_length d) (de_unsigned usize_max) s7;
      af ← with_default (ascii_folding d) de_bool s8;
      st ← with_default (stem d) de_bool s9;
      la ← with_default (language d) de_string s10;
      rs ← with_default (remove_stop_words d) de_bool s11;
      sw ← with_default (stop_words d) (de_vec de_string) s12;
      wp ← with_default (with_position d) de_bool s13;
      Ok (tokenizer_config tk mn mx po sm op lc ml af st la rs sw wp)
  | _ => Err JsonData
  end.

Definition FullTextIndexConfig_from_json (j : json) : result JsonError FullTextIndexConfig :=
  slots ← struct_fields [[lit "row_id_field"]; [lit "text_fields"]; [lit "tokenizer"]] j;
  match slots with
  | [s0; s1; s2] =>
      r ← with_default default_row_id_field de_string s0;
      t ← with_default default_text_fields (de_vec de_string) s1;
      k ← with_default TokenizerConfig_default TokenizerConfig_from_json s2;
      Ok (index_config r t k)
  | _ => Err JsonData
  end.

Definition FullTextIndexMetadata_from_json (j : json) : result JsonError FullTextIndexMetadata :=
  slots ← struct_fields [[lit "config"]; [lit "document_count"]; [lit "tantivy_version"]] j;
  match slots with
  | [s0; s1; s2] =>
      c ← with_default FullTextIndexConfig_default FullTextIndexConfig_from_json s0;
      n ← with_default 0 (de_unsigned u64_max) s1;
      v ← with_default [] de_string s2;
      Ok (index_metadata c n v)
  | _ => Err JsonData
  end.

Definition ArchiveFileEntry_from_json (j : json) : result JsonError ArchiveFileEntry :=
  slots ← struct_fields [[lit "name"]; [lit "offset"]; [lit "length"]] j;
  match slots with
  | [s0; s1; s2] =>
      n ← required de_string s0;
      o ← required (de_unsigned u64_max) s1;
      l ← required (de_unsigned u64_max) s2;
      Ok (archive_file n o l)
  | _ => Err JsonData
  end.

Definition IndexHeader_from_json (j : json) : result JsonError IndexHeader :=
  slots ← struct_fields [[lit "metadata"]; [lit "files"]] j;
  match slots with
  | [s0; s1] =>
      m ← required FullTextIndexMetadata_from_json s0;
      fs ← required (de_vec ArchiveFileEntry_from_json) s1;
      Ok (index_header m fs)
  | _ => Err JsonData
  end.
End Deserialize.

(** ** Values of the Rust types

    The integers of a header are those its Rust types can hold. *)
Record TokenizerConfig_typed `{Platform} (c : TokenizerConfig) : Prop := {
  typed_min_gram : 0 ≤ ngram_min_gram c ≤ usize_max;
  typed_max_gram : 0 ≤ ngram_max_gram c ≤ usize_max;
  typed_token_length : 0 ≤ max_token_length c ≤ usize_max
}.
Record ArchiveFileEntry_typed (f : ArchiveFileEntry) : Prop := {
  typed_offset : 0 ≤ offset f ≤ u64_max;
  typed_length : 0 ≤ length f ≤ u64_max
}.
Record IndexHeader_typed `{Platform} (h : IndexHeader) : Prop := {
  typed_tokenizer : TokenizerConfig_typed (tokenizer_config_of (config (metadata h)));
  typed_document_count : 0 ≤ document_count (metadata h) ≤ u64_max;
  typed_files : Forall ArchiveFileEntry_typed (files h)
}.

(** ** Round trips *)
Lemma TokenizerKind_variant_name k : TokenizerKind_variant (TokenizerKind_name k) = Some k.
Proof. by destruct k. Qed.

Section Roundtrip.
Context `{Platform}.

Lemma strings_roundtrip l : de_vec de_string (JArray (JString <$> l)) = Ok l.
Proof. apply de_vec_fmap, Forall_forall. done. Qed.

Lemma TokenizerConfig_roundtrip c :
  TokenizerConfig_typed c → TokenizerConfig_from_json (TokenizerConfig_to_json c) = Ok c.
Proof.
  intros [H1 H2 H3]. unfold TokenizerConfig_from_json, TokenizerConfig_to_json. read_struct.
  unfold with_default. rewrite strings_roundtrip, !de_unsigned_JInt by done.
  unfold de_unit_variant. rewrite TokenizerKind_variant_name. by destruct c.
Qed.

Lemma FullTextIndexConfig_roundtrip c :
  TokenizerConfig_typed (tokenizer_config_of c) →
  FullTextIndexConfig_from_json (FullTextIndexConfig_to_json c) = Ok c.
Proof.
  intros Ht. unfold FullTextIndexConfig_from_json, FullTextIndexConfig_to_json. read_struct.
  unfold with_default. rewrite strings_roundtrip, TokenizerConfig_roundtrip by done.
  by destruct c.
Qed.

Lemma FullTextIndexMetadata_roundtrip m :
  TokenizerConfig_typed (tokenizer_config_of (config m)) → 0 ≤ document_count m ≤ u64_max →
  FullTextIndexMetadata_from_json (FullTextIndexMetadata_to_json m) = Ok m.
Proof.
  intros Ht Hn. unfold FullTextIndexMetadata_from_json, FullTextIndexMetadata_to_json.
  read_struct. unfold with_default.
  rewrite FullTextIndexConfig_roundtrip, de_unsigned_JInt by done. by destruct m.
Qed.

Lemma ArchiveFileEntry_roundtrip f :
  ArchiveFileEntry_typed f → ArchiveFileEntry_from_json (ArchiveFileEntry_to_json f) = Ok f.
Proof.
  intros [Ho Hl]. unfold ArchiveFileEntry_from_json, ArchiveFileEntry_to_json. read_struct.
  unfold required. rewrite !de_unsigned_JInt by done. by destruct f.
Qed.

Lemma IndexHeader_json_roundtrip h :
  IndexHeader_typed h → IndexHeader_from_json (IndexHeader_to_json h) = Ok h.
Proof.
  intros [Ht Hn Hf]. unfold IndexHeader_from_json, IndexHeader_to_json. read_struct.
  unfold required. rewrite FullTextIndexMetadata_roundtrip by done.
  rewrite de_vec_fmap; [by destruct h|].
  eapply Forall_impl; [exact Hf|]. intros f. apply ArchiveFileEntry_roundtrip.
Qed.
End Roundtrip.

(** Decoding only yields entries of these types. *)
Lemma IndexHeader_from_json_typed `{Platform} j h :
  IndexHeader_from_json j = Ok h → Forall ArchiveFileEntry_typed (files h).
Proof.
  unfold IndexHeader_from_json. intros (slots & _ & Hh)%bind_Ok.
  destruct slots as [|s0 [|s1 [|]]]; try done.
  apply bind_Ok in Hh as (m & _ & (fs & Hfs & [= <-])%bind_Ok). cbn.
  destruct s1 as [[]|]; try done. apply result_mapM_Ok in Hfs.
  apply Forall_forall. intros f [i Hi]%list_elem_of_lookup.
  destruct (Forall2_lookup_r _ _ _ _ _ Hfs Hi) as (jf & _ & Hf).
  unfold ArchiveFileEntry_from_json in Hf. apply bind_Ok in Hf as (sl & _ & Hf).
  destruct sl as [|x [|y [|z [|]]]]; try done.
  apply bind_Ok in Hf as (n & _ & (o & Ho & (l' & Hl & [= <-])%bind_Ok)%bind_Ok).
  destruct y, z; try done. apply de_unsigned_Ok in Ho as [_ ?]. by apply de_unsigned_Ok in Hl as [_ ?].
Qed.
