(* ===== verification/Storage.v ===== *)
(** * The v1 archive envelope ([core/src/storage.rs])

    Writing the envelope (magic, version, header length, JSON header,
    concatenated files), reading and validating the header, and reading the
    archived files back in batches.  Writers and readers are any
    implementation of [SeekWrite] and [SeekRead]. *)

From S2P Require Import Prelude RustStd Error IoLayer Json Tokenizer Config HeaderJson.

Definition FORMAT_MAGIC : list byte := as_bytes (lit "PFTIDX01").
Definition FORMAT_VERSION : Z := 1.
Definition MAX_HEADER_BYTES : Z := 16 * 1024 * 1024.
Definition MAX_ARCHIVE_READ_BATCH_BYTES : Z := 64 * 1024 * 1024.
Definition MAX_ARCHIVE_READ_BATCH_RANGES : Z := 64.
Definition ARCHIVE_WRITE_BUFFER_BYTES : Z := 64 * 1024.

(** ** Writing *)
Section Write.
Context `{JsonText} {W : Type} `{SeekWrite W}.

(** [output.write_all(buf)?], with the conversion of the error. *)
Definition emit (buf : list byte) : ST W FtIndexError unit := ST_map_err Io (write_all buf).

Definition write_envelope_header (header : IndexHeader) : ST W FtIndexError unit :=
  header_json ← ST_lift (map_err Json (json_to_vec (IndexHeader_to_json header)));
  if MAX_HEADER_BYTES <? blen header_json then
    ST_fail (InvalidStorage [Txt "header too large: "; Int (blen header_json);
                             Txt " bytes exceeds "; Int MAX_HEADER_BYTES; Txt " bytes"])
  else
    _ ← emit FORMAT_MAGIC;
    _ ← emit (u32_to_be_bytes FORMAT_VERSION);
    header_len ← ST_lift (ok_or (try_from_unsigned u32_max (blen header_json))
                            (InvalidStorage [Txt "header too large"]));
    _ ← emit (u32_to_be_bytes header_len);
    emit header_json.

Definition write_envelope (header : IndexHeader) (files : list (str * list byte)) :
    ST W FtIndexError unit :=
  _ ← write_envelope_header header;
  _ ← ST_forM (λ file : str * list byte, emit file.2) files;
  ST_map_err Io flush.

(** [Read::read_exact] on an open file: the next [n] bytes and the rest. *)
Definition read_exact (n : Z) (file : list byte) : result IoError (list byte * list byte) :=
  if blen file <? n then Err (io_error UnexpectedEof [Txt "failed to fill whole buffer"])
  else Ok (take (Z.to_nat n) file, drop (Z.to_nat n) file).

(** The [while remaining > 0] loop; [fuel] bounds its iterations. *)
Fixpoint copy_loop (fuel : nat) (remaining : Z) (file : list byte) : ST W FtIndexError unit :=
  match fuel with
  | O => mret tt
  | S fuel' =>
      if 0 <? remaining then
        let chunk_len := Z.min remaining ARCHIVE_WRITE_BUFFER_BYTES in
        chunk ← ST_lift (map_err Io (read_exact chunk_len file));
        _ ← emit chunk.1;
        copy_loop fuel' (remaining - chunk_len) chunk.2
      else mret tt
  end.
(** Every iteration but the last copies a full buffer. *)
Definition copy_fuel (remaining : Z) : nat :=
  S (Z.to_nat (remaining / ARCHIVE_WRITE_BUFFER_BYTES)).
Definition copy_file (remaining : Z) (file : list byte) : ST W FtIndexError unit :=
  copy_loop (copy_fuel remaining) remaining file.

(** [write_envelope_from_paths]; [File::open] gives the contents of a path. *)
Definition write_envelope_from_paths {P : Type} (open : P -> result IoError (list byte))
    (header : IndexHeader) (paths : list P) : ST W FtIndexError unit :=
  if negb (blen (files header) =? blen paths) then
    ST_fail (InvalidStorage [Txt "archive header contains "; Int (blen (files header));
                             Txt " files but "; Int (blen paths); Txt " paths were provided"])
  else
    _ ← write_envelope_header header;
    _ ← ST_forM (λ ep : ArchiveFileEntry * P,
           file ← ST_lift (map_err Io (open ep.2));
           copy_file (length ep.1) file) (zip (files header) paths);
    ST_map_err Io flush.
End Write.

(** ** Header validation *)
Definition validate_archive_file_name (name : str) : Result unit :=
  if is_empty name then invalid_storage "archive file name must not be empty"
  else match components name with
       | [Normal _] => Ok tt
       | _ => Err (InvalidStorage [Txt "archive file '"; Str name; Txt "' must be a plain file name"])
       end.

(** The first loop: names checked and collected in a set, ranges computed. *)
Fixpoint collect_ranges (names : gset str) (files : list ArchiveFileEntry) :
    Result (list (Z * Z * str)) :=
  match files with
  | [] => Ok []
  | file :: files' =>
      _ ← validate_archive_file_name (name file);
      if bool_decide (name file ∈ names) then
        Err (InvalidStorage [Txt "duplicate archive file '"; Str (name file); Txt "'"])
      else
        stop ← ok_or (checked_add u64_max (offset file) (length file))
                 (InvalidStorage [Txt "archive file '"; Str (name file); Txt "' range overflow"]);
        ranges ← collect_ranges ({[name file]} ∪ names) files';
        Ok ((offset file, stop, name file) :: ranges)
  end.

(** [sort_by_key], a stable sort. *)
Section SortByKey.
Context {A : Type} (key : A -> Z).
Fixpoint insert_by_key (x : A) (l : list A) : list A :=
  match l with
  | [] => [x]
  | y :: l' => if key x <=? key y then x :: l else y :: insert_by_key x l'
  end.
Definition sort_by_key (l : list A) : list A := foldr insert_by_key [] l.
End SortByKey.

(** The second loop: sorted ranges must not overlap. *)
Fixpoint check_overlap (previous_end : Z) (ranges : list (Z * Z * str)) : Result unit :=
  match ranges with
  | [] => Ok tt
  | (start, stop, name) :: ranges' =>
      if start <? previous_end then
        Err (InvalidStorage [Txt "archive file '"; Str name; Txt "' overlaps a previous file"])
      else check_overlap stop ranges'
  end.

Definition range_start (r : Z * Z * str) : Z := r.1.1.
Definition validate_header (header : IndexHeader) : Result unit :=
  _ ← validate (config (metadata header));
  if is_empty (trim (tantivy_version (metadata header))) then
    invalid_storage "missing Tantivy version in index metadata"
  else if is_empty (files header) then invalid_storage "archive file list must not be empty"
  else
    ranges ← collect_ranges ∅ (files header);
    check_overlap 0 (sort_by_key range_start ranges).

(** ** Reading *)
Section Read.
Context `{Platform} `{JsonText} {S : Type} `{SeekRead S}.

Definition read_exact_at (pos len : Z) : ST S FtIndexError (list byte) :=
  bufs ← ST_map_err Io (pread [read_request pos len]);
  mret (default [] (head bufs)).

Definition read_header : ST S FtIndexError (IndexHeader * Z) :=
  fixed ← read_exact_at 0 16;
  if negb (bool_decide (slice 0 8 fixed = FORMAT_MAGIC)) then
    ST_fail (InvalidStorage [Txt "bad magic"])
  else
    let version := u32_from_be_bytes (slice 8 4 fixed) in
    if negb (version =? FORMAT_VERSION) then
      ST_fail (InvalidStorage [Txt "unsupported format version "; Int version])
    else
      let header_len := u32_from_be_bytes (slice 12 4 fixed) in
      if MAX_HEADER_BYTES <? header_len then
        ST_fail (InvalidStorage [Txt "header too large: "; Int header_len;
                                 Txt " bytes exceeds "; Int MAX_HEADER_BYTES; Txt " bytes"])
      else
        header_json ← read_exact_at 16 header_len;
        header ← ST_lift (map_err Json
          (j ← json_from_slice header_json; IndexHeader_from_json j));
        _ ← ST_lift (validate_header header);
        mret (header, 16 + header_len).

(** A pending file and the length of its zeroed buffer. *)
Record PendingArchiveFile : Type := pending_file {
  pending_name : str; pending_pos : Z; pending_len : Z
}.

Context {T : Type} (consume : str -> list byte -> ST S FtIndexError T).

Fixpoint consume_all (files : list (str * list byte)) (output : list T) :
    ST S FtIndexError (list T) :=
  match files with
  | [] => mret output
  | (name, data) :: files' => t ← consume name data; consume_all files' (output ++ [t])
  end.
Definition read_archive_file_batch (pending : list PendingArchiveFile) (output : list T) :
    ST S FtIndexError (list T) :=
  bufs ← ST_map_err Io
           (pread ((λ f, read_request (pending_pos f) (pending_len f)) <$> pending));
  consume_all (zip (pending_name <$> pending) bufs) output.

Fixpoint read_archive_loop (body_start : Z) (files : list ArchiveFileEntry)
    (pending : list PendingArchiveFile) (pending_bytes : Z) (output : list T) :
    ST S (Fault FtIndexError) (list T) :=
  match files with
  | [] =>
      if is_empty pending then mret output else fallible (read_archive_file_batch pending output)
  | file :: files' =>
      len ← ST_try (ok_or (try_from_unsigned usize_max (length file))
        (InvalidStorage [Txt "archive file '"; Str (name file); Txt "' is too large"]));
      pos ← ST_try (ok_or (checked_add u64_max body_start (offset file))
        (InvalidStorage [Txt "archive file '"; Str (name file); Txt "' offset overflow"]));
      let next := pending_file (name file) pos len in
      if negb (is_empty pending)
         && ((MAX_ARCHIVE_READ_BATCH_RANGES <=? blen pending)
             || (MAX_ARCHIVE_READ_BATCH_BYTES <? saturating_add usize_max pending_bytes len))
      then
        output ← fallible (read_archive_file_batch pending output);
        _ ← alloc len;
        read_archive_loop body_start files' [next] (saturating_add usize_max 0 len) output
      else
        _ ← alloc len;
        read_archive_loop body_start files' (pending ++ [next])
          (saturating_add usize_max pending_bytes len) output
  end.
Definition read_archive_files_with (body_start : Z) (files : list ArchiveFileEntry) :
    ST S (Fault FtIndexError) (list T) :=
  read_archive_loop body_start files [] 0 [].
End Read.

Definition read_archive_files `{Platform} {S} `{SeekRead S} (body_start : Z)
    (files : list ArchiveFileEntry) : ST S (Fault FtIndexError) (list (str * list byte)) :=
  read_archive_files_with (λ name data, mret (name, data)) body_start files.

(** ** The bytes of the format *)
Definition header_bytes (header_json : list byte) : list byte :=
  FORMAT_MAGIC ++ u32_to_be_bytes FORMAT_VERSION ++ u32_to_be_bytes (blen header_json) ++ header_json.
Definition envelope (header_json body : list byte) : list byte := header_bytes header_json ++ body.

(** ** Writing: what reaches the output *)
Section WriteLaws.
Context `{JsonText} {W : Type} `{SeekWrite W} (written : W -> list byte).

(** [m] appends exactly [bs] when it succeeds, a prefix of it when it fails. *)
Definition outputs (m : ST W FtIndexError unit) (bs : list byte) : Prop :=
  ∀ w, match m w with
       | (Ok _, w') => written w' = written w ++ bs
       | (Err _, w') => ∃ p, p `prefix_of` bs ∧ written w' = written w ++ p
       end.
Definition succeeds (m : ST W FtIndexError unit) : Prop := ∀ w, (m w).1 = Ok tt.

Lemma outputs_bind m bs (f : unit -> ST W FtIndexError unit) cs :
  outputs m bs → outputs (f tt) cs → outputs (m ≫= f) (bs ++ cs).
Proof.
  intros Hm Hf w. specialize (Hm w). unfold mbind, ST_bind.
  destruct (m w) as [[[]|e] w1].
  - specialize (Hf w1). destruct (f tt w1) as [[[]|e] w2].
    + by rewrite Hf, Hm, app_assoc.
    + destruct Hf as (p & Hp & ->). exists (bs ++ p). split; [by apply prefix_app|].
      by rewrite Hm, app_assoc.
  - destruct Hm as (p & Hp & ->). exists p. split; [|done]. by apply prefix_app_r.
Qed.

Lemma outputs_ret : outputs (mret tt) [].
Proof. intros w. cbn. by rewrite app_nil_r. Qed.

Lemma outputs_fail e bs : outputs (ST_fail e) bs.
Proof. intros w. cbn. exists []. split; [apply prefix_nil|]. by rewrite app_nil_r. Qed.

Lemma outputs_forM {A} (f : A -> ST W FtIndexError unit) (g : A -> list byte) l :
  Forall (λ x, outputs (f x) (g x)) l → outputs (ST_forM f l) (concat (g <$> l)).
Proof. induction 1; cbn; [apply outputs_ret|]. by apply outputs_bind. Qed.

Lemma succeeds_bind m (f : unit -> ST W FtIndexError unit) :
  succeeds m → succeeds (f tt) → succeeds (m ≫= f).
Proof.
  intros Hm Hf w. specialize (Hm w). unfold mbind, ST_bind.
  destruct (m w) as [r w1]. cbn in Hm. subst. apply Hf.
Qed.

Lemma succeeds_forM {A} (f : A -> ST W FtIndexError unit) l :
  Forall (λ x, succeeds (f x)) l → succeeds (ST_forM f l).
Proof. induction 1; cbn; [done|]. by apply succeeds_bind. Qed.

Context `{!Appends W written}.

Lemma outputs_emit bs : outputs (emit bs) bs.
Proof.
  intros w. unfold emit, ST_map_err. destruct (write_all bs w) as [[[]|e] w'] eqn:E; cbn.
  - by apply write_all_ok.
  - by eapply write_all_err.
Qed.

Lemma outputs_flush : outputs (ST_map_err Io flush) [].
Proof.
  intros w. unfold ST_map_err. pose proof (flush_written w) as Hw.
  destruct (flush w) as [[[]|e] w']; cbn in *; rewrite Hw; [by rewrite app_nil_r|].
  exists []. split; [done|]. by rewrite app_nil_r.
Qed.

Lemma outputs_header h header_json :
  json_to_vec (IndexHeader_to_json h) = Ok header_json →
  outputs (write_envelope_header h) (header_bytes header_json).
Proof.
  intros Hj. unfold write_envelope_header. rewrite Hj. cbn [map_err].
  rewrite ST_bind_lift_Ok.
  destruct (Z.ltb_spec MAX_HEADER_BYTES (blen header_json)); [apply outputs_fail|].
  repeat (apply outputs_bind; [apply outputs_emit|]).
  unfold try_from_unsigned. destruct (Z.leb_spec (blen header_json) u32_max).
  - cbn [ok_or]. rewrite ST_bind_lift_Ok. apply outputs_bind; apply outputs_emit.
  - cbn [ok_or]. rewrite ST_bind_lift_Err. apply outputs_fail.
Qed.

(** Writing the archive appends the envelope; a failed write has appended a
    prefix of it. *)
Lemma write_envelope_outputs h files header_json :
  json_to_vec (IndexHeader_to_json h) = Ok header_json →
  outputs (write_envelope h files) (envelope header_json (concat (snd <$> files))).
Proof.
  intros Hj. unfold write_envelope, envelope. apply outputs_bind; [by apply outputs_header|].
  rewrite <- (app_nil_r (concat _)). apply outputs_bind; [|apply outputs_flush].
  apply outputs_forM, Forall_forall. intros f _. apply outputs_emit.
Qed.

Lemma copy_loop_outputs fuel n file :
  n ≤ Z.of_nat fuel * ARCHIVE_WRITE_BUFFER_BYTES →
  outputs (copy_loop fuel n file) (take (Z.to_nat n) file).
Proof.
  revert n file. induction fuel as [|fuel IH]; intros n file Hfuel; cbn [copy_loop].
  { assert (Z.to_nat n = O) as -> by lia. apply outputs_ret. }
  destruct (Z.ltb_spec 0 n).
  2:{ assert (Z.to_nat n = O) as -> by lia. apply outputs_ret. }
  set (c := Z.min n ARCHIVE_WRITE_BUFFER_BYTES).
  assert (0 < c ≤ n) as Hc by (unfold c, ARCHIVE_WRITE_BUFFER_BYTES; lia).
  unfold read_exact. destruct (Z.ltb_spec (blen file) c); cbn [map_err].
  { rewrite ST_bind_lift_Err. apply outputs_fail. }
  rewrite ST_bind_lift_Ok. cbn [fst snd].
  replace (take (Z.to_nat n) file) with
    (take (Z.to_nat c) file ++ take (Z.to_nat (n - c)) (drop (Z.to_nat c) file)).
  2:{ rewrite take_take_drop. f_equal. lia. }
  apply outputs_bind; [apply outputs_emit|]. apply IH.
  unfold c, ARCHIVE_WRITE_BUFFER_BYTES in *. lia.
Qed.

Lemma copy_fuel_enough n : n ≤ Z.of_nat (copy_fuel n) * ARCHIVE_WRITE_BUFFER_BYTES.
Proof.
  unfold copy_fuel, ARCHIVE_WRITE_BUFFER_BYTES.
  destruct (Z.leb_spec n 0); [lia|]. Z.to_euclidean_division_equations. lia.
Qed.

Lemma write_envelope_from_paths_outputs {P} (open : P -> result IoError (list byte)) h paths
    header_json :
  json_to_vec (IndexHeader_to_json h) = Ok header_json →
  outputs (write_envelope_from_paths open h paths)
    (envelope header_json
      (concat ((λ ep : ArchiveFileEntry * P,
         match open ep.2 with Ok c => take (Z.to_nat (length ep.1)) c | Err _ => [] end)
       <$> zip (files h) paths))).
Proof.
  intros Hj. unfold write_envelope_from_paths, envelope.
  destruct (negb _); [apply outputs_fail|]. apply outputs_bind; [by apply outputs_header|].
  rewrite <- (app_nil_r (concat _)). apply outputs_bind; [|apply outputs_flush].
  apply outputs_forM, Forall_forall. intros [e p] _. cbn [fst snd].
  destruct (open p) as [c|err]; cbn [map_err];
    [rewrite ST_bind_lift_Ok | rewrite ST_bind_lift_Err; apply outputs_fail].
  apply copy_loop_outputs, copy_fuel_enough.
Qed.
End WriteLaws.

(** What no write changes of the output, no archive write does. *)
Section WritePreserves.
Context `{JsonText} {W B : Type} `{SeekWrite W} (f : W -> B).
Context (Hwrite : ∀ buf, preserves f (write_all (W := W) buf)) (Hflush : preserves f (flush (W := W))).

Lemma emit_preserves bs : preserves f (emit bs).
Proof. apply preserves_map_err, Hwrite. Qed.
#[local] Hint Resolve emit_preserves : preserves.
Lemma copy_loop_preserves fuel n file : preserves f (copy_loop fuel n file).
Proof. revert n file. induction fuel as [|fuel IH]; intros n file; cbn [copy_loop]; eauto 10 with preserves. Qed.
#[local] Hint Resolve copy_loop_preserves : preserves.
Lemma write_envelope_from_paths_preserves {P} (open : P -> result IoError (list byte)) h paths :
  preserves f (write_envelope_from_paths open h paths).
Proof. unfold write_envelope_from_paths, write_envelope_header, copy_file. eauto 20 with preserves. Qed.
End WritePreserves.


(** ** Writing to an output that never fails *)
Section WriteSuccess.
Context `{JsonText} {W : Type} `{SeekWrite W} `{!NeverFails W}.

Lemma succeeds_emit bs : succeeds (emit bs).
Proof.
  intros w. unfold emit, ST_map_err. pose proof (write_all_total bs w) as Hw.
  destruct (write_all bs w). cbn in *. by rewrite Hw.
Qed.

Lemma succeeds_flush : succeeds (ST_map_err Io flush).
Proof.
  intros w. unfold ST_map_err. pose proof (flush_total w) as Hw.
  destruct (flush w). cbn in *. by rewrite Hw.
Qed.

Lemma succeeds_header h header_json :
  json_to_vec (IndexHeader_to_json h) = Ok header_json → blen header_json ≤ MAX_HEADER_BYTES →
  succeeds (write_envelope_header h).
Proof.
  intros Hj Hlen. unfold write_envelope_header. rewrite Hj. cbn [map_err].
  rewrite ST_bind_lift_Ok. destruct (Z.ltb_spec MAX_HEADER_BYTES (blen header_json)); [lia|].
  repeat (apply succeeds_bind; [apply succeeds_emit|]).
  unfold try_from_unsigned. unfold MAX_HEADER_BYTES, u32_max in *.
  destruct (Z.leb_spec (blen header_json) (2 ^ 32 - 1)); [|lia].
  cbn [ok_or]. rewrite ST_bind_lift_Ok. apply succeeds_bind; apply succeeds_emit.
Qed.

Lemma copy_loop_succeeds fuel n file : n ≤ blen file → succeeds (copy_loop fuel n file).
Proof.
  revert n file. induction fuel as [|fuel IH]; intros n file Hn; cbn [copy_loop]; [done|].
  destruct (Z.ltb_spec 0 n); [|done].
  set (c := Z.min n ARCHIVE_WRITE_BUFFER_BYTES).
  assert (0 < c ≤ n) as Hc by (unfold c, ARCHIVE_WRITE_BUFFER_BYTES; lia).
  unfold read_exact. destruct (Z.ltb_spec (blen file) c); [lia|]. cbn [map_err].
  rewrite ST_bind_lift_Ok. cbn [fst snd]. apply succeeds_bind; [apply succeeds_emit|].
  apply IH. unfold blen in *. rewrite length_drop. lia.
Qed.

Lemma write_envelope_succeeds h files header_json :
  json_to_vec (IndexHeader_to_json h) = Ok header_json → blen header_json ≤ MAX_HEADER_BYTES →
  succeeds (write_envelope h files).
Proof.
  intros Hj Hlen. unfold write_envelope. apply succeeds_bind; [by eapply succeeds_header|].
  apply succeeds_bind; [|apply succeeds_flush].
  apply succeeds_forM, Forall_forall. intros f _. apply succeeds_emit.
Qed.

Lemma write_envelope_from_paths_succeeds {P} (open : P -> result IoError (list byte)) h paths
    header_json :
  json_to_vec (IndexHeader_to_json h) = Ok header_json → blen header_json ≤ MAX_HEADER_BYTES →
  Forall2 (λ e p, ∃ c, open p = Ok c ∧ length e ≤ blen c) (files h) paths →
  succeeds (write_envelope_from_paths open h paths).
Proof.
  intros Hj Hlen Hp. unfold write_envelope_from_paths.
  assert (blen (files h) = blen paths) as Heq.
  { unfold blen. f_equal. by eapply Forall2_length. }
  rewrite Heq, Z.eqb_refl. cbn [negb]. apply succeeds_bind; [by eapply succeeds_header|].
  apply succeeds_bind; [|apply succeeds_flush]. apply succeeds_forM. clear Heq.
  induction Hp as [|e p es ps (c & Hc & Hlc) _ IH]; cbn [zip zip_with]; constructor; [|done].
  cbn [fst snd]. rewrite Hc. cbn [map_err]. rewrite ST_bind_lift_Ok.
  by apply copy_loop_succeeds.
Qed.
End WriteSuccess.

(** ** The stable sort *)
Section SortLemmas.
Context {A : Type} (key : A -> Z).

Lemma insert_by_key_Permutation x l : insert_by_key key x l ≡ₚ x :: l.
Proof.
  induction l as [|y l IH]; cbn; [done|]. destruct (key x <=? key y); [done|].
  rewrite IH. apply Permutation_swap.
Qed.

Lemma sort_by_key_Permutation l : sort_by_key key l ≡ₚ l.
Proof. 
  induction l as [|x l IH]; [done|]. cbn [sort_by_key foldr].
  rewrite insert_by_key_Permutation. by constructor.
Qed.

Lemma insert_by_key_sorted x l :
  StronglySorted (λ a b, key a ≤ key b) l →
  StronglySorted (λ a b, key a ≤ key b) (insert_by_key key x l).
Proof.
  induction 1 as [|y l Hl IH Hy]; cbn; [by repeat constructor|].
  destruct (Z.leb_spec (key x) (key y)).
  - constructor; [by constructor|]. constructor; [done|].
    eapply Forall_impl; [exact Hy|]. cbn. lia.
  - constructor; [done|]. rewrite insert_by_key_Permutation. constructor; [lia|done].
Qed.

Lemma sort_by_key_sorted l : StronglySorted (λ a b, key a ≤ key b) (sort_by_key key l).
Proof. induction l; [constructor|]. by apply insert_by_key_sorted. Qed.

(** A list that is sorted already is left as it is: equal keys keep their
    order. *)
Lemma sort_by_key_id l : StronglySorted (λ a b, key a ≤ key b) l → sort_by_key key l = l.
Proof.
  induction 1 as [|x l Hl IH Hx]; [done|]. cbn [sort_by_key foldr].
  change (foldr (insert_by_key key) [] l) with (sort_by_key key l). rewrite IH.
  destruct l as [|y l]; cbn; [done|]. inversion Hx; subst.
  destruct (Z.leb_spec (key x) (key y)); [done|lia].
Qed.

Lemma insert_by_key_stable k x l :
  filter (λ a, key a = k) (insert_by_key key x l)
  = filter (λ a, key a = k) (x :: l).
Proof.
  induction l as [|y l IH]; cbn [insert_by_key]; [done|].
  destruct (Z.leb_spec (key x) (key y)); [done|].
  destruct (decide (key y = k)).
  - rewrite filter_cons_True, IH by done.
    rewrite !(filter_cons_False _ x) by lia. by rewrite filter_cons_True.
  - rewrite filter_cons_False, IH by done.
    destruct (decide (key x = k)).
    + rewrite !(filter_cons_True _ x) by done. by rewrite filter_cons_False.
    + rewrite !(filter_cons_False _ x) by done. by rewrite filter_cons_False.
Qed.

Lemma sort_by_key_stable k l :
  filter (λ a, key a = k) (sort_by_key key l) = filter (λ a, key a = k) l.
Proof.
  induction l as [|x l IH]; [done|]. cbn [sort_by_key foldr]. rewrite insert_by_key_stable.
  destruct (decide (key x = k)).
  - rewrite !filter_cons_True by done. f_equal. exact IH.
  - rewrite !filter_cons_False by done. exact IH.
Qed.
End SortLemmas.

(** ** Which headers are accepted *)
Definition archive_name (s : str) : Prop := ∃ c, components s = [Normal c].
Definition file_end (f : ArchiveFileEntry) : Z := offset f + length f.
Definition disjoint_files (f g : ArchiveFileEntry) : Prop :=
  file_end f ≤ offset g ∨ file_end g ≤ offset f.
Definition entry_range (f : ArchiveFileEntry) : Z * Z * str := (offset f, file_end f, name f).

Lemma validate_archive_file_name_Ok s : validate_archive_file_name s = Ok tt ↔ archive_name s.
Proof.
  unfold validate_archive_file_name, archive_name, invalid_storage. destruct s as [|c s].
  - cbn. split; [done|]. intros [c Hc]. done.
  - cbn [is_empty]. destruct (components (c :: s)) as [|[] []]; naive_solver.
Qed.

Lemma collect_ranges_Ok names files rs :
  collect_ranges names files = Ok rs ↔
  Forall (λ f, archive_name (name f)) files ∧ NoDup (name <$> files) ∧
  Forall (λ f, name f ∉ names) files ∧ Forall (λ f, file_end f ≤ u64_max) files ∧
  rs = entry_range <$> files.
Proof.
  revert names rs. induction files as [|f files IH]; intros names rs; cbn [collect_ranges].
  - rewrite !Forall_nil. cbn. split; [intros [= <-]|naive_solver].
    repeat split; constructor.
  - rewrite !Forall_cons, fmap_cons, NoDup_cons, bind_unit_Ok, validate_archive_file_name_Ok.
    case_bool_decide as Hd.
    { split; [by intros [_ ?]|naive_solver]. }
    rewrite bind_Ok. setoid_rewrite bind_Ok. setoid_rewrite ok_or_Ok.
    setoid_rewrite checked_add_Some. setoid_rewrite IH. unfold entry_range, file_end. split.
    + intros (Hn & ? & [Hle ->] & rs' & (H1 & H2 & H3 & H4 & ->) & [= <-]).
      rewrite Forall_forall in H3. split_and!; try done.
      * rewrite list_elem_of_fmap. intros (g & Hg & Hin). specialize (H3 g Hin). set_solver.
      * apply Forall_forall. intros g Hin. specialize (H3 g Hin). set_solver.
    + intros ([Hn H1] & [Hni Hnd] & [Hf Hfs] & [Hle H4] & ->).
      split; [done|]. eexists. split; [done|]. eexists. split; [|done].
      split_and!; try done. rewrite Forall_forall in *. intros g Hin.
      specialize (Hfs g Hin). assert (name g ≠ name f); [|set_solver].
      intros Heq. apply Hni. rewrite <- Heq. by apply list_elem_of_fmap_2.
Qed.

(** Ranges that follow one another from [previous_end] on. *)
Fixpoint chained (previous_end : Z) (ranges : list (Z * Z * str)) : Prop :=
  match ranges with
  | [] => True
  | (start, stop, _) :: ranges' => previous_end ≤ start ∧ chained stop ranges'
  end.

Lemma check_overlap_Ok p rs : check_overlap p rs = Ok tt ↔ chained p rs.
Proof.
  revert p. induction rs as [|[[s e] n] rs IH]; intros p; cbn; [done|].
  destruct (Z.ltb_spec s p); [naive_solver lia|]. rewrite IH. naive_solver.
Qed.

Lemma validate_header_Ok h :
  validate_header h = Ok tt ↔
  FullTextIndexConfig_valid (config (metadata h)) ∧ trim (tantivy_version (metadata h)) ≠ [] ∧
  files h ≠ [] ∧ Forall (λ f, archive_name (name f)) (files h) ∧ NoDup (name <$> files h) ∧
  Forall (λ f, file_end f ≤ u64_max) (files h) ∧
  chained 0 (sort_by_key range_start (entry_range <$> files h)).
Proof.
  unfold validate_header, invalid_storage. rewrite bind_unit_Ok, validate_Ok. rewrite <- !is_empty_false.
  destruct (is_empty (trim _)); [naive_solver|]. destruct (is_empty (files h)); [naive_solver|].
  rewrite bind_Ok. setoid_rewrite collect_ranges_Ok. setoid_rewrite check_overlap_Ok.
  split.
  - intros (Hc & rs & (H1 & H2 & _ & H4 & ->) & H5). done.
  - intros (Hc & _ & _ & H1 & H2 & H4 & H5). split; [done|]. eexists. split; [|done].
    split_and!; try done. apply Forall_forall. set_solver.
Qed.

Lemma chained_StronglySorted p rs :
  Forall (λ r : Z * Z * str, r.1.1 ≤ r.1.2) rs → chained p rs →
  Forall (λ r : Z * Z * str, p ≤ r.1.1) rs ∧
  StronglySorted (λ r r' : Z * Z * str, r.1.2 ≤ r'.1.1) rs.
Proof.
  intros Hrs. revert p. induction Hrs as [|[[s e] n] rs Hr _ IH]; intros p Hc; cbn in *.
  { by repeat constructor. }
  destruct Hc as [Hp Hc]. destruct (IH _ Hc) as [Hf Hs]. split; constructor; auto.
  eapply Forall_impl; [exact Hf|]. cbn. lia.
Qed.

Lemma StronglySorted_elem {A} (R : A -> A -> Prop) l a b :
  StronglySorted R l → a ∈ l → b ∈ l → a = b ∨ R a b ∨ R b a.
Proof.
  induction 1 as [|x l Hl IH Hx]; [set_solver|]. rewrite Forall_forall in Hx.
  rewrite !elem_of_cons. naive_solver.
Qed.

(** Accepted headers have pairwise disjoint files. *)
Lemma chained_disjoint fs f g :
  Forall (λ f, 0 ≤ length f) fs → chained 0 (sort_by_key range_start (entry_range <$> fs)) →
  f ∈ fs → g ∈ fs → name f ≠ name g → disjoint_files f g.
Proof.
  intros Hlen Hc Hf Hg Hne.
  apply chained_StronglySorted in Hc as [_ Hs].
  2:{ rewrite sort_by_key_Permutation. apply Forall_fmap. eapply Forall_impl; [exact Hlen|].
      intros x Hx. cbn in *. unfold file_end. lia. }
  destruct (StronglySorted_elem _ _ (entry_range f) (entry_range g) Hs) as [He | [He | He]].
  - rewrite sort_by_key_Permutation. by apply list_elem_of_fmap_2.
  - rewrite sort_by_key_Permutation. by apply list_elem_of_fmap_2.
  - unfold entry_range in He. congruence.
  - by left.
  - by right.
Qed.

(** Pairwise disjoint files of positive length are accepted. *)
Lemma disjoint_chained fs :
  NoDup fs → Forall (λ f, 0 ≤ offset f ∧ 0 < length f) fs →
  (∀ f g, f ∈ fs → g ∈ fs → f ≠ g → disjoint_files f g) →
  chained 0 (sort_by_key range_start (entry_range <$> fs)).
Proof.
  intros Hnd Hpos Hdis.
  set (rs := sort_by_key range_start (entry_range <$> fs)).
  assert (∀ r, r ∈ rs → ∃ f, r = entry_range f ∧ f ∈ fs) as Hr.
  { intros r. unfold rs. rewrite sort_by_key_Permutation, list_elem_of_fmap. done. }
  assert (NoDup rs) as Hndr.
  { unfold rs. rewrite sort_by_key_Permutation. apply NoDup_fmap_2; [|done].
    intros [n o l] [n' o' l']. unfold entry_range, file_end. cbn. intros [= -> He ->].
    f_equal. lia. }
  pose proof (sort_by_key_sorted range_start (entry_range <$> fs)) as Hs. fold rs in Hs.
  rewrite Forall_forall in Hpos.
  assert (∀ p, (∀ r, r ∈ rs → p ≤ r.1.1) → chained p rs) as Hgoal.
  2:{ apply Hgoal. intros r (f & -> & Hf)%Hr. cbn. apply Hpos in Hf. lia. }
  clearbody rs. induction Hs as [|r rs Hs IH Hall]; intros p Hp; cbn; [done|].
  destruct r as [[s e] n] eqn:Er. split.
  { by specialize (Hp (s, e, n) (list_elem_of_here _ _)). }
  apply NoDup_cons in Hndr as [Hni Hndr]. apply IH; [set_solver|done|].
  intros r' Hr'. destruct (Hr (s, e, n)) as (f & Hf & Hinf); [left|].
  destruct (Hr r') as (g & -> & Hing); [by right|].
  assert (f ≠ g) as Hne by (intros ->; apply Hni; by rewrite Hf).
  rewrite Forall_forall in Hall. specialize (Hall _ Hr'). unfold range_start in Hall.
  unfold entry_range in Hf. injection Hf as -> -> ->. cbn in *.
  pose proof (Hpos _ Hing). destruct (Hdis f g Hinf Hing Hne); unfold file_end in *; lia.
Qed.

(** ** The JSON of a header is exact *)
Lemma json_exact_strings l : json_exact (JArray (JString <$> l)) = true.
Proof. apply json_exact_array, Forall_forall. done. Qed.

Lemma json_exact_unsigned z : 0 ≤ z ≤ u64_max → json_exact (JInt z) = true.
Proof. cbn. intros. destruct (Z.leb_spec (- 2 ^ 63) z), (Z.leb_spec z u64_max); done || lia. Qed.

Lemma TokenizerConfig_exact `{Platform} c :
  TokenizerConfig_typed c → json_exact (TokenizerConfig_to_json c) = true.
Proof.
  intros [H1 H2 H3]. pose proof usize_max_bounds. unfold TokenizerConfig_to_json.
  cbn [json_exact forallb snd]. change (forallb json_exact (JString <$> stop_words c)) with
    (json_exact (JArray (JString <$> stop_words c))).
  rewrite json_exact_strings.
  repeat match goal with
  | |- context [(- 2 ^ 63 <=? ?z) && (?z <=? u64_max)] =>
      change ((- 2 ^ 63 <=? z) && (z <=? u64_max)) with (json_exact (JInt z));
      rewrite (json_exact_unsigned z) by lia
  end. done.
Qed.

Lemma IndexHeader_exact `{Platform} h :
  IndexHeader_typed h → json_exact (IndexHeader_to_json h) = true.
Proof.
  intros [Ht Hn Hf]. pose proof (TokenizerConfig_exact _ Ht) as Hk.
  pose proof (json_exact_unsigned _ Hn) as Hd.
  pose proof (json_exact_strings (text_fields (config (metadata h)))) as Hs.
  assert (json_exact (JArray (ArchiveFileEntry_to_json <$> files h)) = true) as Ha.
  { apply json_exact_array. eapply Forall_impl; [exact Hf|]. intros f [Ho Hl].
    pose proof (json_exact_unsigned _ Ho) as Ho'. pose proof (json_exact_unsigned _ Hl) as Hl'.
    cbn in Ho', Hl' |- *. by rewrite Ho', Hl'. }
  cbn -[TokenizerConfig_to_json ArchiveFileEntry_to_json] in Hd, Hs, Ha |- *.
  by rewrite Hk, Hd, Hs, Ha.
Qed.

Lemma json_depth_strings l : json_depth (JArray (JString <$> l)) ≤ 1.
Proof. apply json_depth_array; [done|]. apply Forall_fmap, Forall_forall. done. Qed.

Lemma IndexHeader_depth h : json_depth (IndexHeader_to_json h) ≤ 127.
Proof.
  pose proof (json_depth_strings (stop_words (tokenizer_config_of (config (metadata h))))) as H1.
  pose proof (json_depth_strings (text_fields (config (metadata h)))) as H2.
  assert (json_depth (JArray (ArchiveFileEntry_to_json <$> files h)) ≤ 2) as H3.
  { apply json_depth_array; [done|]. apply Forall_fmap, Forall_forall. intros f _. cbn. lia. }
  cbn -[ArchiveFileEntry_to_json] in H1, H2, H3 |- *. lia.
Qed.

Lemma header_text_roundtrip `{Platform} `{JsonText} h :
  IndexHeader_typed h →
  ∃ text, json_to_vec (IndexHeader_to_json h) = Ok text ∧
    (j ← json_from_slice text; IndexHeader_from_json j) = Ok h.
Proof.
  intros Ht. destruct (json_text_roundtrip (IndexHeader_to_json h)) as (text & Hv & Hs).
  - by apply IndexHeader_exact.
  - apply IndexHeader_depth.
  - exists text. split; [done|]. rewrite Hs. by apply IndexHeader_json_roundtrip.
Qed.

(** ** Reading the header *)
Lemma blen_header_bytes text : blen (header_bytes text) = 16 + blen text.
Proof.
  unfold header_bytes. rewrite !blen_app. change (blen FORMAT_MAGIC) with 8.
  change (blen (u32_to_be_bytes _)) with 4. change (blen (u32_to_be_bytes _)) with 4. lia.
Qed.

Section ReadLaws.
Context `{Platform} `{JsonText} {S : Type} `{SeekRead S} {data_of : S -> list byte}.
Context `{!ReadsData S data_of}.

(** [read_exact_at] returns the bytes asked for or fails. *)
Lemma read_exact_at_sound pos len s bs s' :
  0 ≤ pos → 0 ≤ len → read_exact_at pos len s = (Ok bs, s') →
  pos + len ≤ blen (data_of s) ∧ bs = slice pos len (data_of s) ∧ data_of s' = data_of s.
Proof.
  intros Hp Hl Hr. unfold read_exact_at in Hr. inv_ok.
  pose proof (pread_data (data_of := data_of) [read_request pos len] s) as Hd.
  rewrite H2 in Hd. apply pread_sound in H2 as [Hin ->]; [|by repeat constructor].
  rewrite Forall_singleton in Hin. split_and!; [exact Hin|done|exact Hd].
Qed.

Lemma read_exact_at_data pos len s : data_of (read_exact_at pos len s).2 = data_of s.
Proof.
  unfold read_exact_at, mbind, ST_bind, ST_map_err.
  pose proof (pread_data (data_of := data_of) [read_request pos len] s) as Hd.
  by destruct (pread _ s) as [[] ?].
Qed.

(** A header that is returned was validated, and the data starts with its
    prefix and its text. *)
Lemma read_header_sound s h body_start s' :
  read_header s = (Ok (h, body_start), s') →
  ∃ text body, data_of s = envelope text body ∧ blen text ≤ MAX_HEADER_BYTES ∧
    (j ← json_from_slice text; IndexHeader_from_json j) = Ok h ∧
    validate_header h = Ok tt ∧ body_start = blen (header_bytes text) ∧ data_of s' = data_of s.
Proof.
  unfold read_header. intros Hr. apply ST_bind_Ok in Hr as (fixed & s1 & Hf & Hr).
  apply read_exact_at_sound in Hf as (Hlen & -> & Hd1); [|lia..].
  set (d := data_of s) in *. case_bool_decide as Hmagic; [|done]. cbn [negb] in Hr.
  rewrite !slice_slice in * by lia.
  case_if_in Hr; [done|]. bool_to_prop. case_if_in Hr; [done|]. bool_to_prop.
  apply ST_bind_Ok in Hr as (text & s2 & Ht & Hr).
  assert (List.length (slice (0 + 8) 4 d) = 4%nat) as Hl8.
  { assert (blen (slice (0 + 8) 4 d) = 4) by (apply blen_slice; lia). unfold blen in *. lia. }
  assert (List.length (slice (0 + 12) 4 d) = 4%nat) as Hl12.
  { assert (blen (slice (0 + 12) 4 d) = 4) by (apply blen_slice; lia). unfold blen in *. lia. }
  set (header_len := u32_from_be_bytes (slice (0 + 12) 4 d)) in *.
  assert (0 ≤ header_len) as Hhl by apply (u32_from_be_bytes_range _ Hl12).
  apply read_exact_at_sound in Ht as (Hlen' & -> & Hd2); [|lia..]. rewrite Hd1 in *.
  inv_ok. unfold ST_lift in *. simplify_eq. inv_ok. destruct x1.
  set (d := data_of s) in *.
  assert (blen (slice 16 header_len d) = header_len) as Hlt by (apply blen_slice; lia).
  exists (slice 16 header_len d), (drop (Z.to_nat (16 + header_len)) d).
  rewrite blen_header_bytes, Hlt. split_and!; try done; cycle 1.
  { by match goal with E : json_from_slice _ = Ok _ |- _ => rewrite E end. }
  unfold envelope, header_bytes. rewrite Hlt, <- Hmagic.
  rewrite <- Heqb. unfold header_len at 1. rewrite !u32_be_roundtrip' by done.
  rewrite <- !app_assoc. change d with (drop (Z.to_nat 0) d) at 1.
  rewrite (drop_slice 0 8), (drop_slice (0 + 8) 4), (drop_slice (0 + 8 + 4) 4),
    (drop_slice (0 + 8 + 4 + 4) header_len) by lia. done.
Qed.
End ReadLaws.

Section ReadComplete.
Context `{Platform} `{JsonText} {S : Type} `{SeekRead S} {data_of : S -> list byte}.
Context `{!ReadsData S data_of} {max_len : Z} `{!ReadsAll S data_of max_len}.

Lemma pread_in_range reqs s :
  blen (data_of s) ≤ max_len → Forall request_wf reqs → Forall (in_range (data_of s)) reqs →
  ∃ s', pread reqs s = (Ok (read_range (data_of s) <$> reqs), s') ∧ data_of s' = data_of s.
Proof.
  intros Hd Hwf Hin. pose proof (pread_complete reqs s Hd Hwf Hin) as Hok.
  pose proof (pread_data (data_of := data_of) reqs s) as Hd'.
  destruct (pread reqs s) as [[bufs|e] s'] eqn:E; [|done]. exists s'. split; [|done].
  apply pread_sound in E as [_ ->]; done.
Qed.

Lemma read_exact_at_complete pos len s :
  blen (data_of s) ≤ max_len → 0 ≤ pos → 0 ≤ len → pos + len ≤ blen (data_of s) →
  ∃ s', read_exact_at pos len s = (Ok (slice pos len (data_of s)), s') ∧ data_of s' = data_of s.
Proof.
  intros Hd Hp Hl Hin. destruct (pread_in_range [read_request pos len] s) as (s' & Hr & Hd').
  - done.
  - by repeat constructor.
  - by repeat constructor.
  - exists s'. split; [|done]. unfold read_exact_at, mbind, ST_bind, ST_map_err. by rewrite Hr.
Qed.

(** Reading back the header of an envelope. *)
Lemma read_header_complete s h text body :
  blen (data_of s) ≤ max_len → data_of s = envelope text body →
  blen text ≤ MAX_HEADER_BYTES →
  (j ← json_from_slice text; IndexHeader_from_json j) = Ok h → validate_header h = Ok tt →
  ∃ s', read_header s = (Ok (h, blen (header_bytes text)), s') ∧ data_of s' = data_of s.
Proof.
  intros Hd He Hlen Hj Hv. unfold read_header. rewrite blen_header_bytes.
  pose proof (blen_nonneg text) as Ht0. pose proof (blen_nonneg body) as Hb0.
  assert (blen (data_of s) = 16 + blen text + blen body) as Hsize.
  { rewrite He. unfold envelope. by rewrite blen_app, blen_header_bytes. }
  destruct (read_exact_at_complete 0 16 s) as (s1 & Hr1 & Hd1); [lia..|].
  rewrite (ST_bind_run_Ok _ _ _ _ _ Hr1), !slice_slice by lia.
  destruct (read_exact_at_complete 16 (blen text) s1) as (s2 & Hr2 & Hd2); [rewrite ?Hd1; lia..|].
  rewrite Hd1 in Hr2. rewrite Hsize in *. rewrite He in *. unfold envelope, header_bytes in *.
  rewrite <- !app_assoc in *.
  rewrite (slice_app_l (0 + 0)) by done. rewrite bool_decide_true by done. cbn [negb].
  rewrite !(slice_app_r _ _ FORMAT_MAGIC) in * by done.
  change (blen FORMAT_MAGIC) with 8 in *.
  rewrite (slice_app_l (0 + 8 - 8)) by done.
  rewrite !(slice_app_r _ _ (u32_to_be_bytes FORMAT_VERSION)) in * by done.
  change (blen (u32_to_be_bytes FORMAT_VERSION)) with 4 in *.
  rewrite (slice_app_l (0 + 12 - 8 - 4)) by done.
  rewrite (slice_app_r _ _ (u32_to_be_bytes _)) in Hr2 by done.
  change (blen (u32_to_be_bytes (blen text))) with 4 in *.
  change (16 - 8 - 4 - 4) with 0 in Hr2. rewrite slice_app_l, slice_all in Hr2 by lia.
  change (slice (0 + 8 - 8) 4 (u32_to_be_bytes FORMAT_VERSION)) with (u32_to_be_bytes FORMAT_VERSION).
  change (slice (0 + 12 - 8 - 4) 4 (u32_to_be_bytes (blen text))) with (u32_to_be_bytes (blen text)).
  rewrite (u32_be_roundtrip (blen text)) by (unfold MAX_HEADER_BYTES, u32_max in *; lia).
  rewrite (u32_be_roundtrip FORMAT_VERSION) by done. rewrite Z.eqb_refl. cbn [negb].
  destruct (Z.ltb_spec MAX_HEADER_BYTES (blen text)); [lia|].
  rewrite (ST_bind_run_Ok _ _ _ _ _ Hr2), Hj. cbn [map_err]. rewrite ST_bind_lift_Ok, Hv, ST_bind_lift_Ok.
  exists s2. split; [|congruence]. done.
Qed.
End ReadComplete.

(** ** Reading the archived files *)
Section ArchiveReads.
Context `{Platform} {S : Type} `{SeekRead S} {data_of : S -> list byte}.

Definition pending_request (f : PendingArchiveFile) : ReadRequest :=
  read_request (pending_pos f) (pending_len f).
Definition pending_of (body_start : Z) (f : ArchiveFileEntry) : PendingArchiveFile :=
  pending_file (name f) (body_start + offset f) (length f).
(** What reading one file gives. *)
Definition file_data (d : list byte) (f : PendingArchiveFile) : str * list byte :=
  (pending_name f, slice (pending_pos f) (pending_len f) d).

Abbreviation collect := (λ (name : str) (data : list byte), mret (M := ST S FtIndexError) (name, data)).

Lemma consume_all_collect l out s : consume_all collect l out s = (Ok (out ++ l), s).
Proof.
  revert out. induction l as [|[n d] l IH]; intros out; cbn [consume_all].
  { by rewrite app_nil_r. }
  change (consume_all collect l (out ++ [(n, d)]) s = (Ok (out ++ (n, d) :: l), s)).
  by rewrite IH, <- app_assoc.
Qed.

Context `{!ReadsData S data_of}.

Lemma batch_sound pending out s r s' :
  Forall (request_wf ∘ pending_request) pending →
  read_archive_file_batch collect pending out s = (Ok r, s') →
  r = out ++ (file_data (data_of s) <$> pending) ∧ data_of s' = data_of s.
Proof.
  intros Hwf Hr. unfold read_archive_file_batch in Hr.
  apply ST_bind_Ok in Hr as (bufs & s1 & Hp & Hr). apply ST_map_err_Ok in Hp.
  pose proof (pread_data (data_of := data_of) (pending_request <$> pending) s) as Hd.
  unfold pending_request in Hd at 1. rewrite Hp in Hd. cbn in Hd.
  apply pread_sound in Hp as [_ ->]; [|by apply Forall_fmap].
  rewrite consume_all_collect in Hr. simplify_eq. split; [|done]. f_equal.
  clear. induction pending as [|f fs IH]; cbn; [done|]. by f_equal.
Qed.

Lemma read_archive_loop_sound body_start fs pending pb out s r s' :
  0 ≤ body_start → Forall ArchiveFileEntry_typed fs →
  Forall (request_wf ∘ pending_request) pending →
  read_archive_loop collect body_start fs pending pb out s = (Ok r, s') →
  r = out ++ (file_data (data_of s) <$> pending ++ (pending_of body_start <$> fs)) ∧
  data_of s' = data_of s.
Proof.
  intros Hb Hfs. revert pending pb out s.
  induction Hfs as [|f fs [Ho Hl] _ IH]; intros pending pb out s Hwf Hr; cbn [read_archive_loop] in Hr.
  - rewrite app_nil_r. destruct pending as [|p ps].
    + cbn in Hr |- *. unfold mret, ST_ret in Hr. simplify_eq. by rewrite app_nil_r.
    + cbn [is_empty] in Hr. apply fallible_run in Hr. by eapply batch_sound in Hr.
  - apply ST_bind_Ok in Hr as (len & s1 & Hlen & Hr). unfold ST_try, ST_lift in Hlen.
    injection Hlen as Hlen <-. rewrite map_err_Ok, ok_or_Ok, try_from_unsigned_Some in Hlen. destruct Hlen as [_ ->].
    apply ST_bind_Ok in Hr as (pos & s1 & Hpos & Hr). unfold ST_try, ST_lift in Hpos.
    injection Hpos as Hpos <-. rewrite map_err_Ok, ok_or_Ok, checked_add_Some in Hpos. destruct Hpos as [_ ->].
    assert (request_wf (pending_request (pending_of body_start f))) as Hnext by (split; cbn; lia).
    case_if_in Hr.
    + apply ST_bind_Ok in Hr as (out1 & s1 & Hbatch%fallible_run & Hr).
      apply batch_sound in Hbatch as [-> Hd1]; [|done]. apply alloc_run in Hr as [_ Hr].
      apply IH in Hr as [-> Hd]; [|constructor; [exact Hnext|constructor]]. rewrite Hd1 in *. split; [|done].
      by rewrite !fmap_app, <- app_assoc.
    + apply alloc_run in Hr as [_ Hr]. apply IH in Hr as [-> Hd]; [|apply Forall_app; split; [done|constructor; [exact Hnext|constructor]]].
      split; [|done]. by rewrite <- app_assoc.
Qed.
End ArchiveReads.

Section ArchiveComplete.
Context `{Platform} {S : Type} `{SeekRead S} {data_of : S -> list byte}.
Context `{!ReadsData S data_of} {max_len : Z} `{!ReadsAll S data_of max_len}.
Abbreviation collect := (λ (name : str) (data : list byte), mret (M := ST S FtIndexError) (name, data)).

Lemma batch_complete pending out s :
  blen (data_of s) ≤ max_len →
  Forall (request_wf ∘ pending_request) pending →
  Forall (in_range (data_of s) ∘ pending_request) pending →
  ∃ s', read_archive_file_batch collect pending out s
        = (Ok (out ++ (file_data (data_of s) <$> pending)), s') ∧ data_of s' = data_of s.
Proof.
  intros Hd Hwf Hin.
  destruct (pread_in_range (pending_request <$> pending) s) as (s' & Hr & Hd'); [done|by apply Forall_fmap..|].
  exists s'. split; [|done].
  assert (read_archive_file_batch collect pending out s
    = consume_all collect (zip (pending_name <$> pending)
        (read_range (data_of s) <$> (pending_request <$> pending))) out s') as ->.
  { unfold read_archive_file_batch. erewrite ST_bind_run_Ok; [reflexivity|]. by apply ST_map_err_Ok. }
  rewrite consume_all_collect. do 3 f_equal. clear.
  induction pending as [|f fs IH]; cbn; [done|]. by f_equal.
Qed.

Lemma read_archive_loop_complete body_start fs pending pb out s :
  blen (data_of s) ≤ max_len → 0 ≤ body_start → Forall ArchiveFileEntry_typed fs →
  Forall (λ f, body_start + file_end f ≤ blen (data_of s)) fs → Forall (λ f, length f ≤ isize_max) fs →
  Forall (request_wf ∘ pending_request) pending →
  Forall (in_range (data_of s) ∘ pending_request) pending →
  ∃ s', read_archive_loop collect body_start fs pending pb out s
    = (Ok (out ++ (file_data (data_of s) <$> pending ++ (pending_of body_start <$> fs))), s')
    ∧ data_of s' = data_of s.
Proof.
  intros Hd Hb Hfs. revert pending pb out s Hd. pose proof usize_max_bounds as Hu. pose proof max_len_addressable as Hlim.
  induction Hfs as [|f fs [Ho Hl] _ IH]; intros pending pb out s Hd Hend Hfit Hwf Hin; cbn [read_archive_loop].
  - rewrite app_nil_r. destruct pending as [|p ps]; [|by setoid_rewrite fallible_Ok; apply batch_complete].
    exists s. cbn. by rewrite app_nil_r.
  - apply Forall_cons in Hend as [Hf Hend]. apply Forall_cons in Hfit as [Hvec Hfit]. unfold file_end in Hf.
    rewrite (proj2 (try_from_unsigned_Some usize_max (length f) (length f))) by lia.
    unfold ST_try. cbn [ok_or map_err]. rewrite ST_bind_lift_Ok.
    rewrite (proj2 (checked_add_Some u64_max body_start (offset f) (body_start + offset f))) by lia.
    cbn [ok_or map_err]. rewrite ST_bind_lift_Ok.
    assert (request_wf (pending_request (pending_of body_start f))) as Hnext by (split; cbn; lia).
    assert (in_range (data_of s) (pending_request (pending_of body_start f))) as Hnin
      by (unfold in_range; cbn; lia).
    destruct (_ && _).
    + destruct (batch_complete pending out s Hd Hwf Hin) as (s1 & Hr & Hd1).
      rewrite (ST_bind_run_Ok _ _ _ _ _ (proj2 (fallible_Ok _ _ _ _) Hr)).
      rewrite (ST_bind_run_Ok _ _ _ _ _ (alloc_Ok _ s1 Hvec)).
      destruct (IH [pending_of body_start f] (saturating_add usize_max 0 (length f))
        (out ++ (file_data (data_of s) <$> pending)) s1) as (s2 & Hr2 & Hd2);
        rewrite ?Hd1; try done; [by apply Forall_singleton..|].
      exists s2. split; [|congruence]. cbv zeta in Hr2.
      etransitivity; [exact Hr2|]. rewrite Hd1, !fmap_app, <- app_assoc. done.
    + rewrite (ST_bind_run_Ok _ _ _ _ _ (alloc_Ok _ s Hvec)).
      destruct (IH (pending ++ [pending_of body_start f]) (saturating_add usize_max pb (length f))
        out s) as (s2 & Hr2 & Hd2); try done; [by apply Forall_app; split; [|apply Forall_singleton]..|].
      exists s2. split; [|done]. etransitivity; [exact Hr2|]. by rewrite <- app_assoc.
Qed.
End ArchiveComplete.

(** ** The size of the batches *)

(** A reader that records the calls it serves. *)
Record Recorder (S : Type) : Type := recorder { rec_inner : S; rec_calls : list (list ReadRequest) }.
Arguments recorder {S} _ _.
Arguments rec_inner {S} _.
Arguments rec_calls {S} _.
#[export] Instance Recorder_SeekRead S `{SeekRead S} : SeekRead (Recorder S) := λ reqs s,
  let '(r, s') := pread reqs (rec_inner s) in (r, recorder s' (rec_calls s ++ [reqs])).

#[export] Instance Recorder_ReadsData S `{SeekRead S} (data_of : S -> list byte) `{!ReadsData S data_of} :
  ReadsData (Recorder S) (data_of ∘ rec_inner).
Proof.
  split; unfold pread, Recorder_SeekRead.
  - intros reqs [s c]. cbn. pose proof (pread_data reqs s) as Hd. by destruct (pread reqs s).
  - intros reqs [s c] bufs s' Hwf Hr. cbn in *. destruct (pread reqs s) as [r s1] eqn:E.
    simplify_eq. by eapply pread_sound.
Qed.

Definition total_len (reqs : list ReadRequest) : Z := foldr (λ r n, buf_len r + n) 0 reqs.
Definition batch_bounded (reqs : list ReadRequest) : Prop :=
  1 ≤ blen reqs ≤ MAX_ARCHIVE_READ_BATCH_RANGES ∧
  (blen reqs = 1 ∨ total_len reqs ≤ MAX_ARCHIVE_READ_BATCH_BYTES).

Lemma total_len_app l k : total_len (l ++ k) = total_len l + total_len k.
Proof. unfold total_len. induction l; cbn; lia. Qed.

Lemma total_len_nonneg l : Forall request_wf l → 0 ≤ total_len l.
Proof. unfold total_len. induction 1 as [|r l [_ Hr]]; cbn; lia. Qed.

Section Batches.
Context `{Platform} {S : Type} `{SeekRead S}.
Abbreviation collect :=
  (λ (name : str) (data : list byte), mret (M := ST (Recorder S) FtIndexError) (name, data)).

Lemma batch_calls pending out (s : Recorder S) :
  rec_calls (read_archive_file_batch collect pending out s).2
  = rec_calls s ++ [pending_request <$> pending].
Proof.
  unfold read_archive_file_batch, mbind, ST_bind, ST_map_err.
  change (λ f, {| pos := pending_pos f; buf_len := pending_len f |}) with pending_request.
  unfold pread, Recorder_SeekRead. destruct (pread _ (rec_inner s)) as [[bufs|e] s1]; [|done].
  cbn [map_err]. by rewrite consume_all_collect.
Qed.

(** The state of the loop between two files. *)
Definition loop_inv (pending : list PendingArchiveFile) (pb : Z) : Prop :=
  (pending = [] ∧ pb = 0) ∨
  (Forall request_wf (pending_request <$> pending) ∧ batch_bounded (pending_request <$> pending) ∧
   pb = Z.min usize_max (total_len (pending_request <$> pending))).

Lemma read_archive_loop_bounded body_start fs pending pb out (s : Recorder S) :
  0 ≤ body_start → Forall ArchiveFileEntry_typed fs → loop_inv pending pb →
  Forall batch_bounded (rec_calls s) →
  Forall batch_bounded (rec_calls (read_archive_loop collect body_start fs pending pb out s).2).
Proof.
  intros Hb Hfs. revert pending pb out s. pose proof usize_max_bounds as Hu.
  induction Hfs as [|f fs [Ho Hl] _ IH]; intros pending pb out s Hinv Hs; cbn [read_archive_loop].
  { destruct pending as [|p ps]; [done|]. cbn [is_empty]. rewrite fallible_state, batch_calls.
    apply Forall_app. split; [done|].
    apply Forall_singleton. by destruct Hinv as [[? ?] | (_ & ? & _)]. }
  unfold ST_try. destruct (try_from_unsigned _ _) as [len|] eqn:El; cbn [ok_or map_err];
    [|by rewrite ST_bind_lift_Err].
  rewrite ST_bind_lift_Ok. destruct (checked_add _ _ _) as [pos|] eqn:Ep; cbn [ok_or map_err];
    [|by rewrite ST_bind_lift_Err].
  rewrite ST_bind_lift_Ok. rewrite try_from_unsigned_Some in El. destruct El as [Hle ->].
  rewrite checked_add_Some in Ep. destruct Ep as [_ ->].
  set (next := pending_file _ _ _).
  assert (loop_inv [next] (saturating_add usize_max 0 (length f))) as Hone.
  { right. split; [|split].
    - repeat constructor; cbn; lia.
    - split; [done|by left].
    - unfold saturating_add, total_len. cbn. lia. }
  destruct (_ && _) eqn:Eflush.
  - pose proof (batch_calls pending out s) as Hc.
    assert (batch_bounded (pending_request <$> pending)) as Hok.
    { destruct Hinv as [[-> ->] | (_ & ? & _)]; [|done]. done. }
    unfold mbind at 1, ST_bind at 1, fallible, ST_map_err.
    destruct (read_archive_file_batch collect pending out s) as [[out'|e] s1]; cbn [fst snd map_err] in Hc |- *.
    + apply alloc_keeps; [rewrite Hc; apply Forall_app; split; [done|by apply Forall_singleton]|].
      intros _. apply IH; [done|]. rewrite Hc. apply Forall_app. split; [done|by apply Forall_singleton].
    + rewrite Hc. apply Forall_app. split; [done|by apply Forall_singleton].
  - apply alloc_keeps; [done|]. intros _. apply IH; [|done]. destruct pending as [|p ps].
    { destruct Hinv as [[_ ->] | (_ & [[Hbad _] _] & _)]; [done|]. by destruct Hbad. }
    destruct Hinv as [[? _] | (Hwf & [Hcnt _] & Hpb)]; [done|].
    cbn [is_empty negb andb] in Eflush. bool_to_prop.
    right. rewrite fmap_app. cbn [fmap list_fmap].
    pose proof (total_len_nonneg _ Hwf).
    assert (total_len [pending_request next] = length f) as Hnl by (unfold total_len; cbn; lia).
    unfold saturating_add, MAX_ARCHIVE_READ_BATCH_BYTES, MAX_ARCHIVE_READ_BATCH_RANGES, u32_max in *.
    split; [|split].
    + apply Forall_app. split; [done|]. repeat constructor; cbn; lia.
    + unfold batch_bounded, MAX_ARCHIVE_READ_BATCH_BYTES, MAX_ARCHIVE_READ_BATCH_RANGES.
      cbn [fmap list_fmap] in *. rewrite blen_app, total_len_app, Hnl. unfold blen in *.
      rewrite ?length_fmap in *. cbn [Datatypes.length] in *. rewrite length_fmap in *. lia.
    + cbn [fmap list_fmap] in *. rewrite total_len_app, Hnl. lia.
Qed.
End Batches.
