(* ===== verification/StorageSpec.v ===== *)
(** * What the archive format promises

    The layout of an archive, the round trip through any output and any
    reader, the rejection of malformed headers, and the bounds on the I/O the
    code issues. *)

From S2P Require Import Prelude RustStd Error IoLayer Json Tokenizer Config HeaderJson Storage.

(** The directory of files stored one after the other from [start] on. *)
Fixpoint layout (start : Z) (contents : list (str * list byte)) : list ArchiveFileEntry :=
  match contents with
  | [] => []
  | (n, d) :: contents' => archive_file n start (blen d) :: layout (start + blen d) contents'
  end.

(** An output that records the buffers it is given. *)
Record LogWriter : Type := log_writer { log : list (list byte) }.
#[export] Instance LogWriter_SeekWrite : SeekWrite LogWriter := {
  write_all buf w := (Ok tt, log_writer (log w ++ [buf]));
  flush w := (Ok tt, w)
}.

(** ** Layout *)
Section Layout.
Implicit Types (contents : list (str * list byte)).

Lemma layout_names start contents : name <$> layout start contents = contents.*1.
Proof. revert start. induction contents as [|[n d] cs IH]; intros o; cbn; [done|]. by rewrite IH. Qed.

Lemma layout_small (n : Z) start contents :
  Forall (λ c, blen c ≤ n) contents.*2 → Forall (λ f, length f ≤ n) (layout start contents).
Proof.
  revert start. induction contents as [|[m c] contents IH]; intros start; cbn; [constructor|].
  intros [Hc Hcs]%Forall_cons. constructor; [done|by apply IH].
Qed.

Lemma layout_bounds start contents :
  Forall (λ f, start ≤ offset f ∧ 0 ≤ length f ∧
               file_end f ≤ start + blen (concat contents.*2)) (layout start contents).
Proof.
  revert start. induction contents as [|[n d] cs IH]; intros o; cbn; [constructor|].
  pose proof (blen_nonneg d). pose proof (blen_nonneg (concat cs.*2)).
  rewrite blen_app. constructor; [unfold file_end; cbn; lia|].
  eapply Forall_impl; [apply IH|]. cbn. unfold file_end. intros [? p q]; cbn. lia.
Qed.

Lemma layout_sorted start contents :
  StronglySorted (λ a b, range_start a ≤ range_start b) (entry_range <$> layout start contents).
Proof.
  revert start. induction contents as [|[n d] cs IH]; intros o; cbn; [constructor|].
  constructor; [apply IH|]. apply Forall_fmap. pose proof (blen_nonneg d).
  eapply Forall_impl; [apply layout_bounds|]. intros f Hf. cbn in *. lia.
Qed.

Lemma layout_chained start contents : chained start (entry_range <$> layout start contents).
Proof. revert start. induction contents as [|[n d] cs IH]; intros o; cbn; [done|]. split; [lia|]. apply IH. Qed.

(** The directory of a laid out archive is accepted: the sort is stable, so
    empty files stay in front of the file that starts where they do. *)
Lemma layout_accepted m contents :
  FullTextIndexConfig_valid (config m) → trim (tantivy_version m) ≠ [] → contents ≠ [] →
  Forall archive_name contents.*1 → NoDup contents.*1 → blen (concat contents.*2) ≤ u64_max →
  validate_header (index_header m (layout 0 contents)) = Ok tt.
Proof.
  intros Hc Hv Hne Hn Hnd Hlen. apply validate_header_Ok. cbn [files metadata].
  pose proof (layout_bounds 0 contents) as Hb. split_and!; try done.
  - by destruct contents as [|[]].
  - rewrite <- (layout_names 0), Forall_fmap in Hn. exact Hn.
  - by rewrite layout_names.
  - eapply Forall_impl; [exact Hb|]. cbn. lia.
  - rewrite sort_by_key_id by apply layout_sorted. apply layout_chained.
Qed.

Lemma layout_typed contents :
  blen (concat contents.*2) ≤ u64_max → Forall ArchiveFileEntry_typed (layout 0 contents).
Proof.
  intros Hlen. eapply Forall_impl; [apply layout_bounds|]. unfold file_end.
  intros f Hf. cbn in Hf. split; lia.
Qed.

(** Reading the files of a layout whose body follows [pre]. *)
Lemma layout_data b start contents pre suffix :
  blen pre = b + start →
  file_data (pre ++ concat contents.*2 ++ suffix) <$> (pending_of b <$> layout start contents)
  = contents.
Proof.
  revert start pre. induction contents as [|[n d] cs IH]; intros o pre Hpre; cbn; [done|].
  unfold file_data at 1. cbn. pose proof (blen_nonneg d). f_equal.
  - f_equal. rewrite slice_app_r, <- app_assoc by lia.
    rewrite slice_app_l by lia. replace (b + o - blen pre) with 0 by lia. apply slice_all.
  - rewrite <- !app_assoc. rewrite (app_assoc pre d). apply IH. rewrite blen_app. lia.
Qed.
End Layout.

(** ** Writing then reading *)
Section Roundtrip.
Context `{Platform} `{JsonText}.
Context {W : Type} `{SeekWrite W} (written : W -> list byte).
Context `{!Appends W written} `{!NeverFails W}.
Context {S : Type} `{SeekRead S} (data_of : S -> list byte).
Context `{!ReadsData S data_of} {max_len : Z} `{!ReadsAll S data_of max_len}.

(** A header that describes the files laid out one after the other. *)
Record archive_ok (m : FullTextIndexMetadata) (contents : list (str * list byte)) : Prop := {
  ok_config : FullTextIndexConfig_valid (config m);
  ok_typed : TokenizerConfig_typed (tokenizer_config_of (config m));
  ok_count : 0 ≤ document_count m ≤ u64_max;
  ok_version : trim (tantivy_version m) ≠ [];
  ok_nonempty : contents ≠ [];
  ok_names : Forall archive_name contents.*1;
  ok_distinct : NoDup contents.*1
}.

Lemma archive_header_typed m contents :
  archive_ok m contents → blen (concat contents.*2) ≤ u64_max →
  IndexHeader_typed (index_header m (layout 0 contents)).
Proof. intros [] Hlen. split; cbn; [done|done|]. by apply layout_typed. Qed.

(** C12: an archive written to any output that appends, then read through
    any reader of the written bytes, gives back the header and every file:
    [write_envelope] succeeds, [read_header] returns the header and the
    start of the body, and [read_archive_files] returns the files in order
    with their contents, when a vector can hold each of them. *)
Theorem archive_roundtrip m contents w s text :
  archive_ok m contents → written w = [] →
  json_to_vec (IndexHeader_to_json (index_header m (layout 0 contents))) = Ok text →
  blen text ≤ MAX_HEADER_BYTES →
  blen (envelope text (concat contents.*2)) ≤ max_len → Forall (λ c, blen c ≤ isize_max) contents.*2 →
  let h := index_header m (layout 0 contents) in
  let w' := (write_envelope h contents w).2 in
  data_of s = written w' →
  (write_envelope h contents w).1 = Ok tt ∧
  ∃ body_start s1 s2,
    read_header s = (Ok (h, body_start), s1) ∧
    read_archive_files body_start (files h) s1 = (Ok contents, s2) ∧ data_of s2 = data_of s.
Proof.
  intros Hok Hw Hj Hlen Hsize Hfit h w' Hdata. subst w'. pose proof usize_max_bounds as Hu. pose proof max_len_addressable as Hlim.
  assert (blen (concat contents.*2) + 16 + blen text ≤ usize_max) as Hbody.
  { unfold envelope in Hsize. rewrite blen_app, blen_header_bytes in Hsize. lia. }
  pose proof (blen_nonneg text). pose proof (blen_nonneg (concat contents.*2)).
  pose proof (write_envelope_succeeds h contents text Hj Hlen w) as Hs.
  pose proof (write_envelope_outputs written h contents text Hj w) as Ho.
  destruct (write_envelope h contents w) as [[[]|e] w']; cbn [fst snd] in *; [|done].
  split; [done|]. rewrite Hw in Ho. cbn [app] in Ho. rewrite Ho in Hdata.
  destruct (header_text_roundtrip h) as (text' & Hj' & Hback).
  { apply archive_header_typed; [done|lia]. }
  assert (text' = text) as -> by (unfold h in Hj'; congruence).
  destruct (read_header_complete s h text (concat contents.*2)) as (s1 & Hr & Hd1); try done.
  { by rewrite Hdata. }
  { destruct Hok. by apply layout_accepted; try done; lia. }
  exists (blen (header_bytes text)), s1.
  destruct (read_archive_loop_complete (blen (header_bytes text)) (layout 0 contents) [] 0 [] s1)
    as (s2 & Hr2 & Hd2).
  { rewrite Hd1, Hdata. done. }
  { apply blen_nonneg. }
  { apply layout_typed. lia. }
  { rewrite Hd1, Hdata. unfold envelope. rewrite blen_app.
    eapply Forall_impl; [apply layout_bounds|]. cbn. lia. }
  { by apply layout_small. }
  { constructor. }
  { constructor. }
  exists s2. split; [done|]. split; [|congruence].
  etransitivity; [exact Hr2|]. do 2 f_equal. cbn [app fmap list_fmap]. rewrite Hd1, Hdata.
  unfold envelope. rewrite <- (app_nil_r (concat contents.*2)).
  apply layout_data. lia.
Qed.
End Roundtrip.

Section Writing.
Context `{Platform} `{JsonText} {W : Type} `{SeekWrite W} (written : W -> list byte).
Context `{!Appends W written}.

(** The bytes of an archive whose files are read from paths. *)
Definition path_contents {P} (open : P -> result IoError (list byte)) (h : IndexHeader)
    (paths : list P) : list (list byte) :=
  (λ ep : ArchiveFileEntry * P,
     match open ep.2 with Ok c => take (Z.to_nat (length ep.1)) c | Err _ => [] end)
  <$> zip (files h) paths.

(** C22: a write that fails, whatever the output and at whatever point, has
    written a prefix of the archive: a caller that sees an error holds a
    partial archive, never other bytes. *)
Theorem failed_write_leaves_prefix {P} (open : P -> result IoError (list byte)) h paths w w' e text :
  json_to_vec (IndexHeader_to_json h) = Ok text →
  write_envelope_from_paths open h paths w = (Err e, w') →
  ∃ p, p `prefix_of` envelope text (concat (path_contents open h paths)) ∧
       written w' = written w ++ p.
Proof.
  intros Hj Hw. pose proof (write_envelope_from_paths_outputs written open h paths text Hj w) as Ho.
  by rewrite Hw in Ho.
Qed.

(** C23: streaming the files from their paths in 64 KiB chunks writes the same
    bytes as [write_envelope] of the files in memory, when every path opens
    to at least the announced number of bytes; both succeed. *)
Theorem streaming_equals_in_memory `{!NeverFails W} {P} (open : P -> result IoError (list byte))
    h paths w text :
  json_to_vec (IndexHeader_to_json h) = Ok text → blen text ≤ MAX_HEADER_BYTES →
  Forall2 (λ e p, ∃ c, open p = Ok c ∧ length e ≤ blen c) (files h) paths →
  let streamed := write_envelope_from_paths open h paths w in
  let in_memory := write_envelope h (zip (name <$> files h) (path_contents open h paths)) w in
  streamed.1 = Ok tt ∧ in_memory.1 = Ok tt ∧ written streamed.2 = written in_memory.2.
Proof.
  intros Hj Hlen Hp streamed in_memory. subst streamed in_memory.
  set (cs := zip (name <$> files h) (path_contents open h paths)).
  pose proof (write_envelope_from_paths_succeeds open h paths text Hj Hlen Hp w) as Hs1.
  pose proof (write_envelope_succeeds h cs text Hj Hlen w) as Hs2.
  split; [done|]. split; [done|].
  pose proof (write_envelope_from_paths_outputs written open h paths text Hj w) as Ho1.
  pose proof (write_envelope_outputs written h cs text Hj w) as Ho2.
  destruct (write_envelope_from_paths open h paths w) as [[|] w1]; [|done].
  destruct (write_envelope h cs w) as [[|] w2]; [|done]. cbn [snd].
  rewrite Ho1, Ho2. do 2 f_equal. unfold cs, path_contents.
  rewrite snd_zip; [done|]. rewrite !length_fmap, length_zip.
  apply Forall2_length in Hp. lia.
Qed.
End Writing.

(** ** Chunks of at most 64 KiB *)
Definition small_buffers (bufs : list (list byte)) : Prop :=
  Forall (λ b, blen b ≤ ARCHIVE_WRITE_BUFFER_BYTES) bufs.

Lemma copy_loop_log fuel n file w :
  ∃ bufs, log (copy_loop fuel n file w).2 = log w ++ bufs ∧ small_buffers bufs.
Proof.
  revert n file w. induction fuel as [|fuel IH]; intros n file w; cbn [copy_loop].
  { exists []; split; [by rewrite app_nil_r|constructor]. }
  destruct (Z.ltb_spec 0 n); [|exists []; split; [by rewrite app_nil_r|constructor]].
  unfold read_exact. destruct (Z.ltb_spec (blen file) (Z.min n ARCHIVE_WRITE_BUFFER_BYTES));
    cbn [map_err].
  { exists []; split; [by rewrite app_nil_r|constructor]. }
  rewrite ST_bind_lift_Ok. cbn [fst snd].
  set (chunk := take _ _). change ((emit chunk ≫= _) w) with
    (copy_loop fuel (n - Z.min n ARCHIVE_WRITE_BUFFER_BYTES)
      (drop (Z.to_nat (Z.min n ARCHIVE_WRITE_BUFFER_BYTES)) file) (log_writer (log w ++ [chunk]))).
  destruct (IH (n - Z.min n ARCHIVE_WRITE_BUFFER_BYTES)
    (drop (Z.to_nat (Z.min n ARCHIVE_WRITE_BUFFER_BYTES)) file) (log_writer (log w ++ [chunk])))
    as (bufs & -> & Hb).
  exists (chunk :: bufs). split; [by cbn; rewrite <- app_assoc|]. constructor; [|done].
  unfold chunk, blen, ARCHIVE_WRITE_BUFFER_BYTES. rewrite length_take. lia.
Qed.

Section Chunks.
Context `{JsonText}.

Lemma header_log h text w :
  json_to_vec (IndexHeader_to_json h) = Ok text → blen text ≤ MAX_HEADER_BYTES →
  write_envelope_header h w = (Ok tt, log_writer
    (log w ++ [FORMAT_MAGIC; u32_to_be_bytes FORMAT_VERSION; u32_to_be_bytes (blen text); text])).
Proof.
  intros Hj Hlen. unfold write_envelope_header. rewrite Hj. cbn [map_err].
  rewrite ST_bind_lift_Ok. destruct (Z.ltb_spec MAX_HEADER_BYTES (blen text)); [lia|].
  rewrite (proj2 (try_from_unsigned_Some u32_max (blen text) (blen text)))
    by (unfold MAX_HEADER_BYTES, u32_max in *; lia).
  cbv [mbind ST_bind emit ST_map_err write_all LogWriter_SeekWrite map_err ok_or ST_lift log].
  destruct w as [l]. by rewrite <- !app_assoc.
Qed.

(** After the four buffers of the header, every buffer handed to the
    output is a chunk of at most 64 KiB, however large the files are and
    whether or not the write succeeds. *)
Theorem archive_written_in_chunks {P} (open : P -> result IoError (list byte)) h paths text l :
  json_to_vec (IndexHeader_to_json h) = Ok text → blen text ≤ MAX_HEADER_BYTES →
  blen (files h) = blen paths →
  ∃ bufs, log (write_envelope_from_paths open h paths (log_writer l)).2
    = l ++ [FORMAT_MAGIC; u32_to_be_bytes FORMAT_VERSION; u32_to_be_bytes (blen text); text] ++ bufs
    ∧ small_buffers bufs.
Proof.
  intros Hj Hlen Hpaths. unfold write_envelope_from_paths. rewrite Hpaths, Z.eqb_refl. cbn [negb].
  rewrite (ST_bind_run_Ok _ _ _ _ _ (header_log h text (log_writer l) Hj Hlen)). cbn [log].
  set (w := log_writer _).
  match goal with |- context [ST_forM ?f ?l] =>
    assert (∃ bufs, log (ST_forM f l w).2 = log w ++ bufs ∧ small_buffers bufs) as (bufs & Hl & Hb)
  end.
  { generalize (zip (files h) paths) as ps. generalize w. clear.
    intros w ps. revert w. induction ps as [|[f p] ps IH]; intros w; cbn [ST_forM].
    { exists []; split; [by rewrite app_nil_r|constructor]. }
    cbn [fst snd]. destruct (open p) as [c|e]; cbn [map_err].
    2:{ exists []; split; [by rewrite app_nil_r|constructor]. }
    rewrite ST_bind_lift_Ok.
    destruct (copy_loop_log (copy_fuel (length f)) (length f) c w) as (b1 & H1 & Hb1).
    fold (copy_file (length f) c) in H1.
    unfold mbind at 1, ST_bind at 1. destruct (copy_file (length f) c w) as [[[]|e] w1]; cbn [snd] in *.
    - destruct (IH w1) as (b2 & -> & Hb2). exists (b1 ++ b2). rewrite H1, app_assoc.
      split; [done|]. by apply Forall_app.
    - by exists b1. }
  exists bufs. split; [|done]. rewrite app_assoc.
  unfold mbind, ST_bind, ST_map_err. destruct (ST_forM _ _ w) as [[[]|e] w1]; exact Hl.
Qed.
End Chunks.

(** ** Which archives are accepted *)
Section Acceptance.
Context `{Platform} `{JsonText} {S : Type} `{SeekRead S} (data_of : S -> list byte).
Context `{!ReadsData S data_of} {max_len : Z} `{!ReadsAll S data_of max_len}.

(** C16: through any reader of the bytes, [read_header] returns a header
    exactly when the bytes are the magic, version 1, the length and the text
    of a JSON header of at most 16 MiB that decodes to it, and
    [validate_header] accepts it; the body starts right behind the text. *)
Theorem read_header_iff s h body_start :
  blen (data_of s) ≤ max_len →
  (∃ s', read_header s = (Ok (h, body_start), s')) ↔
  (∃ text body, data_of s = envelope text body ∧ blen text ≤ MAX_HEADER_BYTES ∧
     (j ← json_from_slice text; IndexHeader_from_json j) = Ok h ∧
     validate_header h = Ok tt ∧ body_start = 16 + blen text).
Proof.
  intros Hsize. setoid_rewrite <- blen_header_bytes. split.
  - intros (s' & Hr). apply read_header_sound in Hr as (text & body & Hd & Hl & Hj & Hv & Hb & _).
    by exists text, body.
  - intros (text & body & Hd & Hl & Hj & Hv & ->).
    destruct (read_header_complete s h text body Hsize Hd Hl Hj Hv) as (s' & Hr & _). by exists s'.
Qed.

(** C24: [read_archive_files] returns, in the order of the directory, the name
    and the exact bytes of every file, whenever it returns; and it does
    return when the files lie inside the data and a vector can hold each of
    them. *)
Theorem read_archive_files_correct s body_start fs :
  blen (data_of s) ≤ max_len → 0 ≤ body_start → Forall ArchiveFileEntry_typed fs →
  let expected := (λ f, (name f, slice (body_start + offset f) (length f) (data_of s))) <$> fs in
  (∀ r s', read_archive_files body_start fs s = (Ok r, s') → r = expected) ∧
  (Forall (λ f, body_start + file_end f ≤ blen (data_of s) ∧ length f ≤ isize_max) fs →
   ∃ s', read_archive_files body_start fs s = (Ok expected, s')).
Proof.
  intros Hsize Hb Hfs expected.
  assert (file_data (data_of s) <$> (pending_of body_start <$> fs) = expected) as Heq.
  { unfold expected. by rewrite <- list_fmap_compose. }
  rewrite <- Heq. split.
  - intros r s' Hr. eapply read_archive_loop_sound in Hr as [-> _]; done.
  - intros [Hin Hfit]%Forall_and.
    destruct (read_archive_loop_complete body_start fs [] 0 [] s) as (s' & Hr & _);
      try done; try constructor. by exists s'.
Qed.
End Acceptance.

(** C17: for headers whose files have at least one byte, [validate_header]
    accepts exactly the valid configurations with a Tantivy version and a
    non-empty directory of plain, distinct names and in-range, pairwise
    disjoint files: sorting and comparing neighbours is enough. *)
Theorem validate_header_iff_disjoint h :
  Forall (λ f, 0 ≤ offset f ∧ 0 < length f) (files h) →
  validate_header h = Ok tt ↔
  FullTextIndexConfig_valid (config (metadata h)) ∧ trim (tantivy_version (metadata h)) ≠ [] ∧
  files h ≠ [] ∧ Forall (λ f, archive_name (name f)) (files h) ∧ NoDup (name <$> files h) ∧
  Forall (λ f, file_end f ≤ u64_max) (files h) ∧
  (∀ f g, f ∈ files h → g ∈ files h → name f ≠ name g → disjoint_files f g).
Proof.
  intros Hpos. rewrite validate_header_Ok. split.
  - intros (H1 & H2 & H3 & H4 & H5 & H6 & H7). split_and!; try done.
    intros f g Hf Hg Hne. apply (chained_disjoint (files h)); try done.
    eapply Forall_impl; [exact Hpos|]. cbn. lia.
  - intros (H1 & H2 & H3 & H4 & H5 & H6 & H7). split_and!; try done.
    apply disjoint_chained; [by eapply NoDup_fmap_1|done|].
    intros f g Hf Hg Hne. apply H7; try done. intros Heq. apply Hne.
    by eapply (NoDup_fmap_elem name).
Qed.

(** ** The I/O the readers issue *)
Section ReadBounds.
Context `{Platform} `{JsonText} {S : Type} `{SeekRead S} (data_of : S -> list byte).
Context `{!ReadsData S data_of}.

Lemma read_exact_at_calls pos len (s : Recorder S) :
  rec_calls (read_exact_at pos len s).2 = rec_calls s ++ [[read_request pos len]].
Proof.
  unfold read_exact_at, mbind, ST_bind, ST_map_err, pread, Recorder_SeekRead.
  by destruct (pread _ (rec_inner s)) as [[] ?].
Qed.

(** C26: whatever the archive holds, [read_header] reads 16 bytes at the
    start and then at most one range, right behind them and of at most
    16 MiB: a hostile length field cannot make it allocate more. *)
Theorem read_header_bounded (s : Recorder S) :
  ∃ rest, rec_calls (read_header s).2 = rec_calls s ++ [read_request 0 16] :: rest ∧
    (rest = [] ∨ ∃ n, 0 ≤ n ≤ MAX_HEADER_BYTES ∧ rest = [[read_request 16 n]]).
Proof.
  unfold read_header. pose proof (read_exact_at_calls 0 16 s) as Hc.
  unfold mbind at 1, ST_bind at 1. destruct (read_exact_at 0 16 s) as [[fixed|e] s1] eqn:E1; cbn [snd] in Hc.
  2:{ exists []. split; [done|by left]. }
  assert (blen (slice 12 4 fixed) = 4) as Hl.
  { apply (read_exact_at_sound (data_of := data_of ∘ rec_inner)) in E1 as (Hin & -> & _); [|lia..].
    rewrite slice_slice, blen_slice by lia. done. }
  assert (∀ e : FtIndexError, ∃ rest, rec_calls (ST_fail (A := IndexHeader * Z) e s1).2
    = rec_calls s ++ [read_request 0 16] :: rest ∧
    (rest = [] ∨ ∃ n, 0 ≤ n ≤ MAX_HEADER_BYTES ∧ rest = [[read_request 16 n]])) as Hstop.
  { intros e. exists []. split; [done|by left]. }
  destruct (negb _); [apply Hstop|]. destruct (negb _); [apply Hstop|].
  set (n := u32_from_be_bytes (slice 12 4 fixed)).
  destruct (Z.ltb_spec MAX_HEADER_BYTES n); [apply Hstop|].
  exists [[read_request 16 n]]. split.
  2:{ right. exists n. split; [|done]. split; [|done]. apply u32_from_be_bytes_range.
      unfold blen in Hl. lia. }
  pose proof (read_exact_at_calls 16 n s1) as Hc2. rewrite Hc in Hc2.
  unfold mbind at 1, ST_bind at 1. destruct (read_exact_at 16 n s1) as [[text|e] s2]; cbn [snd] in *.
  - assert (rec_calls s2 = rec_calls s ++ [read_request 0 16] :: [[read_request 16 n]]) as <-
      by (rewrite Hc2, <- app_assoc; done).
    unfold mbind, ST_bind, ST_lift. destruct (map_err _ _) as [h|]; [|done].
    by destruct (validate_header h).
  - by rewrite Hc2, <- app_assoc.
Qed.

(** C25: every batch of [read_archive_files] holds between 1 and 64 ranges
    and, unless it is a single file, at most 64 MiB in total, on every
    platform and for every reader, also when the reading fails. *)
Theorem read_archive_files_bounded (s : S) body_start fs :
  0 ≤ body_start → Forall ArchiveFileEntry_typed fs →
  Forall batch_bounded (rec_calls (read_archive_files body_start fs (recorder s [])).2).
Proof.
  intros Hb Hfs. apply read_archive_loop_bounded; try done. by left.
Qed.
End ReadBounds.

(** ** Concrete archives *)
#[local] Existing Instance platform64.
#[local] Existing Instance tree_text.

Definition sample_metadata : FullTextIndexMetadata :=
  index_metadata sample_config 2 (lit "0.26").
Definition sample_contents : list (str * list byte) :=
  [(lit "meta.json", as_bytes (lit "{}")); (lit "empty", []); (lit "seg.term", as_bytes (lit "abc"))].
Definition sample_header : IndexHeader := index_header sample_metadata (layout 0 sample_contents).
Definition sample_text : list byte :=
  match json_to_vec (IndexHeader_to_json sample_header) with Ok text => text | Err _ => [] end.
Definition sample_archive : list byte := envelope sample_text (concat sample_contents.*2).

Lemma sample_text_ok : json_to_vec (IndexHeader_to_json sample_header) = Ok sample_text.
Proof. done. Qed.

Lemma sample_valid : FullTextIndexConfig_valid sample_config.
Proof. apply validate_Ok. vm_compute. reflexivity. Qed.

Lemma sample_archive_ok : archive_ok sample_metadata sample_contents.
Proof.
  split.
  - apply sample_valid.
  - constructor; vm_compute; split; discriminate.
  - vm_compute. split; discriminate.
  - vm_compute. discriminate.
  - discriminate.
  - cbn. repeat constructor; eexists; vm_compute; reflexivity.
  - apply (bool_decide_unpack _). vm_compute. exact I.
Qed.

Lemma archive_roundtrip_witness :
  ∃ body_start s1 s2,
    read_header (slice_reader sample_archive) = (Ok (sample_header, body_start), s1) ∧
    read_archive_files body_start (files sample_header) s1 = (Ok sample_contents, s2).
Proof.
  destruct (archive_roundtrip into_inner data sample_metadata sample_contents (pos_writer [])
    (slice_reader sample_archive) sample_text) as (_ & b & s1 & s2 & Hr & Hf & _).
  - exact sample_archive_ok.
  - reflexivity.
  - exact sample_text_ok.
  - vm_compute. discriminate.
  - vm_compute. discriminate.
  - repeat constructor; vm_compute; discriminate.
  - vm_compute. reflexivity.
  - exists b, s1, s2. split; [exact Hr | exact Hf].
Defined.

(** An output that accepts a limited number of bytes. *)
Record Disk : Type := disk { capacity : Z; stored : list byte }.
#[local] Instance Disk_SeekWrite : SeekWrite Disk := {
  write_all buf w :=
    if blen (stored w) + blen buf <=? capacity w then (Ok tt, disk (capacity w) (stored w ++ buf))
    else (Err (io_error Other [Txt "disk full"]),
          disk (capacity w) (stored w ++ take (Z.to_nat (capacity w - blen (stored w))) buf));
  flush w := (Ok tt, w)
}.
#[local] Instance Disk_Appends : Appends Disk stored.
Proof.
  split.
  - intros buf w w'. cbn. case_match; [by intros [= <-]|done].
  - intros buf w e w'. cbn. case_match; [done|]. intros [= _ <-]. eexists. split; [|done].
    apply prefix_take.
  - done.
Qed.

(** The files of the sample, opened by their position in the archive. *)
Definition sample_open (i : nat) : result IoError (list byte) :=
  ok_or (sample_contents.*2 !! i) (io_error NotFound []).

Lemma failed_write_leaves_prefix_witness :
  ∃ p, p `prefix_of` envelope sample_text (concat (path_contents sample_open sample_header [0; 1; 2]%nat)) ∧
    stored (write_envelope_from_paths sample_open sample_header [0; 1; 2]%nat (disk 20 [])).2 = [] ++ p.
Proof.
  apply (failed_write_leaves_prefix stored sample_open sample_header [0; 1; 2]%nat (disk 20 [])
    (write_envelope_from_paths sample_open sample_header [0; 1; 2]%nat (disk 20 [])).2
    (Io (io_error Other [Txt "disk full"])) sample_text).
  - exact sample_text_ok.
  - vm_compute. reflexivity.
Defined.

Lemma streaming_equals_in_memory_witness :
  into_inner (write_envelope_from_paths sample_open sample_header [0; 1; 2]%nat (pos_writer [])).2
  = into_inner (write_envelope sample_header
      (zip (name <$> files sample_header) (path_contents sample_open sample_header [0; 1; 2]%nat))
      (pos_writer [])).2.
Proof.
  apply (streaming_equals_in_memory into_inner sample_open sample_header [0; 1; 2]%nat (pos_writer [])
    sample_text).
  - exact sample_text_ok.
  - vm_compute. discriminate.
  - repeat constructor; (eexists; split; [reflexivity|vm_compute; discriminate]).
Defined.

Lemma archive_written_in_chunks_witness :
  ∃ bufs, log (write_envelope_from_paths sample_open sample_header [0; 1; 2]%nat (log_writer [])).2
    = [] ++ [FORMAT_MAGIC; u32_to_be_bytes FORMAT_VERSION; u32_to_be_bytes (blen sample_text); sample_text]
      ++ bufs ∧ small_buffers bufs.
Proof.
  apply archive_written_in_chunks.
  - exact sample_text_ok.
  - vm_compute. discriminate.
  - reflexivity.
Defined.

Lemma read_header_iff_witness :
  (∃ s', read_header (slice_reader sample_archive) = (Ok (sample_header, 16 + blen sample_text), s')) ↔
  (∃ text body, data (slice_reader sample_archive) = envelope text body ∧ blen text ≤ MAX_HEADER_BYTES ∧
     (j ← json_from_slice text; IndexHeader_from_json j) = Ok sample_header ∧
     validate_header sample_header = Ok tt ∧ 16 + blen sample_text = 16 + blen text).
Proof. apply (read_header_iff data). vm_compute. discriminate. Defined.

Lemma sample_files_typed : Forall ArchiveFileEntry_typed (files sample_header).
Proof. repeat constructor; vm_compute; discriminate. Qed.

Lemma read_archive_files_correct_witness :
  ∃ s', read_archive_files (16 + blen sample_text) (files sample_header) (slice_reader sample_archive)
    = (Ok ((λ f, (name f, slice (16 + blen sample_text + offset f) (length f) sample_archive))
           <$> files sample_header), s').
Proof.
  apply (read_archive_files_correct data (slice_reader sample_archive) (16 + blen sample_text)).
  - vm_compute. discriminate.
  - vm_compute. discriminate.
  - exact sample_files_typed.
  - repeat constructor; vm_compute; discriminate.
Defined.

(** Two files that share a byte, out of order in the directory. *)
Definition sample_overlap : IndexHeader :=
  index_header sample_metadata [archive_file (lit "b") 4 2; archive_file (lit "a") 0 5].
Lemma validate_header_iff_disjoint_witness :
  validate_header sample_overlap = Ok tt ↔
  FullTextIndexConfig_valid (config (metadata sample_overlap)) ∧
  trim (tantivy_version (metadata sample_overlap)) ≠ [] ∧
  files sample_overlap ≠ [] ∧ Forall (λ f, archive_name (name f)) (files sample_overlap) ∧
  NoDup (name <$> files sample_overlap) ∧ Forall (λ f, file_end f ≤ u64_max) (files sample_overlap) ∧
  (∀ f g, f ∈ files sample_overlap → g ∈ files sample_overlap → name f ≠ name g → disjoint_files f g).
Proof. apply validate_header_iff_disjoint. repeat constructor; vm_compute; congruence. Defined.

Lemma read_header_bounded_witness :
  ∃ rest, rec_calls (read_header (recorder (slice_reader sample_archive) [])).2
    = [] ++ [read_request 0 16] :: rest ∧
    (rest = [] ∨ ∃ n, 0 ≤ n ≤ MAX_HEADER_BYTES ∧ rest = [[read_request 16 n]]).
Proof. apply (read_header_bounded data (recorder (slice_reader sample_archive) [])). Defined.

Lemma read_archive_files_bounded_witness :
  Forall batch_bounded (rec_calls (read_archive_files 0 (files sample_header)
    (recorder (slice_reader sample_archive) [])).2).
Proof. apply read_archive_files_bounded; [done | exact sample_files_typed]. Defined.

(** [validate_header] compares names as strings, the directory that is built
    from them compares paths: the names [a] and [a/] are both accepted, and
    have the same components. *)
Lemma equal_paths_accepted :
  let h := index_header sample_metadata [archive_file (lit "a") 0 1; archive_file (lit "a/") 1 1] in
  validate_header h = Ok tt ∧ components (lit "a") = components (lit "a/").
Proof. vm_compute. done. Qed.
