(* ===== verification/Archive.v ===== *)
(** * The read-only archive directory ([core/src/archive_directory.rs])

    [ArchiveDirectory] serves the files of an archive to the search engine.
    Handles read ranges of the input through a block cache shared by all of
    them: blocks of 64 KiB keyed by their absolute position, at most 256 of
    them, the oldest evicted first.  A read ends with bytes, an I/O error or
    a panic. *)

From S2P Require Import Prelude RustStd Error IoLayer HeaderJson.

Definition READ_CACHE_BLOCK_BYTES : Z := 64 * 1024.
Definition READ_CACHE_MAX_BLOCKS : Z := 256.

(** A read ends badly with an [io::Error], or with a panic. *)
Abbreviation IoFault := (Fault IoError) (only parsing).

Inductive OpenReadError : Type :=
| OpenRead_FileDoesNotExist (path : str)
| OpenRead_IoError (fault : IoFault) (path : str).
Inductive DeleteError : Type :=
| Delete_FileDoesNotExist (path : str)
| Delete_IoError (e : IoError) (path : str).
Inductive OpenWriteError : Type := OpenWrite_IoError (e : IoError) (path : str).
Inductive LockError : Type := Lock_IoError (e : IoError).

Record ArchivedFile : Type := archived_file { file_start : Z; file_length : Z }.

(** [HashMap<PathBuf, ArchivedFile>]: paths are equal when their components are. *)
Abbreviation path_map := (gmap (list Component)) (only parsing).

(** The part of the directory that its clones and handles share and change:
    the input (with the metrics inside) and the cache behind its mutex. *)
Record Shared (S : Type) : Type := shared {
  input : S;
  blocks : gmap Z (list byte);
  order : list Z;
  poisoned : bool
}.
Arguments shared {S} _ _ _ _.
Arguments input {S} _.
Arguments blocks {S} _.
Arguments order {S} _.
Arguments poisoned {S} _.

Definition with_input {S} (i : S) (s : Shared S) : Shared S :=
  shared i (blocks s) (order s) (poisoned s).

(** [ArchiveReadCache::new] *)
Definition new_shared {S} (i : S) : Shared S := shared i ∅ [] false.

Definition read_only_error : IoError :=
  io_error PermissionDenied [Txt "archive directory is read-only"].

(** ** The cache *)
Section Cache.
Context {S : Type} `{MetricsCell S}.

Definition shared_metrics (f : ReadMetrics -> ReadMetrics) (s : Shared S) : Shared S :=
  with_input (update_metrics f (input s)) s.

Definition lock_cache : ST (Shared S) IoFault unit := λ s,
  if poisoned s then (Err (Failed (io_error Other [Txt "archive read cache lock poisoned"])), s)
  else (Ok tt, s).

Definition cache_get (pos : Z) : ST (Shared S) IoFault (option (list byte)) :=
  _ ← lock_cache;
  (λ s, match blocks s !! pos with
        | Some block => (Ok (Some block), shared_metrics record_cache_hit s)
        | None => (Ok None, s)
        end) : ST (Shared S) IoFault (option (list byte)).

Definition record_miss : ST (Shared S) IoFault unit := ST_modify (shared_metrics record_cache_miss).

(** The [while] loop that makes room; an iteration pops one key. *)
Fixpoint evict_loop (fuel : nat) (s : Shared S) : Shared S :=
  match fuel with
  | O => s
  | Datatypes.S fuel' =>
      if READ_CACHE_MAX_BLOCKS <=? Z.of_nat (size (blocks s)) then
        match order s with
        | evicted :: order' =>
            evict_loop fuel' (shared_metrics record_cache_eviction
              (shared (input s) (delete evicted (blocks s)) order' (poisoned s)))
        | [] => s
        end
      else s
  end.
Definition evict (s : Shared S) : Shared S := evict_loop (List.length (order s)) s.

Definition cache_insert (pos : Z) (block : list byte) : ST (Shared S) IoFault (list byte) :=
  _ ← lock_cache;
  (λ s, match blocks s !! pos with
        | Some existing => (Ok existing, s)
        | None =>
            let s := evict s in
            (Ok block, shared_metrics record_cache_insert
              (shared (input s) (<[pos := block]> (blocks s)) (order s ++ [pos]) (poisoned s)))
        end) : ST (Shared S) IoFault (list byte).
End Cache.

(** ** File handles *)
Record ArchiveFileHandle : Type := file_handle {
  handle_path : str;
  handle_start : Z;
  handle_length : Z
}.
(** [HasLen::len] *)
Definition ArchiveFileHandle_len (h : ArchiveFileHandle) : Z := handle_length h.

Section Handle.
Context `{Platform} `{Profile} {S : Type} `{SeekRead S} `{MetricsCell S}.

Definition invalid_input (s : string) : IoFault := Failed (io_error InvalidInput [Txt s]).

Definition read_direct (pos len : Z) : ST (Shared S) IoFault (list byte) := λ s,
  let '(r, i) := pread [read_request pos len] (input s) in
  (default [] ∘ head <$> map_err Failed r, with_input i s).

(** [self.start + relative], with the conversion and the overflow check. *)
Definition absolute (h : ArchiveFileHandle) (relative : Z) : ST (Shared S) IoFault Z :=
  relative ← ST_lift (ok_or (try_from_unsigned u64_max relative) (invalid_input "offset overflow"));
  ST_lift (ok_or (checked_add u64_max (handle_start h) relative) (invalid_input "offset overflow")).

Definition read_cached_block (h : ArchiveFileHandle) (start stop : Z) :
    ST (Shared S) IoFault (option (list byte)) :=
  if READ_CACHE_BLOCK_BYTES <? stop - start then mret None
  else
    let block_start := (start / READ_CACHE_BLOCK_BYTES) * READ_CACHE_BLOCK_BYTES in
    limit ← usize_add block_start READ_CACHE_BLOCK_BYTES;
    let block_end := Z.min (handle_length h) limit in
    if block_end <? stop then mret None
    else
      pos ← absolute h block_start;
      cached ← cache_get pos;
      block ← match cached with
              | Some block => mret block
              | None =>
                  _ ← record_miss;
                  _ ← alloc (block_end - block_start);
                  block ← read_direct pos (block_end - block_start);
                  cache_insert pos block
              end;
      let start' := start - block_start in
      bytes ← slice_range start' (start' + (stop - start)) block;
      mret (Some bytes).

(** [FileHandle::read_bytes] for the range [start..stop]. *)
Definition read_bytes (h : ArchiveFileHandle) (start stop : Z) : ST (Shared S) IoFault (list byte) :=
  if (stop <? start) || (handle_length h <? stop) then
    ST_fail (Failed (io_error InvalidInput
      [Txt "invalid range "; Int start; Txt ".."; Int stop; Txt " for archive file '";
       Str (handle_path h); Txt "' with length "; Int (handle_length h)]))
  else if start =? stop then mret []
  else
    cached ← read_cached_block h start stop;
    match cached with
    | Some bytes => mret bytes
    | None =>
        pos ← absolute h start;
        _ ← alloc (stop - start);
        read_direct pos (stop - start)
    end.
End Handle.

(** ** The directory *)

(** What the engine's [FileSlice] over a handle reads: [open_read(path)?.read_bytes()]. *)
Class FileSliceApi := {
  FileSlice_read_bytes {S} :
    (Z -> Z -> ST (Shared S) IoFault (list byte)) -> Z -> ST (Shared S) IoFault (list byte);
  FileSlice_reads_all {S} (read : Z -> Z -> ST (Shared S) IoFault (list byte)) len :
    FileSlice_read_bytes read len = read 0 len
}.
Definition whole_file_slice : FileSliceApi := {|
  FileSlice_read_bytes S read len := read 0 len;
  FileSlice_reads_all S read len := eq_refl
|}.

Section Directory.
Context `{Platform}.

Fixpoint map_files (body_start : Z) (files : list ArchiveFileEntry)
    (mapped : path_map ArchivedFile) : Result (path_map ArchivedFile) :=
  match files with
  | [] => Ok mapped
  | file :: files' =>
      start ← ok_or (checked_add u64_max body_start (offset file))
        (InvalidStorage [Txt "archive file '"; Str (name file); Txt "' offset overflow"]);
      len ← ok_or (try_from_unsigned usize_max (length file))
        (InvalidStorage [Txt "archive file '"; Str (name file); Txt "' is too large"]);
      map_files body_start files' (<[components (name file) := archived_file start len]> mapped)
  end.
(** [ArchiveDirectory::new_with_metrics]: the file map; the shared part
    starts as [new_shared input]. *)
Definition new_with_metrics (body_start : Z) (files : list ArchiveFileEntry) :
    Result (path_map ArchivedFile) := map_files body_start files ∅.

(** [ArchiveDirectory::new], with metrics of its own. *)
Definition ArchiveDirectory_new (body_start : Z) (files : list ArchiveFileEntry) : Result (path_map ArchivedFile) :=
  new_with_metrics body_start files.

Definition file (files : path_map ArchivedFile) (path : str) : result OpenReadError ArchivedFile :=
  ok_or (files !! components path) (OpenRead_FileDoesNotExist path).

Definition get_file_handle (files : path_map ArchivedFile) (path : str) :
    result OpenReadError ArchiveFileHandle :=
  f ← file files path;
  Ok (file_handle path (file_start f) (file_length f)).

Definition delete_file (files : path_map ArchivedFile) (path : str) : result DeleteError unit :=
  if bool_decide (is_Some (files !! components path))
  then Err (Delete_IoError read_only_error path)
  else Err (Delete_FileDoesNotExist path).

Definition exists_file (files : path_map ArchivedFile) (path : str) : result OpenReadError bool :=
  Ok (bool_decide (is_Some (files !! components path))).

Definition open_write (path : str) : result OpenWriteError unit :=
  Err (OpenWrite_IoError read_only_error path).

Definition atomic_write (path : str) (data : list byte) : result IoError unit := Err read_only_error.
Definition sync_directory : result IoError unit := Ok tt.
(** [watch]: an empty handle, the callback is never called. *)
Definition watch : result TantivyError unit := Ok tt.

(** [META_LOCK] belongs to the engine. *)
Definition acquire_lock (META_LOCK lock : str) : result LockError unit :=
  if bool_decide (components lock = components META_LOCK) then Ok tt
  else Err (Lock_IoError read_only_error).

Context `{Profile} `{FileSliceApi} {S : Type} `{SeekRead S} `{MetricsCell S}.

Definition atomic_read (files : path_map ArchivedFile) (path : str) :
    ST (Shared S) OpenReadError (list byte) :=
  h ← ST_lift (get_file_handle files path);
  ST_map_err (λ e, OpenRead_IoError e path)
    (FileSlice_read_bytes (read_bytes h) (ArchiveFileHandle_len h)).
End Directory.
