(* ===== verification/ArchiveSpec.v ===== *)
(** * The archive directory is the map of its files

    The cache keeps its invariant whatever the input does; cached blocks are
    the bytes of the input; and a directory over an archive answers every
    sequence of reads like the map from paths to contents.  A read panics
    exactly where [read_panics] tells so. *)

From S2P Require Import Prelude RustStd Error IoLayer Json Tokenizer Config HeaderJson Storage StorageSpec Archive.

(** The reader's own calls leave the cache counters alone. *)
Definition cache_counters (m : ReadMetrics) : Z * Z * Z * Z :=
  (cache_hits m, cache_misses m, cache_evictions m, cached_blocks m).
Class KeepsCacheMetrics (S : Type) `{SeekRead S} `{MetricsCell S} : Prop :=
  pread_counters reqs s :
    cache_counters (metrics_of (pread reqs s).2) = cache_counters (metrics_of s).

#[export] Instance MeteredSeekRead_keeps R `{SeekRead R} : KeepsCacheMetrics (MeteredSeekRead R).
Proof.
  intros reqs [i m]. unfold pread, MeteredSeekRead_SeekRead, MeteredSeekRead_pread. cbn.
  by destruct (pread reqs i).
Qed.

(** ** The invariant of the cache *)
Section CacheInvariant.
Context {S : Type} `{SeekRead S} `{MetricsCell S} (data_of : S -> list byte).
Context `{!ReadsData S data_of} `{!MetricsSeparate S data_of} `{!KeepsCacheMetrics S}.

(** The keys in the queue are the keys of the map. *)
Record queue_inv (s : Shared S) : Prop := {
  queue_nodup : NoDup (order s);
  queue_keys : ∀ p, p ∈ order s ↔ is_Some (blocks s !! p);
  queue_counter : cached_blocks (metrics_of (input s)) = Z.of_nat (size (blocks s));
  queue_live : poisoned s = false
}.
Record cache_inv (s : Shared S) : Prop := {
  cache_queue : queue_inv s;
  cache_size : Z.of_nat (size (blocks s)) ≤ READ_CACHE_MAX_BLOCKS
}.

Lemma queue_inv_length s : queue_inv s → List.length (order s) = size (blocks s).
Proof.
  intros [Hnd Hk _ _]. rewrite <- size_dom, <- (size_list_to_set (C := gset Z) (order s)) by done.
  f_equal. apply set_eq. intros p. by rewrite elem_of_list_to_set, elem_of_dom.
Qed.

Lemma shared_metrics_data f s : data_of (input (shared_metrics f s)) = data_of (input s).
Proof. unfold shared_metrics, update_metrics. cbn. apply data_of_with. Qed.

Lemma shared_metrics_of f s : metrics_of (input (shared_metrics f s)) = f (metrics_of (input s)).
Proof. unfold shared_metrics, update_metrics. cbn. apply metrics_of_with. Qed.

(** Evicting the head of the queue. *)
Lemma evict_step_inv s k o :
  queue_inv s → order s = k :: o → Z.of_nat (size (blocks s)) < 2 ^ 64 →
  queue_inv (shared_metrics record_cache_eviction
    (shared (input s) (delete k (blocks s)) o (poisoned s))).
Proof.
  intros [Hnd Hk Hc Hl] Ho Hsize. rewrite Ho in *. apply NoDup_cons in Hnd as [Hni Hnd].
  assert (is_Some (blocks s !! k)) as Hin by (apply Hk; left).
  split; [done| |rewrite shared_metrics_of|done].
  - intros p. cbn. destruct (decide (p = k)) as [->|Hne].
    + rewrite lookup_delete_eq. split; [done|]. by intros [].
    + rewrite lookup_delete_ne, <- Hk, elem_of_cons by done. naive_solver.
  - cbn. rewrite Hc. rewrite map_size_delete_Some by done.
    assert (size (blocks s) ≠ 0%nat).
    { intros E. apply map_size_empty_inv in E. rewrite E in Hin. by destruct Hin. }
    rewrite wrapping_sub_u64_small by (unfold u64_max; lia). lia.
Qed.

Lemma evict_loop_spec fuel s :
  queue_inv s → (List.length (order s) ≤ fuel)%nat → Z.of_nat (size (blocks s)) < 2 ^ 64 →
  let s' := evict_loop fuel s in
  queue_inv s' ∧ Z.of_nat (size (blocks s')) < READ_CACHE_MAX_BLOCKS ∧
  blocks s' ⊆ blocks s ∧ order s' `suffix_of` order s ∧ data_of (input s') = data_of (input s).
Proof.
  revert s. induction fuel as [|fuel IH]; intros s Hq Hlen Hsize s'; subst s'; cbn [evict_loop].
  - pose proof (queue_inv_length s Hq) as E. unfold READ_CACHE_MAX_BLOCKS. split_and!; [done|lia|done|done|done].
  - destruct (Z.leb_spec READ_CACHE_MAX_BLOCKS (Z.of_nat (size (blocks s)))) as [Hge|Hlt]; [|by split_and!].
    destruct (order s) as [|k o] eqn:Ho.
    { pose proof (queue_inv_length s Hq) as E. rewrite Ho in E. cbn in E.
      unfold READ_CACHE_MAX_BLOCKS in *. lia. }
    set (s1 := shared_metrics _ _).
    assert (queue_inv s1) as Hq1 by (by apply evict_step_inv).
    pose proof (queue_inv_length s1 Hq1) as E1. pose proof (queue_inv_length s Hq) as E.
    rewrite Ho in E. cbn in E, E1, Hlen.
    destruct (IH s1 Hq1) as (Hi & Hs & Hb & Hsuf & Hd); [cbn; lia..|].
    split_and!; [done|done| | |].
    + etrans; [exact Hb|]. apply delete_subseteq.
    + apply suffix_cons_r. exact Hsuf.
    + rewrite Hd. etrans; [apply shared_metrics_data|done].
Qed.

Lemma evict_spec s :
  cache_inv s →
  queue_inv (evict s) ∧ Z.of_nat (size (blocks (evict s))) < READ_CACHE_MAX_BLOCKS ∧
  blocks (evict s) ⊆ blocks s ∧ order (evict s) `suffix_of` order s ∧
  data_of (input (evict s)) = data_of (input s).
Proof.
  intros [Hq Hs]. apply evict_loop_spec; [done..|]. unfold READ_CACHE_MAX_BLOCKS in Hs. lia.
Qed.

Lemma cache_inv_queue f s : cache_inv s →
  cached_blocks (f (metrics_of (input s))) = cached_blocks (metrics_of (input s)) →
  cache_inv (shared_metrics f s).
Proof.
  intros [[Hnd Hk Hc Hl] Hs] Hf. split; [split|done]; try done.
  rewrite shared_metrics_of. by rewrite Hf, Hc.
Qed.

(** Appending a new key. *)
Lemma insert_step_inv s pos block :
  queue_inv s → Z.of_nat (size (blocks s)) < READ_CACHE_MAX_BLOCKS → blocks s !! pos = None →
  cache_inv (shared_metrics record_cache_insert
    (shared (input s) (<[pos := block]> (blocks s)) (order s ++ [pos]) (poisoned s))).
Proof.
  intros [Hnd Hk Hc Hl] Hs Hnone. unfold READ_CACHE_MAX_BLOCKS in *. split; [split|].
  - cbn. apply NoDup_app. split_and!; [done| |apply NoDup_singleton].
    intros p Hp Hin. apply list_elem_of_singleton in Hin. subst. apply Hk in Hp as [? ?]. congruence.
  - intros p. cbn. rewrite elem_of_app, list_elem_of_singleton, Hk. destruct (decide (p = pos)) as [->|Hne].
    + rewrite lookup_insert_eq. split; [eauto|by right].
    + rewrite lookup_insert_ne by done. naive_solver.
  - rewrite shared_metrics_of. cbn. rewrite Hc, map_size_insert_None by done.
    rewrite wrapping_add_u64_small by (unfold u64_max; lia). lia.
  - done.
  - cbn. rewrite map_size_insert_None by done. unfold READ_CACHE_MAX_BLOCKS. lia.
Qed.
End CacheInvariant.

(** ** The cached blocks are the bytes of the input *)
Definition file_stop (f : ArchivedFile) : Z := file_start f + file_length f.
Definition apart (f g : ArchivedFile) : Prop :=
  file_stop f ≤ file_start g ∨ file_stop g ≤ file_start f.

(** The files of a directory: any two of them are the same or apart. *)
Record files_ok (fs : list ArchivedFile) : Prop := {
  files_sizes : Forall (λ f, 0 ≤ file_start f ∧ 0 ≤ file_length f) fs;
  files_apart : ∀ f g, f ∈ fs → g ∈ fs → f = g ∨ apart f g
}.

(** The block of [f] with number [k]: its position and its length. *)
Definition block_pos (f : ArchivedFile) (k : Z) : Z := file_start f + k * READ_CACHE_BLOCK_BYTES.
Definition block_len (f : ArchivedFile) (k : Z) : Z :=
  Z.min READ_CACHE_BLOCK_BYTES (file_length f - k * READ_CACHE_BLOCK_BYTES).
Definition is_block (f : ArchivedFile) (k : Z) : Prop :=
  0 ≤ k ∧ k * READ_CACHE_BLOCK_BYTES < file_length f.

Definition coherent (fs : list ArchivedFile) (d : list byte) (bs : gmap Z (list byte)) : Prop :=
  ∀ p b, bs !! p = Some b →
    ∃ f k, f ∈ fs ∧ is_block f k ∧ p = block_pos f k ∧ p + block_len f k ≤ blen d ∧
      b = slice p (block_len f k) d.

Lemma coherent_subseteq fs d bs bs' : coherent fs d bs → bs' ⊆ bs → coherent fs d bs'.
Proof. intros Hc Hs p b Hp. apply Hc. by eapply lookup_weaken. Qed.

Lemma coherent_insert fs d bs f k :
  coherent fs d bs → f ∈ fs → is_block f k → block_pos f k + block_len f k ≤ blen d →
  coherent fs d (<[block_pos f k := slice (block_pos f k) (block_len f k) d]> bs).
Proof. intros Hc Hf Hk Hin p b [[<- <-] | [_ Hp]]%lookup_insert_Some; [by exists f, k | by apply Hc]. Qed.

(** In a set of files that are apart, a position is that of one block. *)
Lemma block_unique fs f g k l :
  files_ok fs → f ∈ fs → g ∈ fs → is_block f k → is_block g l → block_pos f k = block_pos g l →
  f = g ∧ k = l.
Proof.
  intros [Hz Ha] Hf Hg Hk Hl He. unfold is_block, block_pos, READ_CACHE_BLOCK_BYTES in *.
  destruct (Ha f g Hf Hg) as [<- | [Hd | Hd]].
  - split; [done|]. lia.
  - unfold file_stop in Hd. rewrite Forall_forall in Hz. specialize (Hz g Hg). lia.
  - unfold file_stop in Hd. rewrite Forall_forall in Hz. specialize (Hz f Hf). lia.
Qed.

Lemma coherent_block fs d bs f k b :
  files_ok fs → coherent fs d bs → f ∈ fs → is_block f k → bs !! block_pos f k = Some b →
  block_pos f k + block_len f k ≤ blen d ∧ b = slice (block_pos f k) (block_len f k) d.
Proof.
  intros Hok Hc Hf Hk Hb. destruct (Hc _ _ Hb) as (g & l & Hg & Hl & He & Hin & ->).
  by destruct (block_unique fs f g k l) as [<- <-].
Qed.

(** ** Reading through the cache *)
Section Reads.
Context `{Platform} `{Profile} {S : Type} `{SeekRead S} `{MetricsCell S} (data_of : S -> list byte).
Context `{!ReadsData S data_of} `{!MetricsSeparate S data_of} `{!KeepsCacheMetrics S}.
(** The files, the bytes of the input, and whether the input never fails. *)
Context (fs : list ArchivedFile) (d : list byte) (reliable : Prop).
Context (Hfs : files_ok fs) (Hd : blen d ≤ usize_max) (Hrel : reliable → reads_within data_of d).

Record reading (s : Shared S) : Prop := {
  reading_cache : cache_inv s;
  reading_blocks : coherent fs d (blocks s);
  reading_data : data_of (input s) = d
}.

Lemma reading_new i : data_of i = d → cached_blocks (metrics_of i) = 0 → reading (new_shared i).
Proof.
  intros Hi Hc. split; [split; [split|]|..]; cbn; try done.
  - constructor.
  - intros p. split; [set_solver|]. by intros [].
Qed.

Lemma lock_wp {A} (f : unit -> ST (Shared S) IoFault A) Q s :
  reading s → wp (f tt) Q s → wp (lock_cache ≫= f) Q s.
Proof.
  intros [[[] _] _ _] Hf. apply wp_bind. unfold wp, lock_cache. rewrite queue_live0. exact Hf.
Qed.

Lemma reading_metrics f s :
  reading s → cached_blocks (f (metrics_of (input s))) = cached_blocks (metrics_of (input s)) →
  reading (shared_metrics f s).
Proof.
  intros [Hc Hb Hdt] Hf. split; [|done|].
  - eapply cache_inv_queue; try done.
  - rewrite <- Hdt. eapply shared_metrics_data; done.
Qed.

Lemma cache_get_wp pos s :
  reading s → wp (cache_get pos) (λ r s', reading s' ∧ r = Ok (blocks s !! pos)) s.
Proof.
  intros Hr. apply lock_wp; [done|]. unfold wp. cbn.
  destruct (blocks s !! pos); split; try done. by apply reading_metrics.
Qed.

Lemma record_miss_wp s : reading s → wp record_miss (λ r s', reading s' ∧ r = Ok tt) s.
Proof. intros Hr. split; [|done]. by apply reading_metrics. Qed.

Lemma read_direct_wp pos len s :
  0 ≤ pos → 0 ≤ len → reading s →
  wp (read_direct pos len) (λ r s', reading s' ∧
    match r with
    | Ok b => b = slice pos len d ∧ pos + len ≤ blen d
    | Err (Failed _) => ¬ (reliable ∧ pos + len ≤ blen d)
    | Err (Panicked _) => False
    end) s.
Proof.
  intros Hp Hl [[[Hnd Hk Hc Hlive] Hs] Hb Hdt]. unfold wp, read_direct.
  assert (Forall request_wf [read_request pos len]) as Hwf by (constructor; [split; cbn; lia|constructor]).
  pose proof (pread_data (data_of := data_of) [read_request pos len] (input s)) as Hd1.
  pose proof (pread_counters [read_request pos len] (input s)) as Hm.
  destruct (pread [read_request pos len] (input s)) as [r i] eqn:E. cbn [fst snd] in *.
  split.
  { split; [split; [split|done]|done|]; cbn; try done; [|congruence].
    unfold cache_counters in Hm. congruence. }
  destruct r as [bufs|e]; cbn.
  - apply (pread_sound (data_of := data_of)) in E as [Hin ->]; [|done].
    rewrite Forall_singleton in Hin. unfold in_range in Hin. rewrite Hdt in Hin. cbn in Hin.
    by rewrite Hdt.
  - intros [Hr Hin]. specialize (Hrel Hr).
    specialize (Hrel [read_request pos len] (input s) Hdt Hwf). rewrite E in Hrel.
    by specialize (Hrel (proj2 (Forall_singleton (in_range d) (read_request pos len)) Hin)).
Qed.

Lemma cache_insert_wp f k s :
  f ∈ fs → is_block f k → block_pos f k + block_len f k ≤ blen d → reading s →
  let b := slice (block_pos f k) (block_len f k) d in
  wp (cache_insert (block_pos f k) b) (λ r s', reading s' ∧ r = Ok b) s.
Proof.
  intros Hf Hk Hin Hr b. apply lock_wp; [done|]. unfold wp.
  destruct (blocks s !! block_pos f k) as [b'|] eqn:E; cbn.
  { split; [done|]. f_equal. eapply (coherent_block fs); try done. apply Hr. }
  destruct Hr as [Hc Hb Hdt].
  destruct (evict_spec data_of s Hc) as (Hq & Hsz & Hsub & _ & Hdt').
  assert (blocks (evict s) !! block_pos f k = None) as Hn.
  { eapply lookup_weaken_None; [exact E|done]. }
  split; [|done]. split.
  - by apply (insert_step_inv data_of).
  - apply coherent_insert; [|done..]. by eapply coherent_subseteq.
  - etrans; [by eapply shared_metrics_data|]. cbn. congruence.
Qed.

(** ** Handles *)
Definition handle_file (h : ArchiveFileHandle) : ArchivedFile :=
  archived_file (handle_start h) (handle_length h).

(** When a read of a range panics, exactly: in a build with overflow checks
    when the end of its block is past the end of the address space, and when a
    range beyond the cache is larger than a vector can be. *)
Definition limit_overflows (block_start : Z) : bool :=
  overflow_checks && (usize_max <? block_start + READ_CACHE_BLOCK_BYTES).
Definition read_panics (h : ArchiveFileHandle) (start stop : Z) : bool :=
  if READ_CACHE_BLOCK_BYTES <? stop - start then
    (handle_start h + start <=? u64_max) && (isize_max <? stop - start)
  else (start <? stop) && limit_overflows (start / READ_CACHE_BLOCK_BYTES * READ_CACHE_BLOCK_BYTES).

(** No file that a vector can hold makes a read panic. *)
Lemma read_panics_small h start stop :
  handle_length h ≤ isize_max → 0 ≤ start → stop ≤ handle_length h → read_panics h start stop = false.
Proof.
  intros Hl Hst Hs. unfold read_panics, limit_overflows, READ_CACHE_BLOCK_BYTES.
  destruct isize_max_bounds as [Hi Hu].
  assert (isize_max + 64 * 1024 ≤ usize_max) as Hroom.
  { unfold isize_max, usize_max. destruct pointer_bits_ok as [-> | ->]; lia. }
  destruct (Z.ltb_spec (64 * 1024) (stop - start)).
  - apply andb_false_intro2, Z.ltb_ge. lia.
  - destruct (Z.ltb_spec start stop); [|done]. cbn [andb]. apply andb_false_intro2, Z.ltb_ge.
    Z.to_euclidean_division_equations. lia.
Qed.

(** What a read of a range of a file returns: a panic exactly as above; the
    requested bytes of the input; or an error, only when the input is
    unreliable or too short. *)
Definition read_outcome (h : ArchiveFileHandle) (start stop : Z) (r : result IoFault (list byte)) : Prop :=
  panicked r = read_panics h start stop ∧
  match r with
  | Ok bytes => bytes = slice (handle_start h + start) (stop - start) d
  | Err (Failed _) => ¬ (reliable ∧ handle_start h + handle_length h ≤ blen d)
  | Err (Panicked _) => True
  end.

Lemma absolute_spec h n :
  0 ≤ n ≤ handle_length h → 0 ≤ handle_start h → handle_length h ≤ usize_max →
  (handle_start h + n ≤ u64_max ∧ ∀ s : Shared S, absolute h n s = (Ok (handle_start h + n), s)) ∨
  (u64_max < handle_start h + n ∧
   ∃ e, (∀ s : Shared S, absolute h n s = (Err (Failed e), s)) ∧
        ¬ handle_start h + handle_length h ≤ blen d).
Proof.
  intros Hn Hs Hl. unfold absolute. pose proof usize_max_bounds.
  rewrite (proj2 (try_from_unsigned_Some u64_max n n)) by lia. cbn [ok_or].
  destruct (checked_add u64_max (handle_start h) n) as [p|] eqn:E.
  - pose proof E as [? ->]%checked_add_Some. left. split; [done|]. intros s. by rewrite ST_bind_lift_Ok, E.
  - pose proof E as Hgt%checked_add_None. right. split; [done|]. eexists. split; [|lia].
    intros s. by rewrite ST_bind_lift_Ok, E.
Qed.

(** The block that holds a position of the file. *)
Lemma block_of_range h start stop k :
  k = start / READ_CACHE_BLOCK_BYTES → 0 ≤ start < stop → stop ≤ handle_length h →
  is_block (handle_file h) k ∧ k * READ_CACHE_BLOCK_BYTES ≤ start.
Proof.
  intros -> Hr Hl. unfold is_block, handle_file, READ_CACHE_BLOCK_BYTES. cbn.
  Z.to_euclidean_division_equations. lia.
Qed.

Lemma block_slice h k start stop :
  is_block (handle_file h) k → k * READ_CACHE_BLOCK_BYTES ≤ start → start ≤ stop →
  stop ≤ k * READ_CACHE_BLOCK_BYTES + block_len (handle_file h) k → 0 ≤ handle_start h →
  slice (start - k * READ_CACHE_BLOCK_BYTES) (stop - start)
    (slice (block_pos (handle_file h) k) (block_len (handle_file h) k) d)
  = slice (handle_start h + start) (stop - start) d.
Proof.
  intros [Hk0 Hk] Hs Hss Hstop Hh. unfold handle_file, block_pos, block_len in *. cbn in *.
  rewrite slice_slice; [f_equal; lia|..]; unfold READ_CACHE_BLOCK_BYTES in *; lia.
Qed.

(** The limit of the block, when it does not wrap around. *)
Lemma limit_spec h k :
  is_block (handle_file h) k → 0 ≤ handle_length h ≤ usize_max →
  let m : ST (Shared S) IoFault Z := usize_add (k * READ_CACHE_BLOCK_BYTES) READ_CACHE_BLOCK_BYTES in
  let overflows := limit_overflows (k * READ_CACHE_BLOCK_BYTES) in
  ((∀ s, m s = (Ok ((k + 1) * READ_CACHE_BLOCK_BYTES), s)) ∧ overflows = false) ∨
  ((∀ s, m s = (Ok 0, s)) ∧ overflows = false) ∨
  ((∃ p, ∀ s, m s = (Err (Panicked p), s)) ∧ overflows = true).
Proof.
  intros [Hk0 Hk] Hlen m overflows. subst m overflows. unfold usize_add, limit_overflows, handle_file in *. cbn in Hk.
  destruct (Z.leb_spec (k * READ_CACHE_BLOCK_BYTES + READ_CACHE_BLOCK_BYTES) usize_max) as [Hle|Hgt].
  { left. split; [|apply andb_false_intro2, Z.ltb_ge; lia]. intros s. unfold mret, ST_ret. do 2 f_equal. lia. }
  destruct overflow_checks.
  { right; right. split; [by eexists|]. by apply Z.ltb_lt. }
  right; left. split; [|done]. intros s. unfold mret, ST_ret. do 2 f_equal.
  unfold usize_max, READ_CACHE_BLOCK_BYTES in *.
  destruct pointer_bits_ok as [E|E]; rewrite E in *.
  - assert (k * (64 * 1024) + 64 * 1024 = 2 ^ 32) as -> by lia. done.
  - assert (k * (64 * 1024) + 64 * 1024 = 2 ^ 64) as -> by lia. done.
Qed.

(** What the two halves of a cached read guarantee. *)
Definition cached_outcome (h : ArchiveFileHandle) (start stop : Z) (r : result IoFault (option (list byte))) :
    Prop :=
  panicked r = negb (READ_CACHE_BLOCK_BYTES <? stop - start)
    && limit_overflows (start / READ_CACHE_BLOCK_BYTES * READ_CACHE_BLOCK_BYTES) ∧
  match r with
  | Ok None => True
  | Ok (Some bytes) => stop - start ≤ READ_CACHE_BLOCK_BYTES ∧
      bytes = slice (handle_start h + start) (stop - start) d
  | Err (Failed _) => stop - start ≤ READ_CACHE_BLOCK_BYTES ∧
      ¬ (reliable ∧ handle_start h + handle_length h ≤ blen d)
  | Err (Panicked _) => stop - start ≤ READ_CACHE_BLOCK_BYTES
  end.

Lemma block_len_bounds f k : is_block f k → 0 ≤ block_len f k ≤ READ_CACHE_BLOCK_BYTES.
Proof. unfold is_block, block_len, READ_CACHE_BLOCK_BYTES. lia. Qed.
Lemma alloc_block len (s : Shared S) :
  len ≤ READ_CACHE_BLOCK_BYTES → alloc (E := IoError) len s = (Ok tt, s).
Proof.
  intros Hl. apply alloc_Ok. destruct isize_max_bounds as [Hi _].
  unfold READ_CACHE_BLOCK_BYTES, i32_max in *. lia.
Qed.

(** The block of a position, from the cache or from the input. *)
Lemma fetch_block_wp h k s :
  handle_file h ∈ fs → is_block (handle_file h) k → reading s →
  let f := handle_file h in
  wp (cached ← cache_get (block_pos f k);
      match cached with
      | Some block => mret block
      | None => _ ← record_miss; _ ← alloc (block_len f k); block ← read_direct (block_pos f k) (block_len f k);
                cache_insert (block_pos f k) block
      end)
    (λ r s', reading s' ∧
      match r with
      | Ok b => block_pos f k + block_len f k ≤ blen d ∧ b = slice (block_pos f k) (block_len f k) d
      | Err (Failed _) => ¬ (reliable ∧ handle_start h + handle_length h ≤ blen d)
      | Err (Panicked _) => False
      end) s.
Proof.
  intros Hf Hk Hr f. pose proof Hfs as [Hz _]. rewrite Forall_forall in Hz. specialize (Hz _ Hf).
  assert (0 ≤ block_pos f k ∧ 0 ≤ block_len f k ∧
          block_pos f k + block_len f k ≤ handle_start h + handle_length h) as (Hp & Hl & Hend).
  { destruct Hk. unfold f, block_pos, block_len, handle_file, READ_CACHE_BLOCK_BYTES in *. cbn in *. lia. }
  eapply wp_bind_post; [by apply cache_get_wp| |by intros e s' [_ ?]].
  intros o s1 [Hr1 [= ->]]. destruct (blocks s !! block_pos f k) as [b|] eqn:E.
  { apply wp_ret. split; [done|]. by eapply (coherent_block fs), E; try apply Hr. }
  eapply wp_bind_post; [by apply record_miss_wp| |by intros e s' [_ ?]].
  intros [] s2 [Hr2 _]. eapply wp_bind_run; [by apply alloc_block, block_len_bounds|].
  eapply wp_bind_post; [by apply read_direct_wp| |].
  - intros b s3 [Hr3 [-> Hin]]. eapply wp_mono; [by apply cache_insert_wp|].
    intros r s4 [Hr4 ->]. by split.
  - intros [e|] s3 [Hr3 Hb]; split; try done. intros [Hrl Hin]. apply Hb. split; [done|]. lia.
Qed.

Lemma read_cached_block_wp h start stop s :
  handle_file h ∈ fs → handle_length h ≤ usize_max → 0 ≤ start < stop → stop ≤ handle_length h →
  reading s →
  wp (read_cached_block h start stop) (λ r s', reading s' ∧ cached_outcome h start stop r) s.
Proof.
  intros Hf Hlen Hr Hstop Hs. unfold read_cached_block, cached_outcome.
  destruct (Z.ltb_spec READ_CACHE_BLOCK_BYTES (stop - start)) as [|Hsmall]; [by split|]. cbn [negb andb].
  pose proof Hfs as [Hz _]. rewrite Forall_forall in Hz. specialize (Hz _ Hf) as [Hz _]. cbn in Hz.
  set (k := start / READ_CACHE_BLOCK_BYTES).
  destruct (block_of_range h start stop k) as [Hk Hks]; [done..|].
  destruct (limit_spec h k) as [[Hm Ho] | [[Hm Ho] | [[p Hm] Ho]]]; [done|lia|..]; cbv zeta in Hm; rewrite Ho.
  - eapply wp_bind_run; [apply Hm|].
    replace (Z.min (handle_length h) ((k + 1) * READ_CACHE_BLOCK_BYTES)) with
      (k * READ_CACHE_BLOCK_BYTES + block_len (handle_file h) k)
      by (unfold block_len, handle_file; cbn; lia).
    destruct (Z.ltb_spec (k * READ_CACHE_BLOCK_BYTES + block_len (handle_file h) k) stop) as [|Hin];
      [by split|].
    destruct (absolute_spec h (k * READ_CACHE_BLOCK_BYTES)) as [[_ Ha] | (_ & e & Ha & Hne)]; [|done|done|..].
    { clear -Hk. destruct Hk as [Hk0 Hk]. cbn in Hk. unfold READ_CACHE_BLOCK_BYTES in *. lia. }
    2:{ eapply wp_bind_run_Err; [apply Ha|]. split_and!; [done..|]. by intros [_ ?]. }
    eapply wp_bind_run; [apply Ha|]. rewrite Z.add_simpl_l. apply wp_bind_assoc.
    eapply wp_bind_post; [by apply (fetch_block_wp h k)| |by intros [e|] s' [? ?]].
    intros b s1 [Hs1 [Hend ->]]. unfold slice_range.
    rewrite blen_slice by (unfold is_block, block_pos, block_len, handle_file, READ_CACHE_BLOCK_BYTES in *; cbn in *; lia).
    destruct (Z.ltb_spec (block_len (handle_file h) k) (start - k * READ_CACHE_BLOCK_BYTES + (stop - start)));
      [lia|].
    eapply wp_bind_run; [done|]. apply wp_ret. split_and!; [done..|]. rewrite Z.add_simpl_l.
    apply block_slice; lia || done.
  - eapply wp_bind_run; [apply Hm|].
    destruct (Z.ltb_spec (Z.min (handle_length h) 0) stop); [by split|lia].
  - eapply wp_bind_run_Err; [apply Hm|]. by split_and!.
Qed.

(** What goes on past the cache, with the position and a vector for the range. *)
Lemma past_cache_wp {A} h start stop (k : Z -> ST (Shared S) IoFault A) (Q : result IoFault A -> Shared S -> Prop) s :
  handle_file h ∈ fs → handle_length h ≤ usize_max → 0 ≤ start < stop → stop ≤ handle_length h →
  negb (READ_CACHE_BLOCK_BYTES <? stop - start)
    && limit_overflows (start / READ_CACHE_BLOCK_BYTES * READ_CACHE_BLOCK_BYTES) = false →
  (read_panics h start stop = false → wp (k (handle_start h + start)) Q s) →
  (∀ e, read_outcome h start stop (Err e) → Q (Err e) s) →
  wp (pos ← absolute h start; _ ← alloc (stop - start); k pos) Q s.
Proof.
  intros Hf Hlen Hr Hstop Hno Hk Herr. unfold read_outcome, read_panics in *.
  pose proof Hfs as [Hz _]. rewrite Forall_forall in Hz. specialize (Hz _ Hf) as [Hz _]. cbn in Hz.
  destruct (Z.ltb_spec start stop) as [_|]; [|lia]. cbn [andb] in *.
  destruct (absolute_spec h start) as [[Hle Ha] | (Hgt & e & Ha & Hn)]; [lia|done|done|..].
  2:{ eapply wp_bind_run_Err; [apply Ha|]. apply Herr. split; [|by intros [_ ?]].
      destruct (Z.ltb_spec READ_CACHE_BLOCK_BYTES (stop - start)); [|by symmetry].
      destruct (Z.leb_spec (handle_start h + start) u64_max); [lia|done]. }
  eapply wp_bind_run; [apply Ha|].
  destruct (Z.leb_spec (handle_start h + start) u64_max); [cbn [andb] in *|lia].
  destruct (Z.ltb_spec isize_max (stop - start)) as [Hbig|Hfits].
  - eapply wp_bind_run_Err; [unfold alloc; destruct (Z.ltb_spec isize_max (stop - start)); [done|lia]|].
    apply Herr. split; [|done]. destruct (Z.ltb_spec READ_CACHE_BLOCK_BYTES (stop - start)); [done|].
    pose proof isize_max_bounds as [Hi _]. unfold READ_CACHE_BLOCK_BYTES, i32_max in *. lia.
  - eapply wp_bind_run; [by apply alloc_Ok|]. apply Hk.
    destruct (READ_CACHE_BLOCK_BYTES <? stop - start); [done|exact Hno].
Qed.

Lemma read_bytes_wp h start stop s :
  handle_file h ∈ fs → handle_length h ≤ usize_max → 0 ≤ start → 0 ≤ stop → reading s →
  wp (read_bytes h start stop) (λ r s', reading s' ∧
    (start ≤ stop ≤ handle_length h → read_outcome h start stop r) ∧
    (¬ start ≤ stop ≤ handle_length h → ∃ e, r = Err (Failed e))) s.
Proof.
  intros Hf Hlen H0s H0e Hs. unfold read_bytes.
  destruct (Z.ltb_spec stop start); [cbn; split_and!; [done|lia|by eexists]|].
  destruct (Z.ltb_spec (handle_length h) stop); [cbn; split_and!; [done|lia|by eexists]|]. cbn [orb].
  pose proof Hfs as [Hz _]. rewrite Forall_forall in Hz. specialize (Hz _ Hf) as [Hz _]. cbn in Hz.
  destruct (Z.eqb_spec start stop) as [->|Hne].
  { apply wp_ret. split_and!; [done| |intros []; lia]. intros _. unfold read_outcome, read_panics.
    rewrite Z.sub_diag, Z.ltb_irrefl. done. }
  apply (wp_mono _ (λ r s', reading s' ∧ read_outcome h start stop r));
    [|by intros r s' [? Hr]; split_and!; [|intros _|intros []]].
  eapply wp_bind_post; [apply read_cached_block_wp; done || lia| |].
  - intros [bytes|] s1 [Hs1 [Hp Hb]].
    + apply wp_ret. split; [done|]. split; [|by destruct Hb]. unfold read_panics.
      destruct Hb as [Hsmall _]. destruct (Z.ltb_spec READ_CACHE_BLOCK_BYTES (stop - start)); [lia|].
      destruct (Z.ltb_spec start stop); [exact Hp|lia].
    + apply past_cache_wp; [done || lia..| |by split].
      intros Hnop. eapply wp_mono; [apply read_direct_wp; [lia..|done]|].
      intros r s2 [Hs2 Hd2]. split; [done|]. unfold read_outcome. rewrite Hnop.
      destruct r as [b|[e|p]]; split; try done; [by destruct Hd2|].
      intros [Hrl Hin]. apply Hd2. split; [done|lia].
  - intros e s1 [Hs1 [Hp Hb]]. split; [done|].
    assert (stop - start ≤ READ_CACHE_BLOCK_BYTES) as Hsmall by (destruct e; [by destruct Hb|done]).
    split; [|destruct e; [by destruct Hb|done]]. unfold read_panics.
    destruct (Z.ltb_spec READ_CACHE_BLOCK_BYTES (stop - start)); [lia|].
    destruct (Z.ltb_spec start stop); [exact Hp|lia].
Qed.
End Reads.

(** ** The file map *)
Definition entry_file (body_start : Z) (f : ArchiveFileEntry) : ArchivedFile :=
  archived_file (body_start + offset f) (length f).
Definition entry_path (f : ArchiveFileEntry) : list Component := components (name f).
Definition add_entry (body_start : Z) (m : gmap (list Component) ArchivedFile) (f : ArchiveFileEntry) :
    gmap (list Component) ArchivedFile := <[entry_path f := entry_file body_start f]> m.

Section FileMap.
Context `{Platform}.
Implicit Types (fs : list ArchiveFileEntry) (body_start : Z) (p : list Component) (a : ArchivedFile).

Definition mappable (body_start : Z) (f : ArchiveFileEntry) : Prop :=
  body_start + offset f ≤ u64_max ∧ length f ≤ usize_max.

Lemma map_files_Ok body_start fs m m' :
  map_files body_start fs m = Ok m' ↔
  Forall (mappable body_start) fs ∧
  m' = foldl (add_entry body_start) m fs.
Proof.
  revert m. induction fs as [|f fs IH]; intros m; cbn [map_files foldl].
  { split; [by intros [= ->]|]. by intros [_ ->]. }
  rewrite Forall_cons, bind_Ok. setoid_rewrite bind_Ok. setoid_rewrite ok_or_Ok.
  setoid_rewrite checked_add_Some. setoid_rewrite try_from_unsigned_Some. unfold mappable at 1. split.
  - intros (st & [Hst ->] & len & [Hlen ->] & Hm). by apply IH in Hm as [? ->].
  - intros [[[Hst Hlen] Hfs] ->]. exists (body_start + offset f). split; [done|].
    exists (length f). split; [done|]. apply IH. done.
Qed.

Lemma map_files_lookup body_start fs (m : gmap (list Component) ArchivedFile) p a :
  foldl (add_entry body_start) m fs !! p = Some a →
  (∃ f, f ∈ fs ∧ p = entry_path f ∧ a = entry_file body_start f) ∨ m !! p = Some a.
Proof.
  revert m. induction fs as [|f fs IH]; intros m Hp; cbn in Hp; [by right|].
  apply IH in Hp as [(g & Hg & -> & ->) | Hp].
  - left. exists g. split; [by right|done].
  - unfold add_entry in Hp. apply lookup_insert_Some in Hp as [[<- <-] | [_ Hp]]; [|by right].
    left. exists f. split; [by left|done].
Qed.

Lemma map_files_miss body_start fs (m : gmap (list Component) ArchivedFile) p :
  p ∉ entry_path <$> fs →
  foldl (add_entry body_start) m fs !! p = m !! p.
Proof.
  revert m. induction fs as [|f fs IH]; intros m Hp; cbn in *; [done|].
  rewrite IH by set_solver. unfold add_entry. apply lookup_insert_ne. set_solver.
Qed.

Lemma map_files_hit body_start fs (m : gmap (list Component) ArchivedFile) f :
  NoDup (entry_path <$> fs) → f ∈ fs →
  foldl (add_entry body_start) m fs !! entry_path f
  = Some (entry_file body_start f).
Proof.
  revert m. induction fs as [|g fs IH]; intros m Hnd Hf; cbn in *; [set_solver|].
  apply NoDup_cons in Hnd as [Hni Hnd]. apply elem_of_cons in Hf as [-> | Hf].
  - rewrite map_files_miss by done. unfold add_entry. apply lookup_insert_eq.
  - by apply IH.
Qed.

Lemma new_with_metrics_handle body_start fs dir path h :
  new_with_metrics body_start fs = Ok dir → get_file_handle dir path = Ok h →
  ∃ f, f ∈ fs ∧ entry_path f = components path ∧ mappable body_start f ∧
    h = file_handle path (body_start + offset f) (length f).
Proof.
  intros [Hm ->]%map_files_Ok Hg. apply bind_Ok in Hg as (a & Ha & Hg).
  apply ok_or_Ok, map_files_lookup in Ha as [(f & Hf & He & ->) | Hn]; [|done].
  injection Hg as <-. exists f. rewrite Forall_forall in Hm. split_and!; [done|done|by apply Hm|done].
Qed.

Lemma files_ok_disjoint body_start fs :
  0 ≤ body_start → Forall ArchiveFileEntry_typed fs →
  (∀ f g, f ∈ fs → g ∈ fs → f = g ∨ disjoint_files f g) →
  files_ok (entry_file body_start <$> fs).
Proof.
  intros Hb Ht Hd. split.
  - apply Forall_fmap. eapply Forall_impl; [exact Ht|]. intros f [Ho Hl]. cbn. lia.
  - intros ? ? (f & -> & Hf)%list_elem_of_fmap (g & -> & Hg)%list_elem_of_fmap.
    destruct (Hd f g Hf Hg) as [-> | Hfg]; [by left|]. right.
    unfold disjoint_files, file_end, apart, file_stop, entry_file in *. cbn. lia.
Qed.

Lemma validate_header_disjoint h f g :
  validate_header h = Ok tt → Forall ArchiveFileEntry_typed (files h) →
  f ∈ files h → g ∈ files h → f = g ∨ disjoint_files f g.
Proof.
  intros (_ & _ & _ & _ & Hnd & _ & Hc)%validate_header_Ok Ht Hf Hg.
  destruct (decide (name f = name g)) as [He|Hne].
  - left. by eapply (NoDup_fmap_elem name).
  - right. apply (chained_disjoint (files h)); try done.
    eapply Forall_impl; [exact Ht|]. intros ? []. lia.
Qed.
End FileMap.

(** ** Sequences of reads *)
Section Runs.
Context `{Platform} `{Profile} {S : Type} `{SeekRead S} `{MetricsCell S}.

(** Open the file at a path and read a range of it. *)
Definition read_op (dir : gmap (list Component) ArchivedFile) (op : str * Z * Z) :
    ST (Shared S) OpenReadError (list byte) :=
  let '(path, start, stop) := op in
  h ← ST_lift (get_file_handle dir path);
  ST_map_err (λ e, OpenRead_IoError e path) (read_bytes h start stop).

Fixpoint run_reads (dir : gmap (list Component) ArchivedFile) (ops : list (str * Z * Z))
    (s : Shared S) : list (result OpenReadError (list byte)) * Shared S :=
  match ops with
  | [] => ([], s)
  | op :: ops' =>
      let '(r, s1) := read_op dir op s in
      let '(rs, s2) := run_reads dir ops' s1 in
      (r :: rs, s2)
  end.

Lemma run_reads_inv dir (I : Shared S -> Prop) (ok : str * Z * Z -> result OpenReadError (list byte) -> Prop)
    ops s :
  (∀ op s, op ∈ ops → I s → wp (read_op dir op) (λ r s', I s' ∧ ok op r) s) →
  I s → I (run_reads dir ops s).2 ∧ Forall2 ok ops (run_reads dir ops s).1.
Proof.
  revert s. induction ops as [|op ops IH]; intros s Hop Hs; cbn [run_reads]; [by split|].
  pose proof (Hop op s (list_elem_of_here _ _) Hs) as Hw. unfold wp in Hw.
  destruct (read_op dir op s) as [r s1]. destruct Hw as [H1' Hr].
  destruct (IH s1) as [H2' Hrs]; [by intros; apply Hop; [right|]|done|].
  destruct (run_reads dir ops s1) as [rs s2]. by split; [|constructor].
Qed.
End Runs.

(** ** Properties *)
Section Properties.
Context `{Platform} `{Profile} {S : Type} `{SeekRead S} `{MetricsCell S} (data_of : S -> list byte).
Context `{!ReadsData S data_of} `{!MetricsSeparate S data_of} `{!KeepsCacheMetrics S}.

(** The file a path names in a directory, when there is one. *)
Definition path_file (dir : gmap (list Component) ArchivedFile) (path : str) : option ArchivedFile :=
  dir !! components path.

(** Whether the read of an operation panics: it names a file, in a range of
    it that panics. *)
Definition op_panics (dir : gmap (list Component) ArchivedFile) (op : str * Z * Z) : bool :=
  match get_file_handle dir op.1.1 with
  | Ok h => (op.1.2 <=? op.2) && (op.2 <=? handle_length h) && read_panics h op.1.2 op.2
  | Err _ => false
  end.
Definition op_panicked {A} (r : result OpenReadError A) : bool :=
  match r with Err (OpenRead_IoError (Panicked _) _) => true | _ => false end.

(** The results a read may give: bytes of the right file, an error, or one of
    those panics. *)
Definition safe_result (d : list byte) (dir : gmap (list Component) ArchivedFile) (op : str * Z * Z)
    (r : result OpenReadError (list byte)) : Prop :=
  match r with
  | Ok bytes => ∃ f, path_file dir op.1.1 = Some f ∧ 0 ≤ op.1.2 ≤ op.2 ∧ op.2 ≤ file_length f ∧
      bytes = slice (file_start f + op.1.2) (op.2 - op.1.2) d
  | Err (OpenRead_IoError (Panicked _) _) => op_panics dir op = true
  | Err _ => True
  end.

Lemma read_op_safe fs d dir op s :
  files_ok fs → blen d ≤ usize_max → 0 ≤ op.1.2 → 0 ≤ op.2 →
  (∀ h, get_file_handle dir op.1.1 = Ok h →
    path_file dir op.1.1 = Some (handle_file h) ∧ handle_file h ∈ fs ∧ handle_length h ≤ usize_max) →
  reading data_of fs d s →
  wp (read_op dir op) (λ r s', reading data_of fs d s' ∧
    safe_result d dir op r ∧ op_panicked r = op_panics dir op) s.
Proof.
  intros Hfs Hd Ha0 Hb0 Hdir Hs. destruct op as [[path start] stop]. cbn [fst snd] in *.
  unfold read_op. apply wp_bind, wp_lift. specialize (Hdir). unfold op_panics. cbn [fst snd].
  destruct (get_file_handle dir path) as [h|e] eqn:E.
  2:{ split; [done|]. unfold get_file_handle, file in E. cbn. by destruct (dir !! _); simplify_eq/=. }
  destruct (Hdir h eq_refl) as (Hp & Hf & Hl).
  pose proof (read_bytes_wp data_of fs d False Hfs Hd ltac:(done) h start stop s Hf Hl Ha0 Hb0 Hs) as Hw.
  unfold wp, ST_map_err in *. destruct (read_bytes h start stop s) as [r s']. cbn [fst snd map_err] in *.
  destruct Hw as (Hs' & Hin & Hout). split; [done|].
  destruct ((start <=? stop) && (stop <=? handle_length h)) eqn:Erange; cbn [andb].
  - apply andb_true_iff in Erange as [Hss Hsl]. bool_to_prop. destruct Hin as [Hpan Hr]; [lia|].
    destruct r as [b|[e|p]]; cbn in *; split; try done.
    + exists (handle_file h). cbn. split_and!; done || lia.
    + unfold op_panics. cbn [fst snd]. rewrite E, <- Hpan. bool_to_prop.
      by rewrite (proj2 (Z.leb_le _ _) Hss), (proj2 (Z.leb_le _ _) Hsl).
  - destruct Hout as [e ->]; [|done]. intros [Hss%Z.leb_le Hsl%Z.leb_le]. by rewrite Hss, Hsl in Erange.
Qed.

(** Every read of a sequence, through the directory of an accepted header. *)
Lemma run_reads_safe h body_start dir ops i d :
  validate_header h = Ok tt → Forall ArchiveFileEntry_typed (files h) → 0 ≤ body_start →
  new_with_metrics body_start (files h) = Ok dir →
  data_of i = d → blen d ≤ usize_max → cached_blocks (metrics_of i) = 0 →
  Forall (λ op : str * Z * Z, 0 ≤ op.1.2 ∧ 0 ≤ op.2) ops →
  cache_inv (run_reads dir ops (new_shared i)).2 ∧
  Forall2 (λ op r, safe_result d dir op r ∧ op_panicked r = op_panics dir op) ops
    (run_reads dir ops (new_shared i)).1.
Proof.
  intros Hv Ht Hb Hnew Hi Hd Hc Hops.
  assert (files_ok (entry_file body_start <$> files h)) as Hfs.
  { apply files_ok_disjoint; try done. intros f g. by apply validate_header_disjoint. }
  destruct (run_reads_inv dir (reading data_of (entry_file body_start <$> files h) d)
    (λ op r, safe_result d dir op r ∧ op_panicked r = op_panics dir op) ops (new_shared i)) as [[Hinv _ _] Hrs];
    [|by apply (reading_new _ _ _ False)|by split].
  intros op s Hop Hs. rewrite Forall_forall in Hops. destruct (Hops op Hop).
  eapply read_op_safe; try done. intros hd Hg.
  destruct (new_with_metrics_handle _ _ _ _ _ Hnew Hg) as (f & Hf & _ & [_ Hl] & Hh).
  unfold get_file_handle, file, path_file in *. apply bind_Ok in Hg as (a & Ha & Hg).
  rewrite ok_or_Ok in Ha. injection Hg as <-. split; [by destruct a|]. injection Hh as Hs1 Hl1.
  unfold handle_file. cbn. destruct a as [st le]. cbn in *. subst st le.
  split; [|done]. by apply (list_elem_of_fmap_2 (entry_file body_start)).
Qed.

(** A directory of files that vectors can hold. *)
Lemma op_panics_small h body_start dir op :
  new_with_metrics body_start (files h) = Ok dir → Forall (λ f, length f ≤ isize_max) (files h) →
  0 ≤ op.1.2 → op_panics dir op = false.
Proof.
  intros Hnew Hsmall Hs. unfold op_panics. destruct (get_file_handle dir op.1.1) as [hd|e] eqn:Hg; [|done].
  destruct (new_with_metrics_handle _ _ _ _ _ Hnew Hg) as (f & Hf & _ & _ & ->).
  destruct (Z.leb_spec op.1.2 op.2); [|done]. destruct (Z.leb_spec op.2 (handle_length (file_handle op.1.1
    (body_start + offset f) (length f)))); [|done].
  cbn [andb]. rewrite Forall_forall in Hsmall. apply read_panics_small; [by apply Hsmall|done|done].
Qed.

(** C15: over any input that returns the bytes it has or fails, and any
    directory made from an accepted header, every sequence of reads keeps
    the cache within 256 blocks with its queue, map and counter in step, and
    each read gives exactly the requested bytes of the named file, an error,
    or, only where [op_panics] tells so, a panic: the cache never mixes up
    files, and no read panics when the files the header names have at most
    [isize::MAX] bytes each. *)
Theorem directory_reads_safe h body_start dir ops i d :
  validate_header h = Ok tt → Forall ArchiveFileEntry_typed (files h) → 0 ≤ body_start →
  new_with_metrics body_start (files h) = Ok dir →
  data_of i = d → blen d ≤ usize_max → cached_blocks (metrics_of i) = 0 →
  Forall (λ op : str * Z * Z, 0 ≤ op.1.2 ∧ 0 ≤ op.2) ops →
  cache_inv (run_reads dir ops (new_shared i)).2 ∧
  Forall2 (safe_result d dir) ops (run_reads dir ops (new_shared i)).1 ∧
  (Forall (λ f, length f ≤ isize_max) (files h) →
   Forall (λ r, op_panicked r = false) (run_reads dir ops (new_shared i)).1).
Proof.
  intros Hv Ht Hb Hnew Hi Hd Hc Hops.
  destruct (run_reads_safe h body_start dir ops i d) as [Hinv Hrs]; try done.
  split_and!; [done|by eapply Forall2_impl; [exact Hrs|intros ?? []]|].
  clear Hinv. intros Hsmall. rewrite Forall_forall in Hops. revert Hops. induction Hrs as [|op r ops' rs [_ Hp] _ IH]; [done|].
  intros Hops. constructor; [|apply IH; intros; apply Hops; by right]. rewrite Hp.
  eapply op_panics_small; [done..|]. apply (Hops op). by left.
Qed.

(** C40: which reads panic: through the directory of an accepted header, a read
    of any sequence panics exactly when it names a file and a range of it
    that either is longer than [isize::MAX], so that no vector holds it, at a
    position of 64 bits, or, in a build with overflow checks, lies in a block
    that ends past the end of the address space; such headers exist. *)
Theorem read_panics_exactly h body_start dir ops i d :
  validate_header h = Ok tt → Forall ArchiveFileEntry_typed (files h) → 0 ≤ body_start →
  new_with_metrics body_start (files h) = Ok dir →
  data_of i = d → blen d ≤ usize_max → cached_blocks (metrics_of i) = 0 →
  Forall (λ op : str * Z * Z, 0 ≤ op.1.2 ∧ 0 ≤ op.2) ops →
  op_panicked <$> (run_reads dir ops (new_shared i)).1 = op_panics dir <$> ops.
Proof.
  intros Hv Ht Hb Hnew Hi Hd Hc Hops.
  destruct (run_reads_safe h body_start dir ops i d) as [_ Hrs]; try done.
  clear -Hrs. induction Hrs as [|op r ops' rs [_ Hp] _ IH]; cbn; congruence.
Qed.

(** The specification: a map from paths to contents. *)
Definition spec_file (contents : list (str * list byte)) (path : str) : option (list byte) :=
  snd <$> head (filter (λ c : str * list byte, components c.1 = components path) contents).
Definition spec_read (contents : list (str * list byte)) (op : str * Z * Z) :
    result OpenReadError (list byte) :=
  let '(path, start, stop) := op in
  match spec_file contents path with
  | None => Err (OpenRead_FileDoesNotExist path)
  | Some file =>
      if (stop <? start) || (blen file <? stop) then
        Err (OpenRead_IoError (Failed (io_error InvalidInput
          [Txt "invalid range "; Int start; Txt ".."; Int stop; Txt " for archive file '";
           Str path; Txt "' with length "; Int (blen file)])) path)
      else Ok (slice start (stop - start) file)
  end.

(** The directory of a laid out archive. *)
Lemma served_file d pre contents suffix dir path :
  d = pre ++ concat contents.*2 ++ suffix → blen d ≤ usize_max →
  NoDup (components <$> contents.*1) →
  new_with_metrics (blen pre) (layout 0 contents) = Ok dir →
  match spec_file contents path with
  | None => dir !! components path = None
  | Some file => ∃ f, f ∈ layout 0 contents ∧ dir !! components path = Some (entry_file (blen pre) f) ∧
      length f = blen file ∧ blen pre + offset f + length f ≤ blen d ∧
      slice (blen pre + offset f) (length f) d = file
  end.
Proof.
  intros Hd Hsize Hnd [_ ->]%map_files_Ok.
  assert (entry_path <$> layout 0 contents = components <$> contents.*1) as Hpaths.
  { rewrite <- (layout_names 0), <- list_fmap_compose. done. }
  unfold spec_file. destruct (filter _ contents) as [|[n file] l] eqn:E; cbn.
  - rewrite map_files_miss; [done|]. rewrite Hpaths, <- list_fmap_compose.
    intros (c & Hc & Hin)%list_elem_of_fmap.
    assert (c ∈ filter (λ c : str * list byte, components c.1 = components path) contents) as Hf
      by (by apply list_elem_of_filter). rewrite E in Hf. by apply not_elem_of_nil in Hf.
  - assert ((n, file) ∈ filter (λ c : str * list byte, components c.1 = components path) contents) as Hf
      by (rewrite E; left). apply list_elem_of_filter in Hf as [Hn Hin]. cbn [fst] in Hn.
    pose proof (layout_data (blen pre) 0 contents pre suffix ltac:(lia)) as Hl. rewrite <- Hd in Hl.
    apply list_elem_of_lookup in Hin as [i Hi]. rewrite <- Hl, !list_lookup_fmap in Hi.
    destruct (layout 0 contents !! i) as [f|] eqn:Ef; [|done]. cbn in Hi. injection Hi as Hfn Hfd.
    assert (f ∈ layout 0 contents) as Hf by (by apply (list_elem_of_lookup_2 _ i)).
    pose proof (layout_bounds 0 contents) as Hb. rewrite Forall_forall in Hb.
    specialize (Hb f Hf) as (H0s & H0l & Hend). unfold file_end in Hend.
    assert (blen pre + offset f + length f ≤ blen d) as Hin.
    { rewrite Hd, !blen_app. pose proof (blen_nonneg suffix). lia. }
    exists f. unfold pending_of in Hfd. cbn in Hfd. split_and!; try done.
    + assert (components path = entry_path f) as -> by (unfold entry_path; congruence).
      apply map_files_hit; [by rewrite Hpaths|done].
    + rewrite <- Hfd, blen_slice; try done; pose proof (blen_nonneg pre); lia.
Qed.

Lemma layout_disjoint contents :
  NoDup contents.*1 → ∀ f g, f ∈ layout 0 contents → g ∈ layout 0 contents → f = g ∨ disjoint_files f g.
Proof.
  intros Hnd f g Hf Hg. destruct (decide (name f = name g)) as [He|Hne].
  - left. eapply (NoDup_fmap_elem name); try done. by rewrite layout_names.
  - right. apply (chained_disjoint (layout 0 contents)); try done.
    + eapply Forall_impl; [apply layout_bounds|]. cbn. lia.
    + rewrite sort_by_key_id by apply layout_sorted. apply layout_chained.
Qed.

End Properties.

Section Serving.
Context `{Platform} `{Profile} {S : Type} `{SeekRead S} `{MetricsCell S} (data_of : S -> list byte).
Context `{!ReadsData S data_of} {max_len : Z} `{!ReadsAll S data_of max_len}.
Context `{!MetricsSeparate S data_of} `{!KeepsCacheMetrics S}.
(** An archive in which the paths are different, and its directory. *)
Context (contents : list (str * list byte)) (text suffix : list byte).
Context (Hnd : NoDup (components <$> contents.*1)).
Let body_start : Z := 16 + blen text.
Let d : list byte := header_bytes text ++ concat contents.*2 ++ suffix.
Context (Hsize : blen d ≤ max_len).
(** A vector can hold each of the files. *)
Context (Hsmall : Forall (λ c, blen c ≤ isize_max) contents.*2).
Let served_files : list ArchivedFile := entry_file body_start <$> layout 0 contents.

Lemma served_size : blen d ≤ usize_max.
Proof. pose proof (max_len_addressable (max_len := max_len)). lia. Qed.
Lemma served_reads_within : reads_within data_of d.
Proof. by eapply reads_within_limit. Qed.
Lemma served_body : body_start = blen (header_bytes text).
Proof. by rewrite blen_header_bytes. Qed.

Lemma served_end : body_start + blen (concat contents.*2) ≤ blen d.
Proof.
  unfold d. rewrite !blen_app, <- served_body. pose proof (blen_nonneg suffix). lia.
Qed.

Lemma served_directory : ∃ dir, new_with_metrics body_start (layout 0 contents) = Ok dir.
Proof.
  pose proof served_end. pose proof served_size. pose proof usize_max_bounds. pose proof (blen_nonneg text).
  eexists. apply map_files_Ok. split; [|done]. eapply Forall_impl; [apply layout_bounds|].
  intros f Hf. cbn in Hf. unfold mappable, file_end, body_start in *. lia.
Qed.

Lemma served_files_ok : files_ok served_files.
Proof.
  pose proof served_end. pose proof served_size. pose proof usize_max_bounds. pose proof (blen_nonneg text).
  apply files_ok_disjoint; [unfold body_start; lia|apply layout_typed; unfold body_start in *; lia|].
  apply layout_disjoint. by eapply NoDup_fmap_1.
Qed.

Lemma served_new i :
  data_of i = d → cached_blocks (metrics_of i) = 0 → reading data_of served_files d (new_shared i).
Proof. intros. apply (reading_new _ _ _ False); [apply served_files_ok|apply served_size|done..]. Qed.

Lemma served_small path file : spec_file contents path = Some file → blen file ≤ isize_max.
Proof.
  unfold spec_file. destruct (filter _ contents) as [|c l] eqn:E; [done|]. intros [= <-].
  assert (c ∈ contents) as Hc by (eapply list_elem_of_filter; rewrite E; left).
  rewrite Forall_fmap, Forall_forall in Hsmall. by apply Hsmall.
Qed.

(** One read, from any state of the cache. *)
Lemma served_read_wp dir path start stop s :
  new_with_metrics body_start (layout 0 contents) = Ok dir → 0 ≤ start → 0 ≤ stop →
  reading data_of served_files d s →
  wp (read_op dir (path, start, stop)) (λ r s', reading data_of served_files d s' ∧
    r = spec_read contents (path, start, stop)) s.
Proof.
  intros Hdir H0a H0b Hs. pose proof served_end as Hend. rewrite served_body in Hdir.
  pose proof (served_file d _ contents suffix dir path eq_refl served_size Hnd Hdir) as Hserved.
  rewrite <- served_body in *. unfold read_op, spec_read, get_file_handle, file. apply wp_bind, wp_lift.
  destruct (spec_file contents path) as [file|] eqn:Espec; [|by rewrite Hserved; split].
  apply served_small in Espec. destruct Hserved as (f & Hf & -> & Hlen & Hin & <-). cbn [ok_or mbind result_bind].
  set (h := file_handle path (file_start (entry_file body_start f))
              (file_length (entry_file body_start f))).
  unfold wp, ST_map_err. rewrite <- Hlen.
  pose proof (layout_bounds 0 contents) as Hlb. rewrite Forall_forall in Hlb.
  destruct (Hlb f Hf) as (Ho & H0l & _).
  destruct ((stop <? start) || (length f <? stop)) eqn:Erange.
  { unfold read_bytes. cbn [handle_length h file_length entry_file]. rewrite Erange. by split. }
  apply orb_false_iff in Erange as [E1 E2]. bool_to_prop.
  pose proof (blen_nonneg text) as Ht. pose proof served_size as Husize.
  assert (read_panics h start stop = false) as Hnop.
  { apply read_panics_small; cbn; [by rewrite Hlen|done..]. }
  pose proof (read_bytes_wp data_of _ d True served_files_ok served_size ltac:(intros _; apply served_reads_within) h start stop s) as Hw.
  unfold wp in Hw. destruct (read_bytes h start stop s) as [r s'].
  destruct Hw as (Hs' & Hout & _); [by apply (list_elem_of_fmap_2 (entry_file _))| |done..|].
  { cbn. unfold body_start in *. lia. }
  split; [done|]. destruct (Hout ltac:(cbn; lia)) as [Hpan Hr]. rewrite Hnop in Hpan. cbn [fst snd].
  destruct r as [b|[e|p]]; [|exfalso; apply Hr; split; [done|exact Hin]|done]. cbn [map_err] in *.
  f_equal. rewrite Hr, slice_slice by (unfold body_start; lia). done.
Qed.

Lemma served_reads dir ops s :
  new_with_metrics body_start (layout 0 contents) = Ok dir →
  Forall (λ op : str * Z * Z, 0 ≤ op.1.2 ∧ 0 ≤ op.2) ops →
  reading data_of served_files d s →
  reading data_of served_files d (run_reads dir ops s).2 ∧
  (run_reads dir ops s).1 = spec_read contents <$> ops.
Proof.
  intros Hdir Hops Hs. rewrite Forall_forall in Hops.
  destruct (run_reads_inv dir (reading data_of served_files d)
    (λ op r, r = spec_read contents op) ops s) as [Hs' Hrs]; [|done|].
  - intros [[path start] stop] s1 Hop Hs1. destruct (Hops _ Hop). by apply served_read_wp.
  - split; [done|]. clear -Hrs. induction Hrs; cbn; congruence.
Qed.

(** C13: a directory over an archive of the given files answers every sequence
    of reads, of any path and any range, like the map from paths to
    contents: the bytes of the range, [FileDoesNotExist], or the
    invalid-range error; caching and evictions never show.  A vector can hold
    each of the files. *)
Theorem directory_serves_archive ops i :
  data_of i = header_bytes text ++ concat contents.*2 ++ suffix →
  cached_blocks (metrics_of i) = 0 →
  Forall (λ op : str * Z * Z, 0 ≤ op.1.2 ∧ 0 ≤ op.2) ops →
  ∃ dir, new_with_metrics (16 + blen text) (layout 0 contents) = Ok dir ∧
    (run_reads dir ops (new_shared i)).1 = spec_read contents <$> ops.
Proof.
  intros Hi Hc Hops. destruct served_directory as [dir Hdir]. exists dir. split; [done|].
  apply served_reads; [done..|]. by apply served_new.
Qed.

(** C28: [atomic_read] returns the whole contents of the file its path names
    and [FileDoesNotExist] for every other path, whatever was read before.  A
    vector can hold each of the files. *)
Theorem atomic_read_whole_file `{FileSliceApi} dir ops i path :
  data_of i = header_bytes text ++ concat contents.*2 ++ suffix →
  cached_blocks (metrics_of i) = 0 →
  Forall (λ op : str * Z * Z, 0 ≤ op.1.2 ∧ 0 ≤ op.2) ops →
  new_with_metrics (16 + blen text) (layout 0 contents) = Ok dir →
  (atomic_read dir path (run_reads dir ops (new_shared i)).2).1
  = ok_or (spec_file contents path) (OpenRead_FileDoesNotExist path).
Proof.
  intros Hi Hc Hops Hdir.
  destruct (served_reads dir ops (new_shared i) Hdir Hops (served_new i Hi Hc)) as [Hs _].
  set (s := (run_reads dir ops (new_shared i)).2) in *. pose proof Hdir as Hdir'.
  rewrite <- (blen_header_bytes text) in Hdir'.
  pose proof (served_file d _ contents suffix dir path eq_refl served_size Hnd Hdir') as Hserved.
  destruct (served_read_wp dir path 0 (from_option blen 0 (spec_file contents path)) s Hdir
    ltac:(done) ltac:(destruct (spec_file contents path); cbn; auto with paimon; done) Hs) as [_ Hr].
  unfold read_op, atomic_read, spec_read, get_file_handle, file in *.
  destruct (spec_file contents path) as [file|]; [|by rewrite Hserved].
  destruct Hserved as (f & _ & Hf & Hlen & _). rewrite Hf in *. cbn [ok_or mbind result_bind] in *.
  rewrite ST_bind_lift_Ok in *. rewrite FileSlice_reads_all. unfold ArchiveFileHandle_len.
  cbn [handle_length file_length file_start entry_file from_option] in *. rewrite Hlen in *.
  etrans; [exact Hr|].
  pose proof (blen_nonneg file). destruct (Z.ltb_spec (blen file) 0); [lia|].
  rewrite Z.ltb_irrefl, Z.sub_0_r. cbn [orb]. by rewrite slice_all.
Qed.
End Serving.

(** ** First in, first out *)
Section Fifo.
Context {S : Type} `{SeekRead S} `{MetricsCell S} (data_of : S -> list byte).
Context `{!MetricsSeparate S data_of}.

Lemma evict_full s k o :
  cache_inv s → order s = k :: o → Z.of_nat (size (blocks s)) = READ_CACHE_MAX_BLOCKS →
  evict s = shared_metrics record_cache_eviction
    (shared (input s) (delete k (blocks s)) o (poisoned s)).
Proof.
  intros [Hq Hs] Ho Hfull. unfold evict. rewrite Ho. cbn [List.length evict_loop]. rewrite Ho, Hfull.
  rewrite Z.leb_refl. set (s1 := shared_metrics _ _).
  assert (is_Some (blocks s !! k)) as Hin by (apply Hq; rewrite Ho; left).
  assert (Z.of_nat (size (blocks s1)) < READ_CACHE_MAX_BLOCKS) as Hlt.
  { unfold s1, shared_metrics. cbn. rewrite map_size_delete_Some by done.
    unfold READ_CACHE_MAX_BLOCKS in *. lia. }
  destruct o; cbn [List.length evict_loop]; [done|].
  by destruct (Z.leb_spec READ_CACHE_MAX_BLOCKS (Z.of_nat (size (blocks s1)))); [lia|].
Qed.

Lemma evict_room s :
  Z.of_nat (size (blocks s)) < READ_CACHE_MAX_BLOCKS → evict s = s.
Proof.
  intros Hs. unfold evict. destruct (List.length (order s)); cbn; [done|].
  destruct (Z.leb_spec READ_CACHE_MAX_BLOCKS (Z.of_nat (size (blocks s)))); [lia|done].
Qed.

(** C27: inserting a new block evicts nothing while the cache holds fewer than
    256 blocks, and otherwise exactly the block inserted first; the new key
    goes to the end of the queue, and the counters follow. *)
Theorem cache_insert_fifo s pos block :
  cache_inv s → blocks s !! pos = None →
  let full := Z.of_nat (size (blocks s)) =? READ_CACHE_MAX_BLOCKS in
  let gone := if full then take 1 (order s) else [] in
  let '(r, s') := cache_insert pos block s in
  r = Ok block ∧
  order s' = drop (List.length gone) (order s) ++ [pos] ∧
  blocks s' = <[pos := block]> (foldr delete (blocks s) gone) ∧
  cache_evictions (metrics_of (input s'))
    = foldr (λ _ n, wrapping_add_u64 n 1) (cache_evictions (metrics_of (input s))) gone ∧
  cached_blocks (metrics_of (input s')) = Z.of_nat (size (blocks s')) ∧
  Z.of_nat (size (blocks s')) ≤ READ_CACHE_MAX_BLOCKS ∧ data_of (input s') = data_of (input s).
Proof.
  intros Hinv Hnone full gone. pose proof Hinv as [Hq Hs].
  assert (∃ s1, cache_insert pos block s = (Ok block, shared_metrics record_cache_insert s1) ∧
    order s1 = drop (List.length gone) (order s) ++ [pos] ∧
    blocks s1 = <[pos := block]> (foldr delete (blocks s) gone) ∧
    cache_evictions (metrics_of (input s1))
    = foldr (λ _ n, wrapping_add_u64 n 1) (cache_evictions (metrics_of (input s))) gone)
    as (s1 & E & Ho & Hb & He).
  { unfold cache_insert, lock_cache, mbind, ST_bind. destruct Hq as [_ Hk _ ->]. rewrite Hnone.
    unfold gone, full. destruct (Z.eqb_spec (Z.of_nat (size (blocks s))) READ_CACHE_MAX_BLOCKS) as [Hf|Hf].
    - destruct (order s) as [|k o] eqn:Ho.
      { pose proof (queue_inv_length s (cache_queue _ Hinv)) as E. rewrite Ho in E. cbn in E.
        unfold READ_CACHE_MAX_BLOCKS in Hf. lia. }
      rewrite (evict_full s k o) by done. eexists. split; [done|]. split_and!; try done.
      cbn [input]. by rewrite (shared_metrics_of data_of).
    - rewrite evict_room by lia. eexists. split; [done|]. done. }
  destruct (evict_spec data_of s Hinv) as (Hq' & Hs' & Hsub & _ & Hd).
  assert (blocks (evict s) !! pos = None) as Hn by (eapply lookup_weaken_None; [exact Hnone|done]).
  pose proof (insert_step_inv data_of (evict s) pos block Hq' Hs' Hn) as Hinv'.
  pose proof E as E'. rewrite E. unfold cache_insert, lock_cache, mbind, ST_bind in E'.
  destruct Hq as [_ _ _ Hl]. rewrite Hl, Hnone in E'.
  apply (f_equal snd) in E'. cbn [snd] in E'. rewrite E' in Hinv'.
  split_and!; try done.
  - by rewrite (shared_metrics_of data_of).
  - apply Hinv'.
  - apply Hinv'.
  - rewrite <- E'. etrans; [by eapply shared_metrics_data|]. exact Hd.
Qed.
End Fifo.

(** ** A directory to run *)
#[local] Existing Instance platform64.
#[local] Instance checked_build : Profile := true.
#[local] Existing Instance whole_file_slice.

Definition metered_bytes : MeteredSeekRead SliceReader -> list byte := data ∘ inner.
(** The text of the header plays no part in serving the files. *)
Definition short_text : list byte := as_bytes (lit "{}").
Definition served_archive : list byte := header_bytes short_text ++ concat sample_contents.*2 ++ [].
Definition sample_input : MeteredSeekRead SliceReader :=
  metered (slice_reader served_archive) ReadMetrics_default.
Definition sample_dir : gmap (list Component) ArchivedFile :=
  match new_with_metrics (16 + blen short_text) (layout 0 sample_contents) with
  | Ok dir => dir | Err _ => ∅ end.
Lemma sample_dir_ok : new_with_metrics (16 + blen short_text) (layout 0 sample_contents) = Ok sample_dir.
Proof.
  assert (is_ok (new_with_metrics (16 + blen short_text) (layout 0 sample_contents)) = true) as Hok
    by (vm_compute; reflexivity).
  unfold sample_dir. by destruct (new_with_metrics _ _).
Qed.

(** A whole file, a range of it again, an absent file and two bad ranges. *)
Definition sample_ops : list (str * Z * Z) :=
  [(lit "seg.term", 0, 3); (lit "seg.term/", 1, 2); (lit "empty", 0, 0); (lit "none", 0, 1);
   (lit "meta.json", 2, 1); (lit "meta.json", 0, 9)].

Lemma sample_ops_ok : Forall (λ op : str * Z * Z, 0 ≤ op.1.2 ∧ 0 ≤ op.2) sample_ops.
Proof. repeat constructor; done. Qed.

Lemma sample_paths : NoDup (components <$> sample_contents.*1).
Proof. apply (bool_decide_unpack _). vm_compute. exact I. Qed.

(** The second range is served from the cache: one pread in the whole run. *)
Example sample_run :
  let '(rs, s) := run_reads sample_dir sample_ops (new_shared sample_input) in
  (rs !! 1%nat = Some (Ok (as_bytes (lit "b")))) ∧
  (pread_calls (metrics_of (input s)), cache_hits (metrics_of (input s))) = (1, 1).
Proof. vm_compute. done. Qed.

Lemma directory_reads_safe_witness :
  cache_inv (run_reads sample_dir sample_ops (new_shared sample_input)).2 ∧
  Forall2 (safe_result served_archive sample_dir) sample_ops
    (run_reads sample_dir sample_ops (new_shared sample_input)).1 ∧
  Forall (λ r, op_panicked r = false) (run_reads sample_dir sample_ops (new_shared sample_input)).1.
Proof.
  destruct (directory_reads_safe metered_bytes sample_header (16 + blen short_text) sample_dir sample_ops
    sample_input served_archive) as (Hinv & Hrs & Hno).
  - vm_compute. reflexivity.
  - exact sample_files_typed.
  - vm_compute. discriminate.
  - exact sample_dir_ok.
  - reflexivity.
  - vm_compute. discriminate.
  - reflexivity.
  - exact sample_ops_ok.
  - split; [exact Hinv|]. split; [exact Hrs|]. apply Hno. repeat constructor; vm_compute; discriminate.
Defined.

(** A header that is accepted and lists a file of 2^63 bytes. *)
Definition huge_header : IndexHeader :=
  index_header (metadata sample_header) [archive_file (lit "meta.json") 0 (2 ^ 63)].
Definition huge_dir : gmap (list Component) ArchivedFile :=
  match new_with_metrics 100 (files huge_header) with Ok dir => dir | Err _ => ∅ end.
Lemma huge_dir_ok : new_with_metrics 100 (files huge_header) = Ok huge_dir.
Proof.
  assert (is_ok (new_with_metrics 100 (files huge_header)) = true) as Hok by (vm_compute; reflexivity).
  unfold huge_dir. by destruct (new_with_metrics 100 _).
Qed.
Definition huge_ops : list (str * Z * Z) :=
  [(lit "meta.json", 0, 2 ^ 63); (lit "meta.json", 0, 3); (lit "meta.json", 1, 2 ^ 63)].
Lemma read_panics_exactly_witness :
  validate_header huge_header = Ok tt ∧
  op_panicked <$> (run_reads huge_dir huge_ops (new_shared sample_input)).1 = [true; false; false].
Proof.
  split; [vm_compute; reflexivity|].
  etrans; [apply (read_panics_exactly metered_bytes huge_header 100 huge_dir huge_ops sample_input served_archive)|].
  - vm_compute. reflexivity.
  - repeat constructor; vm_compute; discriminate.
  - discriminate.
  - exact huge_dir_ok.
  - reflexivity.
  - vm_compute. discriminate.
  - reflexivity.
  - repeat constructor; vm_compute; discriminate.
  - vm_compute. reflexivity.
Defined.

Lemma directory_serves_archive_witness :
  ∃ dir, new_with_metrics (16 + blen short_text) (layout 0 sample_contents) = Ok dir ∧
    (run_reads dir sample_ops (new_shared sample_input)).1 = spec_read sample_contents <$> sample_ops.
Proof.
  apply (directory_serves_archive metered_bytes sample_contents short_text []).
  - exact sample_paths.
  - vm_compute. discriminate.
  - repeat constructor; vm_compute; discriminate.
  - reflexivity.
  - reflexivity.
  - exact sample_ops_ok.
Defined.

Lemma atomic_read_whole_file_witness :
  (atomic_read sample_dir (lit "seg.term")
    (run_reads sample_dir sample_ops (new_shared sample_input)).2).1
  = ok_or (spec_file sample_contents (lit "seg.term")) (OpenRead_FileDoesNotExist (lit "seg.term")).
Proof.
  apply (atomic_read_whole_file metered_bytes sample_contents short_text []).
  - exact sample_paths.
  - vm_compute. discriminate.
  - repeat constructor; vm_compute; discriminate.
  - reflexivity.
  - reflexivity.
  - exact sample_ops_ok.
  - exact sample_dir_ok.
Defined.

(** A full cache: blocks 0 to 255. *)
Definition full_cache : Shared (MeteredSeekRead SliceReader) :=
  shared (metered (slice_reader [])
    {| pread_calls := 0; pread_ranges := 0; pread_bytes := 0; cache_hits := 0; cache_misses := 0;
       cache_evictions := 7; cached_blocks := 256 |})
    (list_to_map ((λ n, (n, [])) <$> seqZ 0 256)) (seqZ 0 256) false.

Lemma full_cache_keys : ((λ n, (n, @nil byte)) <$> seqZ 0 256).*1 = seqZ 0 256.
Proof. by rewrite <- list_fmap_compose, list_fmap_id. Qed.

Lemma full_cache_size : Z.of_nat (size (blocks full_cache)) = 256.
Proof.
  cbn [blocks full_cache]. rewrite map_size_list_to_map.
  - by rewrite length_fmap, length_seqZ.
  - rewrite full_cache_keys. apply NoDup_seqZ.
Qed.

Lemma full_cache_inv : cache_inv full_cache.
Proof.
  split; [split|].
  - apply NoDup_seqZ.
  - intros p. cbn [order blocks full_cache]. rewrite <- elem_of_dom, dom_list_to_map.
    rewrite full_cache_keys. by rewrite elem_of_list_to_set.
  - rewrite full_cache_size. reflexivity.
  - reflexivity.
  - rewrite full_cache_size. done.
Qed.

Lemma full_cache_miss : blocks full_cache !! 1000 = None.
Proof. apply not_elem_of_list_to_map_1. rewrite full_cache_keys, elem_of_seqZ. lia. Qed.

Lemma cache_insert_fifo_witness :
  order (cache_insert 1000 [x00] full_cache).2 = seqZ 1 255 ++ [1000].
Proof.
  pose proof (cache_insert_fifo metered_bytes full_cache 1000 [x00] full_cache_inv full_cache_miss) as Hf.
  rewrite full_cache_size in Hf.
  destruct (cache_insert 1000 [x00] full_cache) as [r s'].
  destruct Hf as (_ & Ho & _). exact Ho.
Defined.
