(* ===== verification/ArchiveConc.v ===== *)
(** * Concurrent readers of one archive directory

    Clones of the directory and its handles are used from many threads: the
    cache is behind a mutex that is taken for a lookup and for an insertion
    only, and the input is read without it.  A thread in [read_bytes] is a
    program counter between these atomic actions; the system interleaves any
    number of threads in any order. *)

From S2P Require Import Prelude RustStd Error IoLayer HeaderJson Storage StorageSpec Archive ArchiveSpec.

(** A call of [read_bytes], and the block it is served from. *)
Record Job : Type := job { job_handle : ArchiveFileHandle; job_start : Z; job_stop : Z }.
Record BlockPlan : Type := block_plan { plan_pos : Z; plan_start : Z; plan_len : Z }.
Inductive Plan : Type :=
| Reply (bytes : list byte)
| UseBlock (b : BlockPlan)
| UseDirect (pos : Z).

(** Between which atomic actions a thread is. *)
Inductive Phase : Type :=
| Called (j : Job)
| LookingUp (j : Job) (b : BlockPlan)
| Missed (j : Job) (b : BlockPlan)
| Fetching (j : Job) (b : BlockPlan)
| Storing (j : Job) (b : BlockPlan) (block : list byte)
| Cutting (j : Job) (b : BlockPlan) (block : list byte)
| ReadingDirect (j : Job) (pos : Z)
| Returned (j : Job) (r : result IoFault (list byte)).

Section Threads.
Context `{Platform} `{Profile} {S : Type} `{SeekRead S} `{MetricsCell S}.

(** The part of [read_bytes] and [read_cached_block] before the first action
    on shared state. *)
Definition plan_read (h : ArchiveFileHandle) (start stop : Z) : ST (Shared S) IoFault Plan :=
  if (stop <? start) || (handle_length h <? stop) then
    ST_fail (Failed (io_error InvalidInput
      [Txt "invalid range "; Int start; Txt ".."; Int stop; Txt " for archive file '";
       Str (handle_path h); Txt "' with length "; Int (handle_length h)]))
  else if start =? stop then mret (Reply [])
  else
    let direct := pos ← absolute h start; _ ← alloc (stop - start); mret (UseDirect pos) in
    if READ_CACHE_BLOCK_BYTES <? stop - start then direct
    else
      let block_start := (start / READ_CACHE_BLOCK_BYTES) * READ_CACHE_BLOCK_BYTES in
      limit ← usize_add block_start READ_CACHE_BLOCK_BYTES;
      let block_end := Z.min (handle_length h) limit in
      if block_end <? stop then direct
      else
        pos ← absolute h block_start;
        mret (UseBlock (block_plan pos block_start (block_end - block_start))).

(** Do one action and go on with its result; an error is returned. *)
Definition after {A} (j : Job) (m : ST (Shared S) IoFault A) (next : A -> Phase) (s : Shared S) :
    Phase * Shared S :=
  let '(r, s') := m s in
  (match r with Ok a => next a | Err e => Returned j (Err e) end, s').

Definition thread_step (p : Phase) (s : Shared S) : Phase * Shared S :=
  match p with
  | Called j =>
      after j (plan_read (job_handle j) (job_start j) (job_stop j))
        (λ plan, match plan with
                 | Reply bytes => Returned j (Ok bytes)
                 | UseBlock b => LookingUp j b
                 | UseDirect pos => ReadingDirect j pos
                 end) s
  | LookingUp j b =>
      after j (cache_get (plan_pos b))
        (λ cached, match cached with Some block => Cutting j b block | None => Missed j b end) s
  | Missed j b => after j record_miss (λ _, Fetching j b) s
  | Fetching j b => after j (_ ← alloc (plan_len b); read_direct (plan_pos b) (plan_len b)) (Storing j b) s
  | Storing j b block => after j (cache_insert (plan_pos b) block) (Cutting j b) s
  | Cutting j b block =>
      let start := job_start j - plan_start b in
      after j (slice_range start (start + (job_stop j - job_start j)) block) (λ bytes, Returned j (Ok bytes)) s
  | ReadingDirect j pos =>
      after j (read_direct pos (job_stop j - job_start j)) (λ bytes, Returned j (Ok bytes)) s
  | Returned j r => (Returned j r, s)
  end.

Fixpoint run_thread (n : nat) (p : Phase) (s : Shared S) : Phase * Shared S :=
  match n with
  | O => (p, s)
  | Datatypes.S n' => let '(p', s') := thread_step p s in run_thread n' p' s'
  end.

(** Threads over shared memory; a thread that has returned may call again. *)
Record System : Type := system { threads : list Phase; memory : Shared S }.
Inductive sys_step (callable : Job -> Prop) : System -> System -> Prop :=
| step_thread ts m i p p' m' :
    ts !! i = Some p → thread_step p m = (p', m') →
    sys_step callable (system ts m) (system (<[i := p']> ts) m')
| step_call ts m i j r j' :
    ts !! i = Some (Returned j r) → callable j' →
    sys_step callable (system ts m) (system (<[i := Called j']> ts) m)
| step_spawn ts m j :
    callable j → sys_step callable (system ts m) (system (ts ++ [Called j]) m).

(** The number of actions a thread still has to do, at most. *)
Definition remaining (p : Phase) : nat :=
  match p with
  | Called _ => 6 | LookingUp _ _ => 5 | Missed _ _ => 4 | Fetching _ _ => 3 | Storing _ _ _ => 2
  | Cutting _ _ _ | ReadingDirect _ _ => 1 | Returned _ _ => 0
  end.

Lemma thread_step_remaining p s :
  (remaining (thread_step p s).1 ≤ pred (remaining p))%nat.
Proof.
  destruct p as [j|j b|j b|j b|j b bl|j b bl|j q|j r]; cbn [thread_step]; unfold after.
  all: try match goal with |- context [let '(r, s') := ?m in _] => destruct m as [[a|e] s'] end.
  all: cbn; try (destruct a; cbn); lia.
Qed.
End Threads.
Arguments System S : clear implicits.

(** ** A thread alone runs [read_bytes] *)
Section Alone.
Context `{Platform} `{Profile} {S : Type} `{SeekRead S} `{MetricsCell S}.

Definition outcome (j : Job) (rs : result IoFault (list byte) * Shared S) : Phase * Shared S :=
  (Returned j rs.1, rs.2).

Lemma run_returned n j r (s : Shared S) : run_thread n (Returned j r) s = (Returned j r, s).
Proof. induction n as [|n IH]; [done|]. exact IH. Qed.

Lemma run_after {A} n p j (m : ST (Shared S) IoFault A) next s
    (k : A -> ST (Shared S) IoFault (list byte)) :
  thread_step p s = after j m next s →
  (∀ a s', run_thread n (next a) s' = outcome j (k a s')) →
  run_thread (Datatypes.S n) p s = outcome j ((m ≫= k) s).
Proof.
  intros Hp Hk. cbn [run_thread]. rewrite Hp. unfold after, mbind, ST_bind, outcome.
  destruct (m s) as [[a|e] s']; [apply Hk | apply run_returned].
Qed.

(** [read_bytes] as its plan followed by the actions on shared state. *)
Definition use_block (start stop : Z) (b : BlockPlan) : ST (Shared S) IoFault (list byte) :=
  cached ← cache_get (plan_pos b);
  block ← match cached with
          | Some block => mret block
          | None => _ ← record_miss; _ ← alloc (plan_len b); block ← read_direct (plan_pos b) (plan_len b);
                    cache_insert (plan_pos b) block
          end;
  slice_range (start - plan_start b) (start - plan_start b + (stop - start)) block.

Lemma bind_assoc_run {A B C} (m : ST (Shared S) IoFault A) (f : A -> ST (Shared S) IoFault B)
    (g : B -> ST (Shared S) IoFault C) s : ((m ≫= f) ≫= g) s = (m ≫= λ a, f a ≫= g) s.
Proof. unfold mbind, ST_bind. by destruct (m s) as [[]]. Qed.

Lemma bind_ext_run {A B} (m : ST (Shared S) IoFault A) (f g : A -> ST (Shared S) IoFault B) s :
  (∀ a s', f a s' = g a s') → (m ≫= f) s = (m ≫= g) s.
Proof. intros Hf. unfold mbind, ST_bind. destruct (m s) as [[]]; [apply Hf|done]. Qed.

Lemma direct_plan_run h start stop s :
  (pos ← absolute h start; _ ← alloc (stop - start); read_direct pos (stop - start)) s
  = ((pos ← absolute h start; _ ← alloc (stop - start); mret (UseDirect pos)) ≫= λ plan,
     match plan with
     | Reply bytes => mret bytes
     | UseBlock b => use_block start stop b
     | UseDirect pos => read_direct pos (stop - start)
     end) s.
Proof. rewrite bind_assoc_run. apply bind_ext_run. intros pos s1. by rewrite bind_assoc_run. Qed.

Lemma read_bytes_plan h start stop s :
  read_bytes h start stop s
  = (plan ← plan_read h start stop;
     match plan with
     | Reply bytes => mret bytes
     | UseBlock b => use_block start stop b
     | UseDirect pos => read_direct pos (stop - start)
     end) s.
Proof.
  unfold read_bytes, plan_read. destruct (_ || _); [done|]. destruct (start =? stop); [done|].
  unfold read_cached_block. destruct (READ_CACHE_BLOCK_BYTES <? stop - start).
  { apply direct_plan_run. }
  rewrite !bind_assoc_run. apply bind_ext_run. intros limit s1.
  destruct (_ <? stop); [apply direct_plan_run|]. rewrite !bind_assoc_run.
  apply bind_ext_run. intros p s2. 
  match goal with |- _ = (mret (UseBlock ?b) ≫= _) s2 => transitivity (use_block start stop b s2); [|done] end.
  unfold use_block. cbn [plan_pos plan_start plan_len].
  rewrite bind_assoc_run. apply bind_ext_run. intros o s3. rewrite bind_assoc_run.
  apply bind_ext_run. intros b s4. rewrite bind_assoc_run. unfold mbind, ST_bind.
  by destruct (slice_range _ _ b s4) as [[]].
Qed.

Lemma run_thread_after {A} n p j (m : ST (Shared S) IoFault A) next s :
  thread_step p s = after j m next s →
  run_thread (Datatypes.S n) p s
  = match (m s).1 with
    | Ok a => run_thread n (next a) (m s).2
    | Err e => (Returned j (Err e), (m s).2)
    end.
Proof.
  intros Hp. cbn [run_thread]. rewrite Hp. unfold after.
  destruct (m s) as [[a|e] s']; [done|]. apply run_returned.
Qed.

Lemma run_cutting n j b block s :
  run_thread (Datatypes.S n) (Cutting j b block) s
  = outcome j (slice_range (job_start j - plan_start b)
      (job_start j - plan_start b + (job_stop j - job_start j)) block s).
Proof.
  erewrite run_thread_after by done. unfold outcome.
  destruct (slice_range _ _ block s) as [[a|e] s']; [apply run_returned|done].
Qed.

Lemma run_looking_up j b s :
  run_thread 5 (LookingUp j b) s = outcome j (use_block (job_start j) (job_stop j) b s).
Proof.
  unfold use_block. eapply (run_after 4); [done|]. intros [block|] s1.
  { rewrite run_cutting. done. }
  rewrite (run_after 3 (Missed j b) j record_miss (λ _, Fetching j b) s1
    (λ _, block ← (_ ← alloc (plan_len b); block ← read_direct (plan_pos b) (plan_len b);
                   cache_insert (plan_pos b) block);
          slice_range (job_start j - plan_start b)
            (job_start j - plan_start b + (job_stop j - job_start j)) block)); [|done|].
  { by f_equal. }
  intros [] s2. etrans.
  { apply (run_after 2 (Fetching j b) j (_ ← alloc (plan_len b); read_direct (plan_pos b) (plan_len b)) (Storing j b) s2
      (λ block, block ← cache_insert (plan_pos b) block;
                slice_range (job_start j - plan_start b)
                  (job_start j - plan_start b + (job_stop j - job_start j)) block)); [done|].
    intros block s3. eapply (run_after 1); [done|]. intros block' s4. by rewrite run_cutting. }
  f_equal. rewrite !bind_assoc_run. apply bind_ext_run. intros [] s3. by rewrite bind_assoc_run.
Qed.

Lemma run_called j s :
  run_thread 6 (Called j) s = outcome j (read_bytes (job_handle j) (job_start j) (job_stop j) s).
Proof.
  rewrite read_bytes_plan. eapply (run_after 5); [done|]. intros [bytes|b|q] s1.
  - by rewrite run_returned.
  - apply run_looking_up.
  - erewrite run_thread_after by done. unfold outcome.
    destruct (read_direct q _ s1) as [[a|e] s2]; [apply run_returned|done].
Qed.

(** The interleaved model is the code: a thread that is not interrupted
    runs exactly the sequential [read_bytes], with its result and its effect
    on the cache, the metrics and the input, in at most six atomic actions. *)
Lemma thread_runs_read_bytes h start stop s :
  run_thread 6 (Called (job h start stop)) s
  = (Returned (job h start stop) (read_bytes h start stop s).1, (read_bytes h start stop s).2).
Proof. apply run_called. Qed.
End Alone.

(** ** Any interleaving *)
Section Interleaved.
Context `{Platform} `{Profile} {S : Type} `{SeekRead S} `{MetricsCell S} (data_of : S -> list byte).
Context `{!ReadsData S data_of} `{!MetricsSeparate S data_of} `{!KeepsCacheMetrics S}.
Context (fs : list ArchivedFile) (d : list byte) (reliable : Prop).
Context (Hfs : files_ok fs) (Hd : blen d ≤ usize_max) (Hrel : reliable → reads_within data_of d).

(** Calls through the handles of the files. *)
Definition on_files (j : Job) : Prop :=
  handle_file (job_handle j) ∈ fs ∧ handle_length (job_handle j) ≤ usize_max ∧
  0 ≤ job_start j ∧ 0 ≤ job_stop j.
Definition in_file (j : Job) : Prop := job_start j ≤ job_stop j ≤ handle_length (job_handle j).
Definition plan_ok (j : Job) (b : BlockPlan) : Prop :=
  ∃ k, let f := handle_file (job_handle j) in
    is_block f k ∧ b = block_plan (block_pos f k) (k * READ_CACHE_BLOCK_BYTES) (block_len f k) ∧
    k * READ_CACHE_BLOCK_BYTES ≤ job_start j ∧
    job_stop j ≤ k * READ_CACHE_BLOCK_BYTES + block_len f k.
Definition block_ok (b : BlockPlan) (block : list byte) : Prop :=
  plan_pos b + plan_len b ≤ blen d ∧ block = slice (plan_pos b) (plan_len b) d.

(** Past its plan a read is in its file and does not panic. *)
Definition planned (j : Job) : Prop :=
  in_file j ∧ read_panics (job_handle j) (job_start j) (job_stop j) = false.
(** What each phase relies on. *)
Definition phase_ok (p : Phase) : Prop :=
  match p with
  | Called j => on_files j
  | LookingUp j b | Missed j b | Fetching j b => on_files j ∧ planned j ∧ plan_ok j b
  | Storing j b block | Cutting j b block => on_files j ∧ planned j ∧ plan_ok j b ∧ block_ok b block
  | ReadingDirect j q => on_files j ∧ planned j ∧ q = handle_start (job_handle j) + job_start j
  | Returned j r => on_files j ∧
      (in_file j → read_outcome d reliable (job_handle j) (job_start j) (job_stop j) r) ∧
      (¬ in_file j → ∃ e, r = Err (Failed e))
  end.

Record sys_ok (st : System S) : Prop := {
  sys_memory : reading data_of fs d (memory st);
  sys_threads : Forall phase_ok (threads st)
}.

Lemma file_bounds h : handle_file h ∈ fs → 0 ≤ handle_start h ∧ 0 ≤ handle_length h.
Proof. destruct Hfs as [Hz _]. rewrite Forall_forall in Hz. intros Hf. by apply (Hz _ Hf). Qed.

Lemma plan_read_wp j (s : Shared S) :
  on_files j →
  wp (plan_read (job_handle j) (job_start j) (job_stop j)) (λ r s', s' = s ∧
    match r with
    | Ok plan => planned j ∧
        match plan with
        | Reply bytes => bytes = slice (handle_start (job_handle j) + job_start j) (job_stop j - job_start j) d
        | UseBlock b => plan_ok j b
        | UseDirect q => q = handle_start (job_handle j) + job_start j
        end
    | Err e => (in_file j → read_outcome d reliable (job_handle j) (job_start j) (job_stop j) (Err e)) ∧
               (¬ in_file j → ∃ e', e = Failed e')
    end) s.
Proof.
  intros Hj. pose proof Hj as (Hf & Hl & H0s & H0e). destruct (file_bounds _ Hf) as [Hs0 Hl0].
  unfold plan_read, planned. destruct j as [h start stop]. cbn [job_handle job_start job_stop] in *.
  destruct (Z.ltb_spec stop start); [split; [done|]; unfold in_file; cbn; split; [lia|by eexists]|].
  destruct (Z.ltb_spec (handle_length h) stop); [split; [done|]; unfold in_file; cbn; split; [lia|by eexists]|].
  cbn [orb]. assert (in_file (job h start stop)) as Hin by (split; cbn; lia).
  destruct (Z.eqb_spec start stop) as [->|Hne].
  { apply wp_ret. unfold read_panics. rewrite Z.sub_diag, Z.ltb_irrefl. done. }
  set (overflows := limit_overflows (start / READ_CACHE_BLOCK_BYTES * READ_CACHE_BLOCK_BYTES)).
  match goal with |- wp _ ?Q _ => set (Post := Q) end.
  assert (negb (READ_CACHE_BLOCK_BYTES <? stop - start) && overflows = false →
    wp (q ← absolute h start; _ ← alloc (stop - start); mret (UseDirect q)) Post s) as Hdirect.
  { intros Ho. apply (past_cache_wp fs d reliable Hfs Hd); [done || lia..| |].
    - intros Hnop. by apply wp_ret.
    - intros e He. split; [done|]. by split. }
  destruct (Z.ltb_spec READ_CACHE_BLOCK_BYTES (stop - start)) as [|Hsmall]; [by apply Hdirect|].
  cbn [negb andb] in Hdirect. set (k := start / READ_CACHE_BLOCK_BYTES) in *.
  assert (read_panics h start stop = overflows) as Hpan.
  { unfold read_panics. destruct (Z.ltb_spec READ_CACHE_BLOCK_BYTES (stop - start)); [lia|].
    by destruct (Z.ltb_spec start stop); [|lia]. }
  destruct (block_of_range h start stop k) as [Hk Hks]; [done|lia|lia|].
  destruct (limit_spec (S := S) d Hd h k) as [[Hm Ho] | [[Hm Ho] | [[p Hm] Ho]]]; [done|lia|..]; cbv zeta in Hm.
  - eapply wp_bind_run; [apply Hm|].
    replace (Z.min (handle_length h) ((k + 1) * READ_CACHE_BLOCK_BYTES)) with
      (k * READ_CACHE_BLOCK_BYTES + block_len (handle_file h) k)
      by (unfold block_len, handle_file; cbn; lia).
    destruct (Z.ltb_spec (k * READ_CACHE_BLOCK_BYTES + block_len (handle_file h) k) stop); [by apply Hdirect|].
    destruct (absolute_spec (S := S) d Hd h (k * READ_CACHE_BLOCK_BYTES)) as [[_ Ha] | (_ & e & Ha & Hne')]; [|done|done|..].
    { clear -Hk. destruct Hk as [Hk0 Hk]. cbn in Hk. unfold READ_CACHE_BLOCK_BYTES in *. lia. }
    + eapply wp_bind_run; [apply Ha|]. apply wp_ret. split; [done|]. split; [by split; [|rewrite Hpan]|].
      exists k. cbn. split_and!; try done. by rewrite Z.add_simpl_l.
    + eapply wp_bind_run_Err; [apply Ha|]. split; [done|]. split; [|done]. intros _.
      split; [by rewrite Hpan|]. by intros [_ ?].
  - eapply wp_bind_run; [apply Hm|].
    destruct (Z.ltb_spec (Z.min (handle_length h) 0) stop); [by apply Hdirect|lia].
  - eapply wp_bind_run_Err; [apply Hm|]. split; [done|]. split; [|done]. intros _. by split; [rewrite Hpan|].
Qed.

Lemma plan_ok_len j b : plan_ok j b → plan_len b ≤ READ_CACHE_BLOCK_BYTES.
Proof. intros (k & Hk & -> & _). by apply block_len_bounds. Qed.

Lemma after_ok {A} j (m : ST (Shared S) IoFault A) next s (P : result IoFault A -> Prop) :
  wp m (λ r s', reading data_of fs d s' ∧ P r) s →
  (∀ a, P (Ok a) → phase_ok (next a)) → (∀ e, P (Err e) → phase_ok (Returned j (Err e))) →
  reading data_of fs d (after j m next s).2 ∧ phase_ok (after j m next s).1.
Proof.
  unfold wp, after. destruct (m s) as [[a|e] s']; cbn [fst snd]; intros [Hr HP] Hok Herr; auto.
Qed.

(** A failed input is the only error past the plan. *)
Definition fetch_error (j : Job) (e : IoFault) : Prop :=
  match e with
  | Failed _ => ¬ (reliable ∧ handle_start (job_handle j) + handle_length (job_handle j) ≤ blen d)
  | Panicked _ => False
  end.
Lemma fetch_error_ok j e : on_files j → planned j → fetch_error j e → phase_ok (Returned j (Err e)).
Proof.
  intros Hj [Hin Hnop] He. split; [done|]. split; [|done]. intros _. destruct e; [|done].
  by split; [rewrite Hnop|].
Qed.
Lemma bytes_ok j bytes :
  on_files j → planned j →
  bytes = slice (handle_start (job_handle j) + job_start j) (job_stop j - job_start j) d →
  phase_ok (Returned j (Ok bytes)).
Proof. intros Hj [Hin Hnop] Hb. split_and!; [done| |done]. intros _. by split; [rewrite Hnop|]. Qed.

Lemma plan_ok_bounds j b :
  on_files j → plan_ok j b →
  0 ≤ plan_pos b ∧ 0 ≤ plan_len b ∧
  plan_pos b + plan_len b ≤ handle_start (job_handle j) + handle_length (job_handle j).
Proof.
  intros (Hf & _) (k & [Hk0 Hk] & -> & _). destruct (file_bounds _ Hf).
  unfold block_pos, block_len, handle_file, READ_CACHE_BLOCK_BYTES in *. cbn in *. lia.
Qed.

Lemma thread_step_ok p s :
  reading data_of fs d s → phase_ok p →
  reading data_of fs d (thread_step p s).2 ∧ phase_ok (thread_step p s).1.
Proof.
  intros Hs Hp. destruct p as [j|j b|j b|j b|j b block|j b block|j q|j r]; cbn [thread_step];
    [..|by split].
  - eapply after_ok.
    + eapply wp_mono; [by apply plan_read_wp|]. intros r s' [-> Hr]. split; [done|exact Hr].
    + intros [bytes|b|q] [Hin Hr]; [by apply bytes_ok|by split_and!..].
    + intros e [Hin Hout]. split_and!; [done|done|]. intros Hn. destruct (Hout Hn) as [e' ->]. by eexists.
  - destruct Hp as (Hj & Hin & Hb). eapply after_ok; [by eapply cache_get_wp| |done].
    intros [block|] Ho; [|done]. cbn. split_and!; try done.
    injection Ho as Ho. destruct Hb as (k & Hk & -> & _). cbn in Ho |- *. split; cbn.
    all: destruct (coherent_block fs d (blocks s) (handle_file (job_handle j)) k block); try done.
    all: apply Hs || apply Hj.
  - destruct Hp as (Hj & Hin & Hb). by eapply after_ok; [by eapply record_miss_wp| |].
  - destruct Hp as (Hj & Hin & Hb). destruct (plan_ok_bounds j b Hj Hb) as (Hp0 & Hl0 & Hend).
    assert (plan_len b ≤ READ_CACHE_BLOCK_BYTES) as Hl by (by apply plan_ok_len in Hb).
    eapply after_ok; [eapply wp_bind_run; [by eapply alloc_block|by eapply read_direct_wp]| |].
    + intros block [-> Hr]. done.
    + intros e He. apply fetch_error_ok; [done|done|]. destruct e; [|done].
      intros [Hr Hle]. apply He. split; [done|lia].
  - destruct Hp as (Hj & Hin & Hb & [Hend ->]). pose proof Hb as (k & Hk & Hbk & _). subst b. cbn in Hend |- *.
    eapply after_ok; [by eapply (cache_insert_wp data_of fs d); try done; apply Hj| |done].
    intros block [= ->]. cbn. by split_and!.
  - destruct Hp as (Hj & Hin & (k & Hk & -> & Hks & Hstop) & [Hend ->]). cbn in Hks, Hstop, Hend |- *.
    destruct (file_bounds _ (proj1 Hj)) as [Hs0 _].
    unfold slice_range. rewrite blen_slice by (unfold is_block, block_pos, block_len, handle_file,
      READ_CACHE_BLOCK_BYTES in *; cbn in *; lia).
    destruct (Z.ltb_spec (block_len (handle_file (job_handle j)) k)
      (job_start j - k * READ_CACHE_BLOCK_BYTES + (job_stop j - job_start j))); [lia|].
    unfold after, mret, ST_ret. cbn [fst snd]. split; [done|]. apply bytes_ok; [done|done|].
    rewrite Z.add_simpl_l. apply block_slice; try done. apply Hin.
  - destruct Hp as (Hj & Hin & ->). pose proof Hj as (Hf & _ & H0s & _). destruct (file_bounds _ Hf).
    pose proof Hin as [[Hi1 Hi2] _]. eapply after_ok; [eapply read_direct_wp; try done; lia| |].
    + intros bytes [-> Hr]. by apply bytes_ok.
    + intros e He. apply fetch_error_ok; [done|done|]. destruct e; [|done].
      intros [Hr Hle]. apply He. split; [done|lia].
Qed.

Lemma sys_step_ok st st' : sys_step on_files st st' → sys_ok st → sys_ok st'.
Proof.
  intros Hstep [Hm Ht]. destruct Hstep as [ts m i p p' m' Hi Hp | ts m i j r j' Hi Hj | ts m j Hj];
    cbn [memory threads] in *.
  - rewrite Forall_lookup in Ht. destruct (thread_step_ok p m Hm (Ht i p Hi)) as [Hm' Hp'].
    rewrite Hp in Hm', Hp'. split; [done|]. cbn. apply Forall_insert; [by apply Forall_lookup|done].
  - split; [done|]. cbn. by apply Forall_insert.
  - split; [done|]. cbn. by apply Forall_app_2; [|apply Forall_singleton].
Qed.

Lemma reachable_ok st st' : rtc (sys_step on_files) st st' → sys_ok st → sys_ok st'.
Proof. induction 1; eauto using sys_step_ok. Qed.
End Interleaved.

(** ** Properties *)
Section Properties.
Context `{Platform} `{Profile} {S : Type} `{SeekRead S} `{MetricsCell S} (data_of : S -> list byte).
Context `{!ReadsData S data_of} `{!MetricsSeparate S data_of} `{!KeepsCacheMetrics S}.

(** Calls through the handles a directory gives out. *)
Definition dir_call (dir : gmap (list Component) ArchivedFile) (j : Job) : Prop :=
  (∃ path, get_file_handle dir path = Ok (job_handle j)) ∧ 0 ≤ job_start j ∧ 0 ≤ job_stop j.

Lemma sys_step_weaken (P Q : Job -> Prop) (st st' : System S) :
  (∀ j, P j → Q j) → sys_step P st st' → sys_step Q st st'.
Proof.
  intros HPQ [ts m i p p' m' Hi Hp | ts m i j r j' Hi Hj | ts m j Hj].
  - by eapply step_thread.
  - eapply step_call; eauto.
  - apply step_spawn; auto.
Qed.

Lemma dir_handle_file h body_start dir path hd :
  new_with_metrics body_start (files h) = Ok dir → get_file_handle dir path = Ok hd →
  ∃ f, f ∈ files h ∧ handle_file hd = entry_file body_start f ∧ length f ≤ usize_max.
Proof.
  intros Hnew Hg. destruct (new_with_metrics_handle _ _ _ _ _ Hnew Hg) as (f & Hf & _ & [_ Hl] & ->).
  by exists f.
Qed.

(** C14: however the actions of any number of threads are interleaved, and
    however often they call, every [read_bytes] that returns gives exactly
    the requested bytes or fails, and never mixes up files: it fails only on
    an invalid range or when the input does, and it panics exactly on the
    valid ranges that [read_panics] tells (in no other case, and on none when
    a vector can hold each of the files); the cache keeps its invariant. *)
Theorem concurrent_reads_correct h body_start dir i d st :
  validate_header h = Ok tt → Forall ArchiveFileEntry_typed (files h) → 0 ≤ body_start →
  new_with_metrics body_start (files h) = Ok dir →
  data_of i = d → blen d ≤ usize_max → cached_blocks (metrics_of i) = 0 →
  rtc (sys_step (dir_call dir)) (system [] (new_shared i)) st →
  cache_inv (memory st) ∧
  ∀ j r, Returned j r ∈ threads st →
    match r with
    | Ok bytes => in_file j ∧
        bytes = slice (handle_start (job_handle j) + job_start j) (job_stop j - job_start j) d
    | Err (Failed _) => ¬ (in_file j ∧ reads_within data_of d ∧
        handle_start (job_handle j) + handle_length (job_handle j) ≤ blen d)
    | Err (Panicked _) => in_file j
    end ∧
    (in_file j → panicked r = read_panics (job_handle j) (job_start j) (job_stop j)) ∧
    (Forall (λ f, length f ≤ isize_max) (files h) → panicked r = false).
Proof.
  intros Hv Ht Hb Hnew Hi Hd Hc Hrtc.
  assert (files_ok (entry_file body_start <$> files h)) as Hfs.
  { apply files_ok_disjoint; try done. intros f g. by apply validate_header_disjoint. }
  assert (∀ j, dir_call dir j → on_files (entry_file body_start <$> files h) j) as Hcall.
  { intros j [[path Hg] [H0s H0e]]. destruct (dir_handle_file _ _ _ _ _ Hnew Hg) as (f & Hf & He & Hl).
    split_and!; try done.
    - rewrite He. by apply list_elem_of_fmap_2.
    - apply (f_equal file_length) in He. cbn in He. lia. }
  assert (sys_ok data_of (entry_file body_start <$> files h) d (reads_within data_of d) st) as [Hm Hts].
  { apply (reachable_ok data_of _ d _ Hfs Hd ltac:(done) (system [] (new_shared i)) st).
    - eapply rtc_subrel; [|exact Hrtc]. intros ? ?. by apply sys_step_weaken.
    - split; [by apply (reading_new _ _ _ False)|constructor]. }
  split; [apply Hm|]. intros j r Hin. rewrite Forall_forall in Hts. destruct (Hts _ Hin) as (Hj & Hr & Hout).
  assert (¬ in_file j → panicked r = false) as Hcalm by (intros Hn; by destruct (Hout Hn) as [e ->]).
  assert (in_file j ∨ ¬ in_file j) as Hdec by (unfold in_file; lia). split_and!.
  - destruct Hdec as [Hi'|Hn]; [|destruct (Hout Hn) as [e ->]; by intros [? _]].
    destruct (Hr Hi') as [_ Hok]. destruct r as [bytes|[e|p]]; [done| |done]. by intros (_ & Hall & Hle); apply Hok.
  - intros Hi'. apply (Hr Hi').
  - intros Hsmall. destruct Hdec as [Hi'|Hn]; [|by apply Hcalm]. destruct (Hr Hi') as [-> _].
    destruct Hj as (Hf & _ & H0s & _). apply list_elem_of_fmap in Hf as (f & He & Hf).
    rewrite Forall_forall in Hsmall. specialize (Hsmall f Hf). apply (f_equal file_length) in He. cbn in He.
    apply read_panics_small; [lia|done|apply Hi'].
Qed.

(** No thread ever waits for another: whatever the others do to the
    shared state between its actions, a call has returned after at most six
    actions of its own. *)
Lemma calls_return p (interference : list (Shared S)) :
  (remaining p ≤ List.length interference)%nat → (remaining p ≤ 6)%nat ∧
  ∃ j r, foldl (λ p m, (thread_step p m).1) p interference = Returned j r.
Proof.
  intros Hlen. split; [by destruct p; cbn; lia|].
  revert p Hlen. induction interference as [|m ms IH]; intros p Hlen; cbn.
  - destruct p; cbn in Hlen; try lia. eauto.
  - apply IH. pose proof (thread_step_remaining p m). cbn in Hlen. lia.
Qed.
End Properties.

#[local] Existing Instance platform64.
#[local] Instance checked_build : Profile := true.

(** Two threads that miss the same block, fetch it both and store it in turn. *)
Definition sample_job : Job := job (file_handle (lit "seg.term") (16 + blen short_text + 2) 3) 0 3.
Definition sample_race : System (MeteredSeekRead SliceReader) :=
  let m0 := new_shared sample_input in
  let '(p1, m1) := run_thread 4 (Called sample_job) m0 in
  let '(p2, m2) := run_thread 4 (Called sample_job) m1 in
  let '(q1, m3) := run_thread 2 p1 m2 in
  let '(q2, m4) := run_thread 2 p2 m3 in
  system [q1; q2] m4.

Lemma run_thread_rtc (callable : Job -> Prop) n ts (m : Shared (MeteredSeekRead SliceReader)) i p p' m' :
  ts !! i = Some p → run_thread n p m = (p', m') →
  rtc (sys_step callable) (system ts m) (system (<[i := p']> ts) m').
Proof.
  revert ts m p. induction n as [|n IH]; intros ts m p Hi Hr; cbn in Hr.
  - injection Hr as -> ->. by rewrite list_insert_id.
  - destruct (thread_step p m) as [p1 m1] eqn:E.
    eapply rtc_l; [by apply (step_thread _ _ _ i p p1 m1)|].
    rewrite <- (list_insert_insert_eq ts i p' p1). eapply IH; [|exact Hr].
    apply list_lookup_insert_eq. by eapply lookup_lt_Some.
Qed.

Lemma sample_call : dir_call sample_dir sample_job.
Proof.
  split; [|done]. exists (lit "seg.term").
  destruct (new_with_metrics (16 + blen short_text) (layout 0 sample_contents)) as [dir|] eqn:E;
    [|by rewrite sample_dir_ok in E].
  rewrite sample_dir_ok in E. injection E as <-. vm_compute. reflexivity.
Qed.

Lemma sample_race_reachable :
  rtc (sys_step (dir_call sample_dir)) (system [] (new_shared sample_input)) sample_race.
Proof.
  eapply rtc_l; [apply (step_spawn _ []), sample_call|].
  eapply rtc_l; [apply (step_spawn _ [Called sample_job]), sample_call|]. cbn [app]. unfold sample_race.
  destruct (run_thread 4 (Called sample_job) (new_shared sample_input)) as [p1 m1] eqn:E1.
  destruct (run_thread 4 (Called sample_job) m1) as [p2 m2] eqn:E2.
  destruct (run_thread 2 p1 m2) as [q1 m3] eqn:E3.
  destruct (run_thread 2 p2 m3) as [q2 m4] eqn:E4.
  etrans; [by eapply (run_thread_rtc _ 4 _ _ 0)|].
  etrans; [by eapply (run_thread_rtc _ 4 _ _ 1)|].
  etrans; [by eapply (run_thread_rtc _ 2 _ _ 0)|].
  by apply (run_thread_rtc _ 2 [q1; p2] m3 1 p2 q2 m4).
Qed.

Lemma concurrent_reads_correct_witness : cache_inv (memory sample_race).
Proof.
  apply (concurrent_reads_correct metered_bytes sample_header (16 + blen short_text) sample_dir
    sample_input served_archive sample_race).
  - vm_compute. reflexivity.
  - exact sample_files_typed.
  - vm_compute. discriminate.
  - exact sample_dir_ok.
  - reflexivity.
  - vm_compute. discriminate.
  - reflexivity.
  - exact sample_race_reachable.
Defined.

Lemma calls_return_witness :
  ∃ j r, foldl (λ p m, (thread_step p m).1) (Called sample_job)
    (replicate 6 (new_shared sample_input)) = Returned j r.
Proof. apply (calls_return (Called sample_job)). cbn. lia. Defined.
