(* ===== verification/Scorers.v ===== *)
(** * Document sets, scorers and automata ([core/src/index.rs])

    The parts of query evaluation the crate implements itself on top of the
    engine's traits: the sorted document set and the weight behind fuzzy term
    queries, the demoting scorer behind boosting queries, and the automaton
    that restricts a Levenshtein DFA to a prefix. *)

From S2P Require Import Prelude RustStd Error.

(** The engine's end-of-set marker, above every document id. *)
Class Terminated := TERMINATED : Z.

(** ** The engine's traits *)
Class DocSet (S : Type) : Type := {
  ds_advance : S -> Z * S;
  ds_seek : Z -> S -> Z * S;
  ds_doc : S -> Z;
  ds_size_hint : S -> Z
}.
Class Scorer (S : Type) `{DocSet S} : Type := sc_score : S -> f32 * S.
#[export] Hint Mode DocSet ! : typeclass_instances.
#[export] Hint Mode Scorer ! - : typeclass_instances.

(** What a document set promises: it stands before the increasing list of its
    [remaining] documents, [advance] drops the first one, and [seek], towards
    a target that is not behind it, those below the target. *)
Definition first_doc `{Terminated} (l : list Z) : Z := default TERMINATED (head l).
Definition docs_ok `{Terminated} (l : list Z) : Prop :=
  StronglySorted Z.lt l ∧ Forall (λ d, 0 ≤ d < TERMINATED) l.
Definition from_doc (target : Z) (l : list Z) : list Z := drop_while (λ d, d <? target) l.

Class Enumerates `{Terminated} (S : Type) `{DocSet S} (ready : S -> Prop) (remaining : S -> list Z) : Prop := {
  enum_ok s : ready s → docs_ok (remaining s);
  enum_doc s : ready s → ds_doc s = first_doc (remaining s);
  enum_advance s : ready s →
    ready (ds_advance s).2 ∧ remaining (ds_advance s).2 = tail (remaining s) ∧
    (ds_advance s).1 = first_doc (remaining (ds_advance s).2);
  enum_seek t s : ready s → ds_doc s ≤ t ≤ TERMINATED →
    ready (ds_seek t s).2 ∧ remaining (ds_seek t s).2 = from_doc t (remaining s) ∧
    (ds_seek t s).1 = first_doc (remaining (ds_seek t s).2)
}.
(** A scorer scores its current document, without moving. *)
Class Scores `{Terminated} (S : Type) `{Scorer S} (ready : S -> Prop) (remaining : S -> list Z)
    (score_of : S -> Z -> f32) : Prop := {
  scores_enumerates :: Enumerates S ready remaining;
  scores_score s : ready s → remaining s ≠ [] →
    (sc_score s).1 = score_of s (ds_doc s) ∧ ready (sc_score s).2 ∧
    remaining (sc_score s).2 = remaining s ∧
    (∀ d, ds_doc s ≤ d → score_of (sc_score s).2 d = score_of s d);
  scores_advance s d : ready s → ds_doc s ≤ d → score_of (ds_advance s).2 d = score_of s d;
  scores_seek t s d : ready s → ds_doc s ≤ t ≤ TERMINATED → ds_doc s ≤ d →
    score_of (ds_seek t s).2 d = score_of s d
}.

(** ** [SortedDocSet] *)
Record SortedDocSet : Type := sorted_doc_set { sds_docs : list Z; sds_cursor : nat; sds_doc : Z }.

(** [partition_point] on a partitioned slice. *)
Definition partition_point {A} (p : A -> bool) (l : list A) : nat :=
  (List.length l - List.length (drop_while p l))%nat.

Section SortedDocSet.
Context `{Terminated}.

Definition SortedDocSet_new (docs : list Z) : SortedDocSet :=
  sorted_doc_set docs 0 (default TERMINATED (head docs)).

Definition SortedDocSet_advance (s : SortedDocSet) : Z * SortedDocSet :=
  if sds_doc s =? TERMINATED then (TERMINATED, s)
  else
    let cursor := (sds_cursor s + 1)%nat in
    let doc := default TERMINATED (sds_docs s !! cursor) in
    (doc, sorted_doc_set (sds_docs s) cursor doc).

Definition SortedDocSet_seek (target : Z) (s : SortedDocSet) : Z * SortedDocSet :=
  if target <=? sds_doc s then (sds_doc s, s)
  else
    let relative_cursor := partition_point (λ doc, doc <? target) (drop (sds_cursor s) (sds_docs s)) in
    let cursor := (sds_cursor s + relative_cursor)%nat in
    let doc := default TERMINATED (sds_docs s !! cursor) in
    (doc, sorted_doc_set (sds_docs s) cursor doc).

Definition SortedDocSet_size_hint (s : SortedDocSet) : Z :=
  if sds_doc s =? TERMINATED then 0
  else (Z.of_nat (List.length (sds_docs s)) - Z.of_nat (sds_cursor s)) mod 2 ^ 32.

#[export] Instance SortedDocSet_DocSet : DocSet SortedDocSet := {
  ds_advance := SortedDocSet_advance;
  ds_seek := SortedDocSet_seek;
  ds_doc := sds_doc;
  ds_size_hint := SortedDocSet_size_hint
}.
End SortedDocSet.

(** ** The documents of [CappedAutomatonWeight] *)

(** [Vec::sort_unstable] on integers, where equal elements cannot be told
    apart, and [Vec::dedup]. *)
Fixpoint insert_doc (x : Z) (l : list Z) : list Z :=
  match l with
  | [] => [x]
  | y :: l' => if x <=? y then x :: l else y :: insert_doc x l'
  end.
Definition sort_unstable (l : list Z) : list Z := foldr insert_doc [] l.
Fixpoint dedup_from (previous : Z) (l : list Z) : list Z :=
  match l with
  | [] => []
  | y :: l' => if y =? previous then dedup_from previous l' else y :: dedup_from y l'
  end.
Definition dedup (l : list Z) : list Z :=
  match l with [] => [] | x :: l' => x :: dedup_from x l' end.

(** The blocks of a posting list, up to the empty one that ends it. *)
Fixpoint read_blocks (blocks : list (list Z)) : list Z :=
  match blocks with
  | [] | [] :: _ => []
  | block :: blocks' => block ++ read_blocks blocks'
  end.

Section Weight.
Context `{Terminated} {E TermInfo : Type}.
(** The engine: the postings of a term of the segment, read block by block. *)
Context (read_block_postings : TermInfo -> result E (list (list Z))).

(** The [while expansions < max_expansions && term_stream.advance()] loop over
    the terms the automaton accepts, in the order of the dictionary. *)
Fixpoint expand_terms (max_expansions expansions : Z) (terms : list TermInfo) (docs : list Z) :
    result E (list Z) :=
  match terms with
  | [] => Ok docs
  | term_info :: terms' =>
      if expansions <? max_expansions then
        blocks ← read_block_postings term_info;
        expand_terms max_expansions (expansions + 1) terms' (docs ++ read_blocks blocks)
      else Ok docs
  end.

Definition CappedAutomatonWeight_docs (max_expansions : Z) (terms : list TermInfo) :
    result E (list Z) :=
  docs ← expand_terms max_expansions 0 terms [];
  Ok (dedup (sort_unstable docs)).
End Weight.

(** ** [DemoteScorer] *)
Section Demote.
Context `{Terminated} {P N : Type} `{Scorer P} `{DocSet N}.

Definition matches_doc (docset : N) (doc : Z) : bool * N :=
  if doc =? TERMINATED then (false, docset)
  else
    let current := ds_doc docset in
    if current <? doc then
      let '(d, docset') := ds_seek doc docset in (d =? doc, docset')
    else (current =? doc, docset).

Record DemoteScorer : Type := demote_scorer {
  ds_positive : P; ds_negative : N; ds_negative_boost : f32
}.

Definition DemoteScorer_advance (s : DemoteScorer) : Z * DemoteScorer :=
  let '(d, p) := ds_advance (ds_positive s) in (d, demote_scorer p (ds_negative s) (ds_negative_boost s)).
Definition DemoteScorer_seek (target : Z) (s : DemoteScorer) : Z * DemoteScorer :=
  let '(d, p) := ds_seek target (ds_positive s) in (d, demote_scorer p (ds_negative s) (ds_negative_boost s)).
#[export] Instance DemoteScorer_DocSet : DocSet DemoteScorer := {
  ds_advance := DemoteScorer_advance;
  ds_seek := DemoteScorer_seek;
  ds_doc s := ds_doc (ds_positive s);
  ds_size_hint s := ds_size_hint (ds_positive s)
}.
Definition DemoteScorer_score (s : DemoteScorer) : f32 * DemoteScorer :=
  let '(positive_score, p) := sc_score (ds_positive s) in
  let '(matched, n) := matches_doc (ds_negative s) (ds_doc p) in
  (if matched then f32_mul positive_score (ds_negative_boost s) else positive_score,
   demote_scorer p n (ds_negative_boost s)).
#[export] Instance DemoteScorer_Scorer : Scorer DemoteScorer := DemoteScorer_score.

End Demote.
Arguments DemoteScorer P N : clear implicits.

(** ** Weights *)

(** A query makes a weight, a weight makes a scorer per segment, explains the
    score of a document and counts the documents. *)
Class Weight (W R S E X : Type) : Type := {
  w_scorer : W -> R -> f32 -> result E S;
  w_explain : W -> R -> Z -> result E X;
  w_count : W -> R -> result E Z
}.
#[export] Hint Mode Weight ! - - - - : typeclass_instances.
Class WeightedQuery (Q E W : Type) : Type := q_weight : Q -> bool -> result E W.
(** The engine's explanations: a value, a text and details. *)
Class ExplanationApi (X : Type) : Type := {
  explanation_value : X -> f32;
  explanation_new : message -> f32 -> X;
  add_detail : X -> X -> X;
  add_const : string -> f32 -> X -> X
}.
Class ExplanationLaws (X : Type) `{ExplanationApi X} : Prop := {
  value_new t v : explanation_value (explanation_new t v) = v;
  value_add_detail d e : explanation_value (add_detail d e) = explanation_value e;
  value_add_const n c e : explanation_value (add_const n c e) = explanation_value e
}.

Section DemoteWeight.
Context `{Terminated} {WP WN R P N E X : Type}.
Context `{Scorer P} `{DocSet N} `{Weight WP R P E X} `{Weight WN R N E X} `{ExplanationApi X}.

Record DemoteWeight : Type := demote_weight {
  dw_positive : WP; dw_negative : WN; dw_negative_boost : f32
}.

Definition DemoteWeight_scorer (w : DemoteWeight) (reader : R) (boost : f32) :
    result E (DemoteScorer P N) :=
  positive ← w_scorer (dw_positive w) reader boost;
  negative ← w_scorer (dw_negative w) reader f32_one;
  Ok (demote_scorer positive negative (dw_negative_boost w)).

Definition DemoteWeight_explain (w : DemoteWeight) (reader : R) (doc : Z) : result E X :=
  positive_explanation ← w_explain (dw_positive w) reader doc;
  negative_scorer ← w_scorer (dw_negative w) reader f32_one;
  let '(matched_negative, _) := matches_doc negative_scorer doc in
  let factor := if matched_negative then dw_negative_boost w else f32_one in
  let score := f32_mul (explanation_value positive_explanation) factor in
  let explanation := explanation_new [Txt "Demote by negative query x"; Flt factor] score in
  let explanation := add_detail positive_explanation explanation in
  Ok (if matched_negative then add_const "negative_boost" (dw_negative_boost w) explanation
      else explanation).

Definition DemoteWeight_count (w : DemoteWeight) (reader : R) : result E Z :=
  w_count (dw_positive w) reader.

#[export] Instance DemoteWeight_Weight : Weight DemoteWeight R (DemoteScorer P N) E X := {
  w_scorer := DemoteWeight_scorer;
  w_explain := DemoteWeight_explain;
  w_count := DemoteWeight_count
}.

(** [DemoteQuery]: without scoring, only the positive query is weighed. *)
Context {QP QN : Type} `{WeightedQuery QP E WP} `{WeightedQuery QN E WN}.
Record DemoteQuery : Type := demote_query {
  dq_positive : QP; dq_negative : QN; dq_negative_boost : f32
}.
Definition DemoteQuery_weight (q : DemoteQuery) (scoring_enabled : bool) :
    result E (WP + DemoteWeight) :=
  positive_weight ← q_weight (dq_positive q) scoring_enabled;
  if negb scoring_enabled then Ok (inl positive_weight)
  else
    negative_weight ← q_weight (dq_negative q) false;
    Ok (inr (demote_weight positive_weight negative_weight (dq_negative_boost q))).
End DemoteWeight.
Arguments DemoteWeight WP WN : clear implicits.
Arguments DemoteQuery QP QN : clear implicits.

(** ** [PrefixedDfaAutomaton] *)

(** The engine's Levenshtein DFA over bytes. *)
Inductive Distance : Type := Exact (d : Z) | AtLeast (d : Z).
Class DFA := {
  dfa_initial_state : Z;
  dfa_transition : Z -> byte -> Z;
  dfa_distance : Z -> Distance;
  SINK_STATE : Z
}.

Section Automaton.
Context `{DFA} (prefix : list byte).

Definition AutomatonState : Type := Z * option nat.
Definition automaton_start : AutomatonState := (dfa_initial_state, Some 0%nat).
Definition is_exact (d : Distance) : bool := match d with Exact _ => true | AtLeast _ => false end.
Definition is_match (state : AutomatonState) : bool :=
  is_exact (dfa_distance state.1) &&
  match state.2 with Some pos => (List.length prefix <=? pos)%nat | None => false end.
Definition can_match (state : AutomatonState) : bool :=
  negb (state.1 =? SINK_STATE) && match state.2 with Some _ => true | None => false end.
Definition accept (state : AutomatonState) (b : byte) : AutomatonState :=
  (dfa_transition state.1 b,
   match state.2 with
   | None => None
   | Some pos =>
       if (List.length prefix <=? pos)%nat then Some pos
       else if bool_decide (prefix !! pos = Some b) then Some (pos + 1)%nat
       else None
   end).
End Automaton.

(** ** [auto_fuzziness] *)
Definition auto_fuzziness (token : str) : Z :=
  let count := blen token in
  if count <=? 2 then 0 else if count <=? 5 then 1 else 2.

(** ** Increasing lists of documents *)
Section Docs.
Context `{Terminated}.

Lemma docs_ok_cons d l : docs_ok (d :: l) → docs_ok l.
Proof. intros [Hs Hf]. inversion Hs; inversion Hf; subst. by split. Qed.

Lemma docs_ok_drop n l : docs_ok l → docs_ok (drop n l).
Proof.
  revert n. induction l as [|d l IH]; intros [|n] Hl; cbn; try done.
  apply IH. by eapply docs_ok_cons.
Qed.

Lemma first_doc_nil l : docs_ok l → first_doc l = TERMINATED ↔ l = [].
Proof.
  intros [_ Hf]. destruct l as [|d l]; cbn; [done|]. inversion Hf; subst. cbn. split; [lia|done].
Qed.

Lemma first_doc_le l d : docs_ok l → d ∈ l → first_doc l ≤ d < TERMINATED.
Proof.
  intros [Hs Hf] Hd. rewrite Forall_forall in Hf. pose proof (Hf d Hd).
  destruct l as [|x l]; [by apply not_elem_of_nil in Hd|]. cbn.
  apply elem_of_cons in Hd as [-> | Hd]; [lia|]. inversion Hs as [|? ? _ Hx]; subst.
  rewrite Forall_forall in Hx. specialize (Hx d Hd). lia.
Qed.

Lemma from_doc_ok t l : docs_ok l → docs_ok (from_doc t l).
Proof.
  induction l as [|d l IH]; intros Hl; cbn; [done|]. destruct (d <? t); [|done].
  apply IH. by eapply docs_ok_cons.
Qed.

Lemma elem_of_from_doc t l d : docs_ok l → d ∈ from_doc t l ↔ d ∈ l ∧ t ≤ d.
Proof.
  induction l as [|x l IH]; intros Hl; cbn; [set_solver|].
  pose proof (docs_ok_cons _ _ Hl) as Hl'. destruct (Z.ltb_spec x t).
  - unfold from_doc in IH. rewrite IH, elem_of_cons by done. split; [naive_solver|].
    intros [[-> | ?] ?]; [lia|done].
  - split; [|naive_solver]. intros Hd. split; [done|].
    pose proof (first_doc_le (x :: l) d Hl Hd). cbn in *. lia.
Qed.

(** Whether a set stands on a document, after seeking it. *)
Lemma first_from_doc t l :
  docs_ok l → t < TERMINATED → (first_doc (from_doc t l) =? t) = bool_decide (t ∈ l).
Proof.
  intros Hl Ht. pose proof (from_doc_ok t l Hl) as Hf.
  destruct (from_doc t l) as [|x k] eqn:E.
  - cbn. rewrite bool_decide_false; [lia|]. intros Hin.
    assert (t ∈ from_doc t l) as Hx by (rewrite elem_of_from_doc by done; split; [done|lia]).
    rewrite E in Hx. by apply not_elem_of_nil in Hx.
  - cbn. assert (x ∈ from_doc t l) as Hx by (rewrite E; left).
    apply elem_of_from_doc in Hx as [Hx Hle]; [|done].
    destruct (Z.eqb_spec x t) as [->|Hne]; [by rewrite bool_decide_true|].
    rewrite bool_decide_false; [done|]. intros Hin.
    assert (t ∈ x :: k) as Hx' by (rewrite <- E, elem_of_from_doc by done; split; [done|lia]).
    pose proof (first_doc_le (x :: k) t Hf Hx'). cbn in *. lia.
Qed.

Lemma from_doc_ge t l : docs_ok l → t ≤ first_doc l → from_doc t l = l.
Proof. intros Hl Ht. destruct l as [|x l]; cbn in *; [done|]. by destruct (Z.ltb_spec x t); [lia|]. Qed.
End Docs.

(** ** [SortedDocSet] is a document set *)
Section SortedDocSetLaws.
Context `{Terminated}.

Definition sds_remaining (s : SortedDocSet) : list Z := drop (sds_cursor s) (sds_docs s).
Definition sds_ready (s : SortedDocSet) : Prop :=
  docs_ok (sds_docs s) ∧ sds_doc s = first_doc (sds_remaining s).

Lemma lookup_first docs n : default TERMINATED (docs !! n) = first_doc (drop n docs).
Proof. unfold first_doc. f_equal. rewrite head_lookup, lookup_drop. f_equal. lia. Qed.

Lemma drop_while_drop {A} (p : A -> bool) l : drop_while p l = drop (partition_point p l) l.
Proof.
  unfold partition_point. induction l as [|x l IH]; cbn [drop_while]; [done|].
  destruct (p x).
  - assert (List.length (drop_while p l) ≤ List.length l)%nat.
    { clear. induction l as [|y l IH]; cbn; [done|]. destruct (p y); cbn; lia. }
    cbn [List.length]. rewrite Nat.sub_succ_l by done. exact IH.
  - by rewrite Nat.sub_diag.
Qed.

Lemma SortedDocSet_new_ready docs : docs_ok docs → sds_ready (SortedDocSet_new docs).
Proof. done. Qed.

#[export] Instance SortedDocSet_Enumerates : Enumerates SortedDocSet sds_ready sds_remaining.
Proof.
  split.
  - intros s [Hok _]. by apply docs_ok_drop.
  - by intros s [_ ?].
  - intros s [Hok Hd]. unfold ds_advance, SortedDocSet_DocSet, SortedDocSet_advance.
    destruct (Z.eqb_spec (sds_doc s) TERMINATED) as [E|E].
    + rewrite E in Hd. symmetry in Hd. apply first_doc_nil in Hd as Hn; [|by apply docs_ok_drop].
      cbn [fst snd]. rewrite Hn. split_and!; try done. split; [done|]. by rewrite E, Hn.
    + cbn [fst snd]. unfold sds_ready, sds_remaining. cbn [sds_docs sds_cursor sds_doc].
      rewrite lookup_first, <- drop_drop. split_and!; done.
  - intros t s [Hok Hd] Ht. unfold ds_seek, SortedDocSet_DocSet, SortedDocSet_seek. cbn [ds_doc] in Ht.
    destruct (Z.leb_spec t (sds_doc s)) as [E|E]; cbn [fst snd].
    + split; [done|]. rewrite from_doc_ge; [done|by apply docs_ok_drop|]. by rewrite <- Hd.
    + unfold sds_ready. cbn [sds_docs sds_cursor sds_doc]. rewrite lookup_first.
      assert (drop (sds_cursor s + partition_point (λ doc, doc <? t) (drop (sds_cursor s) (sds_docs s)))
        (sds_docs s) = from_doc t (sds_remaining s)) as Heq.
      { rewrite <- drop_drop. symmetry. apply drop_while_drop. }
      unfold sds_remaining at 1 2 4. cbn [sds_docs sds_cursor]. rewrite Heq. by split_and!.
Qed.
End SortedDocSetLaws.
