(* ===== verification/ScorersSpec.v ===== *)
(** * What the scorers compute

    The weight of fuzzy queries collects the union of the first postings; the
    demoting scorer is again a scorer, which multiplies the score of exactly
    the documents of the negative query; the prefixed automaton accepts the
    words of the DFA that start with the prefix. *)

From S2P Require Import Prelude RustStd Scorers.

(** ** Sorting and deduplication *)
Section SortDedup.
Lemma insert_doc_Permutation x l : insert_doc x l ≡ₚ x :: l.
Proof.
  induction l as [|y l IH]; cbn; [done|]. destruct (x <=? y); [done|].
  rewrite IH. apply Permutation_swap.
Qed.

Lemma sort_unstable_Permutation l : sort_unstable l ≡ₚ l.
Proof. induction l as [|x l IH]; [done|]. cbn. rewrite insert_doc_Permutation. by constructor. Qed.

Lemma insert_doc_sorted x l : StronglySorted Z.le l → StronglySorted Z.le (insert_doc x l).
Proof.
  induction 1 as [|y l Hl IH Hy]; cbn; [by repeat constructor|].
  destruct (Z.leb_spec x y).
  - constructor; [by constructor|]. constructor; [done|]. eapply Forall_impl; [exact Hy|]. cbn. lia.
  - constructor; [done|]. rewrite insert_doc_Permutation. constructor; [lia|done].
Qed.

Lemma sort_unstable_sorted l : StronglySorted Z.le (sort_unstable l).
Proof. induction l; [constructor|]. by apply insert_doc_sorted. Qed.

Lemma dedup_from_spec p l :
  StronglySorted Z.le (p :: l) →
  StronglySorted Z.lt (p :: dedup_from p l) ∧ ∀ d, d ∈ p :: dedup_from p l ↔ d ∈ p :: l.
Proof.
  revert p. induction l as [|y l IH]; intros p Hs; cbn; [split; [by repeat constructor|done]|].
  inversion Hs as [|? ? Hs' Hp]; subst. inversion Hp as [|? ? Hpy Hpl]; subst.
  destruct (Z.eqb_spec y p) as [->|Hne].
  - destruct (IH p Hs') as [H1 H2]. split; [done|]. intros d. rewrite H2. set_solver.
  - destruct (IH y Hs') as [H1 H2]. split.
    + constructor; [done|]. apply Forall_forall. intros d Hd. rewrite H2 in Hd.
      inversion Hs' as [|? ? _ Hyl]; subst. rewrite Forall_forall in Hyl.
      apply elem_of_cons in Hd as [-> | Hd]; [lia|]. specialize (Hyl d Hd). lia.
    + intros d. rewrite elem_of_cons, H2. set_solver.
Qed.

Lemma dedup_sort_spec l :
  StronglySorted Z.lt (dedup (sort_unstable l)) ∧ ∀ d, d ∈ dedup (sort_unstable l) ↔ d ∈ l.
Proof.
  pose proof (sort_unstable_sorted l) as Hs. pose proof (sort_unstable_Permutation l) as Hp.
  destruct (sort_unstable l) as [|x k] eqn:E; cbn.
  - split; [constructor|]. intros d. by rewrite <- Hp.
  - destruct (dedup_from_spec x k Hs) as [H1 H2]. split; [done|]. intros d. by rewrite H2, Hp.
Qed.
End SortDedup.

(** ** The weight of fuzzy queries *)
Section WeightLaws.
Context `{Terminated} {E TermInfo : Type}.
Context (read_block_postings : TermInfo -> result E (list (list Z))).

Lemma expand_terms_take max n terms docs :
  expand_terms read_block_postings max n terms docs
  = (blockss ← result_mapM read_block_postings (take (Z.to_nat (max - n)) terms);
     Ok (docs ++ concat (read_blocks <$> blockss))).
Proof.
  revert n docs. induction terms as [|t terms IH]; intros n docs; cbn [expand_terms].
  { rewrite take_nil. cbn. by rewrite app_nil_r. }
  destruct (Z.ltb_spec n max).
  - replace (Z.to_nat (max - n)) with (S (Z.to_nat (max - (n + 1)))) by lia. cbn [take result_mapM].
    destruct (read_block_postings t) as [bs|e]; cbn; [|done]. rewrite IH.
    destruct (result_mapM _ _) as [bss|e]; cbn; [|done]. by rewrite <- app_assoc.
  - replace (Z.to_nat (max - n)) with 0%nat by lia. cbn. by rewrite app_nil_r.
Qed.

(** The documents of a term, when its postings can be read. *)
Definition has_doc (t : TermInfo) (d : Z) : Prop :=
  ∃ blocks, read_block_postings t = Ok blocks ∧ d ∈ read_blocks blocks.

(** A fuzzy weight reads the postings of the first [max_expansions] terms
    the automaton accepts and of no other; it fails exactly when one of them
    cannot be read, and otherwise its documents, each once and in increasing
    order, are those of at least one of these terms. *)
Lemma capped_weight_docs max terms :
  let first := take (Z.to_nat max) terms in
  match CappedAutomatonWeight_docs read_block_postings max terms with
  | Ok docs => StronglySorted Z.lt docs ∧ (∀ t, t ∈ first → ∃ bs, read_block_postings t = Ok bs) ∧
               (∀ d, d ∈ docs ↔ ∃ t, t ∈ first ∧ has_doc t d)
  | Err e => ∃ t, t ∈ first ∧ read_block_postings t = Err e
  end.
Proof.
  intros first. unfold CappedAutomatonWeight_docs. rewrite expand_terms_take, Z.sub_0_r.
  fold first. generalize first. clear terms first. intros first.
  destruct (result_mapM read_block_postings first) as [bss|e] eqn:Em; cbn.
  - apply result_mapM_Ok in Em. destruct (dedup_sort_spec (concat (read_blocks <$> bss))) as [Hs Hd].
    split_and!; [done| |].
    + intros t Ht. apply list_elem_of_lookup in Ht as [i Hi].
      destruct (Forall2_lookup_l _ _ _ _ _ Em Hi) as (bs & _ & Hb). by exists bs.
    + intros d. rewrite Hd. clear Hs Hd. unfold has_doc.
      induction Em as [|t bs ts bss Hb _ IH]; cbn; [set_solver|].
      rewrite elem_of_app, IH. split.
      * intros [Hin | (t' & Ht' & Hx)].
        -- exists t. split; [left|]. by exists bs.
        -- exists t'. split; [by right|done].
      * intros (t' & [-> | Ht']%elem_of_cons & bs' & Hb' & Hx).
        -- left. rewrite Hb in Hb'. by injection Hb' as ->.
        -- right. exists t'. split; [done|]. by exists bs'.
  - revert e Em. induction first as [|t ts IH]; intros e Em; cbn in Em; [done|].
    apply bind_Err in Em as [Em | (bs & _ & Em)]; [exists t; split; [left|done]|].
    apply bind_Err in Em as [Em | (bss & _ & Em)]; [|done].
    destruct (IH e Em) as (t' & Ht' & He). exists t'. split; [by right|done].
Qed.
End WeightLaws.

(** ** The demoting scorer *)
Section DemoteLaws.
Context `{Terminated} {P N : Type} `{Scorer P} `{DocSet N}.
Context (pos_ready : P -> Prop) (pos_docs : P -> list Z) (score_of : P -> Z -> f32).
Context (neg_ready : N -> Prop) (neg_docs : N -> list Z).
Context `{!Scores P pos_ready pos_docs score_of} `{!Enumerates N neg_ready neg_docs}.

Lemma matches_doc_spec n doc :
  neg_ready n → 0 ≤ doc < TERMINATED →
  (matches_doc n doc).1 = bool_decide (doc ∈ neg_docs n) ∧ neg_ready (matches_doc n doc).2 ∧
  (∀ d, doc ≤ d → d ∈ neg_docs (matches_doc n doc).2 ↔ d ∈ neg_docs n).
Proof.
  intros Hn Hd. pose proof (enum_ok n Hn) as Hok. pose proof (enum_doc n Hn) as Hdoc.
  unfold matches_doc. destruct (Z.eqb_spec doc TERMINATED); [lia|].
  destruct (Z.ltb_spec (ds_doc n) doc) as [Hlt|Hge].
  - destruct (enum_seek doc n Hn) as (Hr & Hrem & Hres); [lia|].
    destruct (ds_seek doc n) as [d n']. cbn [fst snd] in *. subst d. split_and!; [|done|].
    + rewrite Hrem. apply first_from_doc; [done|lia].
    + intros d Hle. rewrite Hrem, elem_of_from_doc by done. naive_solver.
  - cbn [fst snd]. split_and!; [|done|done]. rewrite Hdoc.
    rewrite <- first_from_doc by (done || lia). by rewrite from_doc_ge by (done || lia).
Qed.

Definition demote_ready (s : DemoteScorer P N) : Prop :=
  pos_ready (ds_positive s) ∧ neg_ready (ds_negative s).
Definition demote_docs (s : DemoteScorer P N) : list Z := pos_docs (ds_positive s).
Definition demote_score_of (s : DemoteScorer P N) (d : Z) : f32 :=
  if bool_decide (d ∈ neg_docs (ds_negative s))
  then f32_mul (score_of (ds_positive s) d) (ds_negative_boost s)
  else score_of (ds_positive s) d.

#[export] Instance DemoteScorer_Enumerates : Enumerates (DemoteScorer P N) demote_ready demote_docs.
Proof.
  split.
  - intros s [Hp _]. by apply (enum_ok (ds_positive s)).
  - intros s [Hp _]. by apply (enum_doc (ds_positive s)).
  - intros [p n b] [Hp Hn]. unfold ds_advance, DemoteScorer_DocSet, DemoteScorer_advance. cbn [ds_positive] in *.
    pose proof (enum_advance p Hp) as Ha. destruct (ds_advance p) as [d p']. cbn in *.
    destruct Ha as (? & ? & ?). by split_and!.
  - intros t [p n b] [Hp Hn] Ht. unfold ds_seek, DemoteScorer_DocSet, DemoteScorer_seek. cbn [ds_positive] in *.
    pose proof (enum_seek t p Hp Ht) as Ha. destruct (ds_seek t p) as [d p']. cbn in *.
    destruct Ha as (? & ? & ?). by split_and!.
Qed.

Lemma demote_score_spec (s : DemoteScorer P N) :
  demote_ready s → demote_docs s ≠ [] →
  let '(score, s') := DemoteScorer_score s in
  score = demote_score_of s (ds_doc s) ∧ demote_ready s' ∧ demote_docs s' = demote_docs s ∧
  (∀ d, ds_doc s ≤ d → demote_score_of s' d = demote_score_of s d).
Proof.
  destruct s as [p n b]. intros [Hp Hn] Hne. cbn [ds_positive ds_negative] in *.
  unfold DemoteScorer_score, demote_docs in *. cbn [ds_positive ds_negative ds_negative_boost] in *.
  destruct (scores_score p Hp Hne) as (Hs & Hp' & Hrem & Hsame).
  destruct (sc_score p) as [sc p'] eqn:Esc. cbn [fst snd] in *.
  assert (ds_doc p' = ds_doc p) as Hdoc by (rewrite !enum_doc by done; congruence).
  assert (0 ≤ ds_doc p < TERMINATED) as Hrange.
  { rewrite enum_doc by done. destruct (enum_ok p Hp) as [_ Hf].
    destruct (pos_docs p); [done|]. by inversion Hf. }
  rewrite Hdoc. destruct (matches_doc_spec n (ds_doc p) Hn Hrange) as (Hm & Hn' & Hlater).
  destruct (matches_doc n (ds_doc p)) as [m n']. cbn [fst snd] in *. subst m sc.
  unfold demote_ready, demote_score_of. cbn [ds_positive ds_negative ds_negative_boost ds_doc].
  change (ds_doc (demote_scorer p n b)) with (ds_doc p). split_and!; try done.
  intros d Hd. rewrite (Hsame d Hd). pose proof (Hlater d Hd) as Hiff.
  by rewrite (bool_decide_ext _ _ Hiff).
Qed.

#[export] Instance DemoteScorer_Scores :
  Scores (DemoteScorer P N) demote_ready demote_docs demote_score_of.
Proof.
  split; [apply _|..].
  - intros s Hs Hne. pose proof (demote_score_spec s Hs Hne) as Hd. unfold sc_score, DemoteScorer_Scorer.
    by destruct (DemoteScorer_score s).
  - intros [p n b] d [Hp Hn] Hd. unfold ds_advance, DemoteScorer_DocSet, DemoteScorer_advance.
    cbn [ds_positive] in *. pose proof (scores_advance p d Hp Hd) as Ha.
    destruct (ds_advance p) as [d' p']. unfold demote_score_of. cbn in *. by rewrite Ha.
  - intros t [p n b] d [Hp Hn] Ht Hd. unfold ds_seek, DemoteScorer_DocSet, DemoteScorer_seek.
    cbn [ds_positive] in *. pose proof (scores_seek t p d Hp Ht Hd) as Ha.
    destruct (ds_seek t p) as [d' p']. unfold demote_score_of. cbn in *. by rewrite Ha.
Qed.
End DemoteLaws.

(** ** Explanations *)
Section Explain.
Context `{Terminated} {WP WN R P N E X : Type}.
Context `{Scorer P} `{DocSet N} `{Weight WP R P E X} `{Weight WN R N E X} `{ExplanationLaws X}.
Context (neg_ready : N -> Prop) (neg_docs : N -> list Z) `{!Enumerates N neg_ready neg_docs}.

(** The explanation of a document under a boosting query has the value of
    the positive explanation times the factor the scorer would apply: the
    negative boost when the negative query matches the document, 1 otherwise;
    it fails exactly when one of the two weights fails. *)
Theorem demote_explain (w : DemoteWeight WP WN) reader doc :
  (∀ n, w_scorer (dw_negative w) reader f32_one = Ok n → neg_ready n) →
  0 ≤ doc < TERMINATED →
  match w_explain (dw_positive w) reader doc, w_scorer (dw_negative w) reader f32_one with
  | Ok positive, Ok n => ∃ e, DemoteWeight_explain w reader doc = Ok e ∧
      explanation_value e = f32_mul (explanation_value positive)
        (if bool_decide (doc ∈ neg_docs n) then dw_negative_boost w else f32_one)
  | Err e, _ | Ok _, Err e => DemoteWeight_explain w reader doc = Err e
  end.
Proof.
  intros Hn Hd. unfold DemoteWeight_explain.
  destruct (w_explain (dw_positive w) reader doc) as [positive|e]; [|done].
  destruct (w_scorer (dw_negative w) reader f32_one) as [n|e]; [|done]. cbn.
  destruct (matches_doc_spec neg_ready neg_docs n doc (Hn n eq_refl) Hd) as (Hm & _).
  destruct (matches_doc n doc) as [m n']. cbn in Hm. subst m. eexists. split; [done|].
  case_bool_decide; by rewrite ?value_add_const, value_add_detail, value_new.
Qed.
End Explain.

(** ** Running a scorer *)

(** The loop of a collector: score the current document, then advance. *)
Fixpoint run_scorer `{Terminated} {S} `{Scorer S} (fuel : nat) (s : S) : list (Z * f32) :=
  match fuel with
  | O => []
  | Datatypes.S fuel' =>
      if ds_doc s =? TERMINATED then []
      else
        let '(score, s1) := sc_score s in
        (ds_doc s, score) :: run_scorer fuel' (ds_advance s1).2
  end.

Section Run.
Context `{Terminated} {S : Type} `{Scorer S} (ready : S -> Prop) (remaining : S -> list Z).
Context (score_of : S -> Z -> f32) `{!Scores S ready remaining score_of}.

Lemma run_scorer_spec fuel s :
  ready s → (List.length (remaining s) < fuel)%nat →
  run_scorer fuel s = (λ d, (d, score_of s d)) <$> remaining s.
Proof.
  revert s. induction fuel as [|fuel IH]; intros s Hs Hlen; [lia|]. cbn [run_scorer].
  pose proof (enum_ok s Hs) as Hok. pose proof (enum_doc s Hs) as Hdoc.
  destruct (Z.eqb_spec (ds_doc s) TERMINATED) as [E|E].
  { rewrite Hdoc in E. apply first_doc_nil in E; [|done]. by rewrite E. }
  assert (remaining s ≠ []) as Hne by (intros E'; apply E; rewrite Hdoc, E'; done).
  destruct (scores_score s Hs Hne) as (Hsc & Hs1 & Hrem & Hsame).
  destruct (sc_score s) as [sc s1]. cbn [fst snd] in *.
  destruct (enum_advance s1 Hs1) as (Hs2 & Htail & _). rewrite Hrem in Htail.
  assert (ds_doc s1 = ds_doc s) as Hd1 by (rewrite !enum_doc by done; congruence).
  destruct (remaining s) as [|d ds] eqn:Er; [done|]. cbn in Hdoc, Htail, Hlen |- *.
  rewrite IH; [|done|rewrite Htail; lia]. rewrite Htail, Hsc, Hdoc. f_equal.
  apply list_fmap_ext. intros i d' Hi. f_equal.
  assert (ds_doc s ≤ d') as Hle.
  { rewrite Hdoc. pose proof (first_doc_le (d :: ds) d' Hok) as Hf. cbn in Hf.
    apply Hf. right. by eapply list_elem_of_lookup_2. }
  rewrite (scores_advance s1) by (done || lia). by apply Hsame.
Qed.
End Run.

Section DemoteRun.
Context `{Terminated} {P N : Type} `{Scorer P} `{DocSet N}.
Context (pos_ready : P -> Prop) (pos_docs : P -> list Z) (score_of : P -> Z -> f32).
Context (neg_ready : N -> Prop) (neg_docs : N -> list Z).
Context `{!Scores P pos_ready pos_docs score_of} `{!Enumerates N neg_ready neg_docs}.

(** C33: a boosting query returns exactly the documents of its positive query,
    in order, and multiplies the score of those that the negative query
    matches, and of no other, by [negative_boost]. *)
Theorem demote_scores p n negative_boost :
  pos_ready p → neg_ready n →
  run_scorer (Datatypes.S (List.length (pos_docs p))) (demote_scorer p n negative_boost)
  = (λ d, (d, if bool_decide (d ∈ neg_docs n) then f32_mul (score_of p d) negative_boost
              else score_of p d)) <$> pos_docs p.
Proof.
  intros Hp Hn.
  exact (run_scorer_spec _ _ (demote_score_of score_of neg_docs) (Datatypes.S (List.length (pos_docs p)))
    (demote_scorer p n negative_boost) (conj Hp Hn) (Nat.lt_succ_diag_r _)).
Qed.

(** A demoting scorer keeps the whole contract of a scorer, under any
    legal sequence of [advance], [seek] and [score], so that boosting queries
    nest: it enumerates the positive documents with the demoted scores. *)
Lemma demote_is_scorer :
  Scores (DemoteScorer P N) (demote_ready pos_ready neg_ready) (demote_docs pos_docs)
    (demote_score_of score_of neg_docs).
Proof. apply _. Qed.
End DemoteRun.

(** ** Automata *)
Section AutomatonLaws.
Context `{DFA}.

Definition dfa_run (q : Z) (word : list byte) : Z := foldl dfa_transition q word.
Definition automaton_run (prefix : list byte) (st : AutomatonState) (word : list byte) : AutomatonState :=
  foldl (accept prefix) st word.

Lemma automaton_run_dfa prefix st word : (automaton_run prefix st word).1 = dfa_run st.1 word.
Proof.
  unfold automaton_run, dfa_run. revert st. induction word as [|b word IH]; intros st; cbn; [done|].
  by rewrite IH.
Qed.

(** The prefix component counts the bytes of the prefix read so far. *)
Lemma automaton_run_prefix prefix q n word :
  (n ≤ List.length prefix)%nat →
  (automaton_run prefix (q, Some n) word).2
  = if bool_decide (take (List.length word) (drop n prefix) = take (List.length prefix - n) word)
    then Some (Nat.min (n + List.length word) (List.length prefix)) else None.
Proof.
  unfold automaton_run. revert q n. induction word as [|b word IH]; intros q n Hn.
  { cbn. rewrite take_nil, take_0, bool_decide_true, Nat.add_0_r by done. f_equal. lia. }
  cbn [foldl]. unfold accept at 2. cbn [fst snd].
  destruct (Nat.leb_spec (List.length prefix) n).
  - replace n with (List.length prefix) in * by lia.
    rewrite IH by done. rewrite drop_all, Nat.sub_diag. cbn [take].
    rewrite !take_nil, !bool_decide_true by done. f_equal. cbn. lia.
  - destruct (lookup_lt_is_Some_2 prefix n) as [c Hc]; [lia|]. rewrite (drop_S _ c n Hc).
    replace (List.length prefix - n)%nat with (S (List.length prefix - S n)) by lia. cbn [List.length take].
    destruct (decide (c = b)) as [->|Hne].
    + rewrite bool_decide_true by done. rewrite Nat.add_1_r.
      rewrite IH by lia.
      assert (bool_decide (b :: take (List.length word) (drop (S n) prefix)
        = b :: take (List.length prefix - S n) word)
        = bool_decide (take (List.length word) (drop (S n) prefix)
        = take (List.length prefix - S n) word)) as ->.
      { apply bool_decide_ext. split; [by intros [= ?]|congruence]. }
      case_bool_decide; [|done]. f_equal. lia.
    + rewrite bool_decide_false by congruence.
      rewrite (bool_decide_false (c :: _ = _)) by congruence.
      clear. generalize (dfa_transition q b). induction word as [|b' word IH]; intros q'; cbn; [done|]. apply IH.
Qed.

Lemma take_eq_prefix (prefix word : list byte) :
  (List.length prefix ≤ List.length word)%nat →
  take (List.length word) prefix = take (List.length prefix) word ↔ prefix `prefix_of` word.
Proof.
  intros Hl. rewrite take_ge by done. split.
  - intros Hp. exists (drop (List.length prefix) word). rewrite Hp at 1. by rewrite take_drop.
  - intros [k ->]. by rewrite take_app_length.
Qed.

(** The automaton that expands a fuzzy term accepts exactly the words that
    the Levenshtein automaton accepts and that start with the prefix. *)
Lemma prefixed_automaton_accepts prefix word :
  is_match prefix (automaton_run prefix automaton_start word)
  = is_exact (dfa_distance (dfa_run dfa_initial_state word)) && bool_decide (prefix `prefix_of` word).
Proof.
  unfold is_match. rewrite automaton_run_dfa. unfold automaton_start at 2.
  rewrite automaton_run_prefix by lia. cbn [fst drop]. f_equal. rewrite Nat.sub_0_r.
  case_bool_decide as Ht.
  - destruct (Nat.leb_spec (List.length prefix) (Nat.min (0 + List.length word) (List.length prefix))).
    + symmetry. apply bool_decide_eq_true_2. apply take_eq_prefix; [lia|done].
    + symmetry. apply bool_decide_eq_false_2. intros Hp%prefix_length. lia.
  - symmetry. apply bool_decide_eq_false_2. intros Hp. apply Ht, take_eq_prefix; [|done].
    by apply prefix_length.
Qed.

(** The sink of the DFA: no word leads out of it, and it accepts none. *)
Definition sink_ok : Prop :=
  (∀ b, dfa_transition SINK_STATE b = SINK_STATE) ∧ is_exact (dfa_distance SINK_STATE) = false.

(** A state the automaton declares dead is dead: no word leads from it to
    a match, so the dictionary search that skips it loses no term. *)
Lemma can_match_sound prefix st word :
  sink_ok → can_match st = false → is_match prefix (automaton_run prefix st word) = false.
Proof.
  intros [Hsink Hex] Hc. unfold can_match in Hc. unfold is_match. rewrite automaton_run_dfa.
  apply andb_false_iff in Hc as [Hc | Hc].
  - apply negb_false_iff, Z.eqb_eq in Hc. rewrite Hc.
    assert (dfa_run SINK_STATE word = SINK_STATE) as ->; [|by rewrite Hex].
    unfold dfa_run. clear -Hsink. induction word as [|b word IH]; cbn; [done|]. by rewrite Hsink.
  - destruct st as [q [n|]]; [done|]. rewrite andb_comm.
    assert ((automaton_run prefix (q, None) word).2 = None) as ->; [|done].
    unfold automaton_run. clear. revert q. induction word as [|b word IH]; intros q; cbn; [done|]. apply IH.
Qed.
End AutomatonLaws.

(** ** Concrete scorers *)
#[local] Instance sample_terminated : Terminated := i32_max.

(** A scorer over a sorted set with a constant score, as the engine's
    [ConstScorer]. *)
Record Const : Type := const_scorer { const_docs : SortedDocSet; const_score : f32 }.
#[local] Instance Const_DocSet : DocSet Const := {
  ds_advance s := let '(d, n) := ds_advance (const_docs s) in (d, const_scorer n (const_score s));
  ds_seek t s := let '(d, n) := ds_seek t (const_docs s) in (d, const_scorer n (const_score s));
  ds_doc s := ds_doc (const_docs s);
  ds_size_hint s := ds_size_hint (const_docs s)
}.
#[local] Instance Const_Scorer : Scorer Const := λ s, (const_score s, s).
Definition const_ready (s : Const) : Prop := sds_ready (const_docs s).
Definition const_remaining (s : Const) : list Z := sds_remaining (const_docs s).
Definition const_score_of (s : Const) (d : Z) : f32 := const_score s.

#[local] Instance Const_Scores : Scores Const const_ready const_remaining const_score_of.
Proof.
  split; [split|..].
  - intros s. apply (enum_ok (const_docs s)).
  - intros s. apply (enum_doc (const_docs s)).
  - intros [n c] Hs. pose proof (enum_advance n Hs) as Ha. cbn in *.
    destruct (SortedDocSet_advance n). exact Ha.
  - intros t [n c] Hs Ht. pose proof (enum_seek t n Hs Ht) as Ha. cbn in *.
    destruct (SortedDocSet_seek t n). exact Ha.
  - intros s Hs _. by split_and!.
  - intros [n c] d Hs Hd. cbn. by destruct (SortedDocSet_advance n).
  - intros t [n c] d Hs Ht Hd. cbn. by destruct (SortedDocSet_seek t n).
Qed.

Definition sample_positive : Const := const_scorer (SortedDocSet_new [2; 5; 7; 9]) f32_one.
Definition sample_negative : SortedDocSet := SortedDocSet_new [0; 5; 6; 9].

Lemma sorted_docs_ok l : Sorted Z.lt l → Forall (λ d, 0 ≤ d < TERMINATED) l → docs_ok l.
Proof. intros Hs Hf. split; [|done]. apply Sorted_StronglySorted; [|done]. intros x y z. lia. Qed.

Lemma sample_positive_ready : const_ready sample_positive.
Proof. apply SortedDocSet_new_ready, sorted_docs_ok; repeat constructor; unfold TERMINATED, sample_terminated, i32_max; lia. Qed.
Lemma sample_negative_ready : sds_ready sample_negative.
Proof. apply SortedDocSet_new_ready, sorted_docs_ok; repeat constructor; unfold TERMINATED, sample_terminated, i32_max; lia. Qed.

(** Documents 5 and 9 are demoted to one half. *)
Lemma demote_scores_witness :
  run_scorer 5 (demote_scorer sample_positive sample_negative f32_half)
  = [(2, f32_one); (5, f32_half); (7, f32_one); (9, f32_half)].
Proof.
  etransitivity.
  - exact (demote_scores const_ready const_remaining const_score_of sds_ready sds_remaining
      sample_positive sample_negative f32_half sample_positive_ready sample_negative_ready).
  - vm_compute. reflexivity.
Defined.

Lemma demote_is_scorer_witness :
  Scores (DemoteScorer Const SortedDocSet) (demote_ready const_ready sds_ready)
    (demote_docs const_remaining) (demote_score_of const_score_of sds_remaining).
Proof.
  exact (demote_is_scorer const_ready const_remaining const_score_of sds_ready sds_remaining).
Defined.

(** Weights that know their documents, and explanations that are values. *)
#[local] Instance value_explanation : ExplanationApi f32 := {
  explanation_value v := v;
  explanation_new _ v := v;
  add_detail _ e := e;
  add_const _ _ e := e
}.
#[local] Instance value_explanation_laws : ExplanationLaws f32.
Proof. by split. Qed.
#[local] Instance const_weight : Weight Const unit Const string f32 := {
  w_scorer w _ boost := Ok (const_scorer (const_docs w) boost);
  w_explain w _ doc := if bool_decide (doc ∈ sds_docs (const_docs w)) then Ok f32_one else Err "no match"%string;
  w_count w _ := Ok (Z.of_nat (List.length (sds_docs (const_docs w))))
}.
#[local] Instance set_weight : Weight SortedDocSet unit SortedDocSet string f32 := {
  w_scorer w _ _ := Ok w;
  w_explain w _ _ := Err "unused"%string;
  w_count w _ := Ok (Z.of_nat (List.length (sds_docs w)))
}.

Lemma demote_explain_witness :
  ∃ e : f32, DemoteWeight_explain (demote_weight sample_positive sample_negative f32_half) tt 9 = Ok e ∧
    explanation_value e = f32_mul f32_one f32_half.
Proof.
  pose proof (demote_explain sds_ready sds_remaining
    (demote_weight sample_positive sample_negative f32_half) tt 9) as H.
  destruct H as (e & He & Hv).
  - intros n [= <-]. exact sample_negative_ready.
  - split; reflexivity || discriminate.
  - exists e. by split.
Defined.

