(* ===== verification/Fuzzy.v ===== *)
(** * Fuzzy term queries ([core/src/index.rs])

    [CappedFuzzyTermQuery], its weight and its scorer: the query builds the
    Levenshtein DFA of its term and restricts it to the prefix, the weight
    searches the term dictionary of a segment for the words the automaton
    accepts and collects the documents of the first of them.  The engine's
    terms, its DFA builder and its segments are classes. *)

From S2P Require Import Prelude RustStd Error Scorers.

(** ** Automata over the dictionary *)
Class Automaton (A St : Type) : Type := {
  aut_start : A -> St;
  aut_is_match : A -> St -> bool;
  aut_can_match : A -> St -> bool;
  aut_accept : A -> St -> byte -> St
}.
#[export] Hint Mode Automaton ! - : typeclass_instances.

Record PrefixedDfaAutomaton : Type := prefixed_dfa { pda_dfa : DFA; pda_prefix : list byte }.
Definition PrefixedDfaAutomaton_new (dfa : DFA) (prefix : list byte) : PrefixedDfaAutomaton :=
  prefixed_dfa dfa prefix.
#[export] Instance PrefixedDfaAutomaton_Automaton : Automaton PrefixedDfaAutomaton AutomatonState := {
  aut_start a := @automaton_start (pda_dfa a);
  aut_is_match a := @is_match (pda_dfa a) (pda_prefix a);
  aut_can_match a := @can_match (pda_dfa a);
  aut_accept a := @accept (pda_dfa a) (pda_prefix a)
}.

(** ** The engine *)

(** Terms: a field and a value, which may be a string. *)
Class TermApi (T : Type) : Type := {
  from_field_text : Z -> str -> T;
  term_field : T -> Z;
  value_as_str : T -> option str
}.
(** [LevenshteinAutomatonBuilder::new(max_distance, transposition_cost_one)]
    and [build_dfa]. *)
Record LevenshteinAutomatonBuilder : Type := levenshtein_builder {
  max_distance : Z; transposition_cost_one : bool
}.
Class LevenshteinApi : Type := build_dfa : LevenshteinAutomatonBuilder -> str -> DFA.

(** The inverted index of a field, whose term dictionary can be searched with
    any automaton, and the blocks of postings of a term; a segment has one per
    field. *)
Class InvertedIndexApi (II TermInfo E : Type) : Type := {
  dict_search : ∀ {A St} `{Automaton A St}, II -> A -> result E (list TermInfo);
  read_block_postings : II -> TermInfo -> result E (list (list Z))
}.
#[export] Hint Mode InvertedIndexApi ! - - : typeclass_instances.
Class SegmentApi (R II E : Type) : Type := inverted_index : R -> Z -> result E II.
#[export] Hint Mode SegmentApi ! - - : typeclass_instances.

(** The terms a query hands to a visitor, in the order of the calls. *)
Class QueryTerms (Q T : Type) : Type := query_terms : Q -> list (T * bool).
#[export] Hint Mode QueryTerms ! - : typeclass_instances.

(** ** [CappedAutomatonWeight] *)
Record CappedAutomatonWeight (A : Type) : Type := capped_weight {
  caw_field : Z; caw_automaton : A; caw_max_expansions : Z
}.
Arguments capped_weight {A} _ _ _.
Arguments caw_field {A} _.
Arguments caw_automaton {A} _.
Arguments caw_max_expansions {A} _.

Section Weight.
Context `{Terminated} {A St R II TermInfo E X : Type}.
Context `{Automaton A St} `{SegmentApi R II E} `{InvertedIndexApi II TermInfo E} `{ExplanationApi X}.
Context (InvalidArgument : string -> E).

(** The scorer: a [ConstScorer] over the sorted set, with the boost as the
    score of every document. *)
Definition CappedAutomatonWeight_scorer (w : CappedAutomatonWeight A) (reader : R) (boost : f32) :
    result E (SortedDocSet * f32) :=
  index ← inverted_index reader (caw_field w);
  term_stream ← dict_search index (caw_automaton w);
  docs ← CappedAutomatonWeight_docs (read_block_postings index) (caw_max_expansions w) term_stream;
  Ok (SortedDocSet_new docs, boost).

Definition CappedAutomatonWeight_explain (w : CappedAutomatonWeight A) (reader : R) (doc : Z) :
    result E X :=
  '(scorer, _) ← CappedAutomatonWeight_scorer w reader f32_one;
  if (SortedDocSet_seek doc scorer).1 =? doc then
    Ok (explanation_new [Txt "CappedAutomatonScorer"] f32_one)
  else Err (InvalidArgument "Document does not match fuzzy query").
End Weight.

(** ** [CappedFuzzyTermQuery] *)
Record CappedFuzzyTermQuery (T : Type) : Type := capped_fuzzy {
  cfq_term : T; cfq_distance : Z; cfq_prefix : str; cfq_max_expansions : Z
}.
Arguments capped_fuzzy {T} _ _ _ _.
Arguments cfq_term {T} _.
Arguments cfq_distance {T} _.
Arguments cfq_prefix {T} _.
Arguments cfq_max_expansions {T} _.

Section Query.
Context {T E : Type} `{TermApi T} `{LevenshteinApi}.
Context (InvalidArgument : string -> E).

Definition CappedFuzzyTermQuery_new (term : T) (distance : Z) (prefix : str) (max_expansions : Z) :
    CappedFuzzyTermQuery T :=
  capped_fuzzy term distance prefix max_expansions.

(** The weight does not depend on whether scores are wanted. *)
Definition CappedFuzzyTermQuery_weight (q : CappedFuzzyTermQuery T) (scoring_enabled : bool) :
    result E (CappedAutomatonWeight PrefixedDfaAutomaton) :=
  term_text ← ok_or (value_as_str (cfq_term q)) (InvalidArgument "fuzzy query requires a string term");
  let builder := levenshtein_builder (cfq_distance q) true in
  let automaton := PrefixedDfaAutomaton_new (build_dfa builder term_text) (as_bytes (cfq_prefix q)) in
  Ok (capped_weight (term_field (cfq_term q)) automaton (cfq_max_expansions q)).

Definition CappedFuzzyTermQuery_query_terms (q : CappedFuzzyTermQuery T) : list (T * bool) :=
  [(cfq_term q, false)].
#[export] Instance CappedFuzzyTermQuery_QueryTerms : QueryTerms (CappedFuzzyTermQuery T) T :=
  CappedFuzzyTermQuery_query_terms.
End Query.

(** A boosting query visits the terms of both of its queries. *)
Definition DemoteQuery_query_terms {QP QN T} `{QueryTerms QP T} `{QueryTerms QN T}
    (q : DemoteQuery QP QN) : list (T * bool) :=
  query_terms (dq_positive q) ++ query_terms (dq_negative q).
#[export] Instance DemoteQuery_QueryTerms {QP QN T} `{QueryTerms QP T} `{QueryTerms QN T} :
  QueryTerms (DemoteQuery QP QN) T := DemoteQuery_query_terms.
