(* ===== verification/Icu.v ===== *)
(** * The ICU tokenizer ([core/src/tokenizer/icu.rs])

    The token stream over the word boundaries of a text, whole segments or
    split at the characters that are not alphanumeric.  Texts are lists of
    characters, offsets are byte offsets of their UTF-8 encoding; slicing a
    text elsewhere than between two characters panics. *)

From S2P Require Import Prelude RustStd.

Record Token : Type := token {
  text_of : str;
  offset_from : Z;
  offset_to : Z;
  position : Z;
  position_length : Z
}.

Record IcuTokenStream : Type := icu_stream {
  stream_text : str;
  boundaries : list Z;
  stream_offset : Z;
  segment_end : Z;
  split_on_non_alphanumeric : bool;
  next_position : Z;
  current_token : Token
}.

(** The tokenizer: the engine's word segmenter, which gives the boundaries of
    a text, and whether its segments are split further. *)
Record IcuTokenizer : Type := icu_tokenizer {
  segmenter : str -> list Z;
  tokenizer_splits : bool
}.
(** [WordSegmenter::new_dictionary(WordBreakInvariantOptions::default())] *)
Class WordSegmenter := new_dictionary : str -> list Z.
Definition IcuTokenizer_default `{WordSegmenter} : IcuTokenizer := icu_tokenizer new_dictionary false.
Definition with_simple_split (t : IcuTokenizer) : IcuTokenizer := icu_tokenizer (segmenter t) true.

(** The characters before and after a byte offset, unless it is inside one. *)
Fixpoint split_bytes (n : Z) (s : str) : option (str * str) :=
  if n =? 0 then Some ([], s)
  else match s with
       | [] => None
       | c :: s' =>
           if n <? len_utf8 c then None
           else '(a, b) ← split_bytes (n - len_utf8 c) s'; Some (c :: a, b)
       end.
(** [&text[start..end]]; [None] is a panic. *)
Definition text_slice (text : str) (start stop : Z) : option str :=
  if stop <? start then None
  else '(_, rest) ← split_bytes start text;
       '(slice, _) ← split_bytes (stop - start) rest;
       Some slice.

(** The result of [advance]. *)
Inductive Advance : Type :=
| Advanced (stream : IcuTokenStream)
| Exhausted (stream : IcuTokenStream)
| SlicePanic
| OutOfFuel.

Section Icu.
Context `{Unicode}.

(** The first character that is not alphanumeric, with its relative offset:
    the [for] loop over [char_indices]. *)
Fixpoint find_delimiter (relative : Z) (s : str) : option (Z * char) :=
  match s with
  | [] => None
  | c :: s' =>
      if char_is_alphanumeric c then find_delimiter (relative + len_utf8 c) s' else Some (relative, c)
  end.

(** The rest of an iteration of the loop, once there is a segment. *)
Definition next_piece (s : IcuTokenStream) : option (IcuTokenStream * bool) :=
  let start := stream_offset s in
  '(stop, offset) ←
    (if split_on_non_alphanumeric s then
       piece ← text_slice (stream_text s) start (segment_end s);
       match find_delimiter 0 piece with
       | Some (relative, c) => Some (start + relative, start + relative + len_utf8 c)
       | None => Some (segment_end s, segment_end s)
       end
     else Some (segment_end s, segment_end s));
  let moved := icu_stream (stream_text s) (boundaries s) offset (segment_end s)
                 (split_on_non_alphanumeric s) (next_position s) (current_token s) in
  if start =? stop then Some (moved, false)
  else
    piece ← text_slice (stream_text s) start stop;
    if negb (existsb char_is_alphanumeric piece) then Some (moved, false)
    else
      Some (icu_stream (stream_text s) (boundaries s) offset (segment_end s)
              (split_on_non_alphanumeric s) (next_position s + 1)
              (token piece start stop (next_position s) 1), true).

(** The [loop] of [advance]. *)
Fixpoint advance_loop (fuel : nat) (s : IcuTokenStream) : Advance :=
  match fuel with
  | O => OutOfFuel
  | S fuel' =>
      let piece (s : IcuTokenStream) :=
        match next_piece s with
        | None => SlicePanic
        | Some (s', true) => Advanced s'
        | Some (s', false) => advance_loop fuel' s'
        end in
      if stream_offset s =? segment_end s then
        match boundaries s with
        | [] => Exhausted s
        | stop :: boundaries' =>
            let s' := icu_stream (stream_text s) boundaries' (stream_offset s) stop
                        (split_on_non_alphanumeric s) (next_position s) (current_token s) in
            if stream_offset s =? stop then advance_loop fuel' s' else piece s'
        end
      else piece s
  end.
(** Every iteration takes a boundary or moves the offset. *)
Definition advance_fuel (s : IcuTokenStream) : nat :=
  S (List.length (boundaries s) + Z.to_nat (str_len (stream_text s))).
Definition advance (s : IcuTokenStream) : Advance := advance_loop (advance_fuel s) s.

(** The engine's word segmenter: the boundaries of a text. *)
Context (segment_str : str -> list Z).

(** [Token::default()] belongs to the engine. *)
Definition token_stream (default_token : Token) (split : bool) (text : str) : IcuTokenStream :=
  icu_stream text (segment_str text) 0 0 split 0 default_token.

(** [Tokenizer::token_stream] *)
Definition IcuTokenizer_token_stream (t : IcuTokenizer) (default_token : Token) (text : str) : IcuTokenStream :=
  icu_stream text (segmenter t text) 0 0 (tokenizer_splits t) 0 default_token.

(** [TokenStream::process], with filters that may change the token in place
    after each step. *)
Fixpoint process (modify : Token -> Token) (fuel : nat) (s : IcuTokenStream) : option (list Token) :=
  match fuel with
  | O => None
  | S fuel' =>
      match advance s with
      | Advanced s' =>
          let s'' := icu_stream (stream_text s') (boundaries s') (stream_offset s') (segment_end s')
                       (split_on_non_alphanumeric s') (next_position s')
                       (modify (current_token s')) in
          tokens ← process modify fuel' s''; Some (current_token s' :: tokens)
      | Exhausted _ => Some []
      | SlicePanic | OutOfFuel => None
      end
  end.
End Icu.

(** ** The specification *)
Section IcuSpec.
Context `{Unicode}.

(** The pieces between the delimiters, with their offsets. *)
Fixpoint split_offsets (o : Z) (s : str) : list (Z * str) :=
  match s with
  | [] => [(o, [])]
  | c :: s' =>
      if char_is_alphanumeric c then
        match split_offsets (o + len_utf8 c) s' with
        | (_, p) :: ps => (o, c :: p) :: ps
        | [] => []
        end
      else (o, []) :: split_offsets (o + len_utf8 c) s'
  end.
(** The tokens of one segment: its maximal alphanumeric runs in split mode,
    the segment itself, if it has an alphanumeric character, otherwise. *)
Definition pieces (split : bool) (o : Z) (segment : str) : list (Z * str) :=
  if split then filter (λ p : Z * str, p.2 ≠ []) (split_offsets o segment)
  else if existsb char_is_alphanumeric segment then [(o, segment)] else [].
Fixpoint all_pieces (split : bool) (o : Z) (segments : list str) : list (Z * str) :=
  match segments with
  | [] => []
  | segment :: segments' =>
      pieces split o segment ++ all_pieces split (o + str_len segment) segments'
  end.
Fixpoint number_tokens (n : Z) (ps : list (Z * str)) : list Token :=
  match ps with
  | [] => []
  | (o, p) :: ps' => token p o (o + str_len p) n 1 :: number_tokens (n + 1) ps'
  end.

(** The boundaries are the ends of the segments, which make up the text. *)
Fixpoint ends (o : Z) (segments : list str) : list Z :=
  match segments with
  | [] => []
  | segment :: segments' => (o + str_len segment) :: ends (o + str_len segment) segments'
  end.
Definition segmentation (text : str) (bs : list Z) (segments : list str) : Prop :=
  text = concat segments ∧ bs = ends 0 segments.

(** ** Slices *)
Lemma split_bytes_app a b : split_bytes (str_len a) (a ++ b) = Some (a, b).
Proof.
  induction a as [|c a IH]; cbn; [by destruct b|].
  pose proof (len_utf8_pos c). pose proof (str_len_nonneg a).
  change (foldr (λ c n, len_utf8 c + n) 0 a) with (str_len a).
  destruct (Z.eqb_spec (len_utf8 c + str_len a) 0); [lia|].
  destruct (Z.ltb_spec (len_utf8 c + str_len a) (len_utf8 c)); [lia|].
  rewrite Z.add_simpl_l, IH. done.
Qed.

Lemma text_slice_app a b c :
  text_slice (a ++ b ++ c) (str_len a) (str_len a + str_len b) = Some b.
Proof.
  unfold text_slice. pose proof (str_len_nonneg b).
  destruct (Z.ltb_spec (str_len a + str_len b) (str_len a)); [lia|].
  rewrite split_bytes_app. cbn. by rewrite Z.add_simpl_l, split_bytes_app.
Qed.

(** A run of alphanumeric characters and what stops it. *)
Lemma find_delimiter_spec o s :
  match find_delimiter o s with
  | None => Forall (λ c, char_is_alphanumeric c = true) s
  | Some (r, c) => ∃ run rest, s = run ++ c :: rest ∧ r = o + str_len run ∧
      Forall (λ c, char_is_alphanumeric c = true) run ∧ char_is_alphanumeric c = false
  end.
Proof.
  revert o. induction s as [|c s IH]; intros o; cbn; [constructor|].
  destruct (char_is_alphanumeric c) eqn:Ec.
  - specialize (IH (o + len_utf8 c)). destruct (find_delimiter _ s) as [[r d]|].
    + destruct IH as (run & rest & -> & -> & Hrun & Hd). exists (c :: run), rest. cbn.
      change (foldr (λ c n, len_utf8 c + n) 0 run) with (str_len run).
      split_and!; [done|lia|by constructor|done].
    + by constructor.
  - exists [], s. cbn. split_and!; [done|lia|constructor|done].
Qed.

Lemma split_offsets_run o run :
  Forall (λ c, char_is_alphanumeric c = true) run → split_offsets o run = [(o, run)].
Proof.
  intros Hr. revert o. induction Hr as [|c run Hc _ IH]; intros o; cbn; [done|].
  by rewrite Hc, IH.
Qed.

Lemma split_offsets_delimiter o run c rest :
  Forall (λ c, char_is_alphanumeric c = true) run → char_is_alphanumeric c = false →
  split_offsets o (run ++ c :: rest)
  = (o, run) :: split_offsets (o + str_len run + len_utf8 c) rest.
Proof.
  intros Hr Hc. revert o. induction Hr as [|d run Hd _ IH]; intros o; cbn.
  - rewrite Hc. by rewrite Z.add_0_r.
  - rewrite Hd, IH. change (foldr (λ c n, len_utf8 c + n) 0 run) with (str_len run).
    do 2 f_equal. lia.
Qed.

Lemma existsb_run run :
  Forall (λ c, char_is_alphanumeric c = true) run → existsb char_is_alphanumeric run = negb (is_empty run).
Proof. destruct 1 as [|c run Hc _]; cbn; [done|]. by rewrite Hc. Qed.
End IcuSpec.

(** ** The stream follows the specification *)
Section IcuProofs.
Context `{Unicode}.

(** Between two steps the stream has read [pre], is in front of [cur], the rest
    of the current segment, and has the segments [later] to come. *)
Record at_state (s : IcuTokenStream) (pre cur : str) (later : list str) : Prop := {
  at_text : stream_text s = pre ++ cur ++ concat later;
  at_offset : stream_offset s = str_len pre;
  at_end : segment_end s = str_len pre + str_len cur;
  at_boundaries : boundaries s = ends (str_len pre + str_len cur) later
}.
Definition to_come (split : bool) (pre cur : str) (later : list str) : list (Z * str) :=
  pieces split (str_len pre) cur ++ all_pieces split (str_len pre + str_len cur) later.

Lemma pieces_nil split o : pieces split o [] = [].
Proof. by destruct split. Qed.

Lemma str_len_cons c s : str_len (c :: s) = len_utf8 c + str_len s.
Proof. done. Qed.

Lemma str_len_zero s : str_len s = 0 ↔ s = [].
Proof.
  destruct s as [|c s]; [done|]. rewrite str_len_cons. pose proof (len_utf8_pos c).
  pose proof (str_len_nonneg s). split; [lia|done].
Qed.

Lemma length_str_len s : Z.of_nat (List.length s) ≤ str_len s.
Proof.
  induction s as [|c s IH]; [done|]. rewrite str_len_cons. pose proof (len_utf8_pos c). cbn [List.length]. lia.
Qed.

(** Moving behind a part of the current segment. *)
Lemma at_after pre run c rest later bs split n t :
  bs = ends (str_len pre + str_len (run ++ c :: rest)) later →
  at_state (icu_stream (pre ++ (run ++ c :: rest) ++ concat later) bs (str_len pre + str_len run + len_utf8 c)
    (str_len pre + str_len (run ++ c :: rest)) split n t) (pre ++ run ++ [c]) rest later.
Proof.
  intros ->. assert (str_len (pre ++ run ++ [c]) = str_len pre + str_len run + len_utf8 c) as E.
  { rewrite !str_len_app, str_len_cons. change (str_len []) with 0. lia. }
  split; cbn [stream_text stream_offset segment_end boundaries]; rewrite ?E.
  - by rewrite <- !app_assoc.
  - done.
  - rewrite str_len_app, str_len_cons. lia.
  - f_equal. rewrite str_len_app, str_len_cons. lia.
Qed.

Lemma at_whole pre cur later bs split n t :
  bs = ends (str_len pre + str_len cur) later →
  at_state (icu_stream (pre ++ cur ++ concat later) bs (str_len pre + str_len cur)
    (str_len pre + str_len cur) split n t) (pre ++ cur) [] later.
Proof.
  intros ->. split; cbn [stream_text stream_offset segment_end boundaries];
    rewrite ?str_len_app, ?Z.add_0_r; try done. by rewrite <- app_assoc.
Qed.

(** One iteration takes the next piece off the current segment. *)
(** What an iteration does once there is a segment: it takes a part of what is
    left of it, which holds the next token or none. *)
Definition piece_taken s pre cur later (r : option (IcuTokenStream * bool)) : Prop :=
  ∃ s' b pre' cur', r = Some (s', b) ∧ at_state s' pre' cur' later ∧
    (List.length cur' < List.length cur)%nat ∧
    split_on_non_alphanumeric s' = split_on_non_alphanumeric s ∧
    str_len pre' + str_len cur' = str_len pre + str_len cur ∧
    (if b then ∃ t, pieces (split_on_non_alphanumeric s) (str_len pre) cur
                    = (str_len pre, t) :: pieces (split_on_non_alphanumeric s) (str_len pre') cur' ∧
              next_position s' = next_position s + 1 ∧
              current_token s' = token t (str_len pre) (str_len pre + str_len t) (next_position s) 1
     else pieces (split_on_non_alphanumeric s) (str_len pre) cur
          = pieces (split_on_non_alphanumeric s) (str_len pre') cur' ∧
          next_position s' = next_position s).

(** Up to the delimiter [c], after a run of alphanumeric characters. *)
Lemma next_piece_delimiter s pre run c rest later :
  at_state s pre (run ++ c :: rest) later → split_on_non_alphanumeric s = true →
  Forall (λ x, char_is_alphanumeric x = true) run → char_is_alphanumeric c = false →
  find_delimiter 0 (run ++ c :: rest) = Some (str_len run, c) →
  piece_taken s pre (run ++ c :: rest) later (next_piece s).
Proof.
  intros [Ht Ho He Hb] Esplit Hrun Hc Hfind. unfold next_piece, piece_taken.
  rewrite Ho, He, Ht, Esplit, text_slice_app. cbn [mbind option_bind]. rewrite Hfind. cbn [mbind option_bind].
  assert (str_len (pre ++ run ++ [c]) = str_len pre + str_len run + len_utf8 c) as E.
  { rewrite !str_len_app, str_len_cons. change (str_len []) with 0. lia. }
  assert (str_len (pre ++ run ++ [c]) + str_len rest = str_len pre + str_len (run ++ c :: rest)) as Etot.
  { rewrite E, str_len_app, str_len_cons. lia. }
  assert (List.length rest < List.length (run ++ c :: rest))%nat as Hlt by (rewrite length_app; cbn; lia).
  destruct (Z.eqb_spec (str_len pre) (str_len pre + str_len run)) as [Hz|Hz].
  - assert (run = []) as -> by (apply str_len_zero; lia).
    eexists _, false, (pre ++ [] ++ [c]), rest. split; [done|].
    split_and!; [by apply at_after| | | |..]; try done.
    unfold pieces. rewrite split_offsets_delimiter by done.
    rewrite filter_cons_False by (intros Hx; by apply Hx). by rewrite E.
  - rewrite <- app_assoc, text_slice_app. cbn [mbind option_bind].
    rewrite existsb_run by done. assert (run ≠ []) as Hrne by (intros ->; by rewrite Z.add_0_r in Hz).
    replace (is_empty run) with false by (by destruct run). cbn [negb].
    eexists _, true, (pre ++ run ++ [c]), rest. split; [done|].
    split_and!; [rewrite (app_assoc run); by apply at_after| | | |..]; try done.
    exists run. split_and!; try done. unfold pieces. rewrite split_offsets_delimiter by done.
    rewrite filter_cons_True by done. by rewrite E.
Qed.

(** All that is left of the segment, when its end is where the piece stops. *)
Lemma next_piece_whole s pre cur later :
  at_state s pre cur later → cur ≠ [] →
  (split_on_non_alphanumeric s = true →
     find_delimiter 0 cur = None ∧ Forall (λ x, char_is_alphanumeric x = true) cur) →
  piece_taken s pre cur later (next_piece s).
Proof.
  intros [Ht Ho He Hb] Hne Hrun. unfold next_piece, piece_taken. rewrite Ho, He, Ht.
  assert (str_len cur ≠ 0) as Hlen by (by rewrite str_len_zero).
  assert (str_len (pre ++ cur) + str_len [] = str_len pre + str_len cur) as E.
  { rewrite str_len_app. change (str_len []) with 0. lia. }
  assert (List.length (@nil Z) < List.length cur)%nat as Hlt by (destruct cur; cbn; [done|lia]).
  destruct (split_on_non_alphanumeric s) eqn:Esplit.
  - destruct (Hrun eq_refl) as [Hd Hall]. rewrite text_slice_app. cbn [mbind option_bind]. rewrite Hd.
    cbn [mbind option_bind]. destruct (Z.eqb_spec (str_len pre) (str_len pre + str_len cur)); [lia|].
    rewrite text_slice_app. cbn [mbind option_bind].
    rewrite existsb_run by done. replace (is_empty cur) with false by (by destruct cur). cbn [negb].
    eexists _, true, (pre ++ cur), []. split; [done|]. split_and!; try done; [by apply at_whole|].
    exists cur. split_and!; try done. unfold pieces. rewrite split_offsets_run by done. by rewrite filter_cons_True.
  - cbn [mbind option_bind]. destruct (Z.eqb_spec (str_len pre) (str_len pre + str_len cur)); [lia|].
    rewrite text_slice_app. cbn [mbind option_bind].
    destruct (existsb char_is_alphanumeric cur) eqn:Ealnum; cbn [negb].
    + eexists _, true, (pre ++ cur), []. split; [done|]. split_and!; try done; [by apply at_whole|].
      exists cur. split_and!; try done. unfold pieces. by rewrite Ealnum.
    + eexists _, false, (pre ++ cur), []. split; [done|].
      split_and!; try done; [by apply at_whole|]. unfold pieces. by rewrite Ealnum.
Qed.

Lemma next_piece_spec s pre cur later :
  at_state s pre cur later → cur ≠ [] → piece_taken s pre cur later (next_piece s).
Proof.
  intros Hat Hne. destruct (split_on_non_alphanumeric s) eqn:Esplit.
  2:{ apply next_piece_whole; [done..|]. by rewrite Esplit. }
  pose proof (find_delimiter_spec 0 cur) as Hd. destruct (find_delimiter 0 cur) as [[r c]|] eqn:Efind.
  - destruct Hd as (run & rest & -> & -> & Hrun & Hc). by apply next_piece_delimiter.
  - by apply next_piece_whole.
Qed.

(** The loop ends, without a panic, at the next piece. *)
(** What a result of the loop is when these are the tokens to come. *)
Definition advances (s : IcuTokenStream) (tokens : list (Z * str)) (a : Advance) : Prop :=
  match tokens with
  | [] => ∃ s', a = Exhausted s'
  | (o, t) :: rest => ∃ s' pre cur later, a = Advanced s' ∧ at_state s' pre cur later ∧
      split_on_non_alphanumeric s' = split_on_non_alphanumeric s ∧
      to_come (split_on_non_alphanumeric s) pre cur later = rest ∧
      next_position s' = next_position s + 1 ∧
      current_token s' = token t o (o + str_len t) (next_position s) 1
  end.
Lemma advances_eq s s' tokens a :
  split_on_non_alphanumeric s' = split_on_non_alphanumeric s → next_position s' = next_position s →
  advances s' tokens a → advances s tokens a.
Proof. unfold advances. by intros -> ->. Qed.

(** A piece of the segment, and then the loop if it held no token. *)
Lemma piece_advances fuel s pre cur later :
  (∀ s pre cur later, at_state s pre cur later →
     (List.length later + List.length (cur ++ concat later) < fuel)%nat →
     advances s (to_come (split_on_non_alphanumeric s) pre cur later) (advance_loop fuel s)) →
  at_state s pre cur later → cur ≠ [] →
  (List.length later + List.length (cur ++ concat later) ≤ fuel)%nat →
  advances s (to_come (split_on_non_alphanumeric s) pre cur later)
    match next_piece s with
    | None => SlicePanic | Some (s', true) => Advanced s'
    | Some (s', false) => advance_loop fuel s'
    end.
Proof.
  intros IH Hat Hne Hfuel.
  destruct (next_piece_spec s pre cur later Hat Hne)
    as (s' & b & pre' & cur' & -> & Hat' & Hlt & Hsplit & Htot & Hb).
  rewrite length_app in Hfuel. unfold to_come. destruct b.
  - destruct Hb as (t & -> & Hn & Htok). cbn [app]. exists s', pre', cur', later.
    split_and!; try done. unfold to_come. by rewrite Htot.
  - destruct Hb as [-> Hn]. apply (advances_eq s s'); [done..|].
    specialize (IH s' pre' cur' later Hat'). rewrite Hsplit in IH. unfold to_come in IH. rewrite Htot in IH.
    apply IH. rewrite length_app. lia.
Qed.

Lemma advance_loop_spec fuel s pre cur later :
  at_state s pre cur later → (List.length later + List.length (cur ++ concat later) < fuel)%nat →
  advances s (to_come (split_on_non_alphanumeric s) pre cur later) (advance_loop fuel s).
Proof.
  revert s pre cur later. induction fuel as [|fuel IH]; intros s pre cur later Hat Hfuel; [lia|].
  pose proof (at_offset _ _ _ _ Hat) as Ho. pose proof (at_end _ _ _ _ Hat) as He.
  cbn [advance_loop]. rewrite Ho, He. destruct (Z.eqb_spec (str_len pre) (str_len pre + str_len cur)) as [Hz|Hz].
  2:{ apply piece_advances; [done..| |lia]. intros ->. by rewrite Z.add_0_r in Hz. }
  assert (cur = []) as -> by (apply str_len_zero; lia).
  pose proof (at_text _ _ _ _ Hat) as Ht. pose proof (at_boundaries _ _ _ _ Hat) as Hb.
  change (str_len []) with 0 in *. rewrite Z.add_0_r in *. unfold to_come. rewrite pieces_nil. cbn [app].
  assert (str_len pre + str_len [] = str_len pre) as E0 by apply Z.add_0_r. rewrite E0 in *.
  rewrite Hb, Ht. destruct later as [|segment later]; cbn [ends all_pieces]; [by eexists|].
  set (s1 := icu_stream _ _ _ _ _ _ _).
  assert (at_state s1 pre segment later) as Hat1.
  { split; cbn [s1 stream_text stream_offset segment_end boundaries]; try done. }
  cbn [concat List.length] in Hfuel. cbn [app] in Hfuel. apply (advances_eq s s1); [done..|].
  destruct (Z.eqb_spec (str_len pre) (str_len pre + str_len segment)) as [Hs|Hs].
  - assert (segment = []) as -> by (apply str_len_zero; lia).
    specialize (IH s1 pre [] later Hat1). unfold to_come in IH. rewrite !pieces_nil in *.
    cbn [app] in IH |- *. rewrite !E0 in IH |- *. apply IH. cbn [app] in Hfuel. lia.
  - apply (piece_advances fuel s1 pre segment later IH Hat1); [|lia].
    intros ->. by rewrite Z.add_0_r in Hs.
Qed.

Lemma advance_spec s pre cur later :
  at_state s pre cur later →
  match to_come (split_on_non_alphanumeric s) pre cur later with
  | [] => ∃ s', advance s = Exhausted s'
  | (o, t) :: rest => ∃ s' pre' cur' later', advance s = Advanced s' ∧
      at_state s' pre' cur' later' ∧
      split_on_non_alphanumeric s' = split_on_non_alphanumeric s ∧
      to_come (split_on_non_alphanumeric s) pre' cur' later' = rest ∧
      next_position s' = next_position s + 1 ∧
      current_token s' = token t o (o + str_len t) (next_position s) 1
  end.
Proof.
  intros Hat. apply advance_loop_spec; [done|]. unfold advance_fuel.
  rewrite (at_text _ _ _ _ Hat), (at_boundaries _ _ _ _ Hat).
  pose proof (length_str_len (pre ++ cur ++ concat later)) as Hl. rewrite !length_app in *.
  assert (∀ o (l : list str), List.length (ends o l) = List.length l) as Hends.
  { clear. intros o l. revert o. induction l as [|x l IH]; intros o; cbn; [done|]. by rewrite IH. }
  rewrite Hends. lia.
Qed.

Lemma process_spec modify fuel s pre cur later :
  at_state s pre cur later →
  (List.length (to_come (split_on_non_alphanumeric s) pre cur later) < fuel)%nat →
  process modify fuel s
  = Some (number_tokens (next_position s) (to_come (split_on_non_alphanumeric s) pre cur later)).
Proof.
  revert s pre cur later. induction fuel as [|fuel IH]; intros s pre cur later Hat Hfuel; [lia|].
  cbn [process]. pose proof (advance_spec s pre cur later Hat) as Ha.
  destruct (to_come (split_on_non_alphanumeric s) pre cur later) as [|[o t] rest] eqn:Et.
  { destruct Ha as [s' ->]. done. }
  destruct Ha as (s' & pre' & cur' & later' & -> & Hat' & Hsplit & Hrest & Hn & Htok).
  set (s2 := icu_stream _ _ _ _ _ _ _).
  assert (at_state s2 pre' cur' later') as Hat2 by (by destruct Hat'; split).
  assert (split_on_non_alphanumeric s2 = split_on_non_alphanumeric s) as Hs2 by done.
  rewrite (IH s2 pre' cur' later' Hat2); rewrite Hs2, Hrest; [|cbn in Hfuel; lia].
  cbn [mbind option_bind number_tokens]. unfold s2. cbn [next_position]. by rewrite Hn, Htok.
Qed.

Lemma all_pieces_length split segments fuel :
  (Z.to_nat (str_len (concat segments)) + List.length segments < fuel)%nat →
  (List.length (all_pieces split 0 segments) < fuel)%nat.
Proof.
  assert (∀ o, (List.length (all_pieces split o segments) ≤ List.length (concat segments) + List.length segments)%nat)
    as Hlen.
  { clear. induction segments as [|x l IH]; intros o; cbn; [lia|]. rewrite !length_app.
    specialize (IH (o + str_len x)). assert (List.length (pieces split o x) ≤ S (List.length x))%nat; [|lia].
    clear. unfold pieces. destruct split; [|destruct (existsb _ x); cbn; lia].
    etrans; [apply length_filter|]. revert o. induction x as [|c x IH]; intros o; cbn; [lia|].
    specialize (IH (o + len_utf8 c)). destruct (char_is_alphanumeric c); cbn; [|lia].
    destruct (split_offsets _ x) as [|[q r] ps]; cbn in *; lia. }
  specialize (Hlen 0). pose proof (length_str_len (concat segments)). lia.
Qed.

(** C34: for every text, every segmentation of it and both modes, the stream
    yields, without a panic and whatever filters do to the yielded tokens,
    exactly the tokens of the specification: per segment its maximal
    alphanumeric runs (split mode) or the segment itself when it has an
    alphanumeric character, with their byte offsets, numbered from 0. *)
Theorem icu_tokens segment_str default_token split modify text segments :
  segmentation text (segment_str text) segments →
  process modify (S (Z.to_nat (str_len text) + List.length segments))
    (token_stream segment_str default_token split text)
  = Some (number_tokens 0 (all_pieces split 0 segments)).
Proof.
  intros [Ht Hb]. subst text.
  assert (to_come split [] [] segments = all_pieces split 0 segments) as Hcome.
  { unfold to_come. by rewrite pieces_nil. }
  rewrite <- Hcome.
  apply (process_spec modify _ (token_stream segment_str default_token split (concat segments)) [] [] segments).
  - split; cbn; done.
  - cbn [split_on_non_alphanumeric token_stream]. rewrite Hcome. 
    apply all_pieces_length. lia.
Qed.

(** ** Where the tokens are *)

(** A piece of the text, at its byte offset. *)
Definition placed (text : str) (p : Z * str) : Prop :=
  ∃ a b, text = a ++ p.2 ++ b ∧ p.1 = str_len a.
Definition piece_end (p : Z * str) : Z := p.1 + str_len p.2.
(** The pieces lie in [lo, hi), one behind the other. *)
Record in_order (lo hi : Z) (ps : list (Z * str)) : Prop := {
  order_range : Forall (λ p, lo ≤ p.1 ∧ piece_end p ≤ hi) ps;
  order_sorted : StronglySorted (λ p q, piece_end p ≤ q.1) ps
}.

Lemma in_order_app lo mid hi ps qs :
  lo ≤ mid → mid ≤ hi → in_order lo mid ps → in_order mid hi qs → in_order lo hi (ps ++ qs).
Proof.
  intros H1 H2 [Hp Hps] [Hq Hqs]. split.
  - apply Forall_app. split; eapply Forall_impl; [exact Hp| |exact Hq|]; cbn; lia.
  - induction Hps as [|p ps Hps IH Hall]; cbn; [done|]. inversion Hp as [|? ? Hp1 Hp2]; subst.
    constructor; [by apply IH|]. apply Forall_app. split; [done|].
    eapply Forall_impl; [exact Hq|]. cbn. lia.
Qed.

Lemma Forall_filter_mono {A} (Q P : A -> Prop) `{!∀ p, Decision (P p)} (l : list A) :
  Forall Q l → Forall Q (filter P l).
Proof. rewrite !Forall_forall. intros Hq x [_ Hx]%list_elem_of_filter. by apply Hq. Qed.

Lemma StronglySorted_pairwise {A} (R : A -> A -> Prop) l i j x y :
  StronglySorted R l → (i < j)%nat → l !! i = Some x → l !! j = Some y → R x y.
Proof.
  intros Hs. revert i j. induction Hs as [|z l Hs IH Hall]; intros i j Hij Hx Hy; [done|].
  destruct j as [|j]; [lia|]. destruct i as [|i]; cbn in *.
  - injection Hx as ->. rewrite Forall_lookup in Hall. by eapply Hall.
  - eapply IH; [|done..]. lia.
Qed.

Lemma in_order_filter (P : Z * str -> Prop) `{!∀ p, Decision (P p)} lo hi ps :
  in_order lo hi ps → in_order lo hi (filter P ps).
Proof.
  intros [Hr Hs]. split; [by apply Forall_filter_mono|].
  induction Hs as [|p ps Hs IH Hall]; [constructor|]. inversion Hr; subst. rewrite filter_cons.
  destruct (decide (P p)); [|by apply IH]. constructor; [by apply IH|]. by apply Forall_filter_mono.
Qed.

Lemma split_offsets_placed pre s suf :
  (∃ q rest ps, split_offsets (str_len pre) s = (str_len pre, q) :: ps ∧ s = q ++ rest) ∧
  Forall (placed (pre ++ s ++ suf)) (split_offsets (str_len pre) s) ∧
  in_order (str_len pre) (str_len pre + str_len s) (split_offsets (str_len pre) s) ∧
  Forall (λ p, Forall (λ c, char_is_alphanumeric c = true) p.2) (split_offsets (str_len pre) s).
Proof.
  revert pre. induction s as [|c s IH]; intros pre; cbn [split_offsets].
  - split; [by exists [], [], []|]. split_and!; [|split|].
    + constructor; [|constructor]. by exists pre, suf.
    + constructor; [unfold piece_end; cbn; lia|constructor].
    + by repeat constructor.
    + by repeat constructor.
  - specialize (IH (pre ++ [c])). rewrite str_len_app in IH. change (str_len [c]) with (len_utf8 c + 0) in IH.
    rewrite Z.add_0_r, <- app_assoc in IH. rewrite str_len_cons. pose proof (len_utf8_pos c).
    destruct IH as ((q & rest & ps & Hq & Hs) & Hp & [Hr Ho] & Ha). cbn [app] in Hp.
    pose proof (str_len_nonneg s).
    destruct (char_is_alphanumeric c) eqn:Ec.
    + rewrite Hq in *. inversion Hp as [|? ? Hp1 Hp2]; inversion Hr as [|? ? Hr1 Hr2];
        inversion Ho as [|? ? Ho1 Ho2]; inversion Ha as [|? ? Ha1 Ha2]; subst.
      unfold piece_end in *. cbn [fst snd] in *. split_and!; [|constructor|split|constructor]; try done.
      * by exists (c :: q), rest, ps.
      * exists pre, (rest ++ suf). cbn. by rewrite <- !app_assoc.
      * constructor; [unfold piece_end; cbn [fst snd]; rewrite str_len_cons; lia|].
        eapply Forall_impl; [exact Hr2|]. cbn. unfold piece_end. lia.
      * constructor; [done|]. eapply Forall_impl; [exact Ho2|]. unfold piece_end. cbn [fst snd].
        rewrite str_len_cons. lia.
      * by constructor.
    + split_and!; [|constructor|split|constructor]; try done.
      * by exists [], (c :: s), (split_offsets (str_len pre + len_utf8 c) s).
      * by exists pre, ((c :: s) ++ suf).
      * constructor; [unfold piece_end; cbn; lia|]. eapply Forall_impl; [exact Hr|]. cbn. lia.
      * constructor; [done|]. eapply Forall_impl; [exact Hr|]. unfold piece_end. cbn. lia.
Qed.

Lemma pieces_placed split pre s suf :
  Forall (λ p, placed (pre ++ s ++ suf) p ∧ p.2 ≠ [] ∧ existsb char_is_alphanumeric p.2 = true ∧
               (split = true → Forall (λ c, char_is_alphanumeric c = true) p.2))
    (pieces split (str_len pre) s) ∧
  in_order (str_len pre) (str_len pre + str_len s) (pieces split (str_len pre) s).
Proof.
  unfold pieces. destruct split.
  - destruct (split_offsets_placed pre s suf) as (_ & Hp & Ho & Ha).
    split; [|by apply in_order_filter]. apply Forall_forall.
    intros p [Hne Hin]%list_elem_of_filter. rewrite Forall_forall in Hp, Ha. split_and!; auto.
    rewrite existsb_run by auto. by destruct p.2.
  - destruct (existsb char_is_alphanumeric s) eqn:Ee; [|by repeat constructor]. split; [|split].
    + constructor; [|constructor]. cbn. split_and!; try done; [by exists pre, suf|]. by intros ->.
    + constructor; [unfold piece_end; cbn [fst snd]; lia|constructor].
    + by repeat constructor.
Qed.

Lemma all_pieces_placed split pre segments :
  Forall (λ p, placed (pre ++ concat segments) p ∧ p.2 ≠ [] ∧ existsb char_is_alphanumeric p.2 = true ∧
               (split = true → Forall (λ c, char_is_alphanumeric c = true) p.2))
    (all_pieces split (str_len pre) segments) ∧
  in_order (str_len pre) (str_len pre + str_len (concat segments)) (all_pieces split (str_len pre) segments).
Proof.
  revert pre. induction segments as [|s segments IH]; intros pre; cbn [all_pieces concat].
  { by repeat constructor. }
  destruct (pieces_placed split pre s (concat segments)) as [Hp Ho].
  destruct (IH (pre ++ s)) as [Hps Hos]. rewrite str_len_app in Hps, Hos. rewrite <- app_assoc in Hps.
  split; [by apply Forall_app|]. rewrite str_len_app.
  pose proof (str_len_nonneg s). pose proof (str_len_nonneg (concat segments)).
  eapply (in_order_app _ (str_len pre + str_len s)); [lia..|done|]. by rewrite Z.add_assoc.
Qed.

Lemma number_tokens_lookup n ps i t :
  number_tokens n ps !! i = Some t ↔
  ∃ p, ps !! i = Some p ∧ t = token p.2 p.1 (piece_end p) (n + Z.of_nat i) 1.
Proof.
  revert n i. induction ps as [|[o s] ps IH]; intros n i; cbn; [naive_solver|].
  destruct i as [|i]; cbn.
  - rewrite Z.add_0_r. split; [intros [= <-]; by eexists|]. by intros (p & [= <-] & ->).
  - rewrite IH. by replace (n + 1 + Z.of_nat i) with (n + Z.of_nat (S i)) by lia.
Qed.

(** C35: the tokens of a text are slices of it: token number [i] has position
    [i] and is the text between its byte offsets, not empty, with an
    alphanumeric character (only such ones in split mode); offsets increase
    and tokens do not overlap. *)
Theorem icu_token_offsets segment_str default_token split modify fuel text segments tokens :
  segmentation text (segment_str text) segments →
  (Z.to_nat (str_len text) + List.length segments < fuel)%nat →
  process modify fuel (token_stream segment_str default_token split text) = Some tokens →
  (∀ i t, tokens !! i = Some t → position t = Z.of_nat i ∧ position_length t = 1 ∧
     text_slice text (offset_from t) (offset_to t) = Some (text_of t) ∧
     existsb char_is_alphanumeric (text_of t) = true ∧
     (split = true → Forall (λ c, char_is_alphanumeric c = true) (text_of t))) ∧
  (∀ i j t u, (i < j)%nat → tokens !! i = Some t → tokens !! j = Some u →
     offset_from t < offset_to t ≤ offset_from u).
Proof.
  intros [Ht Hb] Hfuel Hp. subst text.
  assert (at_state (token_stream segment_str default_token split (concat segments)) [] [] segments) as Hat
    by (split; cbn; done).
  assert (to_come split [] [] segments = all_pieces split 0 segments) as Hcome.
  { unfold to_come. by rewrite pieces_nil. }
  rewrite (process_spec modify fuel _ _ _ _ Hat) in Hp; cbn [split_on_non_alphanumeric token_stream] in *;
    rewrite Hcome in *; [|by apply all_pieces_length].
  injection Hp as <-. destruct (all_pieces_placed split [] segments) as [Hps Ho]. cbn [app] in *.
  change (str_len []) with 0 in *. rewrite Forall_lookup in Hps. cbn [next_position token_stream].
  split.
  - intros i t (p & Hi & ->)%number_tokens_lookup. destruct (Hps i p Hi) as ((a & b & E & Hoff) & Hne & He & Ha).
    cbn [position position_length offset_from offset_to text_of]. split_and!; try done.
    unfold piece_end. rewrite E, Hoff. apply text_slice_app.
  - intros i j t u Hij (p & Hi & ->)%number_tokens_lookup (q & Hj & ->)%number_tokens_lookup.
    cbn [offset_from offset_to]. destruct (Hps i p Hi) as (_ & Hne & _).
    assert (str_len p.2 ≠ 0) by (by rewrite str_len_zero). pose proof (str_len_nonneg p.2).
    split; [unfold piece_end; lia|]. destruct Ho as [_ Hs].
    exact (StronglySorted_pairwise _ _ _ _ _ _ Hs Hij Hi Hj).
Qed.
End IcuProofs.

#[local] Existing Instance ascii_unicode.

(** [ab_c, d] with the segments [ab_c], [,], [ ] and [d], after an empty one. *)
Definition sample_segments : list str := [[]; lit "ab_c"; lit ","; lit " "; lit "d"].
Definition sample_segmenter (text : str) : list Z := ends 0 sample_segments.
Definition sample_default : Token := token [] 0 0 0 1.

Lemma icu_tokens_witness :
  process id 13 (token_stream sample_segmenter sample_default true (lit "ab_c, d"))
  = Some [token (lit "ab") 0 2 0 1; token (lit "c") 3 4 1 1; token (lit "d") 6 7 2 1].
Proof.
  pose proof (icu_tokens sample_segmenter sample_default true id (lit "ab_c, d") sample_segments
                (conj eq_refl eq_refl)) as H.
  vm_compute in H |- *. exact H.
Defined.

Lemma icu_token_offsets_witness :
  text_slice (lit "ab_c, d") 0 4 = Some (lit "ab_c") ∧ (0 < 4 ≤ 6).
Proof.
  destruct (icu_token_offsets sample_segmenter sample_default false id 13 (lit "ab_c, d")
              sample_segments [token (lit "ab_c") 0 4 0 1; token (lit "d") 6 7 1 1]) as [H1 H2].
  - by split.
  - vm_compute. lia.
  - vm_compute. reflexivity.
  - split; [apply (H1 0%nat (token (lit "ab_c") 0 4 0 1)); reflexivity|].
    by apply (H2 0%nat 1%nat (token (lit "ab_c") 0 4 0 1) (token (lit "d") 6 7 1 1)); [lia|..].
Defined.
