(* ===== verification/Query.v ===== *)
(** * The query language ([core/src/query.rs])

    The query tree and its decoding from JSON: the hand-written deserializers
    of the operators, of the occurrences and of [fuzziness], and the
    serialization derived for [QuerySpec] with its defaults and aliases. *)

From S2P Require Import Prelude RustStd Error Json.
From Stdlib Require Import Floats.SpecFloat.

Inductive MatchOperator : Type := Or | And.
Inductive BooleanOccur : Type := Should | Must | MustNot.

Inductive QuerySpec : Type :=
| Match (column : option str) (terms : str) (operator : MatchOperator) (boost : f32)
    (fuzziness : option Z) (max_expansions prefix_length : Z)
| MultiMatch (terms : str) (columns : list str) (boosts : list f32) (operator : MatchOperator)
    (fuzziness : option Z) (max_expansions prefix_length : Z)
| MatchPhrase (column : option str) (terms : str) (slop : Z)
| Boolean (should must must_not : list QuerySpec) (queries : list (BooleanOccur * QuerySpec))
| Boost (positive negative : QuerySpec) (negative_boost : f32).

#[export] Instance MatchOperator_eq_dec : EqDecision MatchOperator.
Proof. solve_decision. Defined.
#[export] Instance BooleanOccur_eq_dec : EqDecision BooleanOccur.
Proof. solve_decision. Defined.

Section QuerySpec_ind.
Context (P : QuerySpec -> Prop).
Context (Hmatch : ∀ c t o b f m p, P (Match c t o b f m p)).
Context (Hmulti : ∀ t c b o f m p, P (MultiMatch t c b o f m p)).
Context (Hphrase : ∀ c t s, P (MatchPhrase c t s)).
Context (Hboolean : ∀ s m n q, Forall P s → Forall P m → Forall P n → Forall (P ∘ snd) q →
                    P (Boolean s m n q)).
Context (Hboost : ∀ p n b, P p → P n → P (Boost p n b)).
Fixpoint QuerySpec_nested_ind (q : QuerySpec) : P q :=
  let all := fix all (l : list QuerySpec) : Forall P l :=
    match l with
    | [] => Forall_nil_2 P
    | x :: l => Forall_cons_2 P x l (QuerySpec_nested_ind x) (all l)
    end in
  match q with
  | Match c t o b f m p => Hmatch c t o b f m p
  | MultiMatch t c b o f m p => Hmulti t c b o f m p
  | MatchPhrase c t s => Hphrase c t s
  | Boolean s m n q =>
      Hboolean s m n q (all s) (all m) (all n)
        ((fix go (l : list (BooleanOccur * QuerySpec)) : Forall (P ∘ snd) l :=
            match l with
            | [] => Forall_nil_2 (P ∘ snd)
            | x :: l => Forall_cons_2 (P ∘ snd) x l (QuerySpec_nested_ind x.2) (go l)
            end) q)
  | Boost p n b => Hboost p n b (QuerySpec_nested_ind p) (QuerySpec_nested_ind n)
  end.
End QuerySpec_ind.

(** ** Decoding *)
Definition MatchOperator_from_json (j : json) : result JsonError MatchOperator :=
  value ← de_string j;
  let v := trim value in
  if bool_decide (v ∈ [lit "Or"; lit "or"; lit "OR"]) then Ok Or
  else if bool_decide (v ∈ [lit "And"; lit "and"; lit "AND"]) then Ok And
  else Err JsonData.

Definition BooleanOccur_from_json (j : json) : result JsonError BooleanOccur :=
  value ← de_string j;
  let v := trim value in
  if bool_decide (v ∈ [lit "Should"; lit "should"; lit "SHOULD"]) then Ok Should
  else if bool_decide (v ∈ [lit "Must"; lit "must"; lit "MUST"]) then Ok Must
  else if bool_decide (v ∈ [lit "MustNot"; lit "must_not"; lit "MUST_NOT"; lit "mustnot"; lit "MUSTNOT"])
  then Ok MustNot
  else Err JsonData.

Definition default_boost : f32 := f32_one.
Definition default_negative_boost : f32 := f32_half.
Definition default_fuzziness : option Z := Some 0.
Definition default_max_expansions : Z := 50.

(** [as_u64] is [None] on negative integers and on floats. *)
Definition deserialize_fuzziness (j : json) : result JsonError (option Z) :=
  match j with
  | JNull => Ok None
  | JString value => if eq_ignore_ascii_case value (lit "auto") then Ok None else Err JsonData
  | JInt value =>
      if 0 <=? value then ok_or (Some <$> try_from_unsigned u8_max value) JsonData else Err JsonData
  | _ => Err JsonData
  end.

(** [x as f32] of the number types [f32]'s deserializer accepts. *)
Definition f64_as_f32 (x : spec_float) : f32 :=
  match x with
  | S754_finite s m e => binary_normalize 24 128 (cond_Zopp s (Zpos m)) e s
  | _ => x
  end.
Definition de_f32 (j : json) : result JsonError f32 :=
  match j with
  | JInt z => Ok (f32_make z 0)
  | JFloat x => Ok (f64_as_f32 x)
  | _ => Err JsonData
  end.

Section Decode.
Context `{Platform}.

(** The fields of the variants, each with its aliases. *)
Definition match_fields : list (list str) :=
  [[lit "column"]; [lit "terms"; lit "query"]; [lit "operator"]; [lit "boost"]; [lit "fuzziness"];
   [lit "max_expansions"; lit "maxExpansions"]; [lit "prefix_length"; lit "prefixLength"]].
Definition multi_match_fields : list (list str) :=
  [[lit "terms"; lit "query"]; [lit "columns"]; [lit "boosts"; lit "boost"]; [lit "operator"];
   [lit "fuzziness"]; [lit "max_expansions"; lit "maxExpansions"];
   [lit "prefix_length"; lit "prefixLength"]].
Definition match_phrase_fields : list (list str) :=
  [[lit "column"]; [lit "terms"; lit "query"]; [lit "slop"]].
Definition boolean_fields : list (list str) :=
  [[lit "should"]; [lit "must"]; [lit "must_not"]; [lit "queries"]].
Definition boost_fields : list (list str) :=
  [[lit "positive"]; [lit "negative"]; [lit "negative_boost"]].

Definition de_match (content : json) : result JsonError QuerySpec :=
  slots ← struct_fields match_fields content;
  match slots with
  | [s0; s1; s2; s3; s4; s5; s6] =>
      column ← with_default None (de_option de_string) s0;
      terms ← required de_string s1;
      operator ← with_default Or MatchOperator_from_json s2;
      boost ← with_default default_boost de_f32 s3;
      fuzziness ← with_default default_fuzziness deserialize_fuzziness s4;
      max_expansions ← with_default default_max_expansions (de_unsigned usize_max) s5;
      prefix_length ← with_default 0 (de_unsigned u32_max) s6;
      Ok (Match column terms operator boost fuzziness max_expansions prefix_length)
  | _ => Err JsonData
  end.

Definition de_multi_match (content : json) : result JsonError QuerySpec :=
  slots ← struct_fields multi_match_fields content;
  match slots with
  | [s0; s1; s2; s3; s4; s5; s6] =>
      terms ← required de_string s0;
      columns ← required (de_vec de_string) s1;
      boosts ← with_default [] (de_vec de_f32) s2;
      operator ← with_default Or MatchOperator_from_json s3;
      fuzziness ← with_default default_fuzziness deserialize_fuzziness s4;
      max_expansions ← with_default default_max_expansions (de_unsigned usize_max) s5;
      prefix_length ← with_default 0 (de_unsigned u32_max) s6;
      Ok (MultiMatch terms columns boosts operator fuzziness max_expansions prefix_length)
  | _ => Err JsonData
  end.

Definition de_match_phrase (content : json) : result JsonError QuerySpec :=
  slots ← struct_fields match_phrase_fields content;
  match slots with
  | [s0; s1; s2] =>
      column ← with_default None (de_option de_string) s0;
      terms ← required de_string s1;
      slop ← with_default 0 (de_unsigned u32_max) s2;
      Ok (MatchPhrase column terms slop)
  | _ => Err JsonData
  end.

(** A pair is an array of two elements. *)
Definition de_pair {A B} (de1 : json -> result JsonError A) (de2 : json -> result JsonError B)
    (j : json) : result JsonError (A * B) :=
  match j with
  | JArray [j1; j2] => a ← de1 j1; b ← de2 j2; Ok (a, b)
  | _ => Err JsonData
  end.

Definition de_boolean (de : json -> result JsonError QuerySpec) (content : json) :
    result JsonError QuerySpec :=
  slots ← struct_fields boolean_fields content;
  match slots with
  | [s0; s1; s2; s3] =>
      should ← with_default [] (de_vec de) s0;
      must ← with_default [] (de_vec de) s1;
      must_not ← with_default [] (de_vec de) s2;
      queries ← with_default [] (de_vec (de_pair BooleanOccur_from_json de)) s3;
      Ok (Boolean should must must_not queries)
  | _ => Err JsonData
  end.

Definition de_boost (de : json -> result JsonError QuerySpec) (content : json) :
    result JsonError QuerySpec :=
  slots ← struct_fields boost_fields content;
  match slots with
  | [s0; s1; s2] =>
      positive ← required de s0;
      negative ← required de s1;
      negative_boost ← with_default default_negative_boost de_f32 s2;
      Ok (Boost positive negative negative_boost)
  | _ => Err JsonData
  end.

Definition de_variant (de : json -> result JsonError QuerySpec) (variant : str) (content : json) :
    result JsonError QuerySpec :=
  if str_eqb variant (lit "match") then de_match content
  else if str_eqb variant (lit "multi_match") then de_multi_match content
  else if str_eqb variant (lit "match_phrase") || str_eqb variant (lit "phrase")
  then de_match_phrase content
  else if str_eqb variant (lit "boolean") then de_boolean de content
  else if str_eqb variant (lit "boost") then de_boost de content
  else Err JsonData.

(** Externally tagged: an object of one entry.  No variant is a unit, so a
    string is refused as well. *)
Fixpoint de_query (fuel : nat) (j : json) : result JsonError QuerySpec :=
  match fuel with
  | O => Err JsonData
  | S fuel' =>
      match j with
      | JObject [(variant, content)] => de_variant (de_query fuel') variant content
      | _ => Err JsonData
      end
  end.
(** A query is nested at most as deep as its document. *)
Definition QuerySpec_deserialize (j : json) : result JsonError QuerySpec :=
  de_query (S (Z.to_nat (json_depth j))) j.

(** [QuerySpec::from_json] *)
Definition from_json `{JsonText} (text : str) : Result QuerySpec :=
  map_err Json (j ← json_from_slice (as_bytes text); QuerySpec_deserialize j).
End Decode.

(** ** Encoding

    The derived [Serialize], as the tree [serde_json::to_value] builds: a
    float that is not finite is [null]. *)
Definition MatchOperator_to_json (o : MatchOperator) : json :=
  JString (match o with Or => lit "Or" | And => lit "And" end).
Definition BooleanOccur_to_json (o : BooleanOccur) : json :=
  JString (match o with Should => lit "Should" | Must => lit "Must" | MustNot => lit "MustNot" end).
Definition option_to_json {A} (en : A -> json) (o : option A) : json :=
  match o with Some a => en a | None => JNull end.
Definition f32_to_json (x : f32) : json := if f32_is_finite x then JFloat x else JNull.

Fixpoint QuerySpec_to_json (q : QuerySpec) : json :=
  match q with
  | Match column terms operator boost fuzziness max_expansions prefix_length =>
      JObject [(lit "match", JObject [
        (lit "column", option_to_json JString column);
        (lit "terms", JString terms);
        (lit "operator", MatchOperator_to_json operator);
        (lit "boost", f32_to_json boost);
        (lit "fuzziness", option_to_json JInt fuzziness);
        (lit "max_expansions", JInt max_expansions);
        (lit "prefix_length", JInt prefix_length)])]
  | MultiMatch terms columns boosts operator fuzziness max_expansions prefix_length =>
      JObject [(lit "multi_match", JObject [
        (lit "terms", JString terms);
        (lit "columns", JArray (JString <$> columns));
        (lit "boosts", JArray (f32_to_json <$> boosts));
        (lit "operator", MatchOperator_to_json operator);
        (lit "fuzziness", option_to_json JInt fuzziness);
        (lit "max_expansions", JInt max_expansions);
        (lit "prefix_length", JInt prefix_length)])]
  | MatchPhrase column terms slop =>
      JObject [(lit "match_phrase", JObject [
        (lit "column", option_to_json JString column);
        (lit "terms", JString terms);
        (lit "slop", JInt slop)])]
  | Boolean should must must_not queries =>
      JObject [(lit "boolean", JObject [
        (lit "should", JArray (QuerySpec_to_json <$> should));
        (lit "must", JArray (QuerySpec_to_json <$> must));
        (lit "must_not", JArray (QuerySpec_to_json <$> must_not));
        (lit "queries",
         JArray ((λ '(o, q), JArray [BooleanOccur_to_json o; QuerySpec_to_json q]) <$> queries))])]
  | Boost positive negative negative_boost =>
      JObject [(lit "boost", JObject [
        (lit "positive", QuerySpec_to_json positive);
        (lit "negative", QuerySpec_to_json negative);
        (lit "negative_boost", f32_to_json negative_boost)])]
  end.
