(* ===== verification/QueryLaws.v ===== *)
(** * What decoding a query gives

    The decoder satisfies its recursive equation without fuel, its result is
    within the machine types, aliases mean the same as the names they stand
    for, and every query reads back from the JSON written for it. *)

From S2P Require Import Prelude RustStd Error Json Query.
From Stdlib Require Import Floats.SpecFloat.

(** A float that [f32] has and JSON can write. *)
Definition f32_storable (x : f32) : bool := f32_is_finite x && valid_binary 24 128 x.

Lemma round_exact m e s :
  canonical_mantissa 24 128 m e = true → e <= 128 - 24 →
  binary_normalize 24 128 (cond_Zopp s (Zpos m)) e s = S754_finite s m e.
Proof.
  intros Hc He. unfold canonical_mantissa in Hc. apply Zeq_bool_eq in Hc.
  assert (binary_round 24 128 s m e = S754_finite s m e) as Hr.
  { assert (∀ b, binary_round_aux 24 128 b (Zpos m) e loc_Exact = S754_finite b m e) as Haux.
    { intros b. unfold binary_round_aux, shr_fexp. cbn [Zdigits2]. rewrite Hc, Z.sub_diag. cbn.
      rewrite Hc, Z.sub_diag. cbn [shr shr_m shr_record_of_loc loc_of_shr_record round_nearest_even]. destruct (Z.leb_spec e (128 - 24)); [done|lia]. }
    unfold binary_round, shl_align. rewrite Hc, Z.sub_diag. apply Haux. }
  destruct s; exact Hr.
Qed.

Lemma f64_as_f32_storable x : f32_storable x = true → f64_as_f32 x = x.
Proof.
  unfold f32_storable. destruct x as [s|s| |s m e]; cbn; try done.
  unfold bounded. intros [Hc He]%andb_true_iff. apply round_exact; [done|]. by apply Zle_bool_imp_le.
Qed.

(** ** The recursive equation *)
Section Decode.
Context `{Platform}.

Definition slot_below (n : Z) (v : option json) : Prop :=
  match v with Some j => json_depth j < n | None => True end.

Lemma json_depth_nonneg j : 0 ≤ json_depth j.
Proof.
  destruct j as [| | | | |l|kvs]; cbn; try lia.
  - assert (0 ≤ foldr (λ j n, Z.max (json_depth j) n) 0 l); [|lia].
    induction l; cbn; lia.
  - assert (0 ≤ foldr (λ (kv : str * json) n, Z.max (json_depth kv.2) n) 0 kvs); [|lia].
    induction kvs; cbn; lia.
Qed.

Lemma json_depth_elem l j : j ∈ l → json_depth j < json_depth (JArray l).
Proof.
  induction l as [|x l IH]; [by intros ?%not_elem_of_nil|].
  intros [-> | Hj]%elem_of_cons; cbn in *; [lia|]. specialize (IH Hj). lia.
Qed.

Lemma json_depth_entry kvs kv : kv ∈ kvs → json_depth kv.2 < json_depth (JObject kvs).
Proof.
  induction kvs as [|x l IH]; [by intros ?%not_elem_of_nil|].
  intros [-> | Hj]%elem_of_cons; cbn in *; [lia|]. specialize (IH Hj). lia.
Qed.

Lemma field_value_elem names kvs v :
  field_value names kvs = Ok (Some v) → ∃ k, (k, v) ∈ kvs.
Proof.
  unfold field_value. intros Hf. destruct (filter _ kvs) as [|[k w] [|? ?]] eqn:E; try done.
  injection Hf as ->. exists k.
  assert ((k, v) ∈ filter (λ kv : str * json, kv.1 ∈ names) kvs) as Hin by (rewrite E; left).
  by apply list_elem_of_filter in Hin as [_ ?].
Qed.

Lemma struct_fields_below fields j slots :
  struct_fields fields j = Ok slots → Forall (slot_below (json_depth j)) slots.
Proof.
  destruct j as [| | | | |l|kvs]; cbn [struct_fields]; try done; intros Hs.
  - case_if_in Hs; [|done]. injection Hs as <-. apply Forall_app. split.
    + apply Forall_fmap, Forall_forall. intros x Hx. by apply json_depth_elem.
    + apply Forall_replicate. exact I.
  - apply result_mapM_Ok in Hs. induction Hs as [|names v fields slots Hv _ IH]; constructor; [|done].
    destruct v as [v|]; [|exact I]. destruct (field_value_elem _ _ _ Hv) as [k Hk].
    by apply (json_depth_entry kvs (k, v)).
Qed.

(** Two decoders that agree below a depth decode the same. *)
Section Congruence.
Context (de1 de2 : json -> result JsonError QuerySpec) (n : Z).
Context (Hsame : ∀ j, json_depth j < n → de1 j = de2 j).

Lemma result_mapM_ext {E A B} (f g : A -> result E B) l :
  (∀ x, x ∈ l → f x = g x) → result_mapM f l = result_mapM g l.
Proof.
  induction l as [|x l IH]; cbn; [done|]. intros Hf. rewrite (Hf x) by left.
  rewrite IH; [done|]. intros y Hy. apply Hf. by right.
Qed.

Lemma de_vec_same j : json_depth j < n → de_vec de1 j = de_vec de2 j.
Proof.
  destruct j as [| | | | |l|]; try done. intros Hj. apply result_mapM_ext. intros x Hx.
  apply Hsame. pose proof (json_depth_elem l x Hx). lia.
Qed.

Lemma de_pairs_same {A} (de : json -> result JsonError A) j :
  json_depth j < n → de_vec (de_pair de de1) j = de_vec (de_pair de de2) j.
Proof.
  destruct j as [| | | | |l|]; try done. intros Hj. apply result_mapM_ext. intros x Hx.
  destruct x as [| | | | |[|x1 [|x2 [|]]]|]; try done. cbn.
  destruct (de x1); cbn; [|done]. rewrite Hsame; [done|].
  pose proof (json_depth_elem l _ Hx). pose proof (json_depth_elem [x1; x2] x2 ltac:(set_solver)). lia.
Qed.

Lemma with_default_same {A} (d : A) (f g : json -> result JsonError A) v :
  slot_below n v → (∀ j, json_depth j < n → f j = g j) → with_default d f v = with_default d g v.
Proof. destruct v; cbn; auto. Qed.
Lemma required_same {A} (f g : json -> result JsonError A) v :
  slot_below n v → (∀ j, json_depth j < n → f j = g j) → required f v = required g v.
Proof. destruct v; cbn; auto. Qed.

Lemma de_variant_same variant content :
  json_depth content ≤ n → de_variant de1 variant content = de_variant de2 variant content.
Proof.
  intros Hc. unfold de_variant. repeat (case_match; try done).
  - unfold de_boolean. destruct (struct_fields boolean_fields content) as [slots|e] eqn:Es; cbn; [|done].
    apply struct_fields_below in Es.
    destruct slots as [|s0 [|s1 [|s2 [|s3 [|]]]]]; try done. 
    repeat match goal with Hx : Forall _ (_ :: _) |- _ => inversion Hx; clear Hx; subst end.
    assert (∀ v, slot_below (json_depth content) v → slot_below n v) as Hw by (intros []; cbn; lia || done).
    rewrite !(with_default_same [] (de_vec de1) (de_vec de2)) by (auto using de_vec_same).
    by rewrite (with_default_same [] _ (de_vec (de_pair BooleanOccur_from_json de2)) s3)
      by (auto using de_pairs_same).
  - unfold de_boost. destruct (struct_fields boost_fields content) as [slots|e] eqn:Es; cbn; [|done].
    apply struct_fields_below in Es.
    destruct slots as [|s0 [|s1 [|s2 [|]]]]; try done.
    repeat match goal with Hx : Forall _ (_ :: _) |- _ => inversion Hx; clear Hx; subst end.
    assert (∀ v, slot_below (json_depth content) v → slot_below n v) as Hw by (intros []; cbn; lia || done).
    by rewrite !(required_same de1 de2) by auto.
Qed.
End Congruence.

Lemma de_query_fuel n m j :
  json_depth j < Z.of_nat n → json_depth j < Z.of_nat m → de_query n j = de_query m j.
Proof.
  revert m j. induction n as [|n IH]; intros m j Hn Hm; pose proof (json_depth_nonneg j); [lia|].
  destruct m as [|m]; [lia|]. cbn [de_query].
  destruct j as [| | | | | |[|[variant content] [|]]]; try done.
  pose proof (json_depth_entry [(variant, content)] (variant, content) ltac:(set_solver)) as Hd. cbn in Hd, Hn, Hm.
  apply (de_variant_same _ _ (json_depth content)); [|done].
  intros j Hj. apply IH; lia.
Qed.

(** The fuel does not show. *)
Lemma deserialize_equation j :
  QuerySpec_deserialize j
  = match j with
    | JObject [(variant, content)] => de_variant QuerySpec_deserialize variant content
    | _ => Err JsonData
    end.
Proof.
  unfold QuerySpec_deserialize at 1. cbn [de_query].
  destruct j as [| | | | | |[|[variant content] [|]]]; try done.
  apply (de_variant_same _ _ (json_depth content)); [|done].
  intros j Hj. pose proof (json_depth_nonneg j). unfold QuerySpec_deserialize.
  pose proof (json_depth_entry [(variant, content)] (variant, content) ltac:(set_solver)) as Hd. cbn [snd] in Hd.
  apply de_query_fuel; lia.
Qed.

(** ** The machine types *)
Inductive query_ok (float_ok : f32 -> Prop) : QuerySpec -> Prop :=
| ok_match column terms operator boost fuzziness max_expansions prefix_length :
    float_ok boost → (∀ f, fuzziness = Some f → 0 ≤ f ≤ u8_max) →
    0 ≤ max_expansions ≤ usize_max → 0 ≤ prefix_length ≤ u32_max →
    query_ok float_ok (Match column terms operator boost fuzziness max_expansions prefix_length)
| ok_multi_match terms columns boosts operator fuzziness max_expansions prefix_length :
    Forall float_ok boosts → (∀ f, fuzziness = Some f → 0 ≤ f ≤ u8_max) →
    0 ≤ max_expansions ≤ usize_max → 0 ≤ prefix_length ≤ u32_max →
    query_ok float_ok (MultiMatch terms columns boosts operator fuzziness max_expansions prefix_length)
| ok_match_phrase column terms slop :
    0 ≤ slop ≤ u32_max → query_ok float_ok (MatchPhrase column terms slop)
| ok_boolean should must must_not queries :
    Forall (query_ok float_ok) should → Forall (query_ok float_ok) must →
    Forall (query_ok float_ok) must_not → Forall (query_ok float_ok ∘ snd) queries →
    query_ok float_ok (Boolean should must must_not queries)
| ok_boost positive negative negative_boost :
    query_ok float_ok positive → query_ok float_ok negative → float_ok negative_boost →
    query_ok float_ok (Boost positive negative negative_boost).

(** Inversion of the decoders of slots. *)
Lemma with_default_Ok {A} (d : A) de v a (Q : A -> Prop) :
  with_default d de v = Ok a → Q d → (∀ j b, v = Some j → de j = Ok b → Q b) → Q a.
Proof. destruct v; cbn; [eauto|]. by intros [= <-]. Qed.

Lemma de_vec_Forall {A} (de : json -> result JsonError A) (Q : A -> Prop) j l :
  de_vec de j = Ok l → (∀ x b, json_depth x < json_depth j → de x = Ok b → Q b) → Forall Q l.
Proof.
  destruct j as [| | | | |js|]; try done. cbn [de_vec]. intros Hl%result_mapM_Ok Hq.
  assert (∀ x b, x ∈ js → de x = Ok b → Q b) as Hin.
  { intros x b Hx. apply Hq. by apply json_depth_elem. }
  clear Hq. induction Hl as [|x b js l Hb _ IH]; constructor.
  - eapply Hin; [|done]. left.
  - apply IH. intros y c Hy. apply Hin. by right.
Qed.

Lemma deserialize_fuzziness_range j f z :
  deserialize_fuzziness j = Ok f → f = Some z → 0 ≤ z ≤ u8_max.
Proof.
  intros Hf ->. destruct j as [| |n| |s| |]; cbn in Hf; try done; [|by case_match].
  unfold try_from_unsigned in Hf. destruct (Z.leb_spec 0 n), (Z.leb_spec n u8_max); cbn in Hf; try done.
  by injection Hf as <-.
Qed.

Lemma default_unsigned_range max d v z :
  0 ≤ d ≤ max → with_default d (de_unsigned max) v = Ok z → 0 ≤ z ≤ max.
Proof. intros Hd Hz. apply (with_default_Ok _ _ _ _ (λ z, 0 ≤ z ≤ max) Hz); [done|]. by intros j b _ [_ ?]%de_unsigned_Ok. Qed.

Lemma default_fuzziness_range v f z :
  with_default default_fuzziness deserialize_fuzziness v = Ok f → f = Some z → 0 ≤ z ≤ u8_max.
Proof.
  intros Hf. eapply (with_default_Ok _ _ _ _ (λ f, f = Some z → 0 ≤ z ≤ u8_max) Hf).
  - by intros [= <-].
  - intros j b _ Hb. by eapply deserialize_fuzziness_range.
Qed.

Lemma usize_max_50 : 0 ≤ default_max_expansions ≤ usize_max.
Proof. unfold default_max_expansions, usize_max. destruct pointer_bits_ok as [-> | ->]; lia. Qed.

Ltac open_slots :=
  repeat match goal with
  | H : mbind _ _ = Ok _ |- _ => apply bind_Ok in H as (? & ? & ?)
  | H : Ok _ = Ok _ |- _ => injection H as H; subst
  end.

Lemma de_variant_ranges (de : json -> result JsonError QuerySpec) variant content q :
  (∀ j q, json_depth j < json_depth content → de j = Ok q → query_ok (λ _, True) q) →
  de_variant de variant content = Ok q → query_ok (λ _, True) q.
Proof.
  intros Hde. unfold de_variant. repeat case_match; try done.
  - unfold de_match. intros Hq. apply bind_Ok in Hq as (slots & _ & Hq). repeat case_match; try done.
    open_slots. constructor; eauto using default_unsigned_range, default_fuzziness_range, usize_max_50.
    eapply default_unsigned_range; [|done]. unfold u32_max. lia.
  - unfold de_multi_match. intros Hq. apply bind_Ok in Hq as (slots & _ & Hq). repeat case_match; try done.
    open_slots. constructor; eauto using default_unsigned_range, default_fuzziness_range, usize_max_50.
    + by apply Forall_true.
    + eapply default_unsigned_range; [|done]. unfold u32_max. lia.
  - unfold de_match_phrase. intros Hq. apply bind_Ok in Hq as (slots & _ & Hq). repeat case_match; try done.
    open_slots. constructor. eapply default_unsigned_range; [|done]. unfold u32_max. lia.
  - unfold de_boolean. intros Hq. apply bind_Ok in Hq as (slots & Hs%struct_fields_below & Hq).
    repeat case_match; try done.
    repeat match goal with Hx : Forall _ (_ :: _) |- _ => inversion Hx; clear Hx; subst end.
    open_slots.
    assert (∀ v l, with_default [] (de_vec de) v = Ok l → slot_below (json_depth content) v →
      Forall (query_ok (λ _, True)) l) as Hv.
    { intros v l Hl Hb. apply (with_default_Ok _ _ _ _ _ Hl); [constructor|]. intros j b -> Hj.
      eapply de_vec_Forall; [done|]. intros item child Hitem. apply Hde. cbn in Hb. lia. }
    constructor; eauto.
    match goal with Hq : with_default [] (de_vec (de_pair _ _)) ?v = Ok _ |- _ =>
      apply (with_default_Ok _ _ _ _ _ Hq); [constructor|]; intros j b -> Hj end.
    eapply de_vec_Forall; [done|]. intros pair [occur child] Hp Hpair.
    destruct pair as [| | | | |[|j1 [|j2 [|]]]|]; try done. cbn in Hpair. open_slots.
    cbn. eapply Hde; [|done].
    pose proof (json_depth_elem [j1; j2] j2 ltac:(set_solver)). cbn [slot_below] in *. lia.
  - unfold de_boost. intros Hq. apply bind_Ok in Hq as (slots & Hs%struct_fields_below & Hq).
    repeat case_match; try done.
    repeat match goal with Hx : Forall _ (_ :: _) |- _ => inversion Hx; clear Hx; subst end.
    open_slots.
    assert (∀ v q, required de v = Ok q → slot_below (json_depth content) v → query_ok (λ _, True) q) as Hv.
    { intros [j|] q Hj Hb; [|done]. by eapply Hde. }
    constructor; eauto.
Qed.

(** Every query that decodes is within its machine types: [fuzziness] is
    automatic or a byte, [max_expansions] a [usize], [prefix_length] and
    [slop] are 32-bit, in every nested query. *)
Lemma deserialized_ranges j q :
  QuerySpec_deserialize j = Ok q → query_ok (λ _, True) q.
Proof.
  unfold QuerySpec_deserialize. generalize (S (Z.to_nat (json_depth j))) as n.
  intros n. revert j q. induction n as [|n IH]; intros j q; cbn [de_query]; [done|].
  destruct j as [| | | | | |[|[variant content] [|]]]; try done.
  apply de_variant_ranges. intros j' q' _. apply IH.
Qed.

(** ** Aliases *)
Definition rename_keys (r : str -> str) (kvs : list (str * json)) : list (str * json) :=
  (λ kv : str * json, (r kv.1, kv.2)) <$> kvs.

Lemma field_value_rename r names kvs :
  (∀ k, r k ∈ names ↔ k ∈ names) → field_value names (rename_keys r kvs) = field_value names kvs.
Proof.
  intros Hr. unfold field_value.
  assert (filter (λ kv : str * json, kv.1 ∈ names) (rename_keys r kvs)
    = rename_keys r (filter (λ kv : str * json, kv.1 ∈ names) kvs)) as ->.
  { induction kvs as [|[k v] kvs IH]; [done|].
    change (rename_keys r ((k, v) :: kvs)) with ((r k, v) :: rename_keys r kvs).
    rewrite !filter_cons. cbn [fst]. rewrite IH. specialize (Hr k).
    destruct (decide (k ∈ names)) as [Hk|Hk]; destruct (decide (r k ∈ names)) as [Hk'|Hk']; try done;
      naive_solver. }
  by destruct (filter _ kvs) as [|[k v] [|]].
Qed.

Lemma struct_fields_rename r fields kvs :
  Forall (λ names, ∀ k, r k ∈ names ↔ k ∈ names) fields →
  struct_fields fields (JObject (rename_keys r kvs)) = struct_fields fields (JObject kvs).
Proof.
  intros Hf. cbn. apply result_mapM_ext. intros names Hn. apply field_value_rename.
  rewrite Forall_forall in Hf. by apply Hf.
Qed.

(** Replace the keys on the left by those on the right. *)
Fixpoint substitute (aliases : list (str * str)) (k : str) : str :=
  match aliases with
  | [] => k
  | (a, c) :: rest => if bool_decide (k = a) then c else substitute rest k
  end.
Definition variant_aliases : list (str * str) := [(lit "phrase", lit "match_phrase")].
Definition field_aliases (variant : str) : list (str * str) :=
  [(lit "query", lit "terms"); (lit "maxExpansions", lit "max_expansions");
   (lit "prefixLength", lit "prefix_length")]
  ++ if bool_decide (variant = lit "multi_match") then [(lit "boost", lit "boosts")] else [].

(** A substitution that maps a name of a field to a name of the same field and
    no other key to one. *)
Definition respects (aliases : list (str * str)) (names : list str) : bool :=
  forallb (λ ac : str * str, eqb (bool_decide (ac.1 ∈ names)) (bool_decide (ac.2 ∈ names))) aliases.

Lemma respects_spec aliases names :
  respects aliases names = true → ∀ k, substitute aliases k ∈ names ↔ k ∈ names.
Proof.
  intros Hr k. induction aliases as [|[a c] aliases IH]; cbn in *; [done|].
  apply andb_true_iff in Hr as [Hac Hr]. apply eqb_prop in Hac.
  destruct (decide (k = a)) as [->|Hk].
  2: { rewrite bool_decide_false by done. by apply IH. }
  rewrite bool_decide_true by done.
  by rewrite <- (bool_decide_eq_true (c ∈ names)), <- (bool_decide_eq_true (a ∈ names)), Hac.
Qed.

Lemma struct_fields_aliases aliases fields kvs :
  forallb (respects aliases) fields = true →
  struct_fields fields (JObject (rename_keys (substitute aliases) kvs)) = struct_fields fields (JObject kvs).
Proof.
  intros Hf. apply struct_fields_rename, Forall_forall. intros names Hn. apply respects_spec.
  rewrite forallb_forall in Hf. apply Hf. by apply list_elem_of_In.
Qed.

(** The aliases [query], [maxExpansions], [prefixLength], [boost] (of
    [multi_match]) and [phrase] mean what the names they stand for mean, also
    when both are given: replacing them never changes the result. *)
Theorem aliases_equivalent variant kvs :
  QuerySpec_deserialize
    (JObject [(substitute variant_aliases variant,
               JObject (rename_keys (substitute (field_aliases variant)) kvs))])
  = QuerySpec_deserialize (JObject [(variant, JObject kvs)]).
Proof.
  rewrite !deserialize_equation. destruct (decide (variant = lit "phrase")) as [->|Hp].
  { change (de_match_phrase (JObject (rename_keys (substitute (field_aliases (lit "phrase"))) kvs))
      = de_match_phrase (JObject kvs)).
    unfold de_match_phrase. by rewrite struct_fields_aliases by (vm_compute; reflexivity). }
  assert (substitute variant_aliases variant = variant) as ->.
  { cbn. by rewrite bool_decide_false. }
  destruct (decide (variant = lit "multi_match")) as [->|Hm].
  { change (de_multi_match (JObject (rename_keys (substitute (field_aliases (lit "multi_match"))) kvs))
      = de_multi_match (JObject kvs)).
    unfold de_multi_match. by rewrite struct_fields_aliases by (vm_compute; reflexivity). }
  unfold de_variant, field_aliases. rewrite (bool_decide_false _ Hm), app_nil_r.
  assert (str_eqb variant (lit "multi_match") = false) as ->.
  { unfold str_eqb. by rewrite bool_decide_false. }
  unfold de_match, de_match_phrase, de_boolean, de_boost.
  by rewrite !struct_fields_aliases by (vm_compute; reflexivity).
Qed.

(** ** The round trip *)
Lemma match_slots v0 v1 v2 v3 v4 v5 v6 :
  struct_fields match_fields (JObject [(lit "column", v0); (lit "terms", v1); (lit "operator", v2);
    (lit "boost", v3); (lit "fuzziness", v4); (lit "max_expansions", v5); (lit "prefix_length", v6)])
  = Ok [Some v0; Some v1; Some v2; Some v3; Some v4; Some v5; Some v6].
Proof. vm_compute. reflexivity. Qed.
Lemma multi_match_slots v0 v1 v2 v3 v4 v5 v6 :
  struct_fields multi_match_fields (JObject [(lit "terms", v0); (lit "columns", v1); (lit "boosts", v2);
    (lit "operator", v3); (lit "fuzziness", v4); (lit "max_expansions", v5); (lit "prefix_length", v6)])
  = Ok [Some v0; Some v1; Some v2; Some v3; Some v4; Some v5; Some v6].
Proof. vm_compute. reflexivity. Qed.
Lemma match_phrase_slots v0 v1 v2 :
  struct_fields match_phrase_fields (JObject [(lit "column", v0); (lit "terms", v1); (lit "slop", v2)])
  = Ok [Some v0; Some v1; Some v2].
Proof. vm_compute. reflexivity. Qed.
Lemma boolean_slots v0 v1 v2 v3 :
  struct_fields boolean_fields (JObject [(lit "should", v0); (lit "must", v1); (lit "must_not", v2);
    (lit "queries", v3)])
  = Ok [Some v0; Some v1; Some v2; Some v3].
Proof. vm_compute. reflexivity. Qed.
Lemma boost_slots v0 v1 v2 :
  struct_fields boost_fields (JObject [(lit "positive", v0); (lit "negative", v1); (lit "negative_boost", v2)])
  = Ok [Some v0; Some v1; Some v2].
Proof. vm_compute. reflexivity. Qed.

Lemma de_operator o : MatchOperator_from_json (MatchOperator_to_json o) = Ok o.
Proof. destruct o; vm_compute; reflexivity. Qed.
Lemma de_occur o : BooleanOccur_from_json (BooleanOccur_to_json o) = Ok o.
Proof. destruct o; vm_compute; reflexivity. Qed.
Lemma de_f32_storable x : f32_storable x = true → de_f32 (f32_to_json x) = Ok x.
Proof.
  intros Hx. pose proof (f64_as_f32_storable x Hx) as Hc.
  unfold f32_storable in Hx. apply andb_true_iff in Hx as [Hf _]. unfold f32_to_json. rewrite Hf. cbn.
  by rewrite Hc.
Qed.
Lemma de_fuzziness f :
  (∀ z, f = Some z → 0 ≤ z ≤ u8_max) → deserialize_fuzziness (option_to_json JInt f) = Ok f.
Proof.
  destruct f as [z|]; [|done]. intros Hz. specialize (Hz z eq_refl). cbn. unfold try_from_unsigned.
  by destruct (Z.leb_spec 0 z), (Z.leb_spec z u8_max); try lia.
Qed.
Lemma de_column c : de_option de_string (option_to_json JString c) = Ok c.
Proof. by destruct c. Qed.

Notation storable := (query_ok (λ x, f32_storable x = true)).

Lemma de_queries_vec qs :
  Forall (λ q, storable q → QuerySpec_deserialize (QuerySpec_to_json q) = Ok q) qs →
  Forall storable qs →
  de_vec QuerySpec_deserialize (JArray (QuerySpec_to_json <$> qs)) = Ok qs.
Proof.
  intros Hd Ho. apply de_vec_fmap. rewrite Forall_forall in *. intros q Hq. by apply Hd, Ho.
Qed.

(** C21: every query of finite floats reads back from the JSON written for it,
    with all its nested queries. *)
Theorem query_json_roundtrip q :
  storable q → QuerySpec_deserialize (QuerySpec_to_json q) = Ok q.
Proof.
  induction q as [c t o b f m p|t c b o f m p|c t s|s m n qs IHs IHm IHn IHq|p n b IHp IHn]
    using QuerySpec_nested_ind; intros Hok; inversion Hok; subst; rewrite deserialize_equation;
    cbn [QuerySpec_to_json].
  - change (de_match (JObject [(lit "column", option_to_json JString c); (lit "terms", JString t);
      (lit "operator", MatchOperator_to_json o); (lit "boost", f32_to_json b);
      (lit "fuzziness", option_to_json JInt f); (lit "max_expansions", JInt m);
      (lit "prefix_length", JInt p)]) = Ok (Match c t o b f m p)).
    unfold de_match. rewrite match_slots. cbn [mbind result_bind with_default required de_string].
    by rewrite de_column, de_operator, de_f32_storable, de_fuzziness, !de_unsigned_JInt by done.
  - change (de_multi_match (JObject [(lit "terms", JString t); (lit "columns", JArray (JString <$> c));
      (lit "boosts", JArray (f32_to_json <$> b)); (lit "operator", MatchOperator_to_json o);
      (lit "fuzziness", option_to_json JInt f); (lit "max_expansions", JInt m);
      (lit "prefix_length", JInt p)]) = Ok (MultiMatch t c b o f m p)).
    unfold de_multi_match. rewrite multi_match_slots. cbn [mbind result_bind with_default required de_string].
    rewrite !de_vec_fmap; [|by apply Forall_true|eapply Forall_impl; [done|]; apply de_f32_storable].
    cbn [mbind result_bind]. by rewrite de_operator, de_fuzziness, !de_unsigned_JInt by done.
  - change (de_match_phrase (JObject [(lit "column", option_to_json JString c); (lit "terms", JString t);
      (lit "slop", JInt s)]) = Ok (MatchPhrase c t s)).
    unfold de_match_phrase. rewrite match_phrase_slots. cbn [mbind result_bind with_default required de_string].
    by rewrite de_column, de_unsigned_JInt by done.
  - match goal with |- de_variant _ _ ?content = _ =>
      change (de_boolean QuerySpec_deserialize content = Ok (Boolean s m n qs)) end.
    unfold de_boolean. rewrite boolean_slots. cbn [mbind result_bind with_default].
    rewrite !de_queries_vec by done. cbn [mbind result_bind].
    assert (Forall (storable ∘ snd) qs) as Hqs by done.
    rewrite de_vec_fmap; [done|]. rewrite Forall_forall in *. intros [oc q] Hq.
    unfold de_pair. rewrite de_occur. cbn [mbind result_bind]. by rewrite (IHq _ Hq) by (by apply (Hqs (oc, q))).
  - match goal with |- de_variant _ _ ?content = _ =>
      change (de_boost QuerySpec_deserialize content = Ok (Boost p n b)) end.
    unfold de_boost. rewrite boost_slots. cbn [mbind result_bind with_default required].
    by rewrite IHp, IHn, de_f32_storable by done.
Qed.
End Decode.

#[local] Existing Instance platform64.

Definition sample_match : QuerySpec :=
  Match (Some (lit "title")) (lit "lake format") And f32_half None 50 1.
Definition sample_query : QuerySpec :=
  Boolean [sample_match] [] [] [(MustNot, Boost (MatchPhrase None (lit "x") 2) sample_match f32_half)].

Lemma query_json_roundtrip_witness :
  QuerySpec_deserialize (QuerySpec_to_json sample_query) = Ok sample_query.
Proof.
  assert (query_ok (λ x, f32_storable x = true) sample_match).
  { constructor; vm_compute; try done; intuition discriminate. }
  apply query_json_roundtrip. repeat constructor; cbn; try done. 
Defined.

