(* ===== verification/Analyzer.v ===== *)
(** * Schema and text analyzer ([core/src/index.rs])

    The schema an index is created with and the text analyzer its fields are
    tokenized with.  Tokenizers and filters of the engine are constructors
    with their parameters, in the order of application; which n-gram sizes
    and which stop-word languages the engine knows are parameters. *)

From S2P Require Import Prelude RustStd Error Tokenizer Config.

(** ** Languages *)
Inductive Language : Type :=
| Arabic | Danish | Dutch | English | Finnish | French | German | Greek | Hungarian | Italian
| Norwegian | Portuguese | Romanian | Russian | Spanish | Swedish | Tamil | Turkish.
#[export] Instance Language_eq_dec : EqDecision Language.
Proof. solve_decision. Defined.

Definition language_names : list (str * Language) := [
  (lit "arabic", Arabic); (lit "danish", Danish); (lit "dutch", Dutch);
  (lit "english", English); (lit "en", English); (lit "finnish", Finnish);
  (lit "french", French); (lit "fr", French); (lit "german", German); (lit "de", German);
  (lit "greek", Greek); (lit "hungarian", Hungarian); (lit "italian", Italian); (lit "it", Italian);
  (lit "norwegian", Norwegian); (lit "portuguese", Portuguese); (lit "pt", Portuguese);
  (lit "romanian", Romanian); (lit "russian", Russian); (lit "ru", Russian);
  (lit "spanish", Spanish); (lit "es", Spanish); (lit "swedish", Swedish); (lit "tamil", Tamil);
  (lit "turkish", Turkish)].

Fixpoint match_arm {A} (arms : list (str * A)) (s : str) : option A :=
  match arms with
  | [] => None
  | (pattern, a) :: arms' => if str_eqb s pattern then Some a else match_arm arms' s
  end.

Definition parse_language `{Unicode} (language : str) : Result Language :=
  let other := str_to_lowercase (trim language) in
  match match_arm language_names other with
  | Some l => Ok l
  | None => Err (InvalidOption (lit "language")
                   [Txt "unsupported tokenizer language '"; Str other; Txt "'"])
  end.

(** ** The analyzer *)
Inductive BaseTokenizer : Type :=
| SimpleTokenizer
| WhitespaceTokenizer
| RawTokenizer
| NgramTokenizer (min_gram max_gram : Z) (prefix_only : bool)
| JiebaTokenizer (search_mode ordinal_position : bool)
| IcuTokenizer (split_on_non_alphanumeric : bool).

Inductive TokenFilter : Type :=
| RemoveLongFilter (limit : Z)
| LowerCaser
| Stemmer (l : Language)
| StopWordFilter_new (l : Language)
| StopWordFilter_remove (words : list str)
| AsciiFoldingFilter.

Record TextAnalyzer : Type := text_analyzer { base_tokenizer : BaseTokenizer; filters : list TokenFilter }.
#[export] Instance BaseTokenizer_eq_dec : EqDecision BaseTokenizer.
Proof. solve_decision. Defined.
#[export] Instance TokenFilter_eq_dec : EqDecision TokenFilter.
Proof. solve_decision. Defined.
#[export] Instance TextAnalyzer_eq_dec : EqDecision TextAnalyzer.
Proof. solve_decision. Defined.

(** The engine: [NgramTokenizer::new] and whether [StopWordFilter::new] knows
    the stop words of a language. *)
Class AnalysisEngine := {
  ngram_new : Z -> Z -> result message unit;
  has_stop_words : Language -> bool
}.
(** Its documentation: n-gram sizes are positive and ordered. *)
Class NgramLaw `{AnalysisEngine} : Prop :=
  ngram_new_ok min max : 0 < min ≤ max → ngram_new min max = Ok tt.

(** An index of the engine holds analyzers by name. *)
Class TokenizerRegistry (Ix : Type) : Type := {
  register : string -> TextAnalyzer -> Ix -> Ix;
  registered : Ix -> string -> option TextAnalyzer
}.
Class RegistryLaws (Ix : Type) `{TokenizerRegistry Ix} : Prop :=
  registered_register name a ix name' :
    registered (register name a ix) name' = if decide (name' = name) then Some a else registered ix name'.

Section Analyzer.
Context `{Unicode} `{AnalysisEngine}.

Definition base_of (config : TokenizerConfig) : Result BaseTokenizer :=
  match tokenizer config with
  | Default | Simple => Ok SimpleTokenizer
  | Whitespace => Ok WhitespaceTokenizer
  | Raw => Ok RawTokenizer
  | Ngram =>
      _ ← map_err (InvalidOption (lit "ngram")) (ngram_new (ngram_min_gram config) (ngram_max_gram config));
      Ok (NgramTokenizer (ngram_min_gram config) (ngram_max_gram config) (ngram_prefix_only config))
  | Jieba => Ok (JiebaTokenizer (jieba_search_mode config) (jieba_ordinal_position config))
  | Icu => Ok (IcuTokenizer false)
  | IcuSplit => Ok (IcuTokenizer true)
  end.

(** [builder.filter_dynamic(..)] *)
Definition filter_dynamic (f : TokenFilter) (builder : TextAnalyzer) : TextAnalyzer :=
  text_analyzer (base_tokenizer builder) (filters builder ++ [f]).

Definition build_text_analyzer (config : TokenizerConfig) : Result TextAnalyzer :=
  base ← base_of config;
  let builder := text_analyzer base [] in
  let builder := filter_dynamic (RemoveLongFilter (max_token_length config)) builder in
  let builder := if lower_case config then filter_dynamic LowerCaser builder else builder in
  builder ← (if stem config then
               l ← parse_language (language config); Ok (filter_dynamic (Stemmer l) builder)
             else Ok builder);
  builder ← (if remove_stop_words config then
               l ← parse_language (language config);
               builder ← (if has_stop_words l then Ok (filter_dynamic (StopWordFilter_new l) builder)
                          else if is_empty (stop_words config) then
                            Err (InvalidOption (lit "language")
                                   [Txt "removing stop words for language '"; Str (language config);
                                    Txt "' is not supported"])
                          else Ok builder);
               Ok (if negb (is_empty (stop_words config))
                   then filter_dynamic (StopWordFilter_remove (stop_words config)) builder
                   else builder)
             else Ok builder);
  Ok (if ascii_folding config then filter_dynamic AsciiFoldingFilter builder else builder).

Definition tokenizer_name (config : TokenizerConfig) : string :=
  match tokenizer config with
  | Default | Simple => "paimon_custom"
  | Whitespace => "paimon_custom"
  | Raw => "paimon_custom"
  | Ngram => "paimon_ngram"
  | Jieba => "paimon_jieba"
  | Icu => "paimon_icu"
  | IcuSplit => "paimon_icu_split"
  end.

(** [register_tokenizer], with the engine's [index.tokenizers().register]. *)
Definition register_tokenizer `{TokenizerRegistry Ix} (config : TokenizerConfig) (index : Ix) : Result Ix :=
  analyzer ← build_text_analyzer config;
  Ok (register (tokenizer_name config) analyzer index).
End Analyzer.

(** ** The schema *)
Inductive IndexRecordOption : Type := Basic | WithFreqs | WithFreqsAndPositions.
Inductive FieldType : Type :=
| U64Field (fast stored indexed : bool)
| TextField (tokenizer : string) (index_option : IndexRecordOption).
#[export] Instance IndexRecordOption_eq_dec : EqDecision IndexRecordOption.
Proof. solve_decision. Defined.
#[export] Instance FieldType_eq_dec : EqDecision FieldType.
Proof. solve_decision. Defined.

(** The engine's schema builder and schema; [None] of [add_field] is a panic. *)
Class SchemaEngine (Schema : Type) : Type := {
  SchemaBuilder : Type;
  schema_builder : SchemaBuilder;
  add_field : str -> FieldType -> SchemaBuilder -> option SchemaBuilder;
  schema_build : SchemaBuilder -> Schema;
  get_field : Schema -> str -> option Z
}.
(** Its documentation: a builder takes fields of different names, and the
    schema gives each its own number. *)
Class SchemaLaws (Schema : Type) `{SchemaEngine Schema} : Type := {
  added : SchemaBuilder -> list (str * FieldType);
  added_builder : added schema_builder = [];
  added_field name type b : name ∉ (added b).*1 →
    ∃ b', add_field name type b = Some b' ∧ added b' = added b ++ [(name, type)];
  get_field_added b name :
    is_Some (get_field (schema_build b) name) ↔ name ∈ (added b).*1;
  get_field_inj b name name' f :
    get_field (schema_build b) name = Some f → get_field (schema_build b) name' = Some f → name = name'
}.

Section Schema.
Context {Schema : Type} `{SchemaEngine Schema}.

Fixpoint add_text_fields (fields : list str) (type : FieldType) (builder : SchemaBuilder) :
    option SchemaBuilder :=
  match fields with
  | [] => Some builder
  | field :: fields' => b ← add_field field type builder; add_text_fields fields' type b
  end.

Definition build_schema (config : FullTextIndexConfig) : option Schema :=
  builder ← add_field (row_id_field config) (U64Field true true true) schema_builder;
  let index_option :=
    if with_position (tokenizer_config_of config) then WithFreqsAndPositions else WithFreqs in
  let type := TextField (tokenizer_name (tokenizer_config_of config)) index_option in
  builder ← add_text_fields (indexed_text_fields config) type builder;
  Some (schema_build builder).

(** [text_field_map] *)
Fixpoint insert_text_fields (schema : Schema) (names : list str) (fields : gmap str Z) :
    Result (gmap str Z) :=
  match names with
  | [] => Ok fields
  | name :: names' =>
      field ← ok_or (get_field schema name)
                (InvalidStorage [Txt "missing text field '"; Str name; Txt "'"]);
      insert_text_fields schema names' (<[name := field]> fields)
  end.
Definition text_field_map (schema : Schema) (config : FullTextIndexConfig) : Result (gmap str Z) :=
  insert_text_fields schema (indexed_text_fields config) ∅.
End Schema.

Definition validate_indexed_field (config : FullTextIndexConfig) (field : str) : Result unit :=
  if is_empty (trim field) then invalid_storage "document field name must not be empty"
  else if bool_decide (field ∈ indexed_text_fields config) then Ok tt
  else Err (InvalidStorage [Txt "document field '"; Str field; Txt "' is not configured for this index"]).

(** ** Errors *)
Definition is_option_error (e : FtIndexError) : Prop := ∃ key msg, e = InvalidOption key msg.
Lemma option_error key msg : is_option_error (InvalidOption key msg).
Proof. by exists key, msg. Qed.

Section AnalyzerErrors.
Context `{Unicode} `{AnalysisEngine}.

Lemma parse_language_errors l : errors_are is_option_error (parse_language l).
Proof. unfold parse_language. destruct (match_arm _ _); [apply errors_ok|apply errors_err, option_error]. Qed.

Lemma build_text_analyzer_errors c : errors_are is_option_error (build_text_analyzer c).
Proof.
  unfold build_text_analyzer. apply errors_bind.
  { unfold base_of. destruct (tokenizer c); try apply errors_ok.
    apply errors_bind; [apply errors_map_err; intros; apply option_error|]. intros; apply errors_ok. }
  intros base _. apply errors_bind.
  { destruct (stem c); [|apply errors_ok].
    apply errors_bind; [apply parse_language_errors|]. intros; apply errors_ok. }
  intros b1 _. apply errors_bind; [|intros; apply errors_ok].
  destruct (remove_stop_words c); [|apply errors_ok].
  apply errors_bind; [apply parse_language_errors|]. intros l _.
  apply errors_bind; [|intros; apply errors_ok].
  destruct (has_stop_words l); [apply errors_ok|].
  destruct (is_empty (stop_words c)); [apply errors_err, option_error|apply errors_ok].
Qed.
End AnalyzerErrors.
