(* ===== verification/BuildQuery.v ===== *)
(** * Building the engine's query ([core/src/index.rs])

    From a [QuerySpec] to the query the engine runs: validation of the
    options, resolution of the columns, analysis of the terms.  The engine's
    query objects are constructors; its query parser, its schema and its
    tokenizers are the operations of an [Index]. *)

From stdpp Require Import pretty.
From S2P Require Import Prelude RustStd Error Tokenizer Config Query Analyzer Scorers.

#[local] Open Scope Z_scope.

Inductive Occur : Type := OccurShould | OccurMust | OccurMustNot.
#[export] Instance Occur_eq_dec : EqDecision Occur.
Proof. solve_decision. Defined.

(** The queries the crate puts together; [Parsed] are those the engine's
    query parser returns. *)
Inductive EngineQuery (Parsed : Type) : Type :=
| EmptyQuery
| TermQuery (field : Z) (text : str) (option : IndexRecordOption)
| BooleanQuery (clauses : list (Occur * EngineQuery Parsed))
| BoostQuery (query : EngineQuery Parsed) (boost : f32)
| ParsedQuery (query : Parsed)
| Demote (positive negative : EngineQuery Parsed) (negative_boost : f32)
| CappedFuzzyTerm (field : Z) (text : str) (distance : Z) (prefix : str) (max_expansions : Z).
Arguments EmptyQuery {Parsed}.
Arguments TermQuery {Parsed} field text option.
Arguments BooleanQuery {Parsed} clauses.
Arguments BoostQuery {Parsed} query boost.
Arguments ParsedQuery {Parsed} query.
Arguments Demote {Parsed} positive negative negative_boost.
Arguments CappedFuzzyTerm {Parsed} field text distance prefix max_expansions.

(** The engine's index: its schema, its registered tokenizers (the texts of
    the tokens they yield) and its query parser over some fields. *)
Record Index (Parsed : Type) : Type := engine_index {
  schema_get_field : str -> option Z;
  tokenizers_get : string -> option (str -> list str);
  parse_query : list Z -> str -> result message Parsed
}.
Arguments schema_get_field {Parsed} i field : rename.
Arguments tokenizers_get {Parsed} i name : rename.
Arguments parse_query {Parsed} i fields text : rename.

(** ** Validation *)
Definition validate_match_options (fuzziness : option Z) (max_expansions prefix_length : Z) : Result unit :=
  if 2 <? default 0 fuzziness then
    invalid_query "match query fuzziness must be auto/null or a value in [0, 2]"
  else if max_expansions =? 0 then invalid_query "match query max_expansions must be positive"
  else Ok tt.

Definition validate_boost (boost : f32) : Result unit :=
  if negb (f32_is_finite boost) || f32_le boost f32_zero then
    Err (InvalidQuery [Txt "boost must be a finite positive value, got "; Flt boost])
  else Ok tt.

Definition validate_multi_match_options (columns : list str) (boosts : list f32) (fuzziness : option Z)
    (max_expansions prefix_length : Z) : Result unit :=
  if is_empty columns then invalid_query "multi_match query must contain at least one column"
  else if negb (is_empty boosts) && negb (blen boosts =? blen columns) then
    Err (InvalidQuery [Txt "multi_match boosts length "; Int (blen boosts);
                       Txt " does not match columns length "; Int (blen columns)])
  else
    _ ← result_forM validate_boost boosts;
    validate_match_options fuzziness max_expansions prefix_length.

Definition validate_negative_boost (negative_boost : f32) : Result unit :=
  if negb (f32_is_finite negative_boost)
     || negb (f32_le f32_zero negative_boost && f32_le negative_boost f32_one) then
    Err (InvalidQuery [Txt "negative_boost must be a finite value in [0.0, 1.0], got "; Flt negative_boost])
  else Ok tt.

(** ** Phrases *)
Definition BACKSLASH : char := 92.
Definition QUOTE : char := 34.
Definition escape (terms : str) : str :=
  replace_char QUOTE [BACKSLASH; QUOTE] (replace_char BACKSLASH [BACKSLASH; BACKSLASH] terms).

(** [Display] of an unsigned integer. *)
Definition display_unsigned (n : Z) : str := lit (pretty (Z.to_N n)).

Section Build.
Context `{Unicode} {Parsed : Type} (index : Index Parsed).
Context (config : FullTextIndexConfig).

Definition phrase_text (terms : str) (slop : Z) : str :=
  let escaped := escape terms in
  if slop =? 0 then [QUOTE] ++ escaped ++ [QUOTE]
  else [QUOTE] ++ escaped ++ [QUOTE; 126] ++ display_unsigned slop.

(** ** Columns *)
(** [column.map(str::trim).filter(|column| !column.is_empty())] *)
Definition named_column (column : option str) : option str :=
  match column with
  | Some column => if is_empty (trim column) then None else Some (trim column)
  | None => None
  end.

Definition resolve_text_field (column : option str) : Result Z :=
  column ←
    (match named_column column with
     | Some column => Ok column
     | None =>
         match indexed_text_fields config with
         | [field] => Ok field
         | _ => invalid_query "full-text query column must be set for multi-field indexes"
         end
     end);
  if negb (bool_decide (column ∈ indexed_text_fields config)) then
    Err (InvalidQuery [Txt "full-text query column '"; Str column; Txt "' is not configured for this index"])
  else
    ok_or (schema_get_field index column) (InvalidQuery [Txt "missing text field '"; Str column; Txt "'"]).

Definition resolve_match_fields (column : option str) : Result (list Z) :=
  match named_column column with
  | Some _ => field ← resolve_text_field column; Ok [field]
  | None => result_mapM (λ field, resolve_text_field (Some field)) (indexed_text_fields config)
  end.

(** ** Terms *)
Definition analyze_terms (terms : str) : Result (list str) :=
  let name := tokenizer_name (tokenizer_config_of config) in
  analyzer ← ok_or (tokenizers_get index name)
               (InvalidQuery [Txt "tokenizer '"; Str (lit name); Txt "' is not registered"]);
  Ok (analyzer terms).

Definition build_token_query (field : Z) (token : str) (fuzziness : option Z)
    (max_expansions prefix_length : Z) : Result (EngineQuery Parsed) :=
  let fuzziness := default (auto_fuzziness token) fuzziness in
  if fuzziness =? 0 then Ok (TermQuery field token WithFreqs)
  else if 2 <? fuzziness then
    invalid_query "match query fuzziness must be auto/null or a value in [0, 2]"
  else
    let prefix := take (Z.to_nat prefix_length) token in
    Ok (CappedFuzzyTerm field token fuzziness prefix max_expansions).

Record FieldMatchOptions : Type := field_match_options {
  fm_operator : MatchOperator;
  fm_boost : f32;
  fm_fuzziness : option Z;
  fm_max_expansions : Z;
  fm_prefix_length : Z
}.

Definition build_field_match_query (field : Z) (terms : str) (options : FieldMatchOptions) :
    Result (EngineQuery Parsed) :=
  let token_query token :=
    build_token_query field token (fm_fuzziness options) (fm_max_expansions options)
      (fm_prefix_length options) in
  _ ← validate_boost (fm_boost options);
  tokens ← analyze_terms terms;
  query ←
    (match tokens with
     | [] => Ok EmptyQuery
     | [token] => token_query token
     | _ =>
         let occur := match fm_operator options with Or => OccurShould | And => OccurMust end in
         children ← result_mapM (λ token, q ← token_query token; Ok (occur, q)) tokens;
         Ok (BooleanQuery children)
     end);
  Ok (if f32_lt f32_epsilon (f32_abs (f32_sub (fm_boost options) f32_one))
      then BoostQuery query (fm_boost options) else query).

(** [BooleanOccur] as the engine's [Occur]. *)
Definition occur_of (occur : BooleanOccur) : Occur :=
  match occur with Should => OccurShould | Must => OccurMust | MustNot => OccurMustNot end.
Definition is_positive (occur : BooleanOccur) : bool :=
  match occur with Should | Must => true | MustNot => false end.

(** The columns of a multi-match query with their boosts: [boosts.get(idx)],
    or 1. *)
Fixpoint column_boosts (columns : list str) (boosts : list f32) : list (str * f32) :=
  match columns with
  | [] => []
  | column :: columns' => (column, default f32_one (head boosts)) :: column_boosts columns' (tail boosts)
  end.

Fixpoint build_query (query : QuerySpec) : Result (EngineQuery Parsed) :=
  match query with
  | Match column terms operator boost fuzziness max_expansions prefix_length =>
      _ ← validate_match_options fuzziness max_expansions prefix_length;
      fields ← resolve_match_fields column;
      let options := field_match_options operator boost fuzziness max_expansions prefix_length in
      children ← result_mapM
        (λ field, q ← build_field_match_query field terms options; Ok (OccurShould, q)) fields;
      match children with
      | [(_, child)] => Ok child
      | _ => Ok (BooleanQuery children)
      end
  | MultiMatch terms columns boosts operator fuzziness max_expansions prefix_length =>
      _ ← validate_multi_match_options columns boosts fuzziness max_expansions prefix_length;
      children ← result_mapM (λ '(column, boost),
        field ← resolve_text_field (Some column);
        let options := field_match_options operator boost fuzziness max_expansions prefix_length in
        q ← build_field_match_query field terms options;
        Ok (OccurShould, q)) (column_boosts columns boosts);
      Ok (BooleanQuery children)
  | MatchPhrase column terms slop =>
      if negb (with_position (tokenizer_config_of config)) then
        invalid_query "phrase query requires positions"
      else
        text_field ← resolve_text_field column;
        query ← map_err InvalidQuery (parse_query index [text_field] (phrase_text terms slop));
        Ok (ParsedQuery query)
  | Boolean should must must_not queries =>
      if is_empty should && is_empty must && is_empty must_not && is_empty queries then
        invalid_query "boolean query must contain at least one clause"
      else
        let has_positive_clause :=
          negb (is_empty should) || negb (is_empty must)
          || existsb (λ clause : BooleanOccur * QuerySpec, is_positive clause.1) queries in
        if negb has_positive_clause then
          invalid_query "boolean query must contain at least one should or must clause"
        else
          children1 ← result_mapM (λ child, q ← build_query child; Ok (OccurShould, q)) should;
          children2 ← result_mapM (λ child, q ← build_query child; Ok (OccurMust, q)) must;
          children3 ← result_mapM (λ child, q ← build_query child; Ok (OccurMustNot, q)) must_not;
          children4 ← result_mapM
            (λ '(occur, child), q ← build_query child; Ok (occur_of occur, q)) queries;
          Ok (BooleanQuery (children1 ++ children2 ++ children3 ++ children4))
  | Boost positive negative negative_boost =>
      _ ← validate_negative_boost negative_boost;
      p ← build_query positive;
      n ← build_query negative;
      Ok (Demote p n negative_boost)
  end.
End Build.
