(* ===== verification/BuildQuerySpec.v ===== *)
(** * What the built query means

    The query handed to the engine matches exactly the documents the
    [QuerySpec] describes; building succeeds exactly for the acceptable
    queries and fails with [InvalidQuery] otherwise; a phrase reaches the
    engine's parser as one quoted literal. *)

From stdpp Require Import pretty.
From S2P Require Import Prelude RustStd Error Tokenizer Config Query Analyzer Scorers BuildQuery.

#[local] Open Scope Z_scope.

(** ** Meaning *)
Section Meaning.
Context {Parsed D : Type}.
(** When the engine's leaf queries match a document. *)
Context (has_term : D -> Z -> str -> bool).
Context (has_similar : D -> Z -> str -> Z -> str -> Z -> bool).
Context (parsed_matches : D -> Parsed -> bool).

(** The engine's boolean query: all of the [Must], none of the [MustNot] and,
    without a [Must], one of the [Should] clauses. *)
Definition clause_holds (c : Occur * bool) : bool :=
  match c.1 with OccurMust => c.2 | OccurMustNot => negb c.2 | OccurShould => true end.
Definition is_must (c : Occur * bool) : bool := match c.1 with OccurMust => true | _ => false end.
Definition should_holds (c : Occur * bool) : bool := match c.1 with OccurShould => c.2 | _ => false end.
Definition boolean_matches (clauses : list (Occur * bool)) : bool :=
  forallb clause_holds clauses && (existsb is_must clauses || existsb should_holds clauses).

Fixpoint matches (d : D) (q : EngineQuery Parsed) : bool :=
  match q with
  | EmptyQuery => false
  | TermQuery field text _ => has_term d field text
  | BooleanQuery clauses => boolean_matches (map (λ c, (c.1, matches d c.2)) clauses)
  | BoostQuery q _ => matches d q
  | ParsedQuery p => parsed_matches d p
  | Demote positive _ _ => matches d positive
  | CappedFuzzyTerm field text distance prefix max => has_similar d field text distance prefix max
  end.

(** What a [QuerySpec] asks of a document. *)
Context `{Unicode} (index : Index Parsed) (config : FullTextIndexConfig).

Definition token_found (d : D) (field : Z) (fuzziness : option Z) (max prefix_length : Z) (token : str) : bool :=
  let distance := default (auto_fuzziness token) fuzziness in
  if distance =? 0 then has_term d field token
  else has_similar d field token distance (take (Z.to_nat prefix_length) token) max.
Definition tokens_of (terms : str) : list str :=
  match analyze_terms index config terms with Ok tokens => tokens | Err _ => [] end.
Definition text_found (d : D) (operator : MatchOperator) (terms : str) (fuzziness : option Z)
    (max prefix_length : Z) (field : Z) : bool :=
  let tokens := tokens_of terms in
  let found := token_found d field fuzziness max prefix_length in
  match operator with
  | Or => existsb found tokens
  | And => negb (is_empty tokens) && forallb found tokens
  end.
Definition field_of (column : option str) : Z :=
  match resolve_text_field index config column with Ok f => f | Err _ => -1 end.
Definition fields_of (column : option str) : list Z :=
  match named_column column with
  | Some _ => [field_of column]
  | None => (λ f, field_of (Some f)) <$> indexed_text_fields config
  end.

Fixpoint describes (d : D) (q : QuerySpec) : bool :=
  match q with
  | Match column terms operator _ fuzziness max prefix_length =>
      existsb (text_found d operator terms fuzziness max prefix_length) (fields_of column)
  | MultiMatch terms columns _ operator fuzziness max prefix_length =>
      existsb (λ c, text_found d operator terms fuzziness max prefix_length (field_of (Some c))) columns
  | MatchPhrase column terms slop =>
      match parse_query index [field_of column] (phrase_text terms slop) with
      | Ok p => parsed_matches d p
      | Err _ => false
      end
  | Boolean should must must_not queries =>
      forallb (describes d) must && forallb (λ q, negb (describes d q)) must_not
      && forallb (λ c, match c.1 with Must => describes d c.2 | MustNot => negb (describes d c.2)
                       | Should => true end) queries
      && (negb (is_empty must)
          || existsb (λ c : BooleanOccur * QuerySpec, bool_decide (c.1 = Must)) queries
          || existsb (describes d) should
          || existsb (λ c, match c.1 with Should => describes d c.2 | _ => false end) queries)
  | Boost positive _ _ => describes d positive
  end.
End Meaning.

(** ** Lemmas on results *)
Lemma is_ok_bind {E A B} (m : result E A) (f : A -> result E B) :
  is_ok (m ≫= f) = match m with Ok a => is_ok (f a) | Err _ => false end.
Proof. by destruct m. Qed.
Lemma is_ok_mapM {E A B} (f : A -> result E B) l :
  is_ok (result_mapM f l) = forallb (λ x, is_ok (f x)) l.
Proof.
  induction l as [|x l IH]; [done|]. cbn. rewrite <- IH. destruct (f x); [|done]. cbn.
  by destruct (result_mapM f l).
Qed.
Lemma is_ok_forM {E A} (f : A -> result E unit) l :
  is_ok (result_forM f l) = forallb (λ x, is_ok (f x)) l.
Proof. induction l as [|x l IH]; [done|]. cbn. rewrite <- IH. by destruct (f x) as [[]|]. Qed.
Lemma result_mapM_ext' {E A B} (f g : A -> result E B) l :
  (∀ x, f x = g x) → result_mapM f l = result_mapM g l.
Proof. intros Hf. induction l as [|x l IH]; [done|]. cbn. by rewrite Hf, IH. Qed.
Lemma is_ok_tag {E A B} (m : result E A) (f : A -> B) : is_ok (a ← m; Ok (f a)) = is_ok m.
Proof. by destruct m. Qed.
Lemma is_ok_map_err {E E' A} (f : E -> E') (m : result E A) : is_ok (map_err f m) = is_ok m.
Proof. by destruct m. Qed.
Lemma forallb_ext_in {A} (f g : A -> bool) l : (∀ x, x ∈ l → f x = g x) → forallb f l = forallb g l.
Proof.
  induction l as [|x l IH]; [done|]. intros Hf. cbn. rewrite (Hf x) by left. rewrite IH; [done|].
  intros y Hy. apply Hf. by right.
Qed.
Lemma existsb_ext_in {A} (f g : A -> bool) l : (∀ x, x ∈ l → f x = g x) → existsb f l = existsb g l.
Proof.
  induction l as [|x l IH]; [done|]. intros Hf. cbn. rewrite (Hf x) by left. rewrite IH; [done|].
  intros y Hy. apply Hf. by right.
Qed.

(** ** Which queries are accepted *)
Section Accept.
Context `{Unicode} {Parsed : Type} (index : Index Parsed) (config : FullTextIndexConfig).

(** The index was created with, or opened for, this configuration. *)
Record opened_for : Prop := {
  opened_fields f : f ∈ indexed_text_fields config → is_Some (schema_get_field index f);
  opened_tokenizer : is_Some (tokenizers_get index (tokenizer_name (tokenizer_config_of config)))
}.

Definition boost_ok (boost : f32) : bool := f32_is_finite boost && negb (f32_le boost f32_zero).
Definition negative_boost_ok (boost : f32) : bool :=
  f32_is_finite boost && f32_le f32_zero boost && f32_le boost f32_one.
Definition options_ok (fuzziness : option Z) (max_expansions : Z) : bool :=
  (default 0 fuzziness <=? 2) && negb (max_expansions =? 0).
Definition column_ok (column : option str) : bool :=
  match named_column column with
  | Some column => bool_decide (column ∈ indexed_text_fields config)
  | None => (List.length (indexed_text_fields config) =? 1)%nat
  end.
(** Without a column a match query asks for every field, by its trimmed name. *)
Definition match_column_ok (column : option str) : bool :=
  match named_column column with
  | Some column => bool_decide (column ∈ indexed_text_fields config)
  | None => forallb (λ f, bool_decide (trim f ∈ indexed_text_fields config)) (indexed_text_fields config)
  end.

Fixpoint acceptable (q : QuerySpec) : bool :=
  match q with
  | Match column _ _ boost fuzziness max_expansions _ =>
      options_ok fuzziness max_expansions && match_column_ok column && boost_ok boost
  | MultiMatch _ columns boosts _ fuzziness max_expansions _ =>
      negb (is_empty columns) && (is_empty boosts || (blen boosts =? blen columns))
      && forallb boost_ok boosts && options_ok fuzziness max_expansions
      && forallb (λ c, column_ok (Some c)) columns
  | MatchPhrase column terms slop =>
      with_position (tokenizer_config_of config) && column_ok column
      && is_ok (parse_query index [field_of index config column] (phrase_text terms slop))
  | Boolean should must must_not queries =>
      (negb (is_empty should) || negb (is_empty must)
       || existsb (λ c : BooleanOccur * QuerySpec, is_positive c.1) queries)
      && forallb acceptable should && forallb acceptable must && forallb acceptable must_not
      && forallb (λ c, acceptable c.2) queries
  | Boost positive negative negative_boost =>
      negative_boost_ok negative_boost && acceptable positive && acceptable negative
  end.

Context (Hvalid : FullTextIndexConfig_valid config) (Hopen : opened_for).

Lemma validate_boost_is_ok b : is_ok (validate_boost b) = boost_ok b.
Proof. unfold validate_boost, boost_ok. by destruct (f32_is_finite b), (f32_le b f32_zero). Qed.
Lemma validate_negative_boost_is_ok b : is_ok (validate_negative_boost b) = negative_boost_ok b.
Proof.
  unfold validate_negative_boost, negative_boost_ok.
  by destruct (f32_is_finite b), (f32_le f32_zero b), (f32_le b f32_one).
Qed.
Lemma validate_match_options_is_ok f m p : is_ok (validate_match_options f m p) = options_ok f m.
Proof.
  unfold validate_match_options, options_ok. rewrite Z.ltb_antisym.
  by destruct (default 0 f <=? 2), (m =? 0).
Qed.
Lemma validate_multi_match_options_is_ok c b f m p :
  is_ok (validate_multi_match_options c b f m p)
  = negb (is_empty c) && (is_empty b || (blen b =? blen c)) && forallb boost_ok b && options_ok f m.
Proof.
  unfold validate_multi_match_options. destruct (is_empty c); [done|]. cbn [negb andb].
  destruct (is_empty b), (blen b =? blen c); cbn [negb andb orb]; try done;
    (rewrite is_ok_bind;
     rewrite <- (forallb_ext_in _ _ _ (λ x _, validate_boost_is_ok x)), <- (is_ok_forM validate_boost);
     destruct (result_forM validate_boost b) as [[]|]; [|done]; apply validate_match_options_is_ok).
Qed.

Lemma resolve_is_ok column : is_ok (resolve_text_field index config column) = column_ok column.
Proof.
  unfold resolve_text_field, column_ok.
  assert (∀ f, f ∈ indexed_text_fields config → ∀ e : FtIndexError,
    is_ok (ok_or (schema_get_field index f) e) = true) as Hget.
  { intros f Hf e. destruct (opened_fields Hopen f Hf) as [n ->]. done. }
  destruct (named_column column) as [c|]; cbn [mbind result_bind].
  - case_bool_decide as Hc; cbn [negb]; [by apply Hget|done].
  - destruct (indexed_text_fields config) as [|f [|g fields]] eqn:Ef; cbn [mbind result_bind]; try done.
    rewrite bool_decide_true by left. apply Hget. left.
Qed.

Lemma fields_trim f : f ∈ indexed_text_fields config → named_column (Some f) = Some (trim f).
Proof.
  unfold indexed_text_fields, dedup_strs. intros Hf. apply (elem_of_dedup f (text_fields config)) in Hf. cbn.
  pose proof (valid_names _ Hvalid) as Hn. rewrite Forall_forall in Hn.
  destruct (Hn f Hf) as [Hne _]. by apply is_empty_false in Hne as ->.
Qed.

Lemma fields_nonempty : indexed_text_fields config ≠ [].
Proof. intros E. apply (dedup_nil (text_fields config)) in E. by apply (valid_fields _ Hvalid). Qed.

Lemma resolve_match_is_ok column : is_ok (resolve_match_fields index config column) = match_column_ok column.
Proof.
  unfold resolve_match_fields, match_column_ok. destruct (named_column column) as [c|] eqn:En.
  - rewrite is_ok_tag, resolve_is_ok. unfold column_ok. by rewrite En.
  - rewrite is_ok_mapM. apply forallb_ext_in. intros f Hf. rewrite resolve_is_ok. unfold column_ok.
    by rewrite fields_trim.
Qed.

Lemma resolve_match_nonempty column fields :
  resolve_match_fields index config column = Ok fields → fields ≠ [].
Proof.
  unfold resolve_match_fields. destruct (named_column column).
  - intros Hf. by apply bind_Ok in Hf as (f & _ & [= <-]).
  - intros Hf%result_mapM_Ok ->. apply Forall2_nil_inv_r in Hf. by apply fields_nonempty.
Qed.

Lemma token_query_is_ok field token f m p :
  is_ok (@build_token_query Parsed field token f m p) = (default (auto_fuzziness token) f <=? 2).
Proof.
  unfold build_token_query. rewrite (Z.ltb_antisym _ 2).
  destruct (Z.eqb_spec (default (auto_fuzziness token) f) 0) as [->|]; [done|].
  by destruct (default (auto_fuzziness token) f <=? 2).
Qed.

Lemma token_query_ok field token f m p :
  default 0 f <= 2 → is_ok (@build_token_query Parsed field token f m p) = true.
Proof.
  intros Hf. rewrite token_query_is_ok. apply Z.leb_le. destruct f as [f|]; cbn in *; [done|].
  unfold auto_fuzziness. repeat case_match; lia.
Qed.

Lemma field_match_is_ok field terms o :
  default 0 (fm_fuzziness o) <= 2 →
  is_ok (build_field_match_query index config field terms o) = boost_ok (fm_boost o).
Proof.
  intros Hf. unfold build_field_match_query. rewrite is_ok_bind, <- validate_boost_is_ok.
  destruct (validate_boost (fm_boost o)) as [[]|e]; [|done]. cbn [is_ok].
  unfold analyze_terms. destruct (opened_tokenizer Hopen) as [t ->]. cbn [ok_or mbind result_bind].
  change (is_ok (?m ≫= ?f)) with (is_ok (m ≫= f)). rewrite is_ok_tag.
  destruct (t terms) as [|t1 [|t2 ts]]; [done|by apply token_query_ok|].
  rewrite is_ok_tag, is_ok_mapM. apply forallb_forall. intros x _. rewrite is_ok_tag. by apply token_query_ok.
Qed.

Lemma options_ok_range f m : options_ok f m = true → default 0 f <= 2.
Proof. unfold options_ok. intros [Hf _]%andb_true_iff. by apply Z.leb_le. Qed.

Lemma forallb_const {A} (b : bool) (l : list A) : l ≠ [] → forallb (λ _, b) l = b.
Proof. destruct l as [|x l]; [done|]. intros _. cbn. destruct b; [|done]. by induction l. Qed.

Lemma column_boosts_ok columns boosts :
  (is_empty boosts || (blen boosts =? blen columns)) = true → forallb boost_ok boosts = true →
  forallb (λ cb : str * f32, boost_ok cb.2) (column_boosts columns boosts) = true.
Proof.
  intros Hl. assert (boosts = [] ∨ List.length boosts = List.length columns) as Hl'.
  { apply orb_true_iff in Hl as [Hl | Hl]; [left; by apply is_empty_true|right].
    apply Z.eqb_eq in Hl. unfold blen in Hl. lia. }
  clear Hl. revert boosts Hl'. induction columns as [|c columns IH]; intros boosts Hl Hb; [done|].
  destruct boosts as [|b boosts]; cbn in *; [by rewrite IH; auto|].
  apply andb_true_iff in Hb as [-> Hb]. destruct Hl as [Hl | Hl]; [done|]. rewrite IH; auto.
Qed.

Lemma column_boosts_columns columns boosts : (column_boosts columns boosts).*1 = columns.
Proof. revert boosts. induction columns as [|c columns IH]; intros boosts; cbn; [done|]. by rewrite IH. Qed.

Lemma is_ok_children (build : QuerySpec -> Result (EngineQuery Parsed)) (occur : Occur) l :
  (∀ q, q ∈ l → is_ok (build q) = acceptable q) →
  is_ok (result_mapM (λ child, q ← build child; Ok (occur, q)) l) = forallb acceptable l.
Proof.
  intros Hl. rewrite is_ok_mapM. apply forallb_ext_in. intros x Hx. rewrite is_ok_tag. by apply Hl.
Qed.

Lemma build_match_is_ok c t o b f m p :
  is_ok (build_query index config (Match c t o b f m p)) = acceptable (Match c t o b f m p).
Proof.
  cbn [build_query acceptable]. rewrite is_ok_bind, <- (validate_match_options_is_ok f m p).
  destruct (validate_match_options f m p) as [[]|] eqn:Ev; [|done]. cbn [is_ok andb].
  assert (options_ok f m = true) as Ho by (rewrite <- (validate_match_options_is_ok f m p), Ev; done).
  rewrite is_ok_bind, <- resolve_match_is_ok.
  destruct (resolve_match_fields index config c) as [fields|] eqn:Ef; [|done]. cbn [is_ok andb].
  trans (is_ok (result_mapM (λ field, q ← build_field_match_query index config field t
    (field_match_options o b f m p); Ok (OccurShould, q)) fields)).
  { rewrite is_ok_bind. destruct (result_mapM _ fields) as [[|[] [|]]|]; done. }
  rewrite is_ok_mapM, <- (forallb_const (boost_ok b) fields) by (by eapply resolve_match_nonempty).
  apply forallb_ext_in. intros x _. rewrite is_ok_tag, field_match_is_ok; [done|].
  by eapply options_ok_range.
Qed.

Lemma build_multi_match_is_ok t c b o f m p :
  is_ok (build_query index config (MultiMatch t c b o f m p)) = acceptable (MultiMatch t c b o f m p).
Proof.
  cbn [build_query acceptable]. rewrite is_ok_bind, <- (validate_multi_match_options_is_ok c b f m p).
  destruct (validate_multi_match_options c b f m p) as [[]|] eqn:Ev; [|done]. cbn [is_ok andb].
  pose proof (validate_multi_match_options_is_ok c b f m p) as Ho. rewrite Ev in Ho.
  symmetry in Ho. apply andb_true_iff in Ho as [[[_ Hl]%andb_true_iff Hb]%andb_true_iff Ho].
  rewrite is_ok_tag, is_ok_mapM. pose proof (column_boosts_ok c b Hl Hb) as Hcb.
  rewrite <- (column_boosts_columns c b) at 2. clear -Hcb Ho Hopen Hvalid.
  induction (column_boosts c b) as [|[x y] l IH]; [done|].
  cbn [forallb fmap list_fmap fst snd] in Hcb |- *.
  apply andb_true_iff in Hcb as [Hy Hcb]. rewrite (IH Hcb), is_ok_bind, <- resolve_is_ok.
  destruct (resolve_text_field index config (Some x)); [|done].
  cbn [is_ok]. rewrite is_ok_tag, field_match_is_ok; [cbn [fm_boost]; by rewrite Hy|]. by eapply options_ok_range.
Qed.

Lemma build_phrase_is_ok c t s :
  is_ok (build_query index config (MatchPhrase c t s)) = acceptable (MatchPhrase c t s).
Proof.
  cbn [build_query acceptable]. destruct (with_position (tokenizer_config_of config)); [|done]. cbn [negb andb].
  rewrite is_ok_bind, <- resolve_is_ok. unfold field_of.
  destruct (resolve_text_field index config c) as [field|]; [|done]. cbn [is_ok andb].
  by rewrite is_ok_tag, is_ok_map_err.
Qed.

(** C20: in an index opened for a valid configuration, building succeeds
    exactly for the acceptable queries: options in range, positive boosts,
    configured columns, as many boosts as columns, positions and a parser
    that agrees for phrases, a positive clause in each boolean query, at every
    level of nesting. *)
Theorem build_query_accepts q : is_ok (build_query index config q) = acceptable q.
Proof.
  induction q as [c t o b f m p|t c b o f m p|c t s|s m n qs IHs IHm IHn IHq|p n b IHp IHn]
    using QuerySpec_nested_ind; [apply build_match_is_ok|apply build_multi_match_is_ok|apply build_phrase_is_ok|..];
    cbn [build_query acceptable].
  - rewrite Forall_forall in IHs, IHm, IHn. rewrite Forall_forall in IHq.
    destruct (is_empty s && is_empty m && is_empty n && is_empty qs) eqn:Ee.
    { repeat (apply andb_true_iff in Ee as [Ee ?]). rewrite Ee.
      repeat match goal with E : is_empty ?l = true |- _ => apply is_empty_true in E; subst l end. done. }
    destruct (negb (is_empty s) || negb (is_empty m) || existsb _ qs); [|done]. cbn [negb andb].
    rewrite is_ok_bind, <- (is_ok_children (build_query index config) OccurShould s) by done.
    destruct (result_mapM _ s); [|done]. cbn [is_ok andb].
    rewrite is_ok_bind, <- (is_ok_children (build_query index config) OccurMust m) by done.
    destruct (result_mapM _ m); [|done]. cbn [is_ok andb].
    rewrite is_ok_bind, <- (is_ok_children (build_query index config) OccurMustNot n) by done.
    destruct (result_mapM _ n); [|done]. cbn [is_ok andb].
    rewrite is_ok_tag, is_ok_mapM. apply forallb_ext_in. intros [oc q] Hq. rewrite is_ok_tag. by apply (IHq (oc, q)).
  - rewrite is_ok_bind, <- validate_negative_boost_is_ok.
    destruct (validate_negative_boost b) as [[]|]; [|done]. cbn [is_ok andb].
    rewrite is_ok_bind, <- IHp. destruct (build_query index config p); [|done]. cbn [is_ok andb].
    by rewrite is_ok_tag.
Qed.
End Accept.

(** ** Errors *)
Definition is_query_error (e : FtIndexError) : Prop := ∃ msg, e = InvalidQuery msg.
Notation query_errors := (errors_are is_query_error).
Lemma invalid_query_error msg : is_query_error (InvalidQuery msg).
Proof. by exists msg. Qed.
Create HintDb query_errors.
#[local] Hint Resolve errors_ok errors_err errors_ok_or errors_map_err invalid_query_error : query_errors.

Section Errors.
Context `{Unicode} {Parsed : Type} (index : Index Parsed) (config : FullTextIndexConfig).

Lemma validate_boost_errors b : query_errors (validate_boost b).
Proof. unfold validate_boost. case_match; auto with query_errors. Qed.
Lemma validate_match_options_errors f m p : query_errors (validate_match_options f m p).
Proof. unfold validate_match_options, invalid_query. repeat case_match; auto with query_errors. Qed.
Lemma resolve_text_field_errors c : query_errors (resolve_text_field index config c).
Proof.
  unfold resolve_text_field, invalid_query. apply errors_bind.
  - repeat case_match; auto with query_errors.
  - intros a _. case_match; auto with query_errors.
Qed.
Lemma token_query_errors field t f m p : query_errors (@build_token_query Parsed field t f m p).
Proof. unfold build_token_query, invalid_query. repeat case_match; auto with query_errors. Qed.
#[local] Hint Resolve validate_boost_errors validate_match_options_errors resolve_text_field_errors
  token_query_errors : query_errors.

Lemma field_match_errors field terms o : query_errors (build_field_match_query index config field terms o).
Proof.
  unfold build_field_match_query. apply errors_bind; [auto with query_errors|]. intros _ _.
  apply errors_bind.
  { unfold analyze_terms. apply errors_bind; auto with query_errors. }
  intros tokens _. apply errors_bind; [|auto with query_errors].
  destruct tokens as [|t [|t2 ts]]; auto with query_errors.
  apply errors_bind; [|auto with query_errors]. apply errors_mapM. intros x _.
  apply errors_bind; auto with query_errors.
Qed.
#[local] Hint Resolve field_match_errors : query_errors.

Lemma children_errors (build : QuerySpec -> Result (EngineQuery Parsed)) occur l :
  Forall (λ q, query_errors (build q)) l →
  query_errors (result_mapM (λ child, q ← build child; Ok (occur : Occur, q)) l).
Proof.
  intros Hl. apply errors_mapM. rewrite Forall_forall in Hl. intros x Hx.
  apply errors_bind; auto with query_errors.
Qed.

(** Whatever the index and the configuration, a query that cannot be built
    is rejected as an [InvalidQuery]. *)
Lemma build_query_errors q e :
  build_query index config q = Err e → ∃ msg, e = InvalidQuery msg.
Proof.
  revert e. change (query_errors (build_query index config q)).
  induction q as [c t o b f m p|t c b o f m p|c t s|s m n qs IHs IHm IHn IHq|p n b IHp IHn]
    using QuerySpec_nested_ind; cbn [build_query]; unfold invalid_query.
  - apply errors_bind; [auto with query_errors|]. intros _ _.
    apply errors_bind.
    { unfold resolve_match_fields. case_match.
      - apply errors_bind; auto with query_errors.
      - apply errors_mapM. auto with query_errors. }
    intros fields _. apply errors_bind.
    + apply errors_mapM. intros x _. apply errors_bind; auto with query_errors.
    + intros [|[] [|]] _; auto with query_errors.
  - apply errors_bind.
    { unfold validate_multi_match_options, invalid_query. repeat case_match; auto with query_errors;
        (apply errors_bind; [apply errors_forM|]; auto with query_errors). }
    intros _ _. apply errors_bind; [|auto with query_errors]. apply errors_mapM.
    intros [x y] _. apply errors_bind; [auto with query_errors|]. intros field _.
    apply errors_bind; auto with query_errors.
  - case_match; [auto with query_errors|]. apply errors_bind; [auto with query_errors|].
    intros field _. apply errors_bind; [apply errors_map_err; apply invalid_query_error|auto with query_errors].
  - repeat (case_match; auto with query_errors).
    do 3 (apply errors_bind; [by apply children_errors|]; intros ? _).
    apply errors_bind; [|auto with query_errors]. apply errors_mapM.
    rewrite Forall_forall in IHq. intros [x y] Hx.
    apply errors_bind; [by apply (IHq (x, y))|auto with query_errors].
  - apply errors_bind.
    { unfold validate_negative_boost. case_match; auto with query_errors. }
    intros _ _. apply errors_bind; [done|]. intros p' _.
    apply errors_bind; [done|]. auto with query_errors.
Qed.
End Errors.

(** ** Matching *)
Section Matching.
Context {Parsed D : Type} (has_term : D -> Z -> str -> bool).
Context (has_similar : D -> Z -> str -> Z -> str -> Z -> bool) (parsed_matches : D -> Parsed -> bool).
Context `{Unicode} (index : Index Parsed) (config : FullTextIndexConfig) (d : D).
Notation holds := (matches has_term has_similar parsed_matches d).
Notation wanted := (describes has_term has_similar parsed_matches index config d).
Notation found_in := (text_found has_term has_similar index config d).

Lemma boolean_should {A} (f : A -> bool) l : boolean_matches (map (λ x, (OccurShould, f x)) l) = existsb f l.
Proof.
  unfold boolean_matches.
  assert (forallb clause_holds (map (λ x, (OccurShould, f x)) l) = true) as -> by (induction l; done).
  assert (existsb is_must (map (λ x, (OccurShould, f x)) l) = false) as -> by (induction l; done).
  cbn. induction l as [|x l IH]; [done|]. cbn. by rewrite IH.
Qed.
Lemma boolean_must {A} (f : A -> bool) l :
  boolean_matches (map (λ x, (OccurMust, f x)) l) = negb (is_empty l) && forallb f l.
Proof.
  unfold boolean_matches. destruct l as [|x l]; [done|].
  assert (forallb clause_holds (map (λ x, (OccurMust, f x)) (x :: l)) = forallb f (x :: l)) as ->.
  { generalize (x :: l). intros k. induction k as [|y k IH]; [done|]. cbn. by rewrite IH. }
  cbn [map existsb is_must fst orb is_empty negb andb]. by rewrite andb_true_r.
Qed.

(** The meaning of the clauses a loop collects. *)
Lemma children_meaning {A} (f : A -> Result (EngineQuery Parsed)) (occur : A -> Occur) (g : A -> bool) l cs :
  (∀ x q, x ∈ l → f x = Ok q → holds q = g x) →
  result_mapM (λ x, q ← f x; Ok (occur x, q)) l = Ok cs →
  map (λ c, (c.1, holds c.2)) cs = map (λ x, (occur x, g x)) l.
Proof.
  intros Hf Hm. apply result_mapM_Ok in Hm. induction Hm as [|x c l cs Hc _ IH]; [done|].
  apply bind_Ok in Hc as (q & Hq & [= <-]). cbn [map fst snd].
  rewrite IH; [|intros y q' Hy; apply Hf; by right]. by rewrite (Hf x q) by (done || left).
Qed.

Lemma field_match_meaning field terms o q :
  build_field_match_query index config field terms o = Ok q →
  holds q = found_in (fm_operator o) terms (fm_fuzziness o) (fm_max_expansions o) (fm_prefix_length o) field.
Proof.
  unfold build_field_match_query. intros Hq. apply bind_Ok in Hq as ([] & _ & Hq).
  apply bind_Ok in Hq as (tokens & Ht & Hq). apply bind_Ok in Hq as (q' & Hq' & [= <-]).
  trans (holds q'); [by destruct (f32_lt f32_epsilon _)|]. unfold text_found, tokens_of. rewrite Ht. clear Ht.
  assert (∀ token t, build_token_query field token (fm_fuzziness o) (fm_max_expansions o)
    (fm_prefix_length o) = Ok t → holds t = token_found has_term has_similar d field (fm_fuzziness o)
    (fm_max_expansions o) (fm_prefix_length o) token) as Htoken.
  { intros token t. unfold build_token_query, token_found. intros Hq.
    destruct (_ =? 0); [by injection Hq as <-|]. destruct (_ <? _); [done|]. by injection Hq as <-. }
  destruct tokens as [|t [|t2 ts]].
  - injection Hq' as <-. by destruct (fm_operator o).
  - apply Htoken in Hq'. rewrite Hq'. destruct (fm_operator o); cbn; [by rewrite orb_false_r|by rewrite andb_true_r].
  - apply bind_Ok in Hq' as (cs & Hcs & [= <-]). cbn [matches].
    apply (children_meaning _ _ _ _ _ (λ x t _, Htoken x t)) in Hcs. rewrite Hcs.
    by destruct (fm_operator o); [rewrite boolean_should|rewrite boolean_must].
Qed.

Lemma resolve_fields_of column fields :
  resolve_match_fields index config column = Ok fields → fields = fields_of index config column.
Proof.
  unfold resolve_match_fields, fields_of, field_of. case_match.
  - intros Hf. apply bind_Ok in Hf as (f & -> & [= <-]). done.
  - intros Hf%result_mapM_Ok. induction Hf as [|x y l k Hx _ IH]; [done|].
    cbn [fmap list_fmap]. rewrite <- IH. f_equal. by rewrite Hx.
Qed.

(** The clauses of a boolean query, list by list. *)
Lemma boolean_meaning {A} (f : A -> bool) (should must must_not : list A) (queries : list (BooleanOccur * A)) :
  boolean_matches (map (λ x, (OccurShould, f x)) should ++ map (λ x, (OccurMust, f x)) must
    ++ map (λ x, (OccurMustNot, f x)) must_not ++ map (λ c, (occur_of c.1, f c.2)) queries)
  = forallb f must && forallb (λ q, negb (f q)) must_not
    && forallb (λ c, match c.1 with Must => f c.2 | MustNot => negb (f c.2) | Should => true end) queries
    && (negb (is_empty must)
        || existsb (λ c : BooleanOccur * A, bool_decide (c.1 = Must)) queries
        || existsb f should
        || existsb (λ c, match c.1 with Should => f c.2 | _ => false end) queries).
Proof.
  unfold boolean_matches. rewrite !forallb_app, !existsb_app.
  assert (∀ l, forallb clause_holds (map (λ x, (OccurShould, f x)) l) = true) as E1 by (intros l; induction l; done).
  assert (∀ l, existsb is_must (map (λ x, (OccurShould, f x)) l) = false) as E2 by (intros l; induction l; done).
  assert (∀ l, existsb should_holds (map (λ x, (OccurMust, f x)) l) = false) as E3 by (intros l; induction l; done).
  assert (∀ l, existsb is_must (map (λ x, (OccurMustNot, f x)) l) = false) as E4 by (intros l; induction l; done).
  assert (∀ l, existsb should_holds (map (λ x, (OccurMustNot, f x)) l) = false) as E5 by (intros l; induction l; done).
  assert (∀ l, forallb clause_holds (map (λ x, (OccurMust, f x)) l) = forallb f l) as E6
    by (intros l; induction l as [|x l IH]; [done|]; cbn; by rewrite IH).
  assert (∀ l, existsb is_must (map (λ x, (OccurMust, f x)) l) = negb (is_empty l)) as E7 by (intros l; by destruct l).
  assert (∀ l, forallb clause_holds (map (λ x, (OccurMustNot, f x)) l) = forallb (λ q, negb (f q)) l) as E8
    by (intros l; induction l as [|x l IH]; [done|]; cbn; by rewrite IH).
  assert (∀ l, existsb should_holds (map (λ x, (OccurShould, f x)) l) = existsb f l) as E9
    by (intros l; induction l as [|x l IH]; [done|]; cbn; by rewrite IH).
  rewrite E1, E2, E3, E4, E5, E6, E7, E8, E9. cbn [andb orb].
  assert (forallb clause_holds (map (λ c : BooleanOccur * A, (occur_of c.1, f c.2)) queries)
    = forallb (λ c, match c.1 with Must => f c.2 | MustNot => negb (f c.2) | Should => true end) queries) as ->
    by (clear; induction queries as [|[[] x] l IH]; [done|..]; cbn; by rewrite ?IH).
  assert (existsb is_must (map (λ c : BooleanOccur * A, (occur_of c.1, f c.2)) queries)
    = existsb (λ c : BooleanOccur * A, bool_decide (c.1 = Must)) queries) as ->
    by (clear; induction queries as [|[[] x] l IH]; [done|..]; cbn; by rewrite ?IH).
  assert (existsb should_holds (map (λ c : BooleanOccur * A, (occur_of c.1, f c.2)) queries)
    = existsb (λ c, match c.1 with Should => f c.2 | _ => false end) queries) as ->
    by (clear; induction queries as [|[[] x] l IH]; [done|..]; cbn; by rewrite ?IH).
  by rewrite <- !andb_assoc, <- !orb_assoc.
Qed.

Lemma built_query_meaning q built :
  build_query index config q = Ok built → holds built = wanted q.
Proof.
  revert built.
  induction q as [c t o b f m p|t c b o f m p|c t s|s m n qs IHs IHm IHn IHq|p n b IHp IHn]
    using QuerySpec_nested_ind; intros built; cbn [build_query describes]; intros Hb.
  - apply bind_Ok in Hb as ([] & _ & Hb). apply bind_Ok in Hb as (fields & Hf%resolve_fields_of & Hb).
    subst fields. apply bind_Ok in Hb as (cs & Hcs & Hb).
    apply (children_meaning (λ field, build_field_match_query index config field t
      (field_match_options o b f m p)) (λ _, OccurShould) (found_in o t f m p)) in Hcs.
    + rewrite <- boolean_should, <- Hcs.
      destruct cs as [|[oc child] [|c2 cs]]; injection Hb as <-; [done| |done].
      cbn [map fst snd] in *.
      destruct (fields_of index config c) as [|x [|]]; try done. injection Hcs as -> _. unfold boolean_matches. cbn.
      by rewrite orb_false_r.
    + intros x q _ Hq. by apply field_match_meaning in Hq.
  - apply bind_Ok in Hb as ([] & _ & Hb). apply bind_Ok in Hb as (cs & Hcs & [= <-]). cbn [matches].
    rewrite <- (column_boosts_columns c b).
    trans (existsb (λ cb : str * f32, found_in o t f m p (field_of index config (Some cb.1))) (column_boosts c b)).
    + rewrite <- boolean_should. f_equal. apply result_mapM_Ok in Hcs.
      induction Hcs as [|[x y] c' l cs Hc _ IH]; [done|].
      apply bind_Ok in Hc as (field & Hfield & Hc). apply bind_Ok in Hc as (q & Hq & [= <-]).
      cbn [map fst snd]. rewrite IH. apply field_match_meaning in Hq. unfold field_of. by rewrite Hfield, Hq.
    + clear. induction (column_boosts c b) as [|[x y] l IH]; [done|]. cbn. by rewrite IH.
  - case_match; [done|]. apply bind_Ok in Hb as (field & Hf & Hb). apply bind_Ok in Hb as (p & Hp & [= <-]).
    cbn [matches]. unfold field_of. rewrite Hf. apply map_err_Ok in Hp. by rewrite Hp.
  - repeat (case_match; [done|]). rewrite Forall_forall in IHs, IHm, IHn. rewrite Forall_forall in IHq.
    apply bind_Ok in Hb as (c1 & Hc1 & Hb). apply bind_Ok in Hb as (c2 & Hc2 & Hb).
    apply bind_Ok in Hb as (c3 & Hc3 & Hb). apply bind_Ok in Hb as (c4 & Hc4 & [= <-]).
    cbn [matches]. rewrite !map_app.
    apply (children_meaning (build_query index config) (λ _, OccurShould) wanted) in Hc1; [|by auto].
    apply (children_meaning (build_query index config) (λ _, OccurMust) wanted) in Hc2; [|by auto].
    apply (children_meaning (build_query index config) (λ _, OccurMustNot) wanted) in Hc3; [|by auto].
    assert (map (λ c, (c.1, holds c.2)) c4 = map (λ c : BooleanOccur * QuerySpec, (occur_of c.1, wanted c.2)) qs) as ->.
    { apply (children_meaning (λ c, build_query index config c.2) (λ c, occur_of c.1)).
      - intros x q Hx. by apply IHq.
      - rewrite <- Hc4. apply result_mapM_ext'. by intros []. }
    rewrite Hc1, Hc2, Hc3. apply boolean_meaning.
  - apply bind_Ok in Hb as ([] & _ & Hb). apply bind_Ok in Hb as (p' & Hp & Hb).
    apply bind_Ok in Hb as (n' & _ & [= <-]). cbn [matches]. by apply IHp.
Qed.

(** C11: the query handed to the engine matches exactly the documents the
    [QuerySpec] describes: for a match query one of its fields has one (or
    all) of the tokens of the terms, exactly or within the edit distance; for
    a boolean query all [must] and no [must_not] hold, and one [should] when
    there is no [must]; boosts never change what matches. *)
Theorem build_query_matches q built :
  build_query index config q = Ok built → holds built = wanted q.
Proof. apply built_query_meaning. Qed.
End Matching.

(** ** Phrases *)

(** Reading a quoted literal: up to the next quote that no backslash escapes;
    a backslash stands for the character after it. *)
Fixpoint read_literal (s : str) : option (str * str) :=
  match s with
  | [] => None
  | c :: s' =>
      if c =? QUOTE then Some ([], s')
      else if c =? BACKSLASH then
        match s' with
        | [] => None
        | e :: s'' => '(t, rest) ← read_literal s''; Some (e :: t, rest)
        end
      else '(t, rest) ← read_literal s'; Some (c :: t, rest)
  end.
Definition read_phrase (s : str) : option (str * str) :=
  match s with
  | q :: s' => if q =? QUOTE then read_literal s' else None
  | [] => None
  end.
Definition slop_suffix (slop : Z) : str := if slop =? 0 then [] else 126 :: display_unsigned slop.

Definition escape_char (c : char) : str :=
  if c =? BACKSLASH then [BACKSLASH; BACKSLASH] else if c =? QUOTE then [BACKSLASH; QUOTE] else [c].

Lemma escape_chars terms : escape terms = terms ≫= escape_char.
Proof.
  unfold escape, replace_char. induction terms as [|c terms IH]; [done|]. cbn [mbind list_bind] in *.
  rewrite bind_app, IH. unfold escape_char. destruct (Z.eqb_spec c BACKSLASH) as [->|]; [done|].
  cbn. by rewrite app_nil_r.
Qed.

Lemma read_literal_escaped terms rest :
  read_literal (escape terms ++ [QUOTE] ++ rest) = Some (terms, rest).
Proof.
  rewrite escape_chars. induction terms as [|c terms IH]; [done|]. cbn [mbind list_bind].
  rewrite <- app_assoc. unfold escape_char at 1.
  destruct (Z.eqb_spec c BACKSLASH) as [->|Hb]; [cbn; cbn in IH; by rewrite IH|].
  destruct (Z.eqb_spec c QUOTE) as [->|Hq]; [cbn; cbn in IH; by rewrite IH|].
  cbn [app read_literal]. rewrite (proj2 (Z.eqb_neq c QUOTE) Hq), (proj2 (Z.eqb_neq c BACKSLASH) Hb).
  cbn [app] in IH. by rewrite IH.
Qed.

Lemma read_phrase_text terms slop : read_phrase (phrase_text terms slop) = Some (terms, slop_suffix slop).
Proof.
  unfold phrase_text, slop_suffix. destruct (slop =? 0); cbn [app read_phrase];
    [apply (read_literal_escaped terms [])|apply (read_literal_escaped terms (126 :: display_unsigned slop))].
Qed.

Lemma lit_inj s t : lit s = lit t → s = t.
Proof.
  unfold lit. intros Hs%list_fmap_eq_inj.
  - rewrite <- (String.string_of_list_ascii_of_string s), Hs. apply String.string_of_list_ascii_of_string.
  - intros a b Hab%N2Z.inj. by rewrite <- (Ascii.ascii_N_embedding a), Hab, Ascii.ascii_N_embedding.
Qed.

Lemma slop_suffix_inj s s' : 0 ≤ s → 0 ≤ s' → slop_suffix s = slop_suffix s' → s = s'.
Proof.
  unfold slop_suffix. destruct (Z.eqb_spec s 0), (Z.eqb_spec s' 0); try done; [lia|].
  intros Hs Hs' [= E]. apply lit_inj, (inj pretty) in E. lia.
Qed.

(** C39: whatever characters a phrase has, the text given to the engine's
    parser starts with one quoted literal that reads as exactly the terms,
    followed by the slop; different phrases and slops give different texts. *)
Theorem phrase_text_exact terms slop :
  0 ≤ slop →
  read_phrase (phrase_text terms slop) = Some (terms, slop_suffix slop) ∧
  (∀ terms' slop', 0 ≤ slop' → phrase_text terms slop = phrase_text terms' slop' →
     terms = terms' ∧ slop = slop').
Proof.
  intros Hs. split; [apply read_phrase_text|]. intros terms' slop' Hs' E.
  pose proof (read_phrase_text terms slop) as H1. rewrite E, read_phrase_text in H1.
  injection H1 as -> H1. split; [done|]. symmetry. by apply slop_suffix_inj.
Qed.

(** ** Concrete queries *)
#[local] Existing Instance ascii_unicode.

(** Two fields, words separated by spaces, and a parser that keeps its text. *)
Definition sample_config : FullTextIndexConfig :=
  index_config (lit "id") [lit "title"; lit "body"] TokenizerConfig_default.
Definition sample_index : Index str := {|
  schema_get_field f :=
    if str_eqb f (lit "title") then Some 1 else if str_eqb f (lit "body") then Some 2 else None;
  tokenizers_get _ := Some (split_on (λ c, c =? 32));
  parse_query _ text := Ok text
|}.
Lemma sample_config_valid : FullTextIndexConfig_valid sample_config.
Proof. apply validate_Ok. vm_compute. reflexivity. Qed.
Lemma sample_index_opened : opened_for sample_index sample_config.
Proof.
  split; [|by eexists]. intros f. cbn. intros [-> | [-> | []%not_elem_of_nil]%elem_of_cons]%elem_of_cons;
    vm_compute; by eexists.
Qed.

Definition sample_match : QuerySpec := Match None (lit "big lake") And f32_one (Some 0) 50 0.
Definition sample_query : QuerySpec :=
  Boolean [sample_match] [] [MatchPhrase (Some (lit "title")) (lit "x") 2] [(Must, Boost sample_match sample_match f32_half)].

Lemma build_query_accepts_witness : is_ok (build_query sample_index sample_config sample_query) = true.
Proof.
  rewrite (build_query_accepts sample_index sample_config sample_config_valid sample_index_opened).
  vm_compute. reflexivity.
Defined.

(** A document is the words of its fields. *)
Definition sample_has_term (d : list (Z * str)) (field : Z) (text : str) : bool :=
  bool_decide ((field, text) ∈ d).
Definition sample_doc : list (Z * str) := [(2, lit "big"); (2, lit "lake")].

Lemma build_query_matches_witness :
  ∃ built, build_query sample_index sample_config sample_match = Ok built ∧
    matches sample_has_term (λ _ _ _ _ _ _, false) (λ _ _, false) sample_doc built = true.
Proof.
  destruct (build_query sample_index sample_config sample_match) as [built|] eqn:E;
    [|exfalso; vm_compute in E; discriminate].
  exists built. split; [done|].
  rewrite (build_query_matches sample_has_term (λ _ _ _ _ _ _, false) (λ _ _, false) sample_index sample_config
    sample_doc sample_match built E).
  vm_compute. reflexivity.
Defined.

Lemma phrase_text_exact_witness :
  read_phrase (phrase_text [65; 34; 92; 66] 3) = Some ([65; 34; 92; 66], [126; 51]).
Proof. apply (phrase_text_exact [65; 34; 92; 66] 3). lia. Defined.

(** A field name with surrounding white space is valid, and documents can be
    added under it, but a match query cannot reach it: without a column it is
    rejected for a column nobody named. *)
Definition untrimmed_config : FullTextIndexConfig :=
  index_config (lit "id") [lit " title"] TokenizerConfig_default.
Lemma untrimmed_field_rejected (index : Index str) terms :
  validate untrimmed_config = Ok tt ∧ validate_indexed_field untrimmed_config (lit " title") = Ok tt ∧
  build_query index untrimmed_config (Match None terms Or f32_one (Some 0) 50 0)
  = Err (InvalidQuery [Txt "full-text query column '"; Str (lit "title");
                       Txt "' is not configured for this index"]).
Proof. split_and!; vm_compute; reflexivity. Qed.
