(* ===== verification/Writer.v ===== *)
(** * The index writer ([core/src/index.rs])

    [FullTextIndexWriter] in front of the engine's index writer: adding
    documents, and the single write that commits, collects the files of the
    temporary directory and streams the archive to an output.  The engine may
    fail or panic in each of its operations. *)

From S2P Require Import Prelude RustStd Error IoLayer Json Tokenizer Config HeaderJson Storage Analyzer.

Definition INDEX_WRITER_MEMORY_BUDGET_BYTES : Z := 50000000.

(** ** Directories of the file system *)

(** An [OsString]: Unicode, or some other bytes. *)
Inductive OsString : Type := OsUnicode (s : str) | OsOther (bs : list byte).
Definition os_bytes (n : OsString) : list byte :=
  match n with OsUnicode s => as_bytes s | OsOther bs => bs end.
(** [OsStr::to_str] *)
Definition os_to_str (n : OsString) : option str :=
  match n with OsUnicode s => Some s | OsOther _ => None end.

(** An entry of a directory, with what the calls on it and on its path give:
    [file_type()], [fs::metadata(path)] and [File::open(path)]. *)
Record DirEntry : Type := dir_entry {
  file_name : OsString;
  is_file : result IoError bool;
  metadata_len : result IoError Z;
  open_file : result IoError (list byte)
}.
(** [fs::read_dir]: the entries come in any order. *)
Abbreviation Listing := (result IoError (list (result IoError DirEntry))) (only parsing).

(** [Ord] of paths in one directory: their names compare as byte strings. *)
Fixpoint bytes_leb (a b : list byte) : bool :=
  match a, b with
  | [], _ => true
  | _ :: _, [] => false
  | x :: a', y :: b' =>
      if Z_of_byte x =? Z_of_byte y then bytes_leb a' b' else Z_of_byte x <? Z_of_byte y
  end.
Definition path_leb (p q : DirEntry) : bool := bytes_leb (os_bytes (file_name p)) (os_bytes (file_name q)).

(** [paths.sort()], stable. *)
Fixpoint insert_path (p : DirEntry) (l : list DirEntry) : list DirEntry :=
  match l with
  | [] => [p]
  | q :: l' => if path_leb p q then p :: l else q :: insert_path p l'
  end.
Definition sort_paths (l : list DirEntry) : list DirEntry := foldr insert_path [] l.

Record IndexFile : Type := index_file { if_name : str; if_path : DirEntry; if_length : Z }.

(** The two loops of [collect_index_files]. *)
Fixpoint collect_paths (entries : list (result IoError DirEntry)) : Result (list DirEntry) :=
  match entries with
  | [] => Ok []
  | entry :: entries' =>
      entry ← map_err Io entry;
      file ← map_err Io (is_file entry);
      paths ← collect_paths entries';
      Ok (if file : bool then entry :: paths else paths)
  end.
Fixpoint collect_files (paths : list DirEntry) : Result (list IndexFile) :=
  match paths with
  | [] => Ok []
  | path :: paths' =>
      name ← ok_or (os_to_str (file_name path)) (InvalidStorage [Txt "non-utf8 file name"]);
      if ends_with name (lit ".lock") then collect_files paths'
      else
        len ← map_err Io (metadata_len path);
        files ← collect_files paths';
        Ok (index_file name path len :: files)
  end.
Definition collect_index_files (listing : Listing) : Result (list IndexFile) :=
  entries ← map_err Io listing;
  paths ← collect_paths entries;
  collect_files (sort_paths paths).

(** ** Documents *)
Inductive FieldValue : Type := U64 (v : Z) | Text (s : str).
(** [TantivyDocument]: the values given to its fields, in order. *)
Abbreviation Document := (list (Z * FieldValue)) (only parsing).

Record FullTextDocument : Type := full_text_document { row_id : Z; fields : list (str * str) }.

(** ** The engine: an operation fails with an error or with a panic *)
Class WriterEngine (Schema I : Type) : Type := {
  engine_schema :: SchemaEngine Schema;
  TempDir : Type;
  IndexHandle : Type;
  handle_registry :: TokenizerRegistry IndexHandle;
  temp_dir_new : result IoError TempDir;
  create_in_dir : TempDir -> Schema -> result (Fault TantivyError) IndexHandle;
  writer_with_num_threads : Z -> Z -> IndexHandle -> result (Fault TantivyError) I;
  engine_add_document : Document -> ST I (Fault TantivyError) unit;
  commit : ST I (Fault TantivyError) unit;
  wait_merging_threads : ST I (Fault TantivyError) unit;
  read_dir : TempDir -> I -> Listing;
  tantivy_version_string : str
}.

Section Writer.
Context `{Unicode} `{AnalysisEngine} {Schema I : Type} `{WriterEngine Schema I}.

Record FullTextIndexWriterState : Type := writer_state { index_writer : I; temp_dir : TempDir }.
Record FullTextIndexWriter : Type := full_text_index_writer {
  w_config : FullTextIndexConfig;
  w_state : option FullTextIndexWriterState;
  w_row_id_field : Z;
  w_text_fields : gmap str Z;
  w_document_count : Z
}.

(** [FullTextIndexWriter::new]; [None] is the panic of a schema with two
    fields of one name. *)
Definition FullTextIndexWriter_new (config : FullTextIndexConfig) :
    option (result (Fault FtIndexError) FullTextIndexWriter) :=
  match (_ ← validate config; map_err Io temp_dir_new : Result TempDir) with
  | Err e => Some (Err (Failed e))
  | Ok temp_dir =>
      schema ← build_schema config;
      Some (
        index ← map_err (map_fault Tantivy) (create_in_dir temp_dir schema);
        index ← map_err Failed (register_tokenizer (tokenizer_config_of config) index);
        row_id_field ← map_err Failed (ok_or (get_field schema (row_id_field config))
                         (InvalidStorage [Txt "missing row_id field"]));
        text_fields ← map_err Failed (text_field_map schema config);
        index_writer ← map_err (map_fault Tantivy)
          (writer_with_num_threads 1 INDEX_WRITER_MEMORY_BUDGET_BYTES index);
        Ok (full_text_index_writer config (Some (writer_state index_writer temp_dir))
              row_id_field text_fields 0))
  end.

(** The [for] loop of [add_document_fields]: the document built so far and
    whether it has a text field. *)
Fixpoint add_fields (config : FullTextIndexConfig) (text_fields : gmap str Z) (fields : list (str * str))
    (doc : Document) (has_text_field : bool) : Result (Document * bool) :=
  match fields with
  | [] => Ok (doc, has_text_field)
  | (name, text) :: fields' =>
      _ ← validate_indexed_field config name;
      text_field ← ok_or (text_fields !! name)
        (InvalidStorage [Txt "document field '"; Str name; Txt "' is not configured for this index"]);
      add_fields config text_fields fields' (doc ++ [(text_field, Text text)]) true
  end.

Definition already_finalized : FtIndexError :=
  InvalidStorage [Txt "full-text index writer is already finalized"].

Definition add_document_fields (row_id : Z) (fields : list (str * str)) :
    ST FullTextIndexWriter (Fault FtIndexError) unit := λ w,
  let prepared : Result (FullTextIndexWriterState * Z * Document) :=
    _ ← (if row_id <? 0 then
           Err (InvalidStorage [Txt "row id must be non-negative, got "; Int row_id]) else Ok tt);
    state ← ok_or (w_state w) already_finalized;
    next_document_count ← ok_or (checked_add u64_max (w_document_count w) 1)
      (InvalidStorage [Txt "full-text document count overflow"]);
    built ← add_fields (w_config w) (w_text_fields w) fields
              [(w_row_id_field w, U64 (i64_as_u64 row_id))] false;
    if negb (built.2 : bool) then invalid_storage "document must contain at least one text field"
    else Ok (state, next_document_count, built.1) in
  match prepared with
  | Err e => (Err (Failed e), w)
  | Ok (state, next_document_count, doc) =>
      let '(r, iw) := engine_add_document doc (index_writer state) in
      let state' := Some (writer_state iw (temp_dir state)) in
      match r with
      | Err e => (Err (map_fault Tantivy e), full_text_index_writer (w_config w) state' (w_row_id_field w)
                                     (w_text_fields w) (w_document_count w))
      | Ok _ => (Ok tt, full_text_index_writer (w_config w) state' (w_row_id_field w)
                          (w_text_fields w) next_document_count)
      end
  end.

Definition add_document (row_id : Z) (text : str) : ST FullTextIndexWriter (Fault FtIndexError) unit := λ w,
  let text_field := default_text_field (w_config w) in
  add_document_fields row_id [(text_field, text)] w.

(** The loop of [write] that lays the files out. *)
Fixpoint layout_files (files : list IndexFile) (offset : Z) : Result (list ArchiveFileEntry) :=
  match files with
  | [] => Ok []
  | file :: files' =>
      next ← ok_or (checked_add u64_max offset (if_length file))
               (InvalidStorage [Txt "full-text archive size overflow"]);
      entries ← layout_files files' next;
      Ok (archive_file (if_name file) offset (if_length file) :: entries)
  end.

(** [write], on the writer and an output: the state is taken first. *)
Definition write `{JsonText} {W : Type} `{SeekWrite W} :
    ST (FullTextIndexWriter * W) (Fault FtIndexError) unit := λ '(w, output),
  match w_state w with
  | None => (Err (Failed already_finalized), (w, output))
  | Some state =>
      let w' := full_text_index_writer (w_config w) None (w_row_id_field w) (w_text_fields w)
                  (w_document_count w) in
      let '(finished, iw) := (_ ← commit; wait_merging_threads : ST I (Fault TantivyError) unit) (index_writer state) in
      let prepared : result (Fault FtIndexError) (list IndexFile * IndexHeader) :=
        _ ← map_err (map_fault Tantivy) finished;
        files ← map_err Failed (collect_index_files (read_dir (temp_dir state) iw));
        entries ← map_err Failed (layout_files files 0);
        Ok (files, index_header (index_metadata (w_config w) (w_document_count w) tantivy_version_string)
                     entries) in
      match prepared with
      | Err e => (Err e, (w', output))
      | Ok (files, header) =>
          let '(r, output') := write_envelope_from_paths open_file header (if_path <$> files) output in
          (map_err Failed r, (w', output'))
      end
  end.
End Writer.
