(* ===== verification/Reader.v ===== *)
(** * The index reader ([core/src/index.rs])

    [FullTextIndexReader]: opening an archive, the engine's reader behind its
    mutex, and searching with or without a filter of row ids.  The engine may
    panic, on its own or because a read does; under the lock that poisons it. *)

From S2P Require Import Prelude RustStd Error IoLayer Json Tokenizer Config HeaderJson Storage Archive.
From S2P Require Import Query Analyzer BuildQuery.

Record FullTextSearchResult : Type := search_result { row_ids : list Z; scores : list f32 }.

(** The engine on the reading side.  Everything it does goes through the
    directory it was opened on, so it threads the state of the input.  It ends
    with an error, or with a panic of its own or of a read. *)
Class ReaderEngine (S Ix Parsed : Type) : Type := {
  ix_registry :: TokenizerRegistry Ix;
  IndexReader : Type;
  Searcher : Type;
  DocAddress : Type;
  runtime_version : str;
  index_open : path_map ArchivedFile -> ST (Shared S) (Fault TantivyError) Ix;
  index_reader : Ix -> ST (Shared S) (Fault TantivyError) IndexReader;
  searcher_of : IndexReader -> Searcher;
  index_api : Ix -> Index Parsed;
  (** [TopDocs::with_limit(limit)], inside a [FilterCollector] on the values of
      a field when there is a filter. *)
  search_top_docs : Searcher -> EngineQuery Parsed -> Z -> option (str * (Z -> bool)) ->
    ST (Shared S) (Fault TantivyError) (list (f32 * DocAddress));
  (** [segment_reader(..).fast_fields().u64(field)?.first_or_default_col(0)],
      at a document. *)
  fast_field_u64 : Searcher -> str -> DocAddress -> ST (Shared S) (Fault TantivyError) Z;
  (** [RoaringTreemap::deserialize_from], as membership. *)
  roaring_deserialize : list byte -> result message (Z -> bool)
}.

Section Reader.
Context `{Platform} `{Unicode} `{JsonText} `{AnalysisEngine} {R Ix Parsed : Type} `{SeekRead R}.
Context `{ReaderEngine (MeteredSeekRead R) Ix Parsed}.

Record FullTextIndexReader : Type := full_text_index_reader {
  fr_shared : Shared (MeteredSeekRead R);
  fr_index : Ix;
  fr_reader : option IndexReader;
  fr_poisoned : bool;
  fr_metadata : FullTextIndexMetadata
}.

Definition validate_tantivy_version (m : FullTextIndexMetadata) : Result unit :=
  if negb (str_eqb (tantivy_version m) runtime_version) then
    Err (InvalidStorage [Txt "unsupported Tantivy index version "; Str (tantivy_version m);
                         Txt ", runtime uses "; Str runtime_version])
  else Ok tt.

(** [open], on the input it is given; what the input has become also matters
    to a caller whose object it wraps, even when opening fails. *)
Definition open_on (input : R) : result (Fault FtIndexError) FullTextIndexReader * R :=
  let '(r, input) := read_header (metered input ReadMetrics_default) in
  let prepared : Result (IndexHeader * path_map ArchivedFile) :=
    '(header, body_start) ← r;
    _ ← validate_tantivy_version (metadata header);
    directory ← new_with_metrics body_start (files header);
    Ok (header, directory) in
  match prepared with
  | Err e => (Err (Failed e), inner input)
  | Ok (header, directory) =>
      let '(r, state) := index_open directory (new_shared input) in
      (index ← map_err (map_fault Tantivy) r;
       index ← map_err Failed (register_tokenizer (tokenizer_config_of (config (metadata header))) index);
       Ok (full_text_index_reader state index None false (metadata header)),
       inner (Archive.input state))
  end.
Definition FullTextIndexReader_open (input : R) : result (Fault FtIndexError) FullTextIndexReader :=
  (open_on input).1.

(** [FullTextIndexReader::metadata] *)
Definition reader_metadata (s : FullTextIndexReader) : FullTextIndexMetadata := fr_metadata s.

Definition read_metrics (s : FullTextIndexReader) : FullTextReadMetrics :=
  snapshot (metrics (input (fr_shared s))).

(** Run a computation of the engine on the state behind the reader. *)
Definition on_shared {A} (m : ST (Shared (MeteredSeekRead R)) (Fault TantivyError) A) :
    ST FullTextIndexReader (Fault FtIndexError) A := λ s,
  let '(r, state) := m (fr_shared s) in
  (map_err (map_fault Tantivy) r, full_text_index_reader state (fr_index s) (fr_reader s) (fr_poisoned s) (fr_metadata s)).
Definition set_reader (reader : IndexReader) : ST FullTextIndexReader (Fault FtIndexError) unit :=
  ST_modify (λ s, full_text_index_reader (fr_shared s) (fr_index s) (Some reader) (fr_poisoned s) (fr_metadata s)).
Definition poison (s : FullTextIndexReader) : FullTextIndexReader :=
  full_text_index_reader (fr_shared s) (fr_index s) (fr_reader s) true (fr_metadata s).

(** A computation that holds the guard of the lock; a panic drops it and
    poisons the lock. *)
Definition under_lock {A} (m : ST FullTextIndexReader (Fault FtIndexError) A) :
    ST FullTextIndexReader (Fault FtIndexError) A := λ s,
  let '(r, s') := m s in (r, if panicked r then poison s' else s').

Definition searcher : ST FullTextIndexReader (Fault FtIndexError) Searcher := λ s,
  if fr_poisoned s then (Err (Failed (InvalidStorage [Txt "Tantivy reader lock poisoned"])), s)
  else match fr_reader s with
       | Some reader => (Ok (searcher_of reader), s)
       | None =>
           under_lock (reader ← on_shared (index_reader (fr_index s));
                       _ ← set_reader reader;
                       mret (searcher_of reader)) s
       end.

Definition prewarm : ST FullTextIndexReader (Fault FtIndexError) unit := _ ← searcher; mret tt.

(** The loop over the collected documents. *)
Fixpoint collect_rows (se : Searcher) (row_id_field : str) (top_docs : list (f32 * DocAddress))
    (row_ids : list Z) (scores : list f32) : ST FullTextIndexReader (Fault FtIndexError) FullTextSearchResult :=
  match top_docs with
  | [] => mret (search_result row_ids scores)
  | (score, doc_address) :: top_docs' =>
      value ← on_shared (fast_field_u64 se row_id_field doc_address);
      collect_rows se row_id_field top_docs' (row_ids ++ [u64_as_i64 value]) (scores ++ [score])
  end.

Definition search_with_filter (query : str) (limit : Z) (filter : option (Z -> bool)) :
    ST FullTextIndexReader (Fault FtIndexError) FullTextSearchResult :=
  if limit =? 0 then ST_fail (Failed (InvalidQuery [Txt "search limit must be positive"]))
  else
    se ← searcher;
    query ← ST_try (from_json query);
    s ← ST_gets id;
    tantivy_query ← ST_try (build_query (index_api (fr_index s)) (config (fr_metadata s)) query);
    let field := row_id_field (config (fr_metadata s)) in
    top_docs ← on_shared (search_top_docs se tantivy_query limit ((λ f, (field, f)) <$> filter));
    collect_rows se field top_docs [] [].

Definition search (query : str) (limit : Z) : ST FullTextIndexReader (Fault FtIndexError) FullTextSearchResult :=
  search_with_filter query limit None.

Definition decode_roaring_filter (bytes : list byte) : Result (Z -> bool) :=
  map_err (λ e, InvalidQuery (Txt "invalid RoaringTreemap filter: " :: e)) (roaring_deserialize bytes).
Definition search_with_roaring_filter (query : str) (limit : Z) (roaring_filter_bytes : list byte) :
    ST FullTextIndexReader (Fault FtIndexError) FullTextSearchResult :=
  filter ← ST_try (decode_roaring_filter roaring_filter_bytes);
  search_with_filter query limit (Some filter).
End Reader.
