(* ===== verification/ToyEngine.v ===== *)
(** * A small search engine

    Instances of the engine classes that run: a schema of names, an index
    writer that logs its documents, and a searcher over two fixed documents.
    The theorems hold for every engine; these instances show that their
    hypotheses can, and evaluate the models on concrete inputs. *)

From S2P Require Import Prelude RustStd Error IoLayer Json Tokenizer Config HeaderJson Storage Archive.
From S2P Require Import Query Analyzer BuildQuery BuildQuerySpec Writer Reader.

#[local] Instance toy_platform : Platform := platform64.
#[local] Instance toy_unicode : Unicode := ascii_unicode.
#[local] Instance toy_text : JsonText := tree_text.
#[local] Instance toy_profile : Profile := true.

(** ** Schema and analyzers *)
#[local] Instance toy_analysis : AnalysisEngine := {
  ngram_new min max := if (0 <? min) && (min <=? max) then Ok tt else Err [Txt "invalid n-gram sizes"];
  has_stop_words l := bool_decide (l = English)
}.

Fixpoint toy_field_number (n : Z) (names : list str) (name : str) : option Z :=
  match names with
  | [] => None
  | x :: names' => if str_eqb x name then Some n else toy_field_number (n + 1) names' name
  end.
Definition ToySchema : Type := list (str * FieldType).
#[local] Instance toy_schema : SchemaEngine ToySchema := {
  SchemaBuilder := ToySchema;
  schema_builder := [];
  add_field name type b :=
    if bool_decide (name ∈ b.*1) then None else Some (b ++ [(name, type)]);
  schema_build b := b;
  get_field s name := toy_field_number 0 s.*1 name
}.

Definition ToyIndex : Type := list (string * TextAnalyzer).
Fixpoint toy_registered (ix : ToyIndex) (name : string) : option TextAnalyzer :=
  match ix with
  | [] => None
  | (n, a) :: ix' => if decide (name = n) then Some a else toy_registered ix' name
  end.
#[local] Instance toy_registry : TokenizerRegistry ToyIndex := {
  register name a ix := (name, a) :: ix;
  registered := toy_registered
}.

(** ** The writing side *)

(** A byte per document, a lock file and a directory. *)
Definition toy_entries (log : list Document) : list DirEntry := [
  dir_entry (OsUnicode (lit "segment")) (Ok true) (Ok (blen log)) (Ok ((λ _, x2a) <$> log));
  dir_entry (OsUnicode (lit ".tantivy-writer.lock")) (Ok true) (Ok 0) (Ok []);
  dir_entry (OsUnicode (lit "meta.json")) (Ok true) (Ok 2) (Ok [x7b; x7d]);
  dir_entry (OsUnicode (lit "old")) (Ok false) (Ok 0) (Err (io_error Other []))].
#[local] Instance toy_writer : WriterEngine ToySchema (list Document) := {
  TempDir := unit;
  IndexHandle := ToyIndex;
  temp_dir_new := Ok tt;
  create_in_dir _ _ := Ok [];
  writer_with_num_threads _ _ _ := Ok [];
  engine_add_document d log := (Ok tt, log ++ [d]);
  commit log := (Ok tt, log);
  wait_merging_threads log := (Ok tt, log);
  read_dir _ log := Ok (Ok <$> toy_entries log);
  tantivy_version_string := lit "0.26.1"
}.

(** ** The reading side *)
Definition toy_rows : list Z := [7; 9].
Definition toy_row (d : Z) : Z := default 0 (toy_rows !! Z.to_nat d).
(** The words of the documents, all in field 1. *)
Definition toy_words (d : Z) : list str :=
  if d =? 0 then [lit "lake"; lit "format"] else [lit "lake"].
Definition toy_has_term (d : Z) (field : Z) (text : str) : bool :=
  (field =? 1) && bool_decide (text ∈ toy_words d).
Definition toy_matches (q : EngineQuery str) (d : Z) : bool :=
  matches toy_has_term (λ _ _ _ _ _ _, false) (λ _ _, false) d q.
Definition toy_passes (filter : option (str * (Z -> bool))) (d : Z) : bool :=
  match filter with Some (_, f) => f (toy_row d) | None => true end.

#[local] Instance toy_reader {R : Type} : ReaderEngine (MeteredSeekRead R) ToyIndex str := {
  IndexReader := unit;
  Searcher := unit;
  DocAddress := Z;
  runtime_version := lit "0.26.1";
  index_open _ sh := (Ok [], sh);
  index_reader _ sh := (Ok tt, sh);
  searcher_of _ := tt;
  index_api ix := {|
    schema_get_field f := if str_eqb f (lit "text") then Some 1 else None;
    tokenizers_get name := (λ _, split_on (λ c, c =? 32)) <$> toy_registered ix name;
    parse_query _ text := Ok text
  |};
  search_top_docs _ q limit f sh :=
    (Ok ((λ d, (f32_one, d)) <$>
           take (Z.to_nat limit) (filter (λ d, toy_matches q d = true ∧ toy_passes f d = true) [0; 1])), sh);
  fast_field_u64 _ _ d sh := (Ok (toy_row d), sh);
  roaring_deserialize bs := Ok (λ row, bool_decide (row ∈ (Z_of_byte <$> bs)))
}.

(** ** Their laws *)
Lemma toy_field_number_some n names name :
  is_Some (toy_field_number n names name) ↔ name ∈ names.
Proof.
  revert n. induction names as [|x names IH]; intros n; cbn.
  - split; [by intros []|by intros ?%not_elem_of_nil].
  - unfold str_eqb. case_bool_decide as Hx; [subst; split; [left|by eexists]|].
    rewrite IH, elem_of_cons. naive_solver.
Qed.
Lemma toy_field_number_ge n names name k : toy_field_number n names name = Some k → n ≤ k.
Proof.
  revert n. induction names as [|x names IH]; intros n; cbn; [done|].
  destruct (str_eqb x name); [intros [= <-]; lia|]. intros Hk%IH. lia.
Qed.
Lemma toy_field_number_inj n names a b k :
  toy_field_number n names a = Some k → toy_field_number n names b = Some k → a = b.
Proof.
  revert n. induction names as [|x names IH]; intros n; cbn; [done|]. unfold str_eqb.
  case_bool_decide as Ha; case_bool_decide as Hb; subst; try done.
  - intros [= <-] Hk%toy_field_number_ge. lia.
  - intros Hk%toy_field_number_ge [= <-]. lia.
  - apply IH.
Qed.
#[local] Instance toy_schema_laws : SchemaLaws ToySchema.
Proof.
  refine (Build_SchemaLaws ToySchema _ (λ b, b) eq_refl _ _ _).
  - intros name type b Hn. cbn. rewrite bool_decide_false by done. by eexists.
  - intros b name. apply toy_field_number_some.
  - intros b name name' f. apply toy_field_number_inj.
Defined.
#[local] Instance toy_registry_laws : RegistryLaws ToyIndex.
Proof. intros name a ix name'. done. Qed.
