(* ===== verification/WriterSpec.v ===== *)
(** * What the writer promises

    A new writer is ready for exactly the configured fields; every accepted
    document reaches the engine once, under its row id and fields, and is
    counted; a writer writes at most once; a successful write has appended
    the archive of the committed index files, sorted by name. *)

From S2P Require Import Prelude RustStd Error IoLayer Json Tokenizer Config HeaderJson Storage StorageSpec.
From S2P Require Import Analyzer Writer ToyEngine.

(** ** The schema *)
Section SchemaSpec.
Context {Schema : Type} `{SchemaLaws Schema}.

Lemma add_text_fields_ok fields type b :
  NoDup fields → (∀ f, f ∈ fields → f ∉ (added b).*1) →
  ∃ b', add_text_fields fields type b = Some b' ∧ added b' = added b ++ ((λ f, (f, type)) <$> fields).
Proof.
  intros Hnd. revert b. induction Hnd as [|f fields Hf _ IH]; intros b Hb.
  { exists b. by rewrite app_nil_r. }
  destruct (added_field f type b) as (b1 & Hb1 & Ha1); [apply Hb; left|].
  destruct (IH b1) as (b2 & Hb2 & Ha2).
  { intros g Hg. rewrite Ha1, fmap_app, elem_of_app. intros [Hin | Hin].
    - eapply Hb; [by right|done].
    - cbn in Hin. apply list_elem_of_singleton in Hin as ->. done. }
  exists b2. cbn. rewrite Hb1. cbn. rewrite Hb2. split; [done|].
  rewrite Ha2, Ha1, <- app_assoc. done.
Qed.

(** For a valid configuration the schema builder never sees a name twice,
    so building the schema does not panic, and the schema knows the row id
    field and every text field under different numbers. *)
Lemma build_schema_total c :
  FullTextIndexConfig_valid c →
  ∃ schema, build_schema c = Some schema ∧
    (∀ f, is_Some (get_field schema f) ↔ f = row_id_field c ∨ f ∈ text_fields c) ∧
    (∀ f g n, get_field schema f = Some n → get_field schema g = Some n → f = g).
Proof.
  intros Hc. unfold build_schema.
  destruct (added_field (row_id_field c) (U64Field true true true) schema_builder) as (b1 & Hb1 & Ha1).
  { rewrite added_builder. apply not_elem_of_nil. }
  rewrite added_builder in Ha1. cbn in Ha1.
  destruct (add_text_fields_ok (indexed_text_fields c)
    (TextField (tokenizer_name (tokenizer_config_of c))
       (if with_position (tokenizer_config_of c) then WithFreqsAndPositions else WithFreqs)) b1)
    as (b2 & Hb2 & Ha2).
  { apply (NoDup_dedup (text_fields c)). }
  { intros f Hf. apply (elem_of_dedup f (text_fields c)) in Hf. rewrite Ha1. cbn.
    pose proof (valid_names _ Hc) as Hn. rewrite Forall_forall in Hn.
    intros ->%list_elem_of_singleton. by destruct (Hn _ Hf). }
  exists (schema_build b2). rewrite Hb1. cbn. rewrite Hb2. split; [done|]. split.
  - intros f. rewrite get_field_added, Ha2, Ha1. cbn. rewrite elem_of_cons, <- list_fmap_compose.
    rewrite list_fmap_id. by rewrite (elem_of_dedup f (text_fields c)).
  - intros f g n. apply get_field_inj.
Qed.

Lemma insert_text_fields_ok schema names m :
  (∀ f, f ∈ names → is_Some (get_field schema f)) →
  ∃ m', insert_text_fields schema names m = Ok m' ∧
    ∀ f, m' !! f = if bool_decide (f ∈ names) then get_field schema f else m !! f.
Proof.
  revert m. induction names as [|n names IH]; intros m Hn; [by exists m|].
  destruct (Hn n) as [k Hk]; [left|]. destruct (IH (<[n := k]> m)) as (m' & Hm' & Hl).
  { intros f Hf. apply Hn. by right. }
  exists m'. cbn. rewrite Hk. cbn. split; [done|]. intros f. rewrite Hl.
  destruct (decide (f ∈ names)); [by rewrite !bool_decide_true by set_solver|].
  rewrite (bool_decide_false (f ∈ names)) by done. destruct (decide (f = n)) as [->|].
  - rewrite bool_decide_true by left. by rewrite lookup_insert_eq, Hk.
  - rewrite bool_decide_false by set_solver. by rewrite lookup_insert_ne by done.
Qed.
End SchemaSpec.

(** ** Writers *)
Section WriterLaws.
Context `{Unicode} `{AnalysisEngine} {Schema I : Type} `{WriterEngine Schema I}.
Context {laws : SchemaLaws Schema}.

Record writer_ok (w : FullTextIndexWriter) : Prop := {
  wo_config : FullTextIndexConfig_valid (w_config w);
  wo_analyzer : is_ok (build_text_analyzer (tokenizer_config_of (w_config w))) = true;
  wo_count : 0 ≤ w_document_count w ≤ u64_max;
  wo_fields f : is_Some (w_text_fields w !! f) ↔ f ∈ text_fields (w_config w);
  wo_distinct f g n : w_text_fields w !! f = Some n → w_text_fields w !! g = Some n → f = g;
  wo_row_id f : w_text_fields w !! f ≠ Some (w_row_id_field w)
}.

(** The engine panics while it creates an index or its writer. *)
Definition creation_panics (p : Payload) : Prop :=
  (∃ dir schema, create_in_dir dir schema = Err (Panicked p)) ∨
  (∃ index, writer_with_num_threads 1 INDEX_WRITER_MEMORY_BUDGET_BYTES index = Err (Panicked p)).

Lemma new_writer_ok config :
  match FullTextIndexWriter_new config with
  | None => False
  | Some (Ok w) => writer_ok w ∧ w_config w = config ∧ is_Some (w_state w) ∧ w_document_count w = 0
  | Some (Err (Failed (InvalidStorage _))) => False
  | Some (Err (Failed _)) => True
  | Some (Err (Panicked p)) => creation_panics p
  end.
Proof.
  unfold FullTextIndexWriter_new. destruct (validate config) as [[]|e] eqn:Ev; cbn.
  2:{ destruct (validate_err _ _ Ev) as (k & m & ->). done. }
  apply validate_Ok in Ev. destruct temp_dir_new as [dir|e]; cbn; [|done].
  destruct (build_schema_total config Ev) as (schema & -> & Hget & Hinj). cbn.
  destruct (create_in_dir dir schema) as [ix|[e|p]] eqn:Ecreate; cbn; [|done|left; by eexists _, _].
  unfold register_tokenizer. destruct (build_text_analyzer (tokenizer_config_of config)) as [a|e] eqn:Ea; cbn.
  2:{ by destruct (build_text_analyzer_errors _ _ Ea) as (k & m & ->). }
  destruct (proj2 (Hget (row_id_field config))) as [rid Hrid]; [by left|]. rewrite Hrid. cbn.
  unfold text_field_map.
  destruct (insert_text_fields_ok schema (indexed_text_fields config) ∅) as (m & Hm & Hl).
  { intros f Hf. apply (elem_of_dedup f (text_fields config)) in Hf. apply Hget. by right. }
  rewrite Hm. cbn. destruct (writer_with_num_threads _ _ _) as [iw|[e|p]] eqn:Ethreads; cbn; [|done|right; by eexists].
  split_and!; try done.
  assert (∀ f n, m !! f = Some n → f ∈ text_fields config ∧ get_field schema f = Some n) as Hm'.
  { intros f n Hf. rewrite Hl in Hf. case_bool_decide as Hin; [|done]. split; [|done].
    by apply (elem_of_dedup f (text_fields config)). }
  split; cbn; try done.
  - by rewrite Ea.
  - intros f. split; [intros [n Hn]; by apply (Hm' f n)|]. intros Hf. rewrite Hl.
    rewrite bool_decide_true by (by apply (elem_of_dedup f (text_fields config))). apply Hget. by right.
  - intros f g n Hf Hg. apply Hm' in Hf as [_ Hf]. apply Hm' in Hg as [_ Hg]. by eapply Hinj.
  - intros f Hf. apply Hm' in Hf as [Hin Hf]. pose proof (Hinj _ _ _ Hf Hrid) as ->.
    pose proof (valid_names _ Ev) as Hn. rewrite Forall_forall in Hn. by destruct (Hn _ Hin).
Qed.

(** C38: creating a writer never panics on a repeated field, and not at all
    unless the engine does while it creates the index or its writer; it fails
    for an invalid configuration, an analyzer that cannot be built, or a
    failing file system or engine, and never because a field is missing; a
    created writer is empty, ready, and has a field of its own for the row ids
    and for each configured name. *)
Theorem writer_new config :
  match FullTextIndexWriter_new config with
  | None => False
  | Some (Ok w) => writer_ok w ∧ w_config w = config ∧ is_Some (w_state w) ∧ w_document_count w = 0
  | Some (Err (Failed (InvalidStorage _))) => False
  | Some (Err (Failed _)) => True
  | Some (Err (Panicked p)) => creation_panics p
  end.
Proof. apply new_writer_ok. Qed.

(** ** Adding documents *)
Record admissible (w : FullTextIndexWriter) (row_id : Z) (fields : list (str * str)) : Prop := {
  adm_row : 0 ≤ row_id;
  adm_state : is_Some (w_state w);
  adm_count : w_document_count w < u64_max;
  adm_some : fields ≠ [];
  adm_fields : Forall (λ f : str * str, f.1 ∈ text_fields (w_config w)) fields
}.
Definition field_value (w : FullTextIndexWriter) (f : str * str) : Z * FieldValue :=
  (default 0 (w_text_fields w !! f.1), Text f.2).
Definition document_of (w : FullTextIndexWriter) (row_id : Z) (fields : list (str * str)) : Document :=
  (w_row_id_field w, U64 row_id) :: (field_value w <$> fields).
Definition with_engine (iw : I) (count : Z) (w : FullTextIndexWriter) : FullTextIndexWriter :=
  full_text_index_writer (w_config w) ((λ st, writer_state iw (temp_dir st)) <$> w_state w)
    (w_row_id_field w) (w_text_fields w) count.

Lemma validate_indexed_field_ok w f :
  writer_ok w →
  (f ∈ text_fields (w_config w) → validate_indexed_field (w_config w) f = Ok tt) ∧
  (f ∉ text_fields (w_config w) → ∃ msg, validate_indexed_field (w_config w) f = Err (InvalidStorage msg)).
Proof.
  intros Hw. pose proof (elem_of_dedup f (text_fields (w_config w))) as Hd.
  change (dedup_preserve_order (text_fields (w_config w))) with (indexed_text_fields (w_config w)) in Hd.
  unfold validate_indexed_field, invalid_storage. destruct (is_empty (trim f)) eqn:Ee.
  - split; [|eauto]. intros Hf. pose proof (valid_names _ (wo_config _ Hw)) as Hn.
    rewrite Forall_forall in Hn. apply is_empty_true in Ee. by destruct (Hn _ Hf).
  - split; intros Hf; [by rewrite bool_decide_true by (by apply Hd)|].
    rewrite bool_decide_false by (by rewrite Hd). eauto.
Qed.

Lemma add_fields_spec w fields doc has :
  writer_ok w →
  if bool_decide (Forall (λ f : str * str, f.1 ∈ text_fields (w_config w)) fields)
  then add_fields (w_config w) (w_text_fields w) fields doc has
       = Ok (doc ++ (field_value w <$> fields), has || negb (is_empty fields))
  else ∃ msg, add_fields (w_config w) (w_text_fields w) fields doc has = Err (InvalidStorage msg).
Proof.
  intros Hw. revert doc has. induction fields as [|[n t] fields IH]; intros doc has.
  { rewrite bool_decide_true by constructor. cbn. by rewrite app_nil_r, orb_false_r. }
  cbn [add_fields]. destruct (validate_indexed_field_ok w n Hw) as [Hok Herr].
  destruct (decide (n ∈ text_fields (w_config w))) as [Hn|Hn].
  2:{ rewrite bool_decide_false by (by inversion 1). destruct (Herr Hn) as [msg ->]. by exists msg. }
  rewrite Hok by done. cbn [mbind result_bind].
  destruct (proj2 (wo_fields _ Hw n) Hn) as [k Hk]. rewrite Hk. cbn [ok_or mbind result_bind].
  specialize (IH (doc ++ [(k, Text t)]) true).
  destruct (decide (Forall (λ f : str * str, f.1 ∈ text_fields (w_config w)) fields)) as [Hf|Hf].
  - rewrite bool_decide_true in IH |- * by (by constructor || done). rewrite IH. cbn.
    rewrite orb_true_r, <- app_assoc. cbn. unfold field_value at 2. cbn. by rewrite Hk.
  - rewrite bool_decide_false in IH |- * by (done || by inversion 1). exact IH.
Qed.

Lemma writer_ok_engine w iw count :
  writer_ok w → 0 ≤ count ≤ u64_max → writer_ok (with_engine iw count w).
Proof. intros [] Hc. by split. Qed.

(** A document is handed to the engine exactly when its row id is not
    negative, the writer has not been written, the count does not overflow and
    every named field is a configured one (and there is one); the document the
    engine gets is the row id under its field and each text under the field
    of its name, in order; the count goes up exactly when the engine accepts
    it, and any other document leaves the writer as it was. *)
Lemma add_document_fields_spec w row_id fields :
  writer_ok w → row_id ≤ i64_max →
  let '(r, w') := add_document_fields row_id fields w in
  writer_ok w' ∧
  (admissible w row_id fields → ∃ st, w_state w = Some st ∧
     let '(accepted, iw) := engine_add_document (document_of w row_id fields) (index_writer st) in
     r = map_err (map_fault Tantivy) accepted ∧
     w' = with_engine iw (w_document_count w + if is_ok accepted then 1 else 0) w) ∧
  (¬ admissible w row_id fields → (∃ msg, r = Err (Failed (InvalidStorage msg))) ∧ w' = w).
Proof.
  intros Hw Hrow. unfold add_document_fields, already_finalized, invalid_storage.
  assert (∀ msg, ¬ admissible w row_id fields →
    let '(r, w') := (Err (Failed (InvalidStorage msg)), w) : result (Fault FtIndexError) unit * FullTextIndexWriter in
    writer_ok w' ∧
    (admissible w row_id fields → ∃ st, w_state w = Some st ∧
       let '(accepted, iw) := engine_add_document (document_of w row_id fields) (index_writer st) in
       r = map_err (map_fault Tantivy) accepted ∧
       w' = with_engine iw (w_document_count w + if is_ok accepted then 1 else 0) w) ∧
    (¬ admissible w row_id fields → (∃ msg, r = Err (Failed (InvalidStorage msg))) ∧ w' = w)) as Hreject.
  { intros msg Hn. split_and!; [done|done|]. by eauto. }
  destruct (Z.ltb_spec row_id 0); cbn [mbind result_bind].
  { apply Hreject. intros []. lia. }
  destruct (w_state w) as [st|] eqn:Est; cbn [ok_or mbind result_bind].
  2:{ apply Hreject. intros []. by rewrite Est in *; destruct adm_state0. }
  unfold checked_add. destruct (Z.leb_spec (w_document_count w + 1) u64_max); cbn [ok_or mbind result_bind].
  2:{ apply Hreject. intros []. lia. }
  pose proof (add_fields_spec w fields [(w_row_id_field w, U64 (i64_as_u64 row_id))] false Hw) as Hf.
  case_bool_decide as Hnames.
  2:{ destruct Hf as [msg ->]. apply Hreject. by intros []. }
  rewrite Hf. cbn [mbind result_bind fst snd orb]. rewrite negb_involutive.
  destruct (is_empty fields) eqn:Ee.
  { apply Hreject. apply is_empty_true in Ee. by intros []. }
  assert ([(w_row_id_field w, U64 (i64_as_u64 row_id))] ++ (field_value w <$> fields)
    = document_of w row_id fields) as ->.
  { unfold document_of, i64_as_u64. rewrite Z.mod_small; [done|]. unfold i64_max in *. lia. }
  assert (admissible w row_id fields) as Hadm.
  { split; [lia|by eexists|lia|by apply is_empty_false|done]. }
  pose proof (wo_count _ Hw) as Hc.
  destruct (engine_add_document (document_of w row_id fields) (index_writer st)) as [r iw] eqn:Er.
  assert (∀ n, full_text_index_writer (w_config w) (Some (writer_state iw (temp_dir st)))
    (w_row_id_field w) (w_text_fields w) n = with_engine iw n w) as Hwith.
  { intros n. unfold with_engine. by rewrite Est. }
  rewrite !Hwith.
  destruct r as [[]|e]; (split; [apply writer_ok_engine; [done|lia]|]);
    (split; [|by intros []]); intros _; exists st; rewrite Er; split_and!; try done; cbn; f_equal; lia.
Qed.

Lemma add_document_fields_keeps w row_id fields :
  row_id ≤ i64_max → writer_ok w → writer_ok (add_document_fields row_id fields w).2.
Proof.
  intros Hr Hw. pose proof (add_document_fields_spec w row_id fields Hw Hr) as Ha.
  destruct (add_document_fields row_id fields w). apply Ha.
Qed.
Lemma add_document_keeps w row_id text :
  row_id ≤ i64_max → writer_ok w → writer_ok (add_document row_id text w).2.
Proof. apply add_document_fields_keeps. Qed.

(** The engine's log of documents: one whose addition fails is not in it. *)
Class LogsDocuments (docs_of : I -> list Document) : Prop := {
  add_ok d i i' : engine_add_document d i = (Ok tt, i') → docs_of i' = docs_of i ++ [d];
  add_err d i e i' : engine_add_document d i = (Err e, i') → docs_of i' = docs_of i
}.

Fixpoint run_adds (ops : list (Z * list (str * str))) (w : FullTextIndexWriter) :
    list (result (Fault FtIndexError) unit) * FullTextIndexWriter :=
  match ops with
  | [] => ([], w)
  | op :: ops' =>
      let '(r, w1) := add_document_fields op.1 op.2 w in
      let '(rs, w2) := run_adds ops' w1 in (r :: rs, w2)
  end.
(** The operations that returned [Ok]. *)
Fixpoint succeeded {A} (ops : list A) (rs : list (result (Fault FtIndexError) unit)) : list A :=
  match ops, rs with
  | op :: ops', r :: rs' => if is_ok r then op :: succeeded ops' rs' else succeeded ops' rs'
  | _, _ => []
  end.

Lemma run_adds_spec docs_of `{!LogsDocuments docs_of} ops w st :
  writer_ok w → w_state w = Some st → Forall (λ op, op.1 ≤ i64_max) ops →
  let '(rs, w') := run_adds ops w in
  let accepted := succeeded ops rs in
  ∃ st', w_state w' = Some st' ∧ writer_ok w' ∧ w_config w' = w_config w ∧ temp_dir st' = temp_dir st ∧
    docs_of (index_writer st')
    = docs_of (index_writer st) ++ ((λ op, document_of w op.1 op.2) <$> accepted) ∧
    w_document_count w' = w_document_count w + blen accepted.
Proof.
  intros Hw Hst Hops. revert w st Hw Hst.
  induction Hops as [|[row fs] ops Hrow _ IH]; intros w st Hw Hst; cbn [run_adds fst snd].
  { exists st. cbn. rewrite app_nil_r, Z.add_0_r. done. }
  pose proof (add_document_fields_spec w row fs Hw Hrow) as Hadd.
  destruct (add_document_fields row fs w) as [r w1] eqn:Ea. destruct Hadd as (Hw1 & Hadm & Hrej).
  assert (∃ st1, w_state w1 = Some st1 ∧ temp_dir st1 = temp_dir st ∧ w_config w1 = w_config w ∧
    (∀ row fs, document_of w1 row fs = document_of w row fs) ∧
    docs_of (index_writer st1) = docs_of (index_writer st) ++ (if is_ok r then [document_of w row fs] else []) ∧
    w_document_count w1 = w_document_count w + (if is_ok r then 1 else 0)) as (st1 & Hst1 & Hdir & Hcfg & Hdoc & Hlog & Hcount).
  { destruct (is_ok r) eqn:Er.
    - assert (admissible w row fs) as Ha.
      { split; [|by rewrite Hst|..]; 
        destruct (decide (0 ≤ row ∧ w_document_count w < u64_max ∧ fs ≠ [] ∧
          Forall (λ f : str * str, f.1 ∈ text_fields (w_config w)) fs)) as [(?&?&?&?)|Hn]; try done;
        (destruct Hrej as [[msg ->] _]; [by intros []; naive_solver|done]). }
      destruct (Hadm Ha) as (st0 & Hst0 & He). rewrite Hst in Hst0. injection Hst0 as <-.
      destruct (engine_add_document _ _) as [acc iw] eqn:Ee. destruct He as [-> ->].
      destruct acc as [[]|]; [|done]. exists (writer_state iw (temp_dir st)). cbn. rewrite Hst. cbn.
      split_and!; try done. by apply add_ok in Ee.
    - destruct (decide (0 ≤ row ∧ w_document_count w < u64_max ∧ fs ≠ [] ∧
          Forall (λ f : str * str, f.1 ∈ text_fields (w_config w)) fs)) as [(?&?&?&?)|Hn].
      + destruct Hadm as (st0 & Hst0 & He); [by split; rewrite ?Hst|].
        rewrite Hst in Hst0. injection Hst0 as <-.
        destruct (engine_add_document _ _) as [acc iw] eqn:Ee. destruct He as [-> ->].
        destruct acc as [[]|]; [done|]. exists (writer_state iw (temp_dir st)). cbn. rewrite Hst. cbn.
        split_and!; try done. rewrite app_nil_r. by apply add_err in Ee.
      + destruct Hrej as [_ ->]; [by intros []; naive_solver|]. exists st.
        by rewrite app_nil_r, Z.add_0_r. }
  specialize (IH w1 st1 Hw1 Hst1). destruct (run_adds ops w1) as [rs w2].
  destruct IH as (st2 & Hst2 & Hw2 & Hcfg2 & Hdir2 & Hlog2 & Hcount2).
  exists st2. split_and!; try done; try congruence.
  - rewrite Hlog2, Hlog, <- app_assoc. f_equal. cbn [succeeded]. destruct (is_ok r); cbn [app fmap list_fmap fst snd].
    + f_equal. apply list_fmap_ext. intros _ op _. apply Hdoc.
    + apply list_fmap_ext. intros _ op _. apply Hdoc.
  - rewrite Hcount2, Hcount. cbn [succeeded]. destruct (is_ok r); rewrite ?blen_cons; lia.
Qed.

(** C18: after any sequence of additions the engine has been given exactly the
    documents whose addition returned [Ok], once each and in order, and the
    document count is their number. *)
Theorem adds_counted docs_of `{!LogsDocuments docs_of} ops w st :
  writer_ok w → w_state w = Some st → Forall (λ op, op.1 ≤ i64_max) ops →
  let '(rs, w') := run_adds ops w in
  let accepted := succeeded ops rs in
  ∃ st', w_state w' = Some st' ∧ writer_ok w' ∧ w_config w' = w_config w ∧ temp_dir st' = temp_dir st ∧
    docs_of (index_writer st')
    = docs_of (index_writer st) ++ ((λ op, document_of w op.1 op.2) <$> accepted) ∧
    w_document_count w' = w_document_count w + blen accepted.
Proof. intros Hw Hst Hops. exact (run_adds_spec docs_of ops w st Hw Hst Hops). Qed.
End WriterLaws.

(** ** Collecting the files *)

(** What a file system promises about the directory of a finished index: the
    names of the entries are different plain names, and the files do not
    change any more. *)
Record listing_sound (entries : list DirEntry) : Prop := {
  ls_names : NoDup (file_name <$> entries);
  ls_plain e n : e ∈ entries → file_name e = OsUnicode n → components n = [Normal n];
  ls_length e n c : e ∈ entries → metadata_len e = Ok n → open_file e = Ok c → n = blen c
}.
Definition archived (e : DirEntry) (n : str) : Prop :=
  is_file e = Ok true ∧ file_name e = OsUnicode n ∧ ends_with n (lit ".lock") = false.
Definition path_le (p q : DirEntry) : Prop := path_leb p q = true.

Lemma StronglySorted_sublist {A} (R : A -> A -> Prop) l k :
  l `sublist_of` k → StronglySorted R k → StronglySorted R l.
Proof.
  induction 1 as [|x l k Hs IH|x l k Hs IH]; intros Hk; [constructor| |];
    apply StronglySorted_inv in Hk as [Hk Hx]; [|by apply IH].
  constructor; [by apply IH|]. rewrite Forall_forall in Hx |- *. intros y Hy. apply Hx.
  by eapply elem_of_sublist.
Qed.

Lemma bytes_leb_total a b : bytes_leb a b = true ∨ bytes_leb b a = true.
Proof.
  revert b. induction a as [|x a IH]; intros [|y b]; cbn; auto.
  rewrite (Z.eqb_sym (Z_of_byte y)). destruct (Z.eqb_spec (Z_of_byte x) (Z_of_byte y)); [apply IH|].
  rewrite !Z.ltb_lt. lia.
Qed.
Lemma bytes_leb_trans a b c : bytes_leb a b = true → bytes_leb b c = true → bytes_leb a c = true.
Proof.
  revert b c. induction a as [|x a IH]; intros [|y b] [|z c]; cbn; try done.
  destruct (Z.eqb_spec (Z_of_byte x) (Z_of_byte y)), (Z.eqb_spec (Z_of_byte y) (Z_of_byte z)),
    (Z.eqb_spec (Z_of_byte x) (Z_of_byte z)); rewrite ?Z.ltb_lt; try lia. apply IH.
Qed.

Lemma insert_path_Permutation p l : insert_path p l ≡ₚ p :: l.
Proof.
  induction l as [|q l IH]; cbn; [done|]. destruct (path_leb p q); [done|].
  rewrite IH. apply Permutation_swap.
Qed.
Lemma sort_paths_Permutation l : sort_paths l ≡ₚ l.
Proof. induction l as [|p l IH]; [done|]. cbn. rewrite insert_path_Permutation. by constructor. Qed.
Lemma insert_path_sorted p l : StronglySorted path_le l → StronglySorted path_le (insert_path p l).
Proof.
  induction 1 as [|q l Hl IH Hq]; cbn; [by repeat constructor|].
  destruct (path_leb p q) eqn:E.
  - constructor; [by constructor|]. constructor; [done|]. eapply Forall_impl; [exact Hq|].
    intros r Hr. by eapply bytes_leb_trans.
  - constructor; [done|]. rewrite insert_path_Permutation. constructor; [|done].
    destruct (bytes_leb_total (os_bytes (file_name p)) (os_bytes (file_name q))) as [Ht|]; [|done].
    unfold path_leb in E. congruence.
Qed.
Lemma sort_paths_sorted l : StronglySorted path_le (sort_paths l).
Proof. induction l; [constructor|]. by apply insert_path_sorted. Qed.

Lemma collect_paths_Ok listed paths :
  collect_paths listed = Ok paths →
  ∃ entries, listed = Ok <$> entries ∧ (∀ e, e ∈ paths ↔ e ∈ entries ∧ is_file e = Ok true) ∧
    paths `sublist_of` entries.
Proof.
  revert paths. induction listed as [|entry listed IH]; intros paths Hp; cbn in Hp.
  { injection Hp as <-. exists []. split; [done|]. split; [set_solver|done]. }
  apply bind_Ok in Hp as (e & He & Hp). apply map_err_Ok in He as ->.
  apply bind_Ok in Hp as (file & Hfile%map_err_Ok & Hp). apply bind_Ok in Hp as (paths' & Hp' & [= <-]).
  destruct (IH _ Hp') as (entries & -> & Hin & Hsub). exists (e :: entries). split; [done|].
  destruct file.
  - split; [|by apply sublist_skip]. intros x. rewrite !elem_of_cons, Hin. naive_solver.
  - split; [|by apply sublist_cons]. intros x. rewrite Hin, elem_of_cons. split; [naive_solver|].
    intros [[-> | ?] Hx]; [congruence|done].
Qed.

Lemma collect_files_Ok paths files :
  collect_files paths = Ok files →
  (if_path <$> files) `sublist_of` paths ∧
  Forall (λ f, file_name (if_path f) = OsUnicode (if_name f) ∧ ends_with (if_name f) (lit ".lock") = false ∧
               metadata_len (if_path f) = Ok (if_length f)) files ∧
  (∀ e n, e ∈ paths → file_name e = OsUnicode n → ends_with n (lit ".lock") = false →
     e ∈ if_path <$> files).
Proof.
  revert files. induction paths as [|p paths IH]; intros files Hf; cbn [collect_files] in Hf.
  { injection Hf as <-. split; [done|]. split; [constructor|set_solver]. }
  apply bind_Ok in Hf as (n & Hn%ok_or_Ok & Hf).
  assert (file_name p = OsUnicode n) as Hname by (destruct (file_name p); naive_solver).
  destruct (ends_with n (lit ".lock")) eqn:Elock.
  - destruct (IH _ Hf) as (Hsub & Hall & Hin). split; [by apply sublist_cons|]. split; [done|].
    intros e m [-> | He]%elem_of_cons Hm Hlock; [congruence|eauto].
  - apply bind_Ok in Hf as (len & Hlen%map_err_Ok & Hf). apply bind_Ok in Hf as (files' & Hf' & [= <-]).
    destruct (IH _ Hf') as (Hsub & Hall & Hin). split; [by apply sublist_skip|]. split; [by constructor|].
    intros e m [-> | He]%elem_of_cons Hm Hlock; cbn; [left|right; eauto].
Qed.

(** The files that go into an archive are exactly the regular files of the
    directory that are not lock files, each once, in the order of their names,
    whatever order the directory lists them in. *)
Lemma collect_index_files_exact listed files :
  collect_index_files (Ok listed) = Ok files →
  ∃ entries, listed = Ok <$> entries ∧
    (∀ e n, (e ∈ entries ∧ archived e n) ↔ ∃ f, f ∈ files ∧ if_path f = e ∧ if_name f = n) ∧
    StronglySorted path_le (if_path <$> files) ∧
    (NoDup (file_name <$> entries) → NoDup (if_name <$> files)).
Proof.
  unfold collect_index_files. cbn. intros Hf. apply bind_Ok in Hf as (paths & Hp & Hf).
  destruct (collect_paths_Ok _ _ Hp) as (entries & -> & Hin & Hsubp).
  destruct (collect_files_Ok _ _ Hf) as (Hsub & Hall & Hcomp). rewrite Forall_forall in Hall.
  exists entries. split; [done|]. split; [|split].
  - intros e n. split.
    + intros (He & Hfile & Hname & Hlock).
      assert (e ∈ if_path <$> files) as Hef.
      { eapply Hcomp; [|done..]. rewrite sort_paths_Permutation. by apply Hin. }
      apply list_elem_of_fmap in Hef as (f & -> & Hff). exists f. split_and!; try done.
      destruct (Hall f Hff) as (Hn & _). congruence.
    + intros (f & Hff & <- & <-). destruct (Hall f Hff) as (Hn & Hlock & _).
      assert (if_path f ∈ paths) as Hfp.
      { rewrite <- (sort_paths_Permutation paths). eapply elem_of_sublist; [by apply list_elem_of_fmap_2|exact Hsub]. }
      apply Hin in Hfp as [He Hfile]. done.
  - eapply StronglySorted_sublist; [exact Hsub|apply sort_paths_sorted].
  - intros Hnd. assert (NoDup (file_name <$> (if_path <$> files))) as Hnd'.
    { eapply sublist_NoDup; [|apply fmap_sublist, Hsub]. rewrite sort_paths_Permutation.
      eapply sublist_NoDup; [exact Hnd|]. by apply fmap_sublist. }
    rewrite <- list_fmap_compose in Hnd'. apply (NoDup_fmap_1 OsUnicode).
    rewrite <- list_fmap_compose.
    erewrite list_fmap_ext; [exact Hnd'|]. intros i f Hi. cbn.
    destruct (Hall f) as [Hn _]; [by eapply list_elem_of_lookup_2|]. done.
Qed.

(** ** Writing *)
Section WriteSpec.
Context `{Unicode} `{AnalysisEngine} {Schema I : Type} `{WriterEngine Schema I}.
Context `{JsonText} {W : Type} `{SeekWrite W}.

(** The operations of a writer, with the output a write goes to. *)
Inductive WriterOp : Type :=
| OpAddDocument (row_id : Z) (text : str)
| OpAddFields (row_id : Z) (fields : list (str * str))
| OpWrite.
Definition run_op (op : WriterOp) : ST (FullTextIndexWriter * W) (Fault FtIndexError) unit := λ '(w, out),
  match op with
  | OpAddDocument row_id text => let '(r, w') := add_document row_id text w in (r, (w', out))
  | OpAddFields row_id fields => let '(r, w') := add_document_fields row_id fields w in (r, (w', out))
  | OpWrite => write (w, out)
  end.
Fixpoint run_ops (ops : list WriterOp) (s : FullTextIndexWriter * W) :
    list (result (Fault FtIndexError) unit) * (FullTextIndexWriter * W) :=
  match ops with
  | [] => ([], s)
  | op :: ops' =>
      let '(r, s1) := run_op op s in let '(rs, s2) := run_ops ops' s1 in (r :: rs, s2)
  end.

Lemma finalized_op op w out :
  w_state w = None → ∃ msg, run_op op (w, out) = (Err (Failed (InvalidStorage msg)), (w, out)).
Proof.
  intros Hw. assert (∀ r fs, ∃ msg, add_document_fields r fs w = (Err (Failed (InvalidStorage msg)), w)) as Hadd.
  { intros r fs. unfold add_document_fields. rewrite Hw. destruct (r <? 0); by eexists. }
  destruct op as [r t|r fs|]; cbn.
  - unfold add_document. destruct (Hadd r [(default_text_field (w_config w), t)]) as [msg ->]. by exists msg.
  - destruct (Hadd r fs) as [msg ->]. by exists msg.
  - rewrite Hw. by eexists.
Qed.

Lemma write_finalizes w out : w_state (write (w, out)).2.1 = None.
Proof.
  unfold write. destruct (w_state w) as [st|] eqn:Est; [|done].
  destruct ((commit ≫= _) (index_writer st)) as [fin iw]. case_match; [|done].
  case_match. by case_match.
Qed.

Lemma write_writer_ok w out : writer_ok w → writer_ok (write (w, out)).2.1.
Proof.
  intros []. unfold write. destruct (w_state w) as [st|] eqn:Est; [|by split].
  destruct ((commit ≫= _) (index_writer st)) as [fin iw]. case_match; [|by split].
  case_match. case_match. by split.
Qed.

(** C19: a write attempt is the last operation that does anything, whether it
    succeeded or failed: every later operation fails, and changes neither the
    writer nor the output. *)
Theorem write_single_use w out later :
  let s := (run_op OpWrite (w, out)).2 in
  (run_ops later s).2 = s ∧ Forall (λ r, is_ok r = false) (run_ops later s).1 ∧
  List.length (run_ops later s).1 = List.length later.
Proof.
  cbn zeta. change (run_op OpWrite (w, out)) with (write (w, out)). pose proof (write_finalizes w out) as Hw.
  destruct (write (w, out)).2 as [w' out']. cbn in Hw.
  induction later as [|op later (IH1 & IH2 & IH3)]; [done|]. cbn [run_ops].
  destruct (finalized_op op w' out' Hw) as [msg ->].
  destruct (run_ops later (w', out')) as [rs s2]. cbn in *. by split_and!; [|constructor|congruence].
Qed.

Context (written : W -> list byte) `{!Appends W written}.

(** The contents of a collected file. *)
Definition contents_of (f : IndexFile) : str * list byte :=
  (if_name f, match open_file (if_path f) with Ok c => c | Err _ => [] end).

Lemma layout_files_layout files o entries :
  layout_files files o = Ok entries →
  Forall (λ f, if_length f = blen (contents_of f).2) files → entries = layout o (contents_of <$> files).
Proof.
  intros Hl Hf. revert o entries Hl. induction Hf as [|f files Hlen _ IH]; intros o entries Hl; cbn in Hl.
  { by injection Hl as <-. }
  apply bind_Ok in Hl as (next & Hn%ok_or_Ok & Hl). apply bind_Ok in Hl as (es & Hes & [= <-]).
  apply checked_add_Some in Hn as [_ ->]. apply IH in Hes as ->. cbn. by rewrite Hlen.
Qed.

Lemma layout_lengths files o entries :
  layout_files files o = Ok entries → length <$> entries = if_length <$> files.
Proof.
  revert o entries. induction files as [|f files IH]; intros o entries Hl; cbn in Hl.
  { by injection Hl as <-. }
  apply bind_Ok in Hl as (next & _ & Hl). apply bind_Ok in Hl as (es & Hes & [= <-]).
  cbn. f_equal. by eapply IH.
Qed.

Lemma ST_forM_Ok {S E A} (f : A -> ST S E unit) l s s' :
  ST_forM f l s = (Ok tt, s') → Forall (λ x, ∃ s s', f x s = (Ok tt, s')) l.
Proof.
  revert s. induction l as [|x l IH]; intros s Hs; [constructor|].
  cbn in Hs. apply ST_bind_Ok in Hs as ([] & s1 & Hx & Hl). constructor; eauto.
Qed.

(** A successful write has opened every path, and its header fits. *)
Lemma write_from_paths_Ok {P} (open : P -> result IoError (list byte)) h paths w w' :
  write_envelope_from_paths open h paths w = (Ok tt, w') →
  (∃ text, json_to_vec (IndexHeader_to_json h) = Ok text ∧ blen text ≤ MAX_HEADER_BYTES) ∧
  Forall (λ ep, ∃ c, open ep.2 = Ok c) (zip (files h) paths).
Proof.
  unfold write_envelope_from_paths. destruct (negb _); [done|]. intros Hw.
  apply ST_bind_Ok in Hw as ([] & w1 & Hh & Hw). apply ST_bind_Ok in Hw as ([] & w2 & Hf & _).
  split.
  - unfold write_envelope_header in Hh. apply ST_bind_Ok in Hh as (text & w3 & Ht & Hh).
    unfold ST_lift in Ht. injection Ht as Ht <-. apply map_err_Ok in Ht. exists text. split; [done|].
    destruct (Z.ltb_spec MAX_HEADER_BYTES (blen text)); [done|lia].
  - apply ST_forM_Ok in Hf. eapply Forall_impl; [exact Hf|]. intros ep (s & s' & Hs).
    apply ST_bind_Ok in Hs as (c & s1 & Hc & _). unfold ST_lift in Hc. injection Hc as Hc _.
    apply map_err_Ok in Hc. by exists c.
Qed.

(** The directory a write collects: the listing after the commit. *)
Definition committed (w : FullTextIndexWriter) (listed : list (result IoError DirEntry)) : Prop :=
  ∃ st, w_state w = Some st ∧
    read_dir (temp_dir st) ((_ ← commit; wait_merging_threads : ST I (Fault TantivyError) unit) (index_writer st)).2
    = Ok listed.

(** A write that succeeds has opened every path. *)
Lemma opened_files files (es : list ArchiveFileEntry) :
  length <$> es = if_length <$> files →
  Forall (λ ep, ∃ c, open_file ep.2 = Ok c) (zip es (if_path <$> files)) →
  Forall (λ f, ∃ c, open_file (if_path f) = Ok c) files.
Proof.
  revert es. induction files as [|f files IH]; intros [|e es] Hlen Hopen; try done.
  injection Hlen as _ Hlen. apply Forall_cons in Hopen as [Hf Hopen]. constructor; [done|]. by apply (IH es).
Qed.

(** Every file is as long as what it contains when it is opened. *)
Lemma collected_lengths entries files :
  collect_index_files (Ok (Ok <$> entries)) = Ok files → listing_sound entries →
  (∀ f, f ∈ files → if_path f ∈ entries) → Forall (λ f, ∃ c, open_file (if_path f) = Ok c) files →
  Forall (λ f, if_length f = blen (contents_of f).2) files.
Proof.
  intros Hc Hsound Hin Hopened. unfold collect_index_files in Hc. cbn in Hc.
  apply bind_Ok in Hc as (paths & _ & Hc). destruct (collect_files_Ok _ _ Hc) as (_ & Hall & _).
  rewrite Forall_forall in Hall, Hopened |- *.
  intros f Hf. destruct (Hall f Hf) as (_ & _ & Hm). destruct (Hopened f Hf) as [c Hcf].
  unfold contents_of. rewrite Hcf. cbn. eapply (ls_length _ Hsound (if_path f)); [by apply Hin|done..].
Qed.

(** The names are in the order of the paths. *)
Lemma collected_names_sorted files :
  StronglySorted path_le (if_path <$> files) → (∀ f, f ∈ files → file_name (if_path f) = OsUnicode (if_name f)) →
  StronglySorted (λ a b, bytes_leb (as_bytes a) (as_bytes b) = true) (contents_of <$> files).*1.
Proof.
  rewrite <- list_fmap_compose. intros Hsorted Hname.
  induction files as [|f files IH]; [constructor|].
  apply StronglySorted_inv in Hsorted as [Hs Hx]. cbn. constructor.
  { apply IH; [done|]. intros g Hg. apply Hname. by right. }
  apply (proj1 (Forall_fmap _ _ _)) in Hx. apply Forall_fmap. rewrite Forall_forall in Hx |- *.
  intros g Hg. specialize (Hx g Hg). unfold path_le, path_leb in Hx. cbn in Hx.
  rewrite !Hname in Hx by (by left || by right). exact Hx.
Qed.

(** The bodies an envelope has are the contents, in the order of the files. *)
Lemma collected_bodies files o :
  Forall (λ f, ∃ c, open_file (if_path f) = Ok c) files →
  (λ ep : ArchiveFileEntry * DirEntry,
     match open_file ep.2 with Ok c => take (Z.to_nat (length ep.1)) c | Err _ => [] end)
    <$> zip (layout o (contents_of <$> files)) (if_path <$> files)
  = (contents_of <$> files).*2.
Proof.
  intros Hopened. revert o. induction Hopened as [|f files [c Hc] _ IH]; intros o; [done|].
  cbn. rewrite <- (IH (o + blen match open_file (if_path f) with Ok c => c | Err _ => [] end)).
  f_equal. rewrite Hc. by rewrite take_ge by (unfold blen; lia).
Qed.


(** A successful write has appended the archive of the committed index to
    the output: its header holds the configuration, the number of documents
    and the version of the engine, and its body the regular files of the
    directory that are not lock files, with their contents, in the order of
    their names. *)
Lemma write_appends_archive w out w' out' entries :
  write (w, out) = (Ok tt, (w', out')) → committed w (Ok <$> entries) → listing_sound entries →
  let m := index_metadata (w_config w) (w_document_count w) tantivy_version_string in
  ∃ contents text,
    json_to_vec (IndexHeader_to_json (index_header m (layout 0 contents))) = Ok text ∧
    blen text ≤ MAX_HEADER_BYTES ∧
    written out' = written out ++ envelope text (concat contents.*2) ∧
    (∀ e n, e ∈ entries → archived e n → ∃ c, open_file e = Ok c) ∧
    (∀ n c, (n, c) ∈ contents ↔ ∃ e, e ∈ entries ∧ archived e n ∧ open_file e = Ok c) ∧
    StronglySorted (λ a b, bytes_leb (as_bytes a) (as_bytes b) = true) contents.*1 ∧ NoDup contents.*1.
Proof.
  intros Hw (st & Hst & Hdir) Hsound m. unfold write in Hw. rewrite Hst in Hw.
  destruct ((commit ≫= _) (index_writer st)) as [fin iw]. cbn [snd] in Hdir. rewrite Hdir in Hw.
  match type of Hw with (match ?p with _ => _ end = _) => destruct p as [[files h]|e] eqn:Ep; [|done] end.
  apply bind_Ok in Ep as ([] & _ & Ep). apply bind_Ok in Ep as (files' & Hc%map_err_Ok & Ep).
  apply bind_Ok in Ep as (es & Hl%map_err_Ok & [= <- <-]). fold m in Hw.
  destruct (write_envelope_from_paths _ _ _ _) as [r out1] eqn:Ew. injection Hw as ->%map_err_Ok _ <-.
  destruct (write_from_paths_Ok _ _ _ _ _ Ew) as [(text & Ht & Hlen) Hopen].
  destruct (collect_index_files_exact _ _ Hc) as (entries' & Heq%(inj (fmap (M:=list) Ok)) & Hin & Hsorted & Hnd).
  subst entries'.
  assert (∀ f, f ∈ files' → if_path f ∈ entries ∧ archived (if_path f) (if_name f)) as Hfile.
  { intros f Hf. apply Hin. by exists f. }
  pose proof (opened_files files' es (layout_lengths _ _ _ Hl) Hopen) as Hopened.
  pose proof (collected_lengths _ _ Hc Hsound (λ f Hf, proj1 (Hfile f Hf)) Hopened) as Hlens.
  pose proof (layout_files_layout _ _ _ Hl Hlens) as ->.
  exists (contents_of <$> files'), text. pose proof (collected_bodies files' 0 Hopened) as Hbodies.
  rewrite Forall_forall in Hopened. split_and!; try done.
  - pose proof (write_envelope_from_paths_outputs written open_file _ (if_path <$> files') _ Ht out) as Ho.
    rewrite Ew in Ho. rewrite Ho. do 3 f_equal. exact Hbodies.
  - intros e n He Ha. destruct (proj1 (Hin e n)) as (f & Hff & <- & _); [done|]. by apply Hopened.
  - intros n c. split.
    + intros (f & Hf & Hff)%list_elem_of_fmap. destruct (Hopened f Hff) as [c' Hc'].
      unfold contents_of in Hf. rewrite Hc' in Hf. injection Hf as -> ->.
      destruct (Hfile f Hff). by exists (if_path f).
    + intros (e & He & Ha & Hce). destruct (proj1 (Hin e n)) as (f & Hff & <- & <-); [done|].
      apply list_elem_of_fmap. exists f. split; [|done]. unfold contents_of. by rewrite Hce.
  - apply collected_names_sorted; [done|]. intros f Hf. by destruct (Hfile f Hf) as (_ & _ & Hn & _).
  - rewrite <- list_fmap_compose. apply Hnd, Hsound.
Qed.
End WriteSpec.

(** ** A writer to run *)
#[local] Existing Instances toy_platform toy_unicode toy_text toy_analysis toy_schema toy_registry toy_writer
  toy_schema_laws toy_registry_laws.

Definition toy_config : FullTextIndexConfig := FullTextIndexConfig_default.
Definition toy_new : option (result (Fault FtIndexError) (FullTextIndexWriter (Schema := ToySchema) (I := list Document))) :=
  FullTextIndexWriter_new toy_config.
Definition toy_fallback : FullTextIndexWriter (Schema := ToySchema) (I := list Document) :=
  full_text_index_writer toy_config None 0 ∅ 0.
Definition toy_w0 : FullTextIndexWriter (Schema := ToySchema) (I := list Document) :=
  match toy_new with Some (Ok w) => w | _ => toy_fallback end.
Lemma toy_w0_ok : writer_ok toy_w0 ∧ w_config toy_w0 = toy_config ∧
  w_state toy_w0 = Some (writer_state [] tt).
Proof.
  assert (match toy_new with Some r => is_ok r | None => false end = true) as Hnew by (vm_compute; reflexivity).
  pose proof (new_writer_ok (Schema := ToySchema) (I := list Document) toy_config) as Hok.
  fold toy_new in Hok. split; [|split].
  - unfold toy_w0. destruct toy_new as [[w|e]|]; [by destruct Hok|done..].
  - unfold toy_w0. destruct toy_new as [[w|e]|]; [by destruct Hok as (_ & ? & _)|done..].
  - vm_compute. reflexivity.
Qed.

(** Two documents, one with a negative row id and one for an unknown field. *)
Definition toy_adds : list (Z * list (str * str)) :=
  [(7, [(lit "text", lit "lake format")]); (-1, [(lit "text", lit "x")]);
   (8, [(lit "title", lit "x")]); (9, [(lit "text", lit "lake")])].
Lemma adds_counted_witness :
  let '(rs, w') := run_adds toy_adds toy_w0 in
  let accepted := succeeded toy_adds rs in
  ∃ st', w_state w' = Some st' ∧ writer_ok w' ∧ w_config w' = w_config toy_w0 ∧ temp_dir st' = tt ∧
    index_writer st' = [] ++ ((λ op, document_of toy_w0 op.1 op.2) <$> accepted) ∧
    w_document_count w' = w_document_count toy_w0 + blen accepted.
Proof.
  destruct toy_w0_ok as (Hok & _ & Hst).
  assert (LogsDocuments (Schema := ToySchema) (I := list Document) (λ log, log)) as Hlogs.
  { split; [by intros d i i' [= <-]|by intros d i e i']. }
  apply (adds_counted (λ log, log) toy_adds toy_w0 _ Hok Hst).
  repeat constructor; discriminate.
Defined.
