(* ===== verification/ReaderSpec.v ===== *)
(** * What the reader promises

    An archive a writer has written opens again with the writer's
    configuration, document count and analyzer, over a directory that serves
    the collected files; a search returns the row ids of the documents the
    engine found, in its order, within the limit and the filter. *)

From S2P Require Import Prelude RustStd Error IoLayer Json Tokenizer Config HeaderJson Storage StorageSpec.
From S2P Require Import Archive ArchiveSpec Query Analyzer BuildQuery BuildQuerySpec Writer WriterSpec Reader ToyEngine.

(** ** Reading the header does not touch the cache counters *)
Section Counters.
Context `{Platform} `{JsonText} {S : Type} `{SeekRead S} `{MetricsCell S} `{!KeepsCacheMetrics S}.

Lemma read_exact_at_counters p n s :
  cache_counters (metrics_of (read_exact_at p n s).2) = cache_counters (metrics_of s).
Proof.
  unfold read_exact_at, mbind, ST_bind, ST_map_err.
  pose proof (pread_counters [read_request p n] s) as Hc. by destruct (pread _ s) as [[] ?].
Qed.

Lemma read_header_counters s :
  cache_counters (metrics_of (read_header s).2) = cache_counters (metrics_of s).
Proof.
  unfold read_header. pose proof (read_exact_at_counters 0 16 s) as H1'.
  unfold mbind at 1, ST_bind at 1. destruct (read_exact_at 0 16 s) as [[fixed|e] s1]; [|done].
  cbn [snd] in H1'. destruct (negb _); [done|]. destruct (negb _); [done|].
  destruct (MAX_HEADER_BYTES <? _); [done|].
  set (n := u32_from_be_bytes _). pose proof (read_exact_at_counters 16 n s1) as H2'.
  unfold mbind at 1, ST_bind at 1. destruct (read_exact_at 16 n s1) as [[text|e] s2]; cbn [snd] in H2';
    [|cbn [snd]; congruence].
  rewrite <- H1', <- H2'. unfold mbind, ST_bind, ST_lift, mret, ST_ret.
  destruct (map_err Json _); [|done]. by destruct (validate_header _).
Qed.
End Counters.

(** ** Opening what was written *)
Section WriteThenOpen.
Context `{Platform} `{Profile} `{Unicode} `{JsonText} `{AnalysisEngine}.
Context {Schema I : Type} `{WriterEngine Schema I} {laws : SchemaLaws Schema}.
Context {W : Type} `{SeekWrite W} (written : W -> list byte) `{!Appends W written}.
Context {R Ix Parsed : Type} `{SeekRead R} (data_of : R -> list byte).
Context `{!ReadsData R data_of} {max_len : Z} `{!ReadsAll R data_of max_len}.
Context `{ReaderEngine (MeteredSeekRead R) Ix Parsed} `{!RegistryLaws Ix}.

(** The metadata and the collected files make a valid archive. *)
Lemma written_archive_ok w entries contents :
  writer_ok w → TokenizerConfig_typed (tokenizer_config_of (w_config w)) →
  trim tantivy_version_string ≠ [] → listing_sound entries → contents ≠ [] → NoDup contents.*1 →
  (∀ n c, (n, c) ∈ contents → ∃ e, e ∈ entries ∧ archived e n) →
  archive_ok (index_metadata (w_config w) (w_document_count w) tantivy_version_string) contents ∧
  NoDup (components <$> contents.*1).
Proof.
  intros Hok Htyped Hver Hsound Hne Hnd Hin.
  assert (∀ n, n ∈ contents.*1 → components n = [Normal n]) as Hplain.
  { intros n ([n' c] & -> & Hc)%list_elem_of_fmap. apply Hin in Hc as (e & He & (_ & Hn & _)).
    by apply (ls_plain _ Hsound e). }
  split.
  - split; try done; [apply Hok|apply Hok|].
    apply Forall_forall. intros n Hn. exists n. by apply Hplain.
  - eapply (NoDup_fmap_2_strong components); [|exact Hnd]. intros x y Hx Hy E.
    rewrite (Hplain x Hx), (Hplain y Hy) in E. congruence.
Qed.

(** Opening, once the header is read and names an archive the directory takes. *)
Lemma open_after_header i h body_start s dir a :
  read_header (metered i ReadMetrics_default) = (Ok (h, body_start), s) →
  tantivy_version (metadata h) = runtime_version →
  new_with_metrics body_start (files h) = Ok dir →
  build_text_analyzer (tokenizer_config_of (config (metadata h))) = Ok a →
  match index_open dir (new_shared s) with
  | (Err e, _) => FullTextIndexReader_open i = Err (map_fault Tantivy e)
  | (Ok _, shared') => ∃ rd, FullTextIndexReader_open i = Ok rd ∧ fr_shared rd = shared' ∧
      fr_metadata rd = metadata h ∧
      registered (fr_index rd) (tokenizer_name (tokenizer_config_of (config (metadata h)))) = Some a
  end.
Proof.
  intros Hr Hver Hdir Ha. unfold FullTextIndexReader_open, open_on. rewrite Hr. cbn [mbind result_bind].
  unfold validate_tantivy_version. rewrite Hver. unfold str_eqb. rewrite bool_decide_true by done.
  cbn [negb mbind result_bind]. rewrite Hdir. cbn [mbind result_bind].
  destruct (index_open dir (new_shared s)) as [[ix|e] sh']; cbn [map_err mbind result_bind]; [|done].
  unfold register_tokenizer. cbn [fst]. rewrite Ha. cbn [mbind result_bind].
  eexists. split; [reflexivity|]. cbn [fr_shared fr_metadata fr_index]. split_and!; try done.
  rewrite registered_register. by rewrite decide_True.
Qed.

(** A vector can hold each of the files an engine lists. *)
Definition entries_fit (entries : list DirEntry) : Prop :=
  ∀ e n c, e ∈ entries → archived e n → open_file e = Ok c → blen c ≤ isize_max.
Lemma entries_fit_contents entries (contents : list (str * list byte)) :
  entries_fit entries →
  (∀ n c, (n, c) ∈ contents ↔ ∃ e, e ∈ entries ∧ archived e n ∧ open_file e = Ok c) →
  Forall (λ c, blen c ≤ isize_max) contents.*2.
Proof.
  intros Hfit Hin. apply Forall_fmap, Forall_forall. intros [n c] (e & He & Ha & Ho)%Hin. by apply (Hfit e n c).
Qed.

Lemma written_opens w out w' out' entries i :
  writer_ok w → TokenizerConfig_typed (tokenizer_config_of (w_config w)) →
  trim tantivy_version_string ≠ [] → runtime_version = tantivy_version_string →
  written out = [] → write (w, out) = (Ok tt, (w', out')) →
  committed w (Ok <$> entries) → listing_sound entries → (∃ e n, e ∈ entries ∧ archived e n) →
  data_of i = written out' → blen (data_of i) ≤ max_len →
  ∃ contents directory shared,
    (∀ n c, (n, c) ∈ contents ↔ ∃ e, e ∈ entries ∧ archived e n ∧ open_file e = Ok c) ∧
    NoDup contents.*1 ∧ Forall (λ c, blen c ≤ blen (data_of i)) contents.*2 ∧
    (Forall (λ c, blen c ≤ isize_max) contents.*2 →
     ∀ ops, Forall (λ op : str * Z * Z, 0 ≤ op.1.2 ∧ 0 ≤ op.2) ops →
       (run_reads directory ops shared).1 = spec_read contents <$> ops) ∧
    match index_open directory shared with
    | (Err e, _) => FullTextIndexReader_open i = Err (map_fault Tantivy e)
    | (Ok _, shared') => ∃ rd, FullTextIndexReader_open i = Ok rd ∧ fr_shared rd = shared' ∧
        fr_metadata rd = index_metadata (w_config w) (w_document_count w) runtime_version ∧
        (∃ a, build_text_analyzer (tokenizer_config_of (w_config w)) = Ok a ∧
              registered (fr_index rd) (tokenizer_name (tokenizer_config_of (w_config w))) = Some a)
    end.
Proof.
  intros Hok Htyped Hver Hrun Hempty Hwrite Hcom Hsound (e0 & n0 & He0 & Ha0) Hdata Hsize.
  destruct (write_appends_archive written w out w' out' entries Hwrite Hcom Hsound)
    as (contents & text & Hj & Hlen & Hout & Hopened & Hin & Hsorted & Hnd).
  set (m := index_metadata _ _ _) in *. rewrite Hempty in Hout. cbn [app] in Hout.
  rewrite Hout in Hdata. unfold envelope in Hdata. rewrite Hdata in Hsize |- *.
  assert (blen (concat contents.*2) + 16 + blen text ≤ max_len) as Hbody.
  { rewrite blen_app, blen_header_bytes in Hsize. lia. }
  pose proof usize_max_bounds as Hu. pose proof (max_len_addressable (max_len := max_len)) as Hlim. pose proof (blen_nonneg text). pose proof (blen_nonneg (concat contents.*2)).
  assert (contents ≠ []) as Hne.
  { intros ->. destruct (Hopened e0 n0 He0 Ha0) as [c Hc].
    apply (not_elem_of_nil (n0, c)). apply Hin. by exists e0. }
  destruct (written_archive_ok w entries contents) as [Hauth Hcomp]; try done.
  { intros n c (e & He & Ha & _)%Hin. by exists e. }
  destruct (header_text_roundtrip (index_header m (layout 0 contents))) as (text' & Hj' & Hback).
  { apply archive_header_typed; [done|lia]. }
  assert (text' = text) as -> by congruence.
  destruct (read_header_complete (data_of := data_of ∘ inner) (metered i ReadMetrics_default)
    (index_header m (layout 0 contents)) text (concat contents.*2)) as (s1 & Hr & Hd1); cbn [compose inner]; try done.
  { by rewrite Hdata. }
  { destruct Hauth. by apply layout_accepted; try done; lia. }
  pose proof (read_header_counters (metered i ReadMetrics_default)) as Hcnt. rewrite Hr in Hcnt. cbn [snd] in Hcnt.
  cbn [compose inner] in Hd1.
  rewrite <- (app_nil_r (concat contents.*2)) in Hdata, Hsize |- *.
  destruct (served_directory (data_of ∘ inner) contents text [] Hsize) as [dir Hdir].
  exists contents, dir, (new_shared s1). split_and!; try done.
  - apply Forall_fmap, Forall_forall. intros c Hc. cbn [compose].
    pose proof (blen_concat_elem contents.*2 c.2 (list_elem_of_fmap_2 snd _ _ Hc)).
    rewrite !blen_app. pose proof (blen_nonneg (header_bytes text)). pose proof (blen_nonneg (A := byte) []). lia.
  - intros Hfit ops Hops.
    apply (served_reads (data_of ∘ inner) contents text [] Hcomp Hsize Hfit dir ops (new_shared s1) Hdir Hops).
    apply (served_new (data_of ∘ inner) contents text [] Hcomp Hsize); [cbn; by rewrite Hd1|].
    unfold cache_counters in Hcnt. cbn in Hcnt |- *. by injection Hcnt.
  - pose proof (wo_analyzer _ Hok) as Han.
    destruct (build_text_analyzer (tokenizer_config_of (w_config w))) as [a|e] eqn:Ea; [|done].
    pose proof (open_after_header i _ _ s1 dir a Hr (eq_sym Hrun)) as Hopen. cbn [files metadata m config] in Hopen.
    rewrite blen_header_bytes in Hopen. specialize (Hopen Hdir Ea). rewrite Hrun.
    destruct (index_open dir (new_shared s1)) as [[ix|e] sh']; [|done].
    destruct Hopen as (rd & ? & ? & ? & ?). exists rd. split_and!; try done. by exists a.
Qed.

(** C1: an archive that [write] has successfully written to an empty output
    opens again through any reader of its bytes: the engine is given a
    directory that answers every sequence of reads like the map from names to
    contents of the index files the writer collected, and when the engine
    opens it, the reader has the writer's configuration, the number of
    documents, and the writer's analyzer registered under the same name; an
    error or a panic of the engine is what opening ends with.  A vector can
    hold each of the files. *)
Theorem written_archive_opens w out w' out' entries i :
  writer_ok w → TokenizerConfig_typed (tokenizer_config_of (w_config w)) →
  trim tantivy_version_string ≠ [] → runtime_version = tantivy_version_string →
  written out = [] → write (w, out) = (Ok tt, (w', out')) →
  committed w (Ok <$> entries) → listing_sound entries → (∃ e n, e ∈ entries ∧ archived e n) →
  data_of i = written out' → blen (data_of i) ≤ max_len → entries_fit entries →
  ∃ contents directory shared,
    (∀ n c, (n, c) ∈ contents ↔ ∃ e, e ∈ entries ∧ archived e n ∧ open_file e = Ok c) ∧
    NoDup contents.*1 ∧
    (∀ ops, Forall (λ op : str * Z * Z, 0 ≤ op.1.2 ∧ 0 ≤ op.2) ops →
       (run_reads directory ops shared).1 = spec_read contents <$> ops) ∧
    match index_open directory shared with
    | (Err e, _) => FullTextIndexReader_open i = Err (map_fault Tantivy e)
    | (Ok _, shared') => ∃ rd, FullTextIndexReader_open i = Ok rd ∧ fr_shared rd = shared' ∧
        fr_metadata rd = index_metadata (w_config w) (w_document_count w) runtime_version ∧
        (∃ a, build_text_analyzer (tokenizer_config_of (w_config w)) = Ok a ∧
              registered (fr_index rd) (tokenizer_name (tokenizer_config_of (w_config w))) = Some a)
    end.
Proof.
  intros ??????????? Hfit.
  destruct (written_opens w out w' out' entries i) as (contents & dir & sh & Hin & Hnd & _ & Hreads & Hopen);
    try done.
  exists contents, dir, sh. split_and!; try done. by apply Hreads, (entries_fit_contents entries).
Qed.
End WriteThenOpen.

(** ** Searching *)
Section Search.
Context `{Platform} `{Unicode} `{JsonText} `{AnalysisEngine} {R Ix Parsed : Type} `{SeekRead R}.
Context `{ReaderEngine (MeteredSeekRead R) Ix Parsed}.

(** What the engine's documentation says of a searcher: its live documents,
    the row id stored with each, and which leaf queries match them. *)
Context (live : Searcher -> DocAddress -> Prop) (row_of : Searcher -> DocAddress -> Z).
Context (has_term : Searcher -> DocAddress -> Z -> str -> bool).
Context (has_similar : Searcher -> DocAddress -> Z -> str -> Z -> str -> Z -> bool).
Context (parsed_matches : Searcher -> DocAddress -> Parsed -> bool).
Definition passes (se : Searcher) (filter : option (Z -> bool)) (d : DocAddress) : bool :=
  match filter with Some f => f (row_of se d) | None => true end.
Definition matched (se : Searcher) (q : EngineQuery Parsed) (d : DocAddress) : bool :=
  matches (has_term se) (has_similar se) (parsed_matches se) d q.
Class SearchLaws (row_field : str) : Prop := {
  top_docs_ok se q limit filter sh top sh' : 0 ≤ limit →
    search_top_docs se q limit ((λ f, (row_field, f)) <$> filter) sh = (Ok top, sh') →
    NoDup top.*2 ∧ blen top ≤ limit ∧
    (∀ d, d ∈ top.*2 → live se d ∧ matched se q d = true ∧ passes se filter d = true) ∧
    (blen top < limit → ∀ d, live se d → matched se q d = true → passes se filter d = true → d ∈ top.*2);
  fast_field_ok se d sh v sh' :
    live se d → fast_field_u64 se row_field d sh = (Ok v, sh') → v = row_of se d;
  row_of_range se d : live se d → 0 ≤ row_of se d ≤ i64_max
}.

Lemma under_lock_Ok {A} (m : ST FullTextIndexReader (Fault FtIndexError) A) s a s' :
  under_lock m s = (Ok a, s') → m s = (Ok a, s').
Proof. unfold under_lock. destruct (m s) as [[b|e] s1]; [|done]. by intros [= -> ->]. Qed.

Lemma searcher_frame s se s' :
  searcher s = (Ok se, s') → fr_index s' = fr_index s ∧ fr_metadata s' = fr_metadata s.
Proof.
  unfold searcher. destruct (fr_poisoned s); [done|]. destruct (fr_reader s); [by intros [= _ <-]|].
  intros Hs%under_lock_Ok. apply ST_bind_Ok in Hs as (rd & s1 & Ho & Hs). unfold on_shared in Ho.
  destruct (index_reader _ _) as [r sh]. injection Ho as _ <-.
  apply ST_bind_Ok in Hs as ([] & s2 & Hs2 & Hs). injection Hs2 as <-. by injection Hs as _ <-.
Qed.

Lemma collect_rows_Ok row_field `{!SearchLaws row_field} se top rs ss s res s' :
  Forall (λ p, live se p.2) top →
  collect_rows se row_field top rs ss s = (Ok res, s') →
  row_ids res = rs ++ (row_of se <$> top.*2) ∧ scores res = ss ++ top.*1.
Proof.
  intros Hlive. revert rs ss s. induction Hlive as [|[score d] top Hd Hlive IH]; intros rs ss s Hs.
  { injection Hs as <- _. by rewrite !app_nil_r. }
  cbn [collect_rows] in Hs. apply ST_bind_Ok in Hs as (v & s1 & Hv & Hs). unfold on_shared in Hv.
  destruct (fast_field_u64 se row_field d (fr_shared s)) as [[v'|e] sh] eqn:Ef; [|done].
  injection Hv as -> _. pose proof (fast_field_ok se d _ _ _ Hd Ef) as ->.
  pose proof (row_of_range se d Hd) as Hrow.
  destruct (IH _ _ _ Hs) as [-> ->]. rewrite <- !app_assoc. cbn.
  unfold u64_as_i64. destruct (Z.leb_spec (row_of se d) i64_max); [done|lia].
Qed.

(** Every row id comes with a score. *)
Lemma collect_rows_length se row_field top rs ss s res s' :
  List.length rs = List.length ss →
  collect_rows se row_field top rs ss s = (Ok res, s') →
  List.length (row_ids res) = List.length (scores res).
Proof.
  revert rs ss s. induction top as [|[score d] top IH]; intros rs ss s Hl Hs; [by injection Hs as <- _|].
  cbn [collect_rows] in Hs. apply ST_bind_Ok in Hs as (v & s1 & _ & Hs).
  eapply IH; [|exact Hs]. rewrite !length_app. cbn. lia.
Qed.
Lemma search_length query limit filter s res s' :
  search_with_filter query limit filter s = (Ok res, s') →
  List.length (row_ids res) = List.length (scores res).
Proof.
  unfold search_with_filter. destruct (limit =? 0); [done|]. intros Hs.
  do 5 (apply ST_bind_Ok in Hs as (? & ? & _ & Hs)).
  eapply collect_rows_length; [|exact Hs]. done.
Qed.

(** What a successful search has done: decoded and built its query, collected
    the top documents, and pushed the row id and the score of each. *)
Lemma search_collects query limit filter s res s' :
  SearchLaws (row_id_field (config (fr_metadata s))) → 0 ≤ limit →
  search_with_filter query limit filter s = (Ok res, s') →
  ∃ spec se built top sh sh',
    limit ≠ 0 ∧ from_json query = Ok spec ∧
    build_query (index_api (fr_index s)) (config (fr_metadata s)) spec = Ok built ∧
    search_top_docs se built limit ((λ f, (row_id_field (config (fr_metadata s)), f)) <$> filter) sh = (Ok top, sh') ∧
    row_ids res = row_of se <$> top.*2 ∧ scores res = top.*1.
Proof.
  intros Hlaws Hpos Hs. unfold search_with_filter in Hs.
  destruct (Z.eqb_spec limit 0) as [|Hlimit]; [done|].
  apply ST_bind_Ok in Hs as (se & s1 & Hse & Hs). apply searcher_frame in Hse as [Hix Hmeta].
  apply ST_bind_Ok in Hs as (spec & s2 & Hq & Hs). injection Hq as Hq <-. apply map_err_Ok in Hq.
  apply ST_bind_Ok in Hs as (s2 & s3 & Hg & Hs). injection Hg as <- <-.
  apply ST_bind_Ok in Hs as (built & s4 & Hb & Hs). injection Hb as Hb <-. apply map_err_Ok in Hb.
  apply ST_bind_Ok in Hs as (top & s5 & Ht & Hs). rewrite Hix, Hmeta in *. unfold on_shared in Ht.
  destruct (search_top_docs _ _ _ _ _) as [[top'|e] sh] eqn:Etop; [|done]. injection Ht as -> _.
  assert (Forall (λ p, live se p.2) top) as Hlive.
  { destruct (top_docs_ok _ _ _ _ _ _ _ Hpos Etop) as (_ & _ & Hsound & _).
    apply Forall_forall. intros p Hp. by apply Hsound, list_elem_of_fmap_2. }
  destruct (collect_rows_Ok _ _ _ _ _ _ _ _ Hlive Hs) as [Hrows Hscores].
  exists spec, se, built, top, (fr_shared s1), sh. by split_and!.
Qed.

(** The scores the engine gives and the order it returns: [TopDocs] keeps the
    best documents, the best first, when their scores are numbers. *)
Context (score_of : Searcher -> EngineQuery Parsed -> DocAddress -> f32).
Class RankLaws (row_field : str) : Prop := {
  top_docs_ranked se q limit filter sh top sh' : 0 ≤ limit →
    search_top_docs se q limit ((λ f, (row_field, f)) <$> filter) sh = (Ok top, sh') →
    top.*1 = score_of se q <$> top.*2 ∧
    ((∀ d, live se d → matched se q d = true → f32_le (score_of se q d) (score_of se q d) = true) →
     StronglySorted (λ d d', f32_le (score_of se q d') (score_of se q d) = true) top.*2 ∧
     ∀ d d', d ∈ top.*2 → d' ∉ top.*2 → live se d' → matched se q d' = true → passes se filter d' = true →
       f32_le (score_of se q d') (score_of se q d) = true)
}.

(** The answer to a query that decodes to [spec] and builds to [built]: at
    most [limit] distinct live documents that the query describes and the
    filter accepts, none missing when there are fewer than [limit]; unless a
    score is not a number, the scores do not increase, and a document left out
    scores no more than any that is returned. *)
Definition answer (s : FullTextIndexReader) (se : Searcher) (spec : QuerySpec) (built : EngineQuery Parsed)
    (filter : option (Z -> bool)) (limit : Z) (docs : list DocAddress) : Prop :=
  build_query (index_api (fr_index s)) (config (fr_metadata s)) spec = Ok built ∧
  NoDup docs ∧ blen docs ≤ limit ∧
  let described d := describes (has_term se) (has_similar se) (parsed_matches se)
                       (index_api (fr_index s)) (config (fr_metadata s)) d spec in
  let eligible d := live se d ∧ described d = true ∧ passes se filter d = true in
  let scores_less d d' := f32_le (score_of se built d) (score_of se built d') = true in
  (∀ d, d ∈ docs → eligible d) ∧
  (blen docs < limit → ∀ d, eligible d → d ∈ docs) ∧
  ((∀ d, live se d → described d = true → scores_less d d) →
   StronglySorted (λ d d', scores_less d' d) docs ∧
   ∀ d d', d ∈ docs → d' ∉ docs → eligible d' → scores_less d' d).

Lemma search_answers query limit filter s res s' :
  SearchLaws (row_id_field (config (fr_metadata s))) →
  RankLaws (row_id_field (config (fr_metadata s))) → 0 ≤ limit →
  search_with_filter query limit filter s = (Ok res, s') →
  ∃ spec se built docs,
    limit ≠ 0 ∧ from_json query = Ok spec ∧ answer s se spec built filter limit docs ∧
    row_ids res = row_of se <$> docs ∧ scores res = score_of se built <$> docs.
Proof.
  intros Hlaws Hrank Hpos Hs.
  destruct (search_collects query limit filter s res s' Hlaws Hpos Hs)
    as (spec & se & built & top & sh & sh' & Hlimit & Hq & Hb & Etop & Hrows & Hscores).
  destruct (top_docs_ok _ _ _ _ _ _ _ Hpos Etop) as (Hnd & Hlen & Hsound & Hcomplete).
  destruct (top_docs_ranked _ _ _ _ _ _ _ Hpos Etop) as [Hown Hbest].
  assert (∀ d, matched se built d = describes (has_term se) (has_similar se) (parsed_matches se)
    (index_api (fr_index s)) (config (fr_metadata s)) d spec) as Hdesc.
  { intros d. by apply built_query_meaning. }
  exists spec, se, built, top.*2. assert (blen top.*2 = blen top) as Hbl by (unfold blen; by rewrite length_fmap).
  unfold answer. rewrite Hrows, Hscores, Hbl. cbn zeta. setoid_rewrite <- Hdesc. split_and!; try done.
  - intros Hl d (? & ? & ?). by apply Hcomplete.
  - intros Hnum. destruct (Hbest Hnum) as [Hsorted Hout]. split; [done|].
    intros d d' Hd Hd' (? & ? & ?). by apply Hout.
Qed.

(** Either search of the reader: with or without a serialized filter. *)
Definition core_search (query : str) (limit : Z) (filter : option (list byte)) :
    ST FullTextIndexReader (Fault FtIndexError) FullTextSearchResult :=
  match filter with
  | Some f => search_with_roaring_filter query limit f
  | None => search query limit
  end.

Lemma search_scores q limit filter s res s' :
  core_search q limit filter s = (Ok res, s') → blen (scores res) = blen (row_ids res).
Proof.
  unfold core_search, search_with_roaring_filter, search, blen. intros Hs. f_equal. symmetry.
  destruct filter as [f|]; [|by eapply search_length].
  apply ST_bind_Ok in Hs as (g & s1 & _ & Hs). by eapply search_length.
Qed.
(** The filter a search applies, from the serialized bytes. *)
Definition filter_decodes (filter : option (list byte)) (accepts : option (Z -> bool)) : Prop :=
  match filter, accepts with
  | Some bs, Some f => roaring_deserialize bs = Ok f
  | None, None => True
  | _, _ => False
  end.

Lemma core_search_answers q limit filter s res s' :
  SearchLaws (row_id_field (config (fr_metadata s))) →
  RankLaws (row_id_field (config (fr_metadata s))) → 0 ≤ limit →
  core_search q limit filter s = (Ok res, s') →
  ∃ accepts spec se built docs,
    filter_decodes filter accepts ∧ from_json q = Ok spec ∧ answer s se spec built accepts limit docs ∧
    row_ids res = row_of se <$> docs ∧ scores res = score_of se built <$> docs.
Proof.
  intros Hlaws Hrank Hpos Hs. destruct filter as [bs|]; cbn [core_search] in Hs.
  - unfold search_with_roaring_filter in Hs. apply ST_bind_Ok in Hs as (f & s1 & Hf & Hs).
    injection Hf as Hf <-. unfold decode_roaring_filter in Hf. apply map_err_Ok, map_err_Ok in Hf.
    destruct (search_answers q limit (Some f) s res s' Hlaws Hrank Hpos Hs)
      as (spec & se & built & docs & _ & Hrest). by exists (Some f), spec, se, built, docs.
  - destruct (search_answers q limit None s res s' Hlaws Hrank Hpos Hs)
      as (spec & se & built & docs & _ & Hrest). by exists None, spec, se, built, docs.
Qed.

(** C2: a search that succeeds had a positive limit and a query that decodes
    and builds; it returns the row ids, exactly as they were added, and the
    scores of the documents that answer the query: live, distinct, at most
    [limit], described by the query and accepted by the filter, none missing
    when fewer come back, and the best first. *)
Theorem search_returns_described query limit filter s res s' :
  SearchLaws (row_id_field (config (fr_metadata s))) →
  RankLaws (row_id_field (config (fr_metadata s))) → 0 ≤ limit →
  search_with_filter query limit filter s = (Ok res, s') →
  ∃ spec se built docs,
    limit ≠ 0 ∧ from_json query = Ok spec ∧ answer s se spec built filter limit docs ∧
    row_ids res = row_of se <$> docs ∧ scores res = score_of se built <$> docs.
Proof. apply search_answers. Qed.
End Search.

(** ** An index to write, open and search *)
#[local] Existing Instances toy_platform toy_unicode toy_text toy_profile toy_analysis toy_schema toy_registry
  toy_writer toy_reader toy_schema_laws toy_registry_laws.

Definition toy_written : result (Fault FtIndexError) unit *
    (FullTextIndexWriter (Schema := ToySchema) (I := list Document) * PosWriter (list byte)) :=
  write ((run_adds toy_adds toy_w0).2, pos_writer []).
Definition toy_input : SliceReader := slice_reader (into_inner toy_written.2.2).
Definition toy_log : list Document := match w_state (run_adds toy_adds toy_w0).2 with
  | Some st => index_writer st | None => [] end.

Lemma toy_log_length : blen toy_log = 2.
Proof. vm_compute. reflexivity. Qed.

Lemma toy_listing_sound log : listing_sound (toy_entries log).
Proof.
  split.
  - cbn [toy_entries fmap list_fmap file_name]. apply (NoDup_fmap_1 os_bytes). cbn [fmap list_fmap].
    apply (bool_decide_unpack _). vm_compute. exact I.
  - intros e n He. unfold toy_entries in He. repeat (apply elem_of_cons in He as [-> | He]); cbn;
      [intros [= <-]; vm_compute; reflexivity..|by apply not_elem_of_nil in He].
  - intros e n c He. unfold toy_entries in He. repeat (apply elem_of_cons in He as [-> | He]); cbn;
      [intros [= <-] [= <-]..| |by apply not_elem_of_nil in He]; try done.
    unfold blen. by rewrite length_fmap.
Qed.

Lemma toy_added : ∃ st, w_state (run_adds toy_adds toy_w0).2 = Some st ∧
  writer_ok (run_adds toy_adds toy_w0).2 ∧ w_config (run_adds toy_adds toy_w0).2 = toy_config.
Proof.
  destruct toy_w0_ok as (Hok & Hcfg & Hst).
  assert (LogsDocuments (Schema := ToySchema) (I := list Document) (λ log, log)) as Hlogs.
  { split; [by intros d i i' [= <-]|by intros d i e i']. }
  pose proof (run_adds_spec (λ log, log) toy_adds toy_w0 _ Hok Hst) as Ha.
  destruct (run_adds toy_adds toy_w0) as [rs w']. destruct Ha as (st & Hs & Hw & Hc & _).
  - repeat constructor; discriminate.
  - exists st. split; [done|]. split; [done|]. cbn [snd]. congruence.
Qed.

Lemma toy_archived log : ∃ e n, e ∈ toy_entries log ∧ archived e n.
Proof.
  exists (dir_entry (OsUnicode (lit "meta.json")) (Ok true) (Ok 2) (Ok [x7b; x7d])), (lit "meta.json").
  split; [do 2 right; left|]. split_and!; [done|done|]. vm_compute. reflexivity.
Qed.

Lemma toy_entries_fit log : blen log ≤ i32_max → entries_fit (toy_entries log).
Proof.
  intros Hlog e n c He _ Ho. destruct isize_max_bounds as [[Hi _] _].
  unfold toy_entries in He. repeat (apply elem_of_cons in He as [-> | He]); cbn in Ho;
    [simplify_eq..|by apply not_elem_of_nil in He].
  - unfold blen in *. rewrite (length_fmap (λ _, x2a) log). lia.
  - transitivity i32_max; [vm_compute; discriminate|exact Hi].
  - transitivity i32_max; [vm_compute; discriminate|exact Hi].
Qed.
Lemma toy_log_fits st : w_state (run_adds toy_adds toy_w0).2 = Some st → entries_fit (toy_entries (index_writer st)).
Proof.
  intros Hst. apply toy_entries_fit. pose proof toy_log_length as Hl. unfold toy_log in Hl. rewrite Hst in Hl.
  unfold i32_max. lia.
Qed.

Lemma toy_config_typed : TokenizerConfig_typed (tokenizer_config_of toy_config).
Proof. split; vm_compute; split; discriminate. Qed.

Lemma written_archive_opens_witness : ∃ rd : FullTextIndexReader, FullTextIndexReader_open toy_input = Ok rd.
Proof.
  destruct toy_added as (st & Hst & Hok & Hcfg).
  assert (toy_written.1 = Ok tt) as Hwritten by (vm_compute; reflexivity).
  assert (blen (data toy_input) < 2 ^ 40) as Hsize by (vm_compute; reflexivity).
  destruct toy_written as [r [w' out']] eqn:E. cbn [fst] in Hwritten. subst r.
  destruct (written_archive_opens into_inner data (Ix := ToyIndex) _ (pos_writer []) _ _ (toy_entries (index_writer st)) toy_input
    Hok ltac:(rewrite Hcfg; exact toy_config_typed) ltac:(vm_compute; discriminate) eq_refl eq_refl E)
    as (contents & dir & sh & _ & _ & _ & Hopen).
  - exists st. split; [exact Hst|reflexivity].
  - apply toy_listing_sound.
  - apply toy_archived.
  - unfold toy_input. rewrite E. reflexivity.
  - unfold usize_max, pointer_bits, toy_platform, platform64. lia.
  - by apply toy_log_fits.
  - destruct Hopen as (rd & Hrd & _). by exists rd.
Defined.

#[local] Instance toy_search_laws {R : Type} :
  SearchLaws (R := R) (λ _ d, d = 0 ∨ d = 1) (λ _, toy_row) (λ _, toy_has_term) (λ _ _ _ _ _ _ _, false)
    (λ _ _ _, false) (lit "row_id").
Proof.
  split.
  - intros se q limit f sh top sh' Hlimit. cbn. intros [= <- _].
    set (P d := toy_matches q d = true ∧ toy_passes ((λ f, (lit "row_id", f)) <$> f) d = true).
    assert (∀ d, P d ↔ matched (λ _, toy_has_term) (λ _ _ _ _ _ _ _, false) (λ _ _ _, false) se q d = true
      ∧ passes (λ _, toy_row) se f d = true) as HP by (intros d; by destruct f).
    set (l := filter P [0; 1]). rewrite <- list_fmap_compose, list_fmap_id.
    assert (∀ d, d ∈ l ↔ P d ∧ (d = 0 ∨ d = 1)) as Hl.
    { intros d. unfold l. rewrite list_elem_of_filter, !elem_of_cons, elem_of_nil. naive_solver. }
    split_and!.
    + eapply sublist_NoDup; [|apply (sublist_take l)]. apply NoDup_filter.
      apply (bool_decide_unpack _). vm_compute. exact I.
    + unfold blen. rewrite length_fmap, length_take. lia.
    + intros d (i & Hi & _)%elem_of_take. apply list_elem_of_lookup_2, Hl in Hi as [Hd Hlive]. by apply HP in Hd as [? ?].
    + unfold blen. rewrite length_fmap, length_take. intros Hlen d Hlive Hm Hp.
      rewrite take_ge by lia. apply Hl. split; [by apply HP|done].
  - intros se d sh v sh' _ [= <- _]. done.
  - intros se d [-> | ->]; vm_compute; split; discriminate.
Qed.

Lemma toy_search_constant {R : Type} se q limit f (sh : Shared (MeteredSeekRead R)) top sh' :
  search_top_docs se q limit f sh = (Ok top, sh') → ∃ docs : list Z, top = (f32_one,.) <$> docs.
Proof. intros Htop. eexists. symmetry. pose proof (f_equal fst Htop) as Ht. by apply Ok_inj in Ht. Qed.
#[local] Instance toy_rank_laws {R : Type} :
  RankLaws (R := R) (λ _ d, d = 0 ∨ d = 1) (λ _, toy_row) (λ _, toy_has_term) (λ _ _ _ _ _ _ _, false)
    (λ _ _ _, false) (λ _ _ _, f32_one) (lit "row_id").
Proof.
  split. intros se q limit f sh top sh' _ (l & ->)%toy_search_constant.
  rewrite <- !list_fmap_compose. split; [by apply list_fmap_ext|]. intros _.
  change (list_fmap _ _ _ l) with (id <$> l). rewrite list_fmap_id. split; [|done].
  induction l; constructor; [done|by apply Forall_true].
Qed.

(** [{"match": {"terms": "lake format", "operator": "And"}}] *)
Definition toy_query : str :=
  Z_of_byte <$> positive_to_bytes (encode (json_to_tree
    (JObject [(lit "match", JObject [(lit "terms", JString (lit "lake format")); (lit "operator", JString (lit "And"))])]))).
Definition toy_open_reader : FullTextIndexReader (R := SliceReader) (Ix := ToyIndex) (Parsed := str) :=
  full_text_index_reader (new_shared (metered (slice_reader []) ReadMetrics_default))
    [("paimon_custom"%string, text_analyzer SimpleTokenizer [])] None false
    (index_metadata toy_config 2 (lit "0.26.1")).

Lemma search_returns_described_witness :
  ∃ docs : list Z, [7] = toy_row <$> docs ∧ NoDup docs ∧ blen docs ≤ 5 ∧ [f32_one] = (λ _, f32_one) <$> docs.
Proof.
  assert (match (search_with_filter toy_query 5 None toy_open_reader).1 with
    | Ok res => bool_decide (row_ids res = [7] ∧ scores res = [f32_one]) | Err _ => false end = true) as Hrun
    by (vm_compute; reflexivity).
  destruct (search_with_filter toy_query 5 None toy_open_reader) as [[res|e] s'] eqn:E; [|done].
  cbn [fst] in Hrun. apply bool_decide_eq_true in Hrun as [Hids Hscores].
  destruct (search_returns_described _ _ _ _ _ _ toy_query 5 None toy_open_reader res s' toy_search_laws toy_rank_laws
    ltac:(discriminate) E) as (spec & se & built & docs & _ & _ & (_ & Hnd & Hlen & _) & Hrows & Hsc).
  exists docs. rewrite Hids in Hrows. rewrite Hscores in Hsc. by split_and!.
Defined.
