(* ===== verification/ReaderConc.v ===== *)
(** * Concurrent searches on one reader ([core/src/index.rs])

    A [FullTextIndexReader] is used from many threads through [&self]: the
    engine's reader is created on first use behind a mutex, and every search
    reads the archive through the shared directory.  The engine's computations
    are programs of [read_bytes] calls; a call of the reader is a program
    counter between its atomic actions, which are those of the mutex and, for
    each read, those of [ArchiveConc].  The library interleaves any number of
    calls in any order. *)

From S2P Require Import Prelude RustStd Error IoLayer Json Tokenizer Config HeaderJson Storage.
From S2P Require Import Archive ArchiveConc Query Analyzer BuildQuery Reader.

(** ** What the engine does to the directory *)

(** A program that reads through file handles, and goes on with the bytes or
    the error; a read that panics unwinds it. *)
Inductive Prog (A : Type) : Type :=
| Done (a : A)
| ReadBytes (j : Job) (k : result IoError (list byte) -> Prog A).
Arguments Done {A} a.
Arguments ReadBytes {A} j k.

Fixpoint prog_bind {A B} (p : Prog A) (f : A -> Prog B) : Prog B :=
  match p with
  | Done a => f a
  | ReadBytes j k => ReadBytes j (λ r, prog_bind (k r) f)
  end.
(** [let a = p.map_err(f)?; k(a)] *)
Definition prog_try {E E' A B} (f : E -> E') (p : Prog (result E A)) (k : A -> Prog (result E' B)) :
    Prog (result E' B) :=
  prog_bind p (λ r, match r with Ok a => k a | Err e => Done (Err (f e)) end).

(** The result of a read as the program sees it, unless it panicked. *)
Definition seen (r : result IoFault (list byte)) : result Payload (result IoError (list byte)) :=
  match r with
  | Ok bytes => Ok (Ok bytes)
  | Err (Failed e) => Ok (Err e)
  | Err (Panicked p) => Err p
  end.

Section RunProg.
Context `{Platform} `{Profile} {S : Type} `{SeekRead S} `{MetricsCell S}.

(** The program alone, by the sequential [read_bytes]; an error is the
    payload of the panic that unwound it. *)
Fixpoint run_prog {A} (p : Prog A) (s : Shared S) : result Payload A * Shared S :=
  match p with
  | Done a => (Ok a, s)
  | ReadBytes j k =>
      let '(r, s') := read_bytes (job_handle j) (job_start j) (job_stop j) s in
      match seen r with
      | Ok r => run_prog (k r) s'
      | Err p => (Err p, s')
      end
  end.
(** A computation of the engine that is such a program. *)
Definition run_engine {E A} (p : Prog (result E A)) : ST (Shared S) (Fault E) A := λ s,
  let '(r, s') := run_prog p s in
  (match r with Ok r => map_err Failed r | Err p => Err (Panicked p) end, s').

(** ** A program between atomic actions *)
Inductive Activity (A : Type) : Type :=
| Between (p : Prog A)
| Within (ph : Phase) (k : result IoError (list byte) -> Prog A).
#[global] Arguments Between {A} p.
#[global] Arguments Within {A} ph k.
Inductive Progress (A : Type) : Type :=
| Goes (a : Activity A)
| Yields (a : A)
| Unwinds.
#[global] Arguments Goes {A} a.
#[global] Arguments Yields {A} a.
#[global] Arguments Unwinds {A}.

Definition activity_step {A} (a : Activity A) (s : Shared S) : Progress A * Shared S :=
  match a with
  | Between (Done x) => (Yields x, s)
  | Between (ReadBytes j k) => (Goes (Within (Called j) k), s)
  | Within (Returned j r) k =>
      (match seen r with Ok r => Goes (Between (k r)) | Err _ => Unwinds end, s)
  | Within ph k => let '(ph', s') := thread_step ph s in (Goes (Within ph' k), s')
  end.
End RunProg.

(** The engine of a reader touches the shared state only by such programs. *)
Class EngineProgs `{Platform} `{Profile} {S Ix Parsed : Type} `{SeekRead S} `{MetricsCell S}
    `{ReaderEngine S Ix Parsed} : Type := {
  index_open_prog : path_map ArchivedFile -> Prog (result TantivyError Ix);
  index_reader_prog : Ix -> Prog (result TantivyError IndexReader);
  search_top_docs_prog : Searcher -> EngineQuery Parsed -> Z -> option (str * (Z -> bool)) ->
    Prog (result TantivyError (list (f32 * DocAddress)));
  fast_field_u64_prog : Searcher -> str -> DocAddress -> Prog (result TantivyError Z);
  index_open_runs dir (s : Shared S) : index_open dir s = run_engine (index_open_prog dir) s;
  index_reader_runs ix (s : Shared S) : index_reader ix s = run_engine (index_reader_prog ix) s;
  search_top_docs_runs se q limit f (s : Shared S) :
    search_top_docs se q limit f s = run_engine (search_top_docs_prog se q limit f) s;
  fast_field_u64_runs se field d (s : Shared S) :
    fast_field_u64 se field d s = run_engine (fast_field_u64_prog se field d) s
}.
#[global] Arguments EngineProgs {_ _} S Ix Parsed {_ _ _}.

(** ** Calls of a shared reader *)
Inductive ReaderCall : Type :=
| CallPrewarm
| CallSearch (query : str) (limit : Z) (filter : option (list byte)).
(** What is left of a call once its arguments are checked. *)
Inductive Request : Type :=
| Warm
| Find (query : str) (limit : Z) (filter : option (Z -> bool)).

Section Library.
Context `{Platform} `{Profile} `{Unicode} `{JsonText} `{AnalysisEngine} {R Ix Parsed : Type} `{SeekRead R}.
Context `{ReaderEngine (MeteredSeekRead R) Ix Parsed} `{!EngineProgs (MeteredSeekRead R) Ix Parsed}.

Notation Reader := (FullTextIndexReader (R := R) (Ix := Ix) (Parsed := Parsed)).

(** The part of [search], [search_with_roaring_filter] and [prewarm] before
    the lock. *)
Definition request_of (c : ReaderCall) : Result Request :=
  match c with
  | CallPrewarm => Ok Warm
  | CallSearch query limit filter =>
      filter ← match filter with
               | Some bytes => f ← decode_roaring_filter bytes; Ok (Some f)
               | None => Ok None
               end;
      if limit =? 0 then Err (InvalidQuery [Txt "search limit must be positive"])
      else Ok (Find query limit filter)
  end.

(** [search_with_filter] behind [searcher()]. *)
Fixpoint collect_prog (se : Searcher) (field : str) (top_docs : list (f32 * DocAddress))
    (row_ids : list Z) (scores : list f32) : Prog (Result FullTextSearchResult) :=
  match top_docs with
  | [] => Done (Ok (search_result row_ids scores))
  | (score, doc_address) :: top_docs' =>
      prog_try Tantivy (fast_field_u64_prog se field doc_address) (λ value,
        collect_prog se field top_docs' (row_ids ++ [u64_as_i64 value]) (scores ++ [score]))
  end.
Definition search_prog (ix : Ix) (c : FullTextIndexConfig) (se : Searcher) (query : str) (limit : Z)
    (filter : option (Z -> bool)) : Prog (Result FullTextSearchResult) :=
  match (spec ← from_json query; build_query (index_api ix) c spec) with
  | Err e => Done (Err e)
  | Ok q =>
      prog_try Tantivy (search_top_docs_prog se q limit ((λ f, (row_id_field c, f)) <$> filter)) (λ top_docs,
        collect_prog se (row_id_field c) top_docs [] [])
  end.

(** Where a call is.  [Holding] and [Opening] hold the lock. *)
Inductive Stage : Type :=
| Invoked
| Waiting (rq : Request)
| Holding (rq : Request)
| Opening (rq : Request) (a : Activity (result TantivyError IndexReader))
| Finding (a : Activity (Result FullTextSearchResult))
| Finished (o : Result (option FullTextSearchResult))
| Crashed.
Definition holds (st : Stage) : bool := match st with Holding _ | Opening _ _ => true | _ => false end.
Definition ended (st : Stage) : bool := match st with Finished _ | Crashed => true | _ => false end.

(** The reader that the calls share, and which of them holds its lock. *)
Record Shelf : Type := shelf { reader : Reader; lock : option nat }.

Definition with_shared (sh : Shared (MeteredSeekRead R)) (rd : Reader) : Reader :=
  full_text_index_reader sh (fr_index rd) (fr_reader rd) (fr_poisoned rd) (fr_metadata rd).
Definition with_reader (x : IndexReader) (rd : Reader) : Reader :=
  full_text_index_reader (fr_shared rd) (fr_index rd) (Some x) (fr_poisoned rd) (fr_metadata rd).

(** With a searcher, the lock is dropped. *)
Definition with_searcher (rq : Request) (se : Searcher) (rd : Reader) : Stage :=
  match rq with
  | Warm => Finished (Ok None)
  | Find query limit filter =>
      Finding (Between (search_prog (fr_index rd) (config (fr_metadata rd)) se query limit filter))
  end.

(** One action of call [i]; [None] when it waits for the lock or has ended.
    A panic under the lock poisons it. *)
Definition stage_step (i : nat) (c : ReaderCall) (st : Stage) (l : Shelf) : option (Stage * Shelf) :=
  let rd := reader l in
  match st with
  | Invoked =>
      Some (match request_of c with Ok rq => Waiting rq | Err e => Finished (Err e) end, l)
  | Waiting rq =>
      match lock l with
      | Some _ => None
      | None =>
          if fr_poisoned rd then
            Some (Finished (Err (InvalidStorage [Txt "Tantivy reader lock poisoned"])), l)
          else Some (Holding rq, shelf rd (Some i))
      end
  | Holding rq =>
      match fr_reader rd with
      | Some x => Some (with_searcher rq (searcher_of x) rd, shelf rd None)
      | None => Some (Opening rq (Between (index_reader_prog (fr_index rd))), l)
      end
  | Opening rq a =>
      let '(p, sh) := activity_step a (fr_shared rd) in
      let rd := with_shared sh rd in
      match p with
      | Goes a => Some (Opening rq a, shelf rd (lock l))
      | Yields (Ok x) => Some (with_searcher rq (searcher_of x) rd, shelf (with_reader x rd) None)
      | Yields (Err e) => Some (Finished (Err (Tantivy e)), shelf rd None)
      | Unwinds => Some (Crashed, shelf (poison rd) None)
      end
  | Finding a =>
      let '(p, sh) := activity_step a (fr_shared rd) in
      let l := shelf (with_shared sh rd) (lock l) in
      match p with
      | Goes a => Some (Finding a, l)
      | Yields r => Some (Finished (Some <$> r), l)
      | Unwinds => Some (Crashed, l)
      end
  | Finished _ | Crashed => None
  end.

Record Library : Type := library { calls : list (ReaderCall * Stage); shared_reader : Shelf }.

(** One action of one of the calls. *)
Inductive lib_step : Library -> Library -> Prop :=
| lib_acts cs l i c st st' l' :
    cs !! i = Some (c, st) → stage_step i c st l = Some (st', l') →
    lib_step (library cs l) (library (<[i := (c, st')]> cs) l').
(** ... or a new call. *)
Inductive lib_run : Library -> Library -> Prop :=
| lib_continues b b' : lib_step b b' → lib_run b b'
| lib_invokes cs l c : lib_run (library cs l) (library (cs ++ [(c, Invoked)]) l).

(** The same call on a reader of one's own. *)
Definition call_alone (c : ReaderCall) : ST Reader (Fault FtIndexError) (option FullTextSearchResult) :=
  match c with
  | CallPrewarm => _ ← prewarm; mret None
  | CallSearch query limit None => r ← search query limit; mret (Some r)
  | CallSearch query limit (Some bytes) => r ← search_with_roaring_filter query limit bytes; mret (Some r)
  end.

(** A scheduler that lets the calls act in a given order. *)
Fixpoint schedule (order : list nat) (b : Library) : Library :=
  match order with
  | [] => b
  | i :: order' =>
      schedule order'
        (match calls b !! i with
         | Some (c, st) =>
             match stage_step i c st (shared_reader b) with
             | Some (st', l') => library (<[i := (c, st')]> (calls b)) l'
             | None => b
             end
         | None => b
         end)
  end.
Lemma schedule_steps order b : rtc lib_step b (schedule order b).
Proof.
  revert b. induction order as [|i order IH]; intros [cs l]; cbn [schedule]; [done|]. cbn [calls shared_reader].
  destruct (cs !! i) as [[c st]|] eqn:Hi; [|apply IH].
  destruct (stage_step i c st l) as [[st' l']|] eqn:Hs; [|apply IH].
  eapply rtc_l; [by eapply lib_acts|apply IH].
Qed.
End Library.
Arguments Library R Ix Parsed {_}.
