(* ===== verification/ReaderConcSpec.v ===== *)
(** * Concurrent searches answer like sequential ones

    Under every interleaving of any number of calls on one opened reader each
    call that finishes has the result of the same call alone; no read panics,
    one at a time holds the lock of the engine's reader, and every run ends
    with every call finished. *)

From S2P Require Import Prelude RustStd Error IoLayer Json Tokenizer Config HeaderJson Storage StorageSpec.
From S2P Require Import Archive ArchiveSpec ArchiveConc Query Analyzer BuildQuery Reader ReaderSpec ReaderConc.

(** ** Every run ends *)
Section Termination.
Context `{Platform} `{Profile} `{Unicode} `{JsonText} `{AnalysisEngine} {R Ix Parsed : Type} `{SeekRead R}.
Context `{ReaderEngine (MeteredSeekRead R) Ix Parsed} `{!EngineProgs (MeteredSeekRead R) Ix Parsed}.

Definition activity_after {A} (a' a : Activity A) : Prop :=
  ∃ s s' : Shared (MeteredSeekRead R), activity_step a s = (Goes a', s').

Lemma within_acc {A} (k : result IoError (list byte) -> Prog A) ph :
  (∀ r, Acc activity_after (Between (k r))) → Acc activity_after (Within ph k).
Proof.
  intros Hk. remember (remaining ph) as n eqn:Hn. revert ph Hn.
  induction n as [n IH] using lt_wf_ind. intros ph ->. constructor. intros a' (s & s' & Hs).
  destruct ph as [j|j b|j b|j b|j b bl|j b bl|j q|j r]; cbn [activity_step] in Hs;
    [..|destruct (seen r); [injection Hs as <- _; apply Hk|done]].
  all: match type of Hs with context [thread_step ?ph ?s0] =>
         pose proof (thread_step_remaining ph s0) as Hlt; destruct (thread_step ph s0) as [ph' s1] end.
  all: injection Hs as <- _; cbn in Hlt; eapply IH; [|reflexivity]; cbn; lia.
Qed.

Lemma between_acc {A} (p : Prog A) : Acc activity_after (Between p).
Proof.
  induction p as [a|j k IH]; constructor; intros a' (s & s' & Hs); [done|].
  injection Hs as <- _. by apply within_acc.
Qed.
Lemma activity_acc {A} (a : Activity A) : Acc activity_after a.
Proof. destruct a; [apply between_acc|apply within_acc; intros; apply between_acc]. Qed.

Definition stage_after (x' x : ReaderCall * Stage) : Prop :=
  x'.1 = x.1 ∧ ∃ i (l l' : Shelf), stage_step i x.1 x.2 l = Some (x'.2, l').

Lemma finished_acc c o : Acc stage_after (c, Finished o).
Proof. constructor. intros x (_ & i & l & l' & Hs). done. Qed.
Lemma crashed_acc c : Acc stage_after (c, Crashed).
Proof. constructor. intros x (_ & i & l & l' & Hs). done. Qed.
Lemma finding_acc c a : Acc stage_after (c, Finding a).
Proof.
  induction (activity_acc a) as [a _ IH]. constructor. intros [c' st'] (Hc & i & l & l' & Hs).
  cbn in Hc. subst c'. cbn in Hs. destruct (activity_step a _) as [[a'|r|] sh] eqn:Ea; injection Hs as <- _.
  - apply IH. by exists (fr_shared (reader l)), sh.
  - apply finished_acc.
  - apply crashed_acc.
Qed.
Lemma with_searcher_acc c rq se rd : Acc stage_after (c, with_searcher rq se rd).
Proof. destruct rq; [apply finished_acc|apply finding_acc]. Qed.
Lemma opening_acc c rq a : Acc stage_after (c, Opening rq a).
Proof.
  induction (activity_acc a) as [a _ IH]. constructor. intros [c' st'] (Hc & i & l & l' & Hs).
  cbn in Hc. subst c'. cbn in Hs. destruct (activity_step a _) as [[a'|[x|e]|] sh] eqn:Ea; injection Hs as <- _.
  - apply IH. by exists (fr_shared (reader l)), sh.
  - apply with_searcher_acc.
  - apply finished_acc.
  - apply crashed_acc.
Qed.
Lemma holding_acc c rq : Acc stage_after (c, Holding rq).
Proof.
  constructor. intros [c' st'] (Hc & i & l & l' & Hs). cbn in Hc. subst c'. cbn in Hs.
  destruct (fr_reader _); injection Hs as <- _; [apply with_searcher_acc|apply opening_acc].
Qed.
Lemma waiting_acc c rq : Acc stage_after (c, Waiting rq).
Proof.
  constructor. intros [c' st'] (Hc & i & l & l' & Hs). cbn in Hc. subst c'. cbn in Hs.
  destruct (lock l); [done|]. destruct (fr_poisoned _); injection Hs as <- _; [apply finished_acc|apply holding_acc].
Qed.
Lemma stage_acc x : Acc stage_after x.
Proof.
  destruct x as [c [|rq|rq|rq a|a|o|]];
    [|apply waiting_acc|apply holding_acc|apply opening_acc|apply finding_acc|apply finished_acc|apply crashed_acc].
  constructor. intros [c' st'] (Hc & i & l & l' & Hs). cbn in Hc. subst c'. cbn in Hs. injection Hs as <- _.
  destruct (request_of c); [apply waiting_acc|apply finished_acc].
Qed.

Lemma library_acc (b : Library R Ix Parsed) : sn lib_step b.
Proof.
  destruct b as [cs l]. assert (Acc (list_after stage_after) cs) as Hcs.
  { apply list_after_acc, Forall_forall. intros x _. apply stage_acc. }
  revert l. induction Hcs as [cs _ IH]. intros l. constructor. intros b' Hb. unfold flip in Hb.
  remember (library cs l) as b0 eqn:E. destruct Hb as [cs0 l0 i c st st' l' Hi Hs]. injection E as -> ->.
  apply IH. exists i, (c, st), (c, st'). split_and!; [done| |done]. split; [done|]. by exists i, l, l'.
Qed.

(** The lock is held by exactly the call that is in its critical section. *)
Definition lock_ok (b : Library R Ix Parsed) : Prop :=
  ∀ i, lock (shared_reader b) = Some i ↔ ∃ c st, calls b !! i = Some (c, st) ∧ holds st = true.

Lemma with_searcher_free rq se rd : holds (with_searcher rq se rd) = false.
Proof. by destruct rq. Qed.

Lemma stage_step_lock i c st l st' l' :
  stage_step i c st l = Some (st', l') → (holds st = true → lock l = Some i) →
  (holds st' = true → lock l' = Some i) ∧ (lock l' = Some i → holds st' = true ∨ lock l = Some i ∧ holds st = false) ∧
  (∀ j, j ≠ i → lock l' = Some j ↔ lock l = Some j).
Proof.
  intros Hs Hl. destruct st as [|rq|rq|rq a|a|o|]; cbn in Hs, Hl; try done.
  - injection Hs as <- <-. destruct (request_of c); cbn; naive_solver.
  - destruct (lock l) eqn:El; [done|]. destruct (fr_poisoned _); injection Hs as <- <-; cbn; naive_solver congruence.
  - specialize (Hl eq_refl). destruct (fr_reader _); injection Hs as <- <-.
    + rewrite with_searcher_free. cbn. naive_solver congruence.
    + cbn. naive_solver.
  - specialize (Hl eq_refl). destruct (activity_step a _) as [[a'|[x|e]|] sh]; injection Hs as <- <-;
      rewrite ?with_searcher_free; cbn; naive_solver congruence.
  - destruct (activity_step a _) as [[a'|r|] sh]; injection Hs as <- <-; cbn; naive_solver.
Qed.

Lemma lib_step_lock b b' : lib_step b b' → lock_ok b → lock_ok b'.
Proof.
  intros [cs l i c st st' l' Hi Hs] Hlock j. cbn in *.
  destruct (stage_step_lock i c st l st' l' Hs) as (Hh & Hi' & Hother).
  { intros Hh. apply Hlock. by exists c, st. }
  destruct (decide (j = i)) as [->|Hne].
  - rewrite list_lookup_insert_eq by (by eapply lookup_lt_Some). split.
    + intros [Hst | [Hl Hst]]%Hi'; [by exists c, st'|].
      apply Hlock in Hl as (c1 & st1 & E & Hst1). cbn in E. congruence.
    + intros (c1 & st1 & [= <- <-] & Hst). by apply Hh.
  - rewrite list_lookup_insert_ne by done. rewrite (Hother j Hne). apply Hlock.
Qed.
Lemma lib_run_lock b b' : lib_run b b' → lock_ok b → lock_ok b'.
Proof.
  intros [b1 b1' Hs | cs l c]; [by apply lib_step_lock|]. intros Hlock j. rewrite (Hlock j). cbn. split.
  - intros (c1 & st1 & Hj & Hst). exists c1, st1. split; [by apply lookup_app_l_Some|done].
  - intros (c1 & st1 & [Hj | (_ & Hj)]%lookup_app_Some & Hst); [by exists c1, st1|].
    apply list_lookup_singleton_Some in Hj as [_ [= <- <-]]. done.
Qed.

(** A call in its critical section can always act; any call that has not
    ended can, unless it waits for such a call. *)
Lemma stage_step_enabled i c st l :
  ended st = false → (∀ rq, st = Waiting rq → lock l = None) → is_Some (stage_step i c st l).
Proof.
  intros He Hw. destruct st as [|rq|rq|rq a|a|o|]; cbn in *; try done.
  - rewrite (Hw rq eq_refl). destruct (fr_poisoned _); by eexists.
  - destruct (fr_reader _); by eexists.
  - destruct (activity_step a _) as [[a'|[x|e]|] sh]; by eexists.
  - destruct (activity_step a _) as [[a'|r|] sh]; by eexists.
Qed.

Lemma library_progress b c st :
  lock_ok b → (c, st) ∈ calls b → ended st = false → ∃ b', lib_step b b'.
Proof.
  destruct b as [cs l]. cbn. intros Hlock [i Hi]%list_elem_of_lookup He.
  assert (∀ j c1 st1, cs !! j = Some (c1, st1) → ended st1 = false → (∀ rq, st1 = Waiting rq → lock l = None) →
    ∃ b', lib_step (library cs l) b') as Hgo.
  { intros j c1 st1 Hj He1 Hw. destruct (stage_step_enabled j c1 st1 l He1 Hw) as [[st' l'] Hs].
    eexists. by eapply lib_acts. }
  destruct (lock l) as [j|] eqn:El; [|by eapply Hgo].
  apply Hlock in El as (c1 & st1 & Hj & Hh). cbn in Hj.
  eapply (Hgo j c1 st1 Hj); [by destruct st1|]. intros rq ->. done.
Qed.
End Termination.

(** ** What a program reads *)
Definition job_bytes (d : list byte) (j : Job) : list byte :=
  slice (handle_start (job_handle j) + job_start j) (job_stop j - job_start j) d.
Definition phase_job (ph : Phase) : Job :=
  match ph with
  | Called j | LookingUp j _ | Missed j _ | Fetching j _ | Storing j _ _ | Cutting j _ _
  | ReadingDirect j _ | Returned j _ => j
  end.

(** The program on the bytes of the archive, and the reads it makes there. *)
Fixpoint spec_run {A} (d : list byte) (p : Prog A) : A :=
  match p with
  | Done a => a
  | ReadBytes j k => spec_run d (k (Ok (job_bytes d j)))
  end.
Fixpoint prog_within {A} (d : list byte) (P : Job -> Prop) (p : Prog A) : Prop :=
  match p with
  | Done _ => True
  | ReadBytes j k => P j ∧ prog_within d P (k (Ok (job_bytes d j)))
  end.

Lemma spec_run_bind {A B} d (p : Prog A) (f : A -> Prog B) :
  spec_run d (prog_bind p f) = spec_run d (f (spec_run d p)).
Proof. induction p as [a|j k IH]; cbn; [done|apply IH]. Qed.
Lemma prog_within_bind {A B} d P (p : Prog A) (f : A -> Prog B) :
  prog_within d P (prog_bind p f) ↔ prog_within d P p ∧ prog_within d P (f (spec_run d p)).
Proof. induction p as [a|j k IH]; cbn; [naive_solver|]. rewrite IH. naive_solver. Qed.
Lemma prog_within_weaken {A} d (P Q : Job -> Prop) (p : Prog A) :
  (∀ j, P j → Q j) → prog_within d P p → prog_within d Q p.
Proof. intros HPQ. induction p as [a|j k IH]; cbn; [done|]. intros [? ?]. auto. Qed.

Section Reads.
Context `{Platform} `{Profile} {S : Type} `{SeekRead S} `{MetricsCell S} (data_of : S -> list byte).
Context `{!ReadsData S data_of} {max_len : Z} `{!ReadsAll S data_of max_len} `{!MetricsSeparate S data_of} `{!KeepsCacheMetrics S}.
Context (fs : list ArchivedFile) (d : list byte) (Hfs : files_ok fs) (Hd : blen d ≤ max_len).

Lemma size_addressable : blen d ≤ usize_max.
Proof. pose proof (max_len_addressable (max_len := max_len)). lia. Qed.
Lemma reliable_input : reads_within data_of d.
Proof. by eapply reads_within_limit. Qed.

(** Reads inside files that lie inside the archive. *)
Definition inside (j : Job) : Prop :=
  on_files fs j ∧ in_file j ∧ handle_length (job_handle j) ≤ isize_max ∧
  handle_start (job_handle j) + handle_length (job_handle j) ≤ blen d.

Lemma read_outcome_inside j r :
  inside j → read_outcome d True (job_handle j) (job_start j) (job_stop j) r → r = Ok (job_bytes d j).
Proof.
  intros ((_ & _ & H0s & _) & Hin & Hfit & Hend) [Hp Hr].
  rewrite read_panics_small in Hp by (done || apply Hin).
  destruct r as [b|[e|p]]; [by rewrite Hr|by destruct Hr|done].
Qed.

Lemma read_inside j s :
  inside j → reading data_of fs d s →
  ∃ s', read_bytes (job_handle j) (job_start j) (job_stop j) s = (Ok (job_bytes d j), s') ∧ reading data_of fs d s'.
Proof.
  intros Hj Hs. pose proof Hj as ((Hf & Hl & H0s & H0e) & Hin & _).
  pose proof (read_bytes_wp data_of fs d True Hfs size_addressable ltac:(intros _; apply reliable_input) (job_handle j) (job_start j) (job_stop j) s
    Hf Hl H0s H0e Hs) as Hw. unfold wp in Hw.
  destruct (read_bytes _ _ _ s) as [r s']. destruct Hw as (Hs' & Hr & _).
  exists s'. split; [|done]. f_equal. by apply read_outcome_inside, Hr.
Qed.

Lemma run_prog_spec {A} (p : Prog A) s :
  prog_within d inside p → reading data_of fs d s →
  ∃ s', run_prog p s = (Ok (spec_run d p), s') ∧ reading data_of fs d s'.
Proof.
  revert s. induction p as [a|j k IH]; intros s Hp Hs; cbn in *; [by exists s|].
  destruct Hp as [Hj Hk]. destruct (read_inside j s Hj Hs) as (s1 & Hr & Hs1). rewrite Hr. cbn. by apply IH.
Qed.

(** An activity whose program will give [x]. *)
Definition activity_ok {A} (a : Activity A) (x : A) : Prop :=
  match a with
  | Between p => prog_within d inside p ∧ spec_run d p = x
  | Within ph k => inside (phase_job ph) ∧ phase_ok fs d True ph ∧
      let p := k (Ok (job_bytes d (phase_job ph))) in prog_within d inside p ∧ spec_run d p = x
  end.

Lemma thread_step_job ph (s : Shared S) : phase_job (thread_step ph s).1 = phase_job ph.
Proof.
  destruct ph as [j|j b|j b|j b|j b bl|j b bl|j q|j r]; cbn [thread_step]; unfold after; [..|done].
  all: match goal with |- context [let '(r, s') := ?m in _] => destruct m as [[a|e] s'] end; try done.
  all: by destruct a.
Qed.

Lemma within_step ph {A} (k : result IoError (list byte) -> Prog A) x s :
  reading data_of fs d s → activity_ok (Within ph k) x →
  let '(ph', s') := thread_step ph s in reading data_of fs d s' ∧ activity_ok (Within ph' k) x.
Proof.
  intros Hs (Hj & Hph & Hk). pose proof (thread_step_job ph s) as Hjob.
  destruct (thread_step_ok data_of fs d True Hfs size_addressable ltac:(intros _; apply reliable_input) ph s Hs Hph) as [Hs' Hph'].
  destruct (thread_step ph s) as [ph' s']. cbn in *. rewrite Hjob. done.
Qed.

Lemma activity_step_ok {A} (a : Activity A) x s :
  reading data_of fs d s → activity_ok a x →
  let '(p, s') := activity_step a s in
  reading data_of fs d s' ∧
  match p with Goes a' => activity_ok a' x | Yields y => y = x | Unwinds => False end.
Proof.
  intros Hs Ha. destruct a as [[y|j k]|ph k]; cbn [activity_step].
  - split; [done|apply Ha].
  - destruct Ha as [[Hj Hk] Hx]. split; [done|]. split_and!; try done. apply Hj.
  - destruct ph as [j|j b|j b|j b|j b bl|j b bl|j q|j r];
      try (match goal with |- context [thread_step ?ph s] =>
             pose proof (within_step ph k x s Hs Ha) as Hw; destruct (thread_step ph s) as [ph' s'];
             destruct Hw as [? ?]; by split end).
    destruct Ha as (Hj & (_ & Hr & _) & Hk). cbn in Hj, Hk.
    assert (r = Ok (job_bytes d j)) as -> by (apply (read_outcome_inside j); [done|apply Hr, Hj]). by split.
Qed.
End Reads.

(** ** Concurrent and sequential calls *)
Section Answers.
Context `{Platform} `{Profile} `{Unicode} `{JsonText} `{AnalysisEngine} {R Ix Parsed : Type} `{SeekRead R}.
Context (data_of : R -> list byte) `{!ReadsData R data_of} {max_len : Z} `{!ReadsAll R data_of max_len}.
Context `{ReaderEngine (MeteredSeekRead R) Ix Parsed} `{!EngineProgs (MeteredSeekRead R) Ix Parsed}.

Notation Reader := (FullTextIndexReader (R := R) (Ix := Ix) (Parsed := Parsed)).

Notation reader_prog := (index_reader_prog (S := MeteredSeekRead R) (Ix := Ix) (Parsed := Parsed)).
Notation top_prog := (search_top_docs_prog (S := MeteredSeekRead R) (Ix := Ix) (Parsed := Parsed)).
Notation field_prog := (fast_field_u64_prog (S := MeteredSeekRead R) (Ix := Ix) (Parsed := Parsed)).

(** The programs of an opened index, on the bytes [d]. *)
Record programs_within (d : list byte) (P : Job -> Prop) (ix : Ix) : Prop := {
  within_reader : prog_within d P (reader_prog ix);
  within_top x q limit f : spec_run d (reader_prog ix) = Ok x →
    prog_within d P (top_prog (searcher_of x) q limit f);
  within_field x q limit f top field p : spec_run d (reader_prog ix) = Ok x →
    spec_run d (top_prog (searcher_of x) q limit f) = Ok top → p ∈ top →
    prog_within d P (field_prog (searcher_of x) field p.2)
}.

Context (fs : list ArchivedFile) (d : list byte) (Hfs : files_ok fs) (Hd : blen d ≤ max_len).
Context (ix : Ix) (meta : FullTextIndexMetadata) (Hix : programs_within d (inside fs d) ix).

Notation reading_ok := (reading (data_of ∘ inner) fs d).
Notation act_ok := (activity_ok fs d).
Notation within := (prog_within d (inside fs d)).

(** A reader of this index, fresh or used. *)
Record reader_ok (rd : Reader) : Prop := {
  ro_reading : reading_ok (fr_shared rd);
  ro_index : fr_index rd = ix;
  ro_metadata : fr_metadata rd = meta;
  ro_sound : fr_poisoned rd = false;
  ro_reader x : fr_reader rd = Some x → spec_run d (reader_prog ix) = Ok x
}.

(** What a call answers. *)
Definition reference (c : ReaderCall) : Result (option FullTextSearchResult) :=
  rq ← request_of c;
  x ← map_err Tantivy (spec_run d (reader_prog ix));
  match rq with
  | Warm => Ok None
  | Find query limit filter =>
      Some <$> spec_run d (search_prog ix (config meta) (searcher_of x) query limit filter)
  end.

Lemma collect_prog_within se field top rs ss :
  (∀ p, p ∈ top → within (field_prog se field p.2)) → within (collect_prog se field top rs ss).
Proof.
  revert rs ss. induction top as [|[score a] top IH]; intros rs ss Hp; cbn [collect_prog]; [done|].
  apply prog_within_bind. split; [apply (Hp (score, a)); left|].
  destruct (spec_run d _); [|done]. apply IH. intros p Hin. apply Hp. by right.
Qed.
Lemma search_prog_within x query limit filter :
  spec_run d (reader_prog ix) = Ok x →
  within (search_prog ix (config meta) (searcher_of x) query limit filter).
Proof.
  intros Hx. unfold search_prog. destruct (spec ← _; _) as [q|e]; [|done].
  apply prog_within_bind. split; [by eapply within_top|].
  destruct (spec_run d (top_prog _ _ _ _)) as [top|e] eqn:Etop; [|done]. apply collect_prog_within.
  intros p Hp. by eapply within_field.
Qed.

(** *** Alone *)
Lemma with_shared_ok sh rd : reader_ok rd → reading_ok sh → reader_ok (with_shared sh rd).
Proof. by intros [] ?; split. Qed.

Lemma on_shared_prog {A} (p : Prog (result TantivyError A)) (m : ST _ (Fault TantivyError) A) rd :
  reader_ok rd → within p → (∀ s, m s = run_engine p s) →
  ∃ sh, on_shared m rd = (map_err Failed (map_err Tantivy (spec_run d p)), with_shared sh rd) ∧ reader_ok (with_shared sh rd).
Proof.
  intros Hrd Hp Hm. destruct (run_prog_spec (data_of ∘ inner) fs d Hfs Hd p (fr_shared rd) Hp) as (sh & Hr & Hsh).
  { apply Hrd. }
  exists sh. split; [|by apply with_shared_ok]. unfold on_shared, run_engine in *. rewrite Hm, Hr.
  by destruct (spec_run d p).
Qed.

Lemma searcher_alone rd :
  reader_ok rd →
  ∃ rd', searcher rd = (searcher_of <$> map_err Failed (map_err Tantivy (spec_run d (reader_prog ix))), rd') ∧ reader_ok rd'.
Proof.
  intros Hrd. pose proof Hrd as [_ Hi _ Hp Hx]. unfold searcher. rewrite Hp.
  destruct (fr_reader rd) as [x|] eqn:Ex; [exists rd; by rewrite (Hx x eq_refl)|].
  destruct (on_shared_prog (reader_prog ix) (index_reader ix) rd Hrd) as (sh & Ho & Hrd').
  { apply Hix. }
  { apply index_reader_runs. }
  rewrite Hi. unfold under_lock, mbind, ST_bind. rewrite Ho.
  destruct (spec_run d (reader_prog ix)) as [x|e] eqn:Es; cbn; [|by exists (with_shared sh rd)].
  eexists. split; [done|]. destruct Hrd' as []. split; cbn in *; try done. by intros x' [= <-].
Qed.

Lemma collect_rows_alone se field top rs ss rd :
  reader_ok rd → (∀ p, p ∈ top → within (field_prog se field p.2)) →
  (collect_rows se field top rs ss rd).1 = map_err Failed (spec_run d (collect_prog se field top rs ss)).
Proof.
  revert rs ss rd. induction top as [|[score a] top IH]; intros rs ss rd Hrd Hp; [done|].
  cbn [collect_rows collect_prog]. unfold prog_try. rewrite spec_run_bind.
  destruct (on_shared_prog (field_prog se field a) (fast_field_u64 se field a) rd Hrd)
    as (sh & Ho & Hrd').
  { apply (Hp (score, a)). left. }
  { apply fast_field_u64_runs. }
  unfold mbind, ST_bind. rewrite Ho. destruct (spec_run d _); cbn; [|done].
  apply IH; [done|]. intros p Hin. apply Hp. by right.
Qed.

Lemma find_alone query limit filter rd :
  reader_ok rd → limit ≠ 0 →
  (search_with_filter query limit filter rd).1
  = map_err Failed (x ← map_err Tantivy (spec_run d (reader_prog ix));
     spec_run d (search_prog ix (config meta) (searcher_of x) query limit filter)).
Proof.
  intros Hrd Hl. unfold search_with_filter. apply Z.eqb_neq in Hl. rewrite Hl.
  destruct (searcher_alone rd Hrd) as (rd' & Hs & Hrd').
  unfold mbind at 1, ST_bind at 1. rewrite Hs.
  destruct (spec_run d (reader_prog ix)) as [x|e] eqn:Ex; cbn [map_err fmap result_fmap mbind result_bind]; [|done].
  unfold search_prog. pose proof Hrd' as [_ Hi Hm _ _].
  unfold ST_try. destruct (from_json query) as [spec|e] eqn:Eq; [|done]. cbn [map_err].
  rewrite ST_bind_lift_Ok. unfold mbind at 1, ST_bind at 1, ST_gets. unfold id. rewrite Hi, Hm. cbn [mbind result_bind].
  destruct (build_query (index_api ix) (config meta) spec) as [q|e]; [|done]. cbn [map_err].
  rewrite ST_bind_lift_Ok. unfold prog_try. rewrite spec_run_bind. unfold mbind, ST_bind.
  destruct (on_shared_prog (top_prog (searcher_of x) q limit ((λ f, (row_id_field (config meta), f)) <$> filter))
    (search_top_docs (searcher_of x) q limit ((λ f, (row_id_field (config meta), f)) <$> filter)) rd' Hrd')
    as (sh & Ho & Hrd'').
  { by eapply within_top. }
  { apply search_top_docs_runs. }
  rewrite Ho. destruct (spec_run d (top_prog _ _ _ _)) as [top|e] eqn:Etop; cbn; [|done].
  apply collect_rows_alone; [done|]. intros p Hp. by eapply within_field.
Qed.

Lemma call_alone_reference c rd : reader_ok rd → (call_alone c rd).1 = map_err Failed (reference c).
Proof.
  intros Hrd. destruct c as [|query limit filter]; unfold reference; cbn [call_alone request_of mbind result_bind].
  - unfold prewarm. destruct (searcher_alone rd Hrd) as (rd' & Hs & _). unfold mbind, ST_bind. rewrite Hs.
    by destruct (spec_run d _).
  - assert (∀ f : option (Z → bool), (((r ← search_with_filter query limit f; mret (Some r))
        : ST Reader (Fault FtIndexError) (option FullTextSearchResult)) rd).1
      = map_err Failed (rq ← (if limit =? 0 then Err (InvalidQuery [Txt "search limit must be positive"])
               else Ok (Find query limit f));
         x ← map_err Tantivy (spec_run d (reader_prog ix));
         match rq with
         | Warm => Ok None
         | Find query limit filter =>
             Some <$> spec_run d (search_prog ix (config meta) (searcher_of x) query limit filter)
         end)) as Hfind.
    { intros f. destruct (Z.eqb_spec limit 0) as [->|Hl]; [done|]. cbn [mbind result_bind].
      pose proof (find_alone query limit f rd Hrd Hl) as Hf. unfold mbind at 1, ST_bind at 1.
      destruct (search_with_filter query limit f rd) as [r rd']. cbn in Hf. subst r.
      destruct (spec_run d (reader_prog ix)) as [x|e]; [|done]. cbn.
      by destruct (spec_run d _). }
    destruct filter as [bytes|]; [|apply Hfind].
    unfold search_with_roaring_filter. destruct (decode_roaring_filter bytes) as [f|e] eqn:Ef; [|by cbn].
    apply Hfind.
Qed.

(** *** Interleaved *)
Definition stage_ok (c : ReaderCall) (st : Stage) : Prop :=
  match st with
  | Invoked => True
  | Waiting rq | Holding rq => request_of c = Ok rq
  | Opening rq a => request_of c = Ok rq ∧ act_ok a (spec_run d (reader_prog ix))
  | Finding a => ∃ query limit filter x,
      request_of c = Ok (Find query limit filter) ∧ spec_run d (reader_prog ix) = Ok x ∧
      act_ok a (spec_run d (search_prog ix (config meta) (searcher_of x) query limit filter))
  | Finished o => o = reference c
  | Crashed => False
  end.

Lemma with_searcher_ok c rq x rd :
  request_of c = Ok rq → spec_run d (reader_prog ix) = Ok x → reader_ok rd →
  stage_ok c (with_searcher rq (searcher_of x) rd).
Proof.
  intros Hrq Hx [_ Hi Hm _ _]. destruct rq as [|query limit filter]; cbn.
  - unfold reference. by rewrite Hrq, Hx.
  - exists query, limit, filter, x. rewrite Hi, Hm. split_and!; try done. by apply search_prog_within.
Qed.

Lemma stage_step_ok i c st l st' l' :
  stage_step i c st l = Some (st', l') → reader_ok (reader l) → stage_ok c st →
  reader_ok (reader l') ∧ stage_ok c st'.
Proof.
  intros Hs Hrd Hst. pose proof Hrd as [Hr Hi Hm Hp Hx].
  destruct st as [|rq|rq|rq a|a|o|]; cbn [stage_step] in Hs; try done.
  - injection Hs as <- <-. split; [done|]. destruct (request_of c) eqn:E; cbn; [done|].
    unfold reference. by rewrite E.
  - destruct (lock l); [done|]. rewrite Hp in Hs. by injection Hs as <- <-.
  - destruct (fr_reader (reader l)) as [x|] eqn:Ex; injection Hs as <- <-; split; try done.
    + apply with_searcher_ok; [done|by apply Hx|done].
    + split; [done|]. rewrite Hi. split; [apply Hix|done].
  - destruct Hst as [Hrq Ha]. pose proof (activity_step_ok (data_of ∘ inner) fs d Hfs Hd a _ _ Hr Ha) as Hstep.
    destruct (activity_step a (fr_shared (reader l))) as [[a'|[x|e]|] sh]; destruct Hstep as [Hsh Hy];
      injection Hs as <- <-; pose proof (with_shared_ok sh _ Hrd Hsh) as Hrd'.
    + by split.
    + symmetry in Hy. assert (reader_ok (with_reader x (with_shared sh (reader l)))) as Hrd''.
      { destruct Hrd'. split; cbn in *; try done. by intros x' [= <-]. }
      split; [done|]. by apply with_searcher_ok.
    + split; [done|]. cbn. unfold reference. by rewrite Hrq, <- Hy.
    + done.
  - destruct Hst as (query & limit & filter & x & Hrq & Hx' & Ha).
    pose proof (activity_step_ok (data_of ∘ inner) fs d Hfs Hd a _ _ Hr Ha) as Hstep.
    destruct (activity_step a (fr_shared (reader l))) as [[a'|r|] sh]; destruct Hstep as [Hsh Hy];
      injection Hs as <- <-; (split; [by apply with_shared_ok|]).
    + by exists query, limit, filter, x.
    + cbn. unfold reference. rewrite Hrq, Hx'. cbn. by subst r.
    + done.
Qed.

Record library_ok (b : Library R Ix Parsed) : Prop := {
  lo_reader : reader_ok (reader (shared_reader b));
  lo_calls : Forall (λ x, stage_ok x.1 x.2) (calls b)
}.

Lemma lib_run_ok b b' : lib_run b b' → library_ok b → library_ok b'.
Proof.
  intros [b1 b1' [cs l i c st st' l' Hi Hs] | cs l c] [Hrd Hcs]; cbn in *.
  - rewrite Forall_lookup in Hcs. destruct (stage_step_ok i c st l st' l' Hs Hrd (Hcs i _ Hi)) as [Hrd' Hst'].
    split; [done|]. cbn. apply Forall_insert; [by apply Forall_lookup|done].
  - split; [done|]. cbn. by apply Forall_app_2; [|apply Forall_singleton].
Qed.
Lemma library_reachable_ok b b' : rtc lib_run b b' → library_ok b → library_ok b'.
Proof. induction 1; eauto using lib_run_ok. Qed.
End Answers.

(** ** An opened archive *)

(** The reads of files of a directory inside these files. *)
Definition dir_reads `{Platform} (dir : path_map ArchivedFile) (j : Job) : Prop := dir_call dir j ∧ in_file j.

Section Opened.
Context `{Platform} `{Profile} `{Unicode} `{JsonText} `{AnalysisEngine} {R Ix Parsed : Type} `{SeekRead R}.
Context (data_of : R -> list byte) `{!ReadsData R data_of} {max_len : Z} `{!ReadsAll R data_of max_len}.
Context `{ReaderEngine (MeteredSeekRead R) Ix Parsed} `{!EngineProgs (MeteredSeekRead R) Ix Parsed}.

Notation Reader := (FullTextIndexReader (R := R) (Ix := Ix) (Parsed := Parsed)).
Notation open_prog := (index_open_prog (S := MeteredSeekRead R) (Ix := Ix) (Parsed := Parsed)).

(** What the engine promises on an archive of these bytes: it reads files of
    the directory it was given, where they have bytes, and an index stays
    with its directory. *)
Class EngineInside (d : list byte) : Type := {
  opened_on : Ix -> path_map ArchivedFile;
  open_within dir : prog_within d (dir_reads dir) (open_prog dir);
  opened_on_open dir ix : spec_run d (open_prog dir) = Ok ix → opened_on ix = dir;
  opened_on_register n a ix : opened_on (register n a ix) = opened_on ix;
  engine_within ix : programs_within (R := R) (Parsed := Parsed) d (dir_reads (opened_on ix)) ix
}.

(** Every file the header lists lies inside the data, and a vector can hold it. *)
Definition archive_complete (i : R) : Prop :=
  ∀ h body_start, (read_header (metered i ReadMetrics_default)).1 = Ok (h, body_start) →
    Forall (λ f, body_start + file_end f ≤ blen (data_of i) ∧ length f ≤ isize_max) (files h).

Lemma open_parts i (rd : Reader) :
  FullTextIndexReader_open i = Ok rd →
  ∃ h body_start s1 dir ix a, read_header (metered i ReadMetrics_default) = (Ok (h, body_start), s1) ∧
    new_with_metrics body_start (files h) = Ok dir ∧
    index_open dir (new_shared s1) = (Ok ix, fr_shared rd) ∧
    rd = full_text_index_reader (fr_shared rd)
           (register (tokenizer_name (tokenizer_config_of (config (metadata h)))) a ix) None false (metadata h).
Proof.
  unfold FullTextIndexReader_open, open_on.
  destruct (read_header (metered i ReadMetrics_default)) as [[[h body_start]|e] s1]; cbn; [|done].
  destruct (validate_tantivy_version (metadata h)) as [[]|e]; cbn; [|done].
  destruct (new_with_metrics body_start (files h)) as [dir|e] eqn:Hdir; cbn; [|done].
  destruct (index_open dir (new_shared s1)) as [[ix|e] sh] eqn:Ho; cbn; [|done].
  unfold register_tokenizer. destruct (build_text_analyzer _) as [a|e]; cbn; [|done].
  intros [= <-]. by exists h, body_start, s1, dir, ix, a.
Qed.

Lemma opened_reader i (rd : Reader) :
  blen (data_of i) ≤ max_len →
  archive_complete i → EngineInside (data_of i) → FullTextIndexReader_open i = Ok rd →
  ∃ fs, files_ok fs ∧ programs_within (data_of i) (inside fs (data_of i)) (fr_index rd) ∧
    reader_ok data_of fs (data_of i) (fr_index rd) (fr_metadata rd) rd.
Proof.
  intros Hsize Hcomplete Hin Hopen.
  destruct (open_parts i rd Hopen) as (h & body_start & s1 & dir & ix & a & Hh & Hdir & Ho & Hrd).
  pose proof (read_header_counters (metered i ReadMetrics_default)) as Hcnt. rewrite Hh in Hcnt. cbn [snd] in Hcnt.
  specialize (Hcomplete h body_start). rewrite Hh in Hcomplete. specialize (Hcomplete eq_refl).
  apply (read_header_sound (data_of := data_of ∘ inner)) in Hh
    as (text & body & Hd & _ & Hj & Hv & -> & Hd1). cbn [compose inner] in Hd, Hd1.
  apply bind_Ok in Hj as (js & _ & Htyped%IndexHeader_from_json_typed).
  set (d := data_of i) in *. set (b := blen (header_bytes text)) in *.
  pose proof (max_len_addressable (max_len := max_len)) as Hmax.
  assert (0 ≤ b) as Hb by apply blen_nonneg.
  assert (files_ok (entry_file b <$> files h)) as Hfs.
  { apply files_ok_disjoint; try done. intros f g. by apply validate_header_disjoint. }
  assert (∀ j, dir_reads dir j → inside (entry_file b <$> files h) d j) as Hinside.
  { intros j [[[path Hg] [H0s H0e]] Hj]. destruct (dir_handle_file _ _ _ _ _ Hdir Hg) as (f & Hf & He & Hl).
    rewrite Forall_forall in Hcomplete, Htyped. destruct (Hcomplete f Hf) as [Hend Hfit]. specialize (Htyped f Hf) as [Hof Hle].
    unfold file_end in Hend. pose proof (f_equal file_start He) as Hst. pose proof (f_equal file_length He) as Hln.
    cbn in Hst, Hln. split; [|split; [done|split]].
    - split_and!; try done; [rewrite He; by apply list_elem_of_fmap_2|lia].
    - lia.
    - lia. }
  exists (entry_file b <$> files h). split; [done|].
  assert (reading (data_of ∘ inner) (entry_file b <$> files h) d (new_shared s1)) as Hnew.
  { apply (reading_new (data_of ∘ inner) _ _ False Hfs (Z.le_trans _ _ _ Hsize Hmax) ltac:(done) s1 Hd1). unfold cache_counters in Hcnt. cbn in Hcnt |- *. by injection Hcnt. }
  destruct (run_prog_spec (data_of ∘ inner) (entry_file b <$> files h) d Hfs Hsize (open_prog dir) (new_shared s1))
    as (sh & Hrun & Hsh); [|done|].
  { eapply prog_within_weaken; [exact Hinside|]. apply open_within. }
  rewrite index_open_runs in Ho. unfold run_engine in Ho. rewrite Hrun in Ho. injection Ho as Hix ->.
  apply map_err_Ok, opened_on_open in Hix.
  assert (programs_within d (inside (entry_file b <$> files h) d) (fr_index rd)) as Hprogs.
  { rewrite Hrd. cbn [fr_index]. set (ix' := register _ a ix).
    assert (opened_on ix' = dir) as Hon by (unfold ix'; by rewrite opened_on_register).
    destruct (engine_within ix') as [H1' H2' H3']. rewrite Hon in H1', H2', H3'.
    split; [by eapply prog_within_weaken|..].
    - intros. eapply prog_within_weaken; [exact Hinside|]. by apply H2'.
    - intros. eapply prog_within_weaken; [exact Hinside|]. by eapply H3'. }
  split; [done|]. rewrite Hrd. by split.
Qed.

Lemma empty_lock_ok (rd : Reader) : lock_ok (library [] (shelf rd None)).
Proof. intros i. split; [done|]. by intros (c & st & ? & _). Qed.
Lemma runs_lock_ok (b b' : Library R Ix Parsed) : rtc lib_run b b' → lock_ok b → lock_ok b'.
Proof. induction 1; eauto using lib_run_lock. Qed.
Lemma lib_step_calls (b b' : Library R Ix Parsed) : lib_step b b' → (calls b').*1 = (calls b).*1.
Proof.
  intros [cs l i c st st' l' Hi _]. cbn. rewrite list_fmap_insert. cbn.
  apply list_insert_id. by rewrite list_lookup_fmap, Hi.
Qed.
Lemma lib_steps_calls (b b' : Library R Ix Parsed) : rtc lib_step b b' → (calls b').*1 = (calls b).*1.
Proof. induction 1 as [|b1 b2 b3 Hs _ IH]; [done|]. rewrite IH. by apply lib_step_calls. Qed.
Lemma lib_steps_run (b b' : Library R Ix Parsed) : rtc lib_step b b' → rtc lib_run b b'.
Proof. apply rtc_subrel. apply lib_continues. Qed.

(** C10: whatever calls are made on an opened reader, and however their actions
    and the block reads behind them are interleaved, every [search],
    [search_with_roaring_filter] and [prewarm] that finishes gives exactly
    what the same call alone gives on the freshly opened reader, errors
    included; no call is unwound by a panic, the lock is never poisoned, and
    at most one call at a time is between taking and dropping it.  The input
    serves every range of its data, the archive is complete (with files that a
    vector can hold), and the engine's computations are programs that read
    inside its files. *)
Theorem concurrent_calls_answer i rd b :
  blen (data_of i) ≤ max_len →
  archive_complete i → EngineInside (data_of i) → FullTextIndexReader_open i = Ok rd →
  rtc lib_run (library [] (shelf rd None)) b →
  fr_poisoned (reader (shared_reader b)) = false ∧
  (∀ c st, (c, st) ∈ calls b → st ≠ Crashed ∧ ∀ o, st = Finished o → (call_alone c rd).1 = map_err Failed o) ∧
  (∀ j k c c' st st', calls b !! j = Some (c, st) → calls b !! k = Some (c', st') →
     holds st = true → holds st' = true → j = k).
Proof.
  intros Hsize Hcomplete Hin Hopen Hrun.
  destruct (opened_reader i rd Hsize Hcomplete Hin Hopen) as (fs & Hfs & Hix & Hrd).
  destruct (library_reachable_ok data_of fs (data_of i) Hfs Hsize (fr_index rd) (fr_metadata rd) Hix _ _ Hrun)
    as [Hrd' Hcs]; [by split|].
  split; [apply Hrd'|]. split.
  - intros c st Hc. rewrite Forall_forall in Hcs. specialize (Hcs _ Hc). cbn in Hcs. split; [by intros ->|].
    intros o ->. cbn in Hcs. rewrite Hcs. by eapply call_alone_reference.
  - intros j k c c' st st' Hj Hk Hst Hst'. pose proof (runs_lock_ok _ _ Hrun (empty_lock_ok rd)) as Hlock.
    assert (lock (shared_reader b) = Some j) as E by (apply Hlock; by exists c, st).
    assert (lock (shared_reader b) = Some k) as E' by (apply Hlock; by exists c', st'). congruence.
Qed.

(** C29: the calls on one reader never block each other for good: from any
    state they can reach, over any input, failing or not, every run of the
    calls made so far ends, whatever the scheduler does, and where it ends
    each of them has returned (or was unwound by a panic of its own reads). *)
Theorem concurrent_calls_end rd b :
  rtc lib_run (library [] (shelf rd None)) b →
  sn lib_step b ∧
  ∀ b', rtc lib_step b b' → (∀ b'', ¬ lib_step b' b'') →
    (calls b').*1 = (calls b).*1 ∧ ∀ c st, (c, st) ∈ calls b' → ended st = true.
Proof.
  intros Hrun. split; [apply library_acc|]. intros b' Hb' Hstuck. split; [by apply lib_steps_calls|].
  intros c st Hc. destruct (ended st) eqn:E; [done|].
  destruct (library_progress b' c st) as [b'' Hb'']; [|done|done|by destruct (Hstuck b'')].
  eapply runs_lock_ok, (empty_lock_ok rd). etrans; [exact Hrun|]. by apply lib_steps_run.
Qed.
End Opened.
