(* ===== verification/ToyProgs.v ===== *)
(** * A small engine that reads

    An engine whose computations read files of the archive: opening reads the
    metadata, the reader keeps the segment, a search reads the segment again
    and the rows come after another look at the metadata.  On it the
    concurrent calls of [ReaderConc] run. *)

From S2P Require Import Prelude RustStd Error IoLayer Json Tokenizer Config HeaderJson Storage Archive ArchiveConc.
From S2P Require Import Query Analyzer BuildQuery Writer Reader ToyEngine WriterSpec ReaderSpec ReaderConc ReaderConcSpec.

#[local] Existing Instances toy_platform toy_unicode toy_text toy_profile toy_analysis toy_schema toy_registry
  toy_writer toy_schema_laws toy_registry_laws.

(** An index keeps its directory. *)
Definition ProgIndex : Type := path_map ArchivedFile * ToyIndex.
#[local] Instance prog_registry : TokenizerRegistry ProgIndex := {
  register n a ix := (ix.1, register n a ix.2);
  registered ix n := registered ix.2 n
}.

Definition read_file (dir : path_map ArchivedFile) (path : str) : Prog (result TantivyError (list byte)) :=
  match get_file_handle dir path with
  | Ok h =>
      if 0 <=? handle_length h then
        ReadBytes (job h 0 (handle_length h)) (λ r, Done (map_err (λ _, tantivy_error [Txt "unreadable"]) r))
      else Done (Err (tantivy_error [Txt "no such file"]))
  | Err _ => Done (Err (tantivy_error [Txt "no such file"]))
  end.
Definition prog_open (dir : path_map ArchivedFile) : Prog (result TantivyError ProgIndex) :=
  prog_try id (read_file dir (lit "meta.json")) (λ _, Done (Ok (dir, []))).
Definition prog_reader (ix : ProgIndex) : Prog (result TantivyError (path_map ArchivedFile * list byte)) :=
  prog_try id (read_file ix.1 (lit "segment")) (λ segment, Done (Ok (ix.1, segment))).
(** A document per byte of the segment. *)
Definition prog_top (se : path_map ArchivedFile * list byte) (q : EngineQuery str) (limit : Z)
    (f : option (str * (Z -> bool))) : Prog (result TantivyError (list (f32 * Z))) :=
  prog_try id (read_file se.1 (lit "segment")) (λ segment,
    Done (Ok ((f32_one,.) <$> take (Z.to_nat limit)
      (filter (λ d, toy_matches q d = true ∧ toy_passes f d = true) (seqZ 0 (blen segment)))))).
Definition prog_field (se : path_map ArchivedFile * list byte) (field : str) (d : Z) : Prog (result TantivyError Z) :=
  prog_try id (read_file se.1 (lit "meta.json")) (λ _, Done (Ok (toy_row d))).

#[local] Instance prog_engine : ReaderEngine (MeteredSeekRead SliceReader) ProgIndex str := {
  IndexReader := path_map ArchivedFile * list byte;
  Searcher := path_map ArchivedFile * list byte;
  DocAddress := Z;
  runtime_version := lit "0.26.1";
  index_open dir := run_engine (prog_open dir);
  index_reader ix := run_engine (prog_reader ix);
  searcher_of x := x;
  index_api ix := {|
    schema_get_field f := if str_eqb f (lit "text") then Some 1 else None;
    tokenizers_get name := (λ _, split_on (λ c, c =? 32)) <$> registered ix name;
    parse_query _ text := Ok text
  |};
  search_top_docs se q limit f := run_engine (prog_top se q limit f);
  fast_field_u64 se field d := run_engine (prog_field se field d);
  roaring_deserialize bs := Ok (λ row, bool_decide (row ∈ (Z_of_byte <$> bs)))
}.

#[local] Instance prog_engine_progs : EngineProgs (MeteredSeekRead SliceReader) ProgIndex str := {
  index_open_prog := prog_open;
  index_reader_prog := prog_reader;
  search_top_docs_prog := prog_top;
  fast_field_u64_prog := prog_field;
  index_open_runs _ _ := eq_refl;
  index_reader_runs _ _ := eq_refl;
  search_top_docs_runs _ _ _ _ _ := eq_refl;
  fast_field_u64_runs _ _ _ _ := eq_refl
}.

Lemma read_file_within d dir path : prog_within d (dir_reads dir) (read_file dir path).
Proof.
  unfold read_file. destruct (get_file_handle dir path) as [h|e] eqn:Eh; [|done].
  destruct (Z.leb_spec 0 (handle_length h)); [|done]. cbn. split; [|done].
  split; [|split; cbn; lia]. split; [by exists path|]. cbn. lia.
Qed.
Lemma try_read_within {A} d dir path (k : list byte -> Prog (result TantivyError A)) :
  (∀ b, prog_within d (dir_reads dir) (k b)) → prog_within d (dir_reads dir) (prog_try id (read_file dir path) k).
Proof.
  intros Hk. apply prog_within_bind. split; [apply read_file_within|]. destruct (spec_run d _); [apply Hk|done].
Qed.
Lemma try_read_keeps {A} d dir path (k : list byte -> A) y :
  spec_run d (prog_try id (read_file dir path) (λ b, Done (Ok (k b)))) = (Ok y : result TantivyError A) →
  ∃ b, y = k b.
Proof.
  unfold prog_try. rewrite spec_run_bind. destruct (spec_run d (read_file dir path)) as [b|e]; cbn; [|done].
  intros [= <-]. by exists b.
Qed.
#[local] Instance prog_engine_inside d : EngineInside (R := SliceReader) (Ix := ProgIndex) (Parsed := str) d.
Proof.
  refine {| opened_on := fst |}.
  - intros dir. by apply try_read_within.
  - intros dir ix Hix. by apply try_read_keeps in Hix as [b ->].
  - done.
  - intros ix. split.
    + by apply try_read_within.
    + intros x q limit f Hx. apply try_read_keeps in Hx as [b ->]. by apply try_read_within.
    + intros x q limit f top field p Hx _ _. apply try_read_keeps in Hx as [b ->]. by apply try_read_within.
Defined.

(** ** Three calls on the archive of the two documents *)
Definition prog_opened : result (Fault FtIndexError) (FullTextIndexReader (R := SliceReader) (Ix := ProgIndex) (Parsed := str)) :=
  FullTextIndexReader_open toy_input.
Definition toy_calls : list (ReaderCall * Stage (Ix := ProgIndex) (Parsed := str)) := [
  (CallSearch toy_query 5 None, Invoked); (CallPrewarm, Invoked); (CallSearch toy_query 0 None, Invoked)].
Definition toy_turns : list nat := concat (replicate 40 [0; 1; 2; 1]%nat).
Definition stage_rows (st : Stage (Ix := ProgIndex) (Parsed := str)) : option (list Z) :=
  match st with Finished (Ok (Some r)) => Some (row_ids r) | _ => None end.

Notation ToyLibrary := (Library SliceReader ProgIndex str).
Definition toy_library (rd : FullTextIndexReader (R := SliceReader) (Ix := ProgIndex) (Parsed := str)) : ToyLibrary :=
  schedule toy_turns (library toy_calls (shelf rd None)).
Lemma toy_library_calls rd : (calls (toy_library rd)).*1 = toy_calls.*1.
Proof.
  exact (lib_steps_calls (library toy_calls (shelf rd None)) (toy_library rd) (schedule_steps toy_turns _)).
Qed.
Definition toy_results (b : ToyLibrary) : list (option (list Z) * bool) :=
  (λ x, (stage_rows x.2, ended x.2)) <$> calls b.

Lemma toy_calls_finish :
  match prog_opened with Ok rd => toy_results (toy_library rd) | Err _ => [] end
  = [(Some [7], true); (None, true); (None, true)].
Proof. vm_compute. reflexivity. Qed.
Lemma toy_library_reachable rd : rtc lib_run (library [] (shelf rd None)) (toy_library rd).
Proof.
  unfold toy_library, toy_calls. eapply rtc_l; [apply (lib_invokes [] _ (CallSearch toy_query 5 None))|].
  eapply rtc_l; [apply lib_invokes|]. eapply rtc_l; [apply (lib_invokes _ _ (CallSearch toy_query 0 None))|].
  apply lib_steps_run, schedule_steps.
Qed.
Lemma toy_input_complete : archive_complete data toy_input.
Proof.
  intros h b Hh. assert (match (read_header (metered toy_input ReadMetrics_default)).1 with
    | Ok (h, b) => forallb (λ f, (b + file_end f <=? blen (data toy_input)) && (length f <=? isize_max)) (files h)
    | Err _ => true end = true) as Hall by (vm_compute; reflexivity).
  rewrite Hh in Hall. apply Forall_forall. intros f Hf. rewrite forallb_forall in Hall.
  specialize (Hall f (proj1 (list_elem_of_In _ _) Hf)). apply andb_true_iff in Hall as [Hend Hfit].
  split; [exact (proj1 (Z.leb_le _ _) Hend)|exact (proj1 (Z.leb_le _ _) Hfit)].
Qed.

Lemma first_found (b : ToyLibrary) c0 rest rows others :
  (calls b).*1 = c0 :: rest → toy_results b = (Some rows, true) :: others →
  ∃ res, (c0, Finished (Ok (Some res))) ∈ calls b ∧ row_ids res = rows.
Proof.
  unfold toy_results. destruct (calls b) as [|[c st] cs]; [done|]. intros [= -> _] [= Hrows _ _].
  destruct st as [| | | | |[[res|]|e]|]; try discriminate Hrows. injection Hrows as Hrows.
  exists res. split; [left|done].
Qed.

(** The interleaved search has found row 7, so the same search alone does. *)
Lemma concurrent_calls_answer_witness : ∃ rd res,
  prog_opened = Ok rd ∧ (call_alone (CallSearch toy_query 5 None) rd).1 = Ok (Some res) ∧ row_ids res = [7].
Proof.
  pose proof toy_calls_finish as Hcalls. destruct prog_opened as [rd|e] eqn:Hopen; [|done].
  destruct (concurrent_calls_answer data toy_input rd (toy_library rd)) as (_ & Hanswers & _).
  - vm_compute. discriminate.
  - apply toy_input_complete.
  - apply prog_engine_inside.
  - exact Hopen.
  - apply toy_library_reachable.
  - destruct (first_found _ _ _ _ _ (toy_library_calls rd) Hcalls) as (res & Hin & Hrows).
    exists rd, res. split; [reflexivity|]. split; [exact (proj2 (Hanswers _ _ Hin) _ eq_refl)|exact Hrows].
Defined.

Lemma concurrent_calls_end_witness : ∃ rd, prog_opened = Ok rd ∧ sn lib_step (toy_library rd).
Proof.
  pose proof toy_calls_finish as Hcalls. destruct prog_opened as [rd|e]; [|done].
  exists rd. split; [done|]. apply (concurrent_calls_end rd), toy_library_reachable.
Defined.
