(* ===== verification/Native.v ===== *)
(** * What the foreign interfaces share

    The text of an error ([Display] of [FtIndexError]), UTF-8 decoding as
    [str::from_utf8] does it, and computations that may also panic or run into
    undefined behaviour: a native function dereferences pointers the caller
    hands it, and the core behind it panics ([ffi_outcome]). *)

From S2P Require Import Prelude RustStd Error.

(** ** UTF-8 decoding *)
Record Utf8Error : Type := utf8_error { valid_up_to : Z; error_len : option Z }.

Definition is_continuation (z : Z) : bool := (0x80 <=? z) && (z <=? 0xBF).
(** Second bytes that may follow a first byte of a sequence of three or four. *)
Definition second_of_three (x y : Z) : bool :=
  is_continuation y && negb ((x =? 0xE0) && (y <? 0xA0)) && negb ((x =? 0xED) && (0xA0 <=? y)).
Definition second_of_four (x y : Z) : bool :=
  is_continuation y && negb ((x =? 0xF0) && (y <? 0x90)) && negb ((x =? 0xF4) && (0x90 <=? y)).

(** [str::from_utf8], from the byte at [index] on. *)
Fixpoint utf8_decode (index : Z) (bs : list byte) : result Utf8Error str :=
  match bs with
  | [] => Ok []
  | b0 :: bs1 =>
      let x := Z_of_byte b0 in
      if x <? 0x80 then cons x <$> utf8_decode (index + 1) bs1
      else if x <? 0xC2 then Err (utf8_error index (Some 1))
      else match bs1 with
           | [] => Err (utf8_error index (if x <? 0xF5 then None else Some 1))
           | b1 :: bs2 =>
               let y := Z_of_byte b1 in
               if x <? 0xE0 then
                 if is_continuation y then cons ((x - 0xC0) * 64 + (y - 0x80)) <$> utf8_decode (index + 2) bs2
                 else Err (utf8_error index (Some 1))
               else if x <? 0xF0 then
                 if negb (second_of_three x y) then Err (utf8_error index (Some 1))
                 else match bs2 with
                      | [] => Err (utf8_error index None)
                      | b2 :: bs3 =>
                          let z := Z_of_byte b2 in
                          if is_continuation z then
                            cons ((x - 0xE0) * 4096 + (y - 0x80) * 64 + (z - 0x80)) <$> utf8_decode (index + 3) bs3
                          else Err (utf8_error index (Some 2))
                      end
               else if x <? 0xF5 then
                 if negb (second_of_four x y) then Err (utf8_error index (Some 1))
                 else match bs2 with
                      | [] => Err (utf8_error index None)
                      | b2 :: bs3 =>
                          let z := Z_of_byte b2 in
                          if negb (is_continuation z) then Err (utf8_error index (Some 2))
                          else match bs3 with
                               | [] => Err (utf8_error index None)
                               | b3 :: bs4 =>
                                   let u := Z_of_byte b3 in
                                   if is_continuation u then
                                     cons ((x - 0xF0) * 262144 + (y - 0x80) * 4096 + (z - 0x80) * 64 + (u - 0x80))
                                       <$> utf8_decode (index + 4) bs4
                                   else Err (utf8_error index (Some 3))
                               end
                      end
               else Err (utf8_error index (Some 1))
           end
  end.
Definition from_utf8 (bs : list byte) : result Utf8Error str := utf8_decode 0 bs.

(** A [char] of Rust: a Unicode scalar value. *)
Definition is_scalar (c : char) : bool :=
  (0 <=? c) && (c <? 0x110000) && negb ((0xD800 <=? c) && (c <? 0xE000)).

(** ** Texts of errors *)

(** What the library does not format itself: floats, and the errors of
    [serde_json], whose text the model does not carry. *)
Class Display : Type := {
  f32_to_string : f32 -> str;
  json_error_to_string : JsonError -> str
}.

Definition utf8_error_to_string (e : Utf8Error) : str :=
  match error_len e with
  | Some n => lit "invalid utf-8 sequence of " ++ int_to_string n ++ lit " bytes from index "
                ++ int_to_string (valid_up_to e)
  | None => lit "incomplete utf-8 byte sequence from index " ++ int_to_string (valid_up_to e)
  end.

Section Texts.
Context `{Display}.

Definition fragment_to_string (f : fragment) : str :=
  match f with
  | Txt s => lit s
  | Str s => s
  | Int n => int_to_string n
  | Flt x => f32_to_string x
  end.
Definition message_to_string (m : message) : str := m ≫= fragment_to_string.

(** [impl Display for FtIndexError] *)
Definition to_string (e : FtIndexError) : str :=
  match e with
  | InvalidOption key m => lit "invalid option " ++ key ++ lit ": " ++ message_to_string m
  | InvalidQuery m => lit "invalid query: " ++ message_to_string m
  | InvalidStorage m => lit "invalid storage format: " ++ message_to_string m
  | Io e => lit "io error: " ++ message_to_string (io_message e)
  | Json e => lit "json error: " ++ json_error_to_string e
  | Tantivy e => lit "tantivy error: " ++ message_to_string (tantivy_message e)
  end.
End Texts.

(** ** Computations at the boundary

    A native function returns a value or an error text, panics with a
    payload, or has undefined behaviour because a pointer does not point at
    what it should. *)
Inductive outcome (A : Type) : Type :=
| Returned (r : result str A)
| Unwinds (p : Payload)
| Undefined.
Arguments Returned {A} r.
Arguments Unwinds {A} p.
Arguments Undefined {A}.

Definition FFI (S A : Type) : Type := S -> outcome A * S.
#[global] Instance FFI_ret S : MRet (FFI S) := λ A a s, (Returned (Ok a), s).
#[global] Instance FFI_bind S : MBind (FFI S) := λ A B f m s,
  match m s with
  | (Returned (Ok a), s') => f a s'
  | (Returned (Err e), s') => (Returned (Err e), s')
  | (Unwinds p, s') => (Unwinds p, s')
  | (Undefined, s') => (Undefined, s')
  end.
Definition ffi_fail {S A} (e : str) : FFI S A := λ s, (Returned (Err e), s).
Definition ffi_undefined {S A} : FFI S A := λ s, (Undefined, s).
Definition ffi_lift {S A} (r : result str A) : FFI S A := λ s, (Returned r, s).
(** The result of a call of the core: a panic unwinds. *)
Definition ffi_outcome `{Display} {A} (r : result (Fault FtIndexError) A) : outcome A :=
  match r with
  | Ok a => Returned (Ok a)
  | Err (Failed e) => Returned (Err (to_string e))
  | Err (Panicked p) => Unwinds p
  end.
(** [None] is a panic with the payload [p]. *)
Definition ffi_may_panic `{Display} {S A} (p : Payload) (r : option (result (Fault FtIndexError) A)) : FFI S A := λ s,
  (match r with Some r => ffi_outcome r | None => Unwinds p end, s).

(** [for i in 0..len { v.push(f(i)?) }] over the elements of slices. *)
Fixpoint ffi_mapM {S A B} (f : A -> FFI S B) (l : list A) : FFI S (list B) :=
  match l with
  | [] => mret []
  | x :: l' => y ← f x; ys ← ffi_mapM f l'; mret (y :: ys)
  end.

(** A pointer is an address; 0 is null. *)
Abbreviation ptr := Z (only parsing).
Definition is_null (p : ptr) : bool := p =? 0.

(** The iteration order of a [HashMap], which is any order of its entries. *)
Class HashOrder : Type := {
  hash_entries : gmap str str -> list (str * str);
  hash_entries_perm m : hash_entries m ≡ₚ map_to_list m
}.

(** ** Postconditions of boundary computations

    [ffi_wp m Q s]: [m] run from [s] has defined behaviour, does not panic,
    and its result and final state satisfy [Q]. *)
Definition ffi_wp {S A} (m : FFI S A) (Q : result str A -> S -> Prop) (s : S) : Prop :=
  ∃ r, (m s).1 = Returned r ∧ Q r (m s).2.

(** [reads m s]: [m] returns and changes nothing.  [keeps R U m s]: it has
    defined behaviour, ends in a state related to [s] by [R], a preorder, and
    unwinds only with the payloads in [U]. *)
Section Keeps.
Context {S : Type} (R : S -> S -> Prop) `{!PreOrder R} (U : Payload -> Prop).

Definition reads {A} (m : FFI S A) (s : S) : Prop := ffi_wp m (λ _ s', s' = s) s.
Definition keeps {A} (m : FFI S A) (s : S) : Prop :=
  match m s with
  | (Returned _, s') => R s s'
  | (Unwinds p, s') => R s s' ∧ U p
  | (Undefined, _) => False
  end.

Lemma reads_run {A} (m : FFI S A) s : reads m s → ∃ r, m s = (Returned r, s).
Proof. intros (r & Hr & Hw). exists r. destruct (m s). cbn in *. congruence. Qed.
Lemma reads_intro {A} (m : FFI S A) s r : m s = (Returned r, s) → reads m s.
Proof. intros Hm. exists r. by rewrite Hm. Qed.
Lemma reads_ret {A} (a : A) s : reads (mret a) s.
Proof. by eapply reads_intro. Qed.
Lemma reads_fail {A} e s : reads (ffi_fail e : FFI S A) s.
Proof. by eapply reads_intro. Qed.
Lemma reads_lift {A} r s : reads (ffi_lift r : FFI S A) s.
Proof. by eapply reads_intro. Qed.
Lemma reads_bind {A B} (m : FFI S A) (f : A -> FFI S B) s :
  reads m s → (∀ a, m s = (Returned (Ok a), s) → reads (f a) s) → reads (m ≫= f) s.
Proof.
  intros (r & Hm)%reads_run Hf. unfold reads, ffi_wp, mbind, FFI_bind. rewrite Hm.
  destruct r as [a|e]; [by apply Hf|]. by eexists.
Qed.
Lemma reads_mapM {A B} (f : A -> FFI S B) l s : (∀ x, x ∈ l → reads (f x) s) → reads (ffi_mapM f l) s.
Proof.
  induction l as [|x l IH]; intros Hf; [apply reads_ret|]. cbn [ffi_mapM].
  apply reads_bind; [apply Hf; left|]. intros y _.
  apply reads_bind; [apply IH; intros z Hz; apply Hf; by right|]. intros. apply reads_ret.
Qed.

Lemma keeps_intro {A} (m : FFI S A) s r s' : m s = (Returned r, s') → R s s' → keeps m s.
Proof. unfold keeps. by intros ->. Qed.
Lemma keeps_reads {A} (m : FFI S A) s : reads m s → keeps m s.
Proof. intros (r & Hm)%reads_run. by eapply keeps_intro. Qed.
Lemma keeps_bind {A B} (m : FFI S A) (f : A -> FFI S B) s :
  keeps m s → (∀ a s', m s = (Returned (Ok a), s') → R s s' → keeps (f a) s') → keeps (m ≫= f) s.
Proof.
  unfold keeps, mbind, FFI_bind. intros Hm Hf. destruct (m s) as [[[a|e]|p|] s']; try done.
  specialize (Hf a s' eq_refl Hm). destruct (f a s') as [[r|p|] s2]; [by transitivity s'| |done].
  destruct Hf. split; [by transitivity s'|done].
Qed.
Lemma keeps_read_bind {A B} (m : FFI S A) (f : A -> FFI S B) s :
  reads m s → (∀ a, m s = (Returned (Ok a), s) → keeps (f a) s) → keeps (m ≫= f) s.
Proof.
  intros Hm Hf. apply keeps_bind; [by apply keeps_reads|]. intros a s' Ha _.
  destruct (reads_run _ _ Hm) as [r Hr]. rewrite Hr in Ha. injection Ha as -> <-. by apply Hf.
Qed.
Lemma keeps_mapM {A B} (f : A -> FFI S B) l s :
  (∀ x s', x ∈ l → R s s' → keeps (f x) s') → keeps (ffi_mapM f l) s.
Proof.
  revert s. induction l as [|x l IH]; intros s Hf; [apply keeps_reads, reads_ret|]. cbn [ffi_mapM].
  apply keeps_bind; [by apply Hf; [left|]|]. intros y s1 _ H1.
  apply keeps_bind; [apply IH; intros z s' Hz Hs; apply Hf; [by right|by transitivity s1]|].
  intros ys s2 _ _. apply keeps_reads, reads_ret.
Qed.
End Keeps.
Lemma keeps_returns {S A} (R : S -> S -> Prop) (m : FFI S A) s :
  keeps R (λ _, False) m s → ∃ r s', m s = (Returned r, s') ∧ R s s'.
Proof. unfold keeps. destruct (m s) as [[r|p|] s']; [by exists r, s'|by intros []|done]. Qed.
Lemma keeps_weaken {S A} (R R' : S -> S -> Prop) (U U' : Payload -> Prop) (m : FFI S A) s :
  (∀ s', R s s' → R' s s') → (∀ p, U p → U' p) → keeps R U m s → keeps R' U' m s.
Proof. unfold keeps. intros HR HU. destruct (m s) as [[r|p|] s']; naive_solver. Qed.
Lemma ffi_bind_Ok {S A B} (m : FFI S A) (f : A -> FFI S B) w b w' :
  (m ≫= f) w = (Returned (Ok b), w') → ∃ a w1, m w = (Returned (Ok a), w1) ∧ f a w1 = (Returned (Ok b), w').
Proof. unfold mbind, FFI_bind. destruct (m w) as [[[]| |] ?]; naive_solver. Qed.

(** ** Decoding what was encoded *)
Ltac decide_Z :=
  repeat match goal with
  | |- context [?a <? ?b] => first
      [ replace (a <? b) with true by (symmetry; apply Z.ltb_lt; lia)
      | replace (a <? b) with false by (symmetry; apply Z.ltb_ge; lia) ]
  | |- context [?a <=? ?b] => first
      [ replace (a <=? b) with true by (symmetry; apply Z.leb_le; lia)
      | replace (a <=? b) with false by (symmetry; apply Z.leb_gt; lia) ]
  | |- context [?a =? ?b] => first
      [ replace (a =? b) with true by (symmetry; apply Z.eqb_eq; lia)
      | replace (a =? b) with false by (symmetry; apply Z.eqb_neq; lia) ]
  end.

Lemma is_continuation_digit d : 0 ≤ d < 64 → is_continuation (0x80 + d) = true.
Proof. intros. unfold is_continuation. by decide_Z. Qed.
Lemma second_of_three_digit a d :
  0 ≤ d < 64 → (a = 0 → 32 ≤ d) → (a = 13 → d < 32) → second_of_three (0xE0 + a) (0x80 + d) = true.
Proof.
  intros Hd H0 H13. unfold second_of_three. rewrite is_continuation_digit by done.
  destruct (decide (a = 0)); [by decide_Z|]. destruct (decide (a = 13)); [by decide_Z|]. by decide_Z.
Qed.
Lemma second_of_four_digit a d :
  0 ≤ d < 64 → (a = 0 → 16 ≤ d) → (a = 4 → d < 16) → second_of_four (0xF0 + a) (0x80 + d) = true.
Proof.
  intros Hd H0 H4. unfold second_of_four. rewrite is_continuation_digit by done.
  destruct (decide (a = 0)); [by decide_Z|]. destruct (decide (a = 4)); [by decide_Z|]. by decide_Z.
Qed.

Lemma Z_of_byte_small z : 0 ≤ z < 256 → Z_of_byte (byte_of_Z z) = z.
Proof. intros. rewrite Z_of_byte_of_Z. by rewrite Z.mod_small. Qed.

Lemma utf8_decode_char i c bs :
  is_scalar c = true →
  utf8_decode i (encode_utf8 c ++ bs) = cons c <$> utf8_decode (i + len_utf8 c) bs.
Proof.
  unfold is_scalar, encode_utf8, len_utf8. intros Hc. bool_to_prop.
  assert (0xD800 ≤ c → 0xE000 ≤ c) as Hsur.
  { intros. destruct (Z.leb_spec 0xD800 c), (Z.ltb_spec c 0xE000); cbn in *; try discriminate; lia. }
  rewrite !Z.shiftr_div_pow2 by lia.
  pose proof (Z.div_mod c 64 ltac:(lia)) as E0. pose proof (Z.mod_pos_bound c 64 ltac:(lia)) as B0.
  set (c1 := c / 64) in *. set (d0 := c mod 64) in *.
  pose proof (Z.div_mod c1 64 ltac:(lia)) as E1. pose proof (Z.mod_pos_bound c1 64 ltac:(lia)) as B1.
  assert (c / 2 ^ 6 = c1) as -> by done.
  assert (c / 2 ^ 12 = c1 / 64) as -> by (change (2 ^ 12) with (64 * 64); by rewrite <- Z.div_div by lia).
  assert (c / 2 ^ 18 = c1 / 64 / 64) as ->
    by (change (2 ^ 18) with (64 * 64 * 64); by rewrite <- !Z.div_div by lia).
  set (c2 := c1 / 64) in *. set (d1 := c1 mod 64) in *.
  pose proof (Z.div_mod c2 64 ltac:(lia)) as E2. pose proof (Z.mod_pos_bound c2 64 ltac:(lia)) as B2.
  set (c3 := c2 / 64) in *. set (d2 := c2 mod 64) in *. clearbody c1 c2 c3 d0 d1 d2.
  destruct (Z.ltb_spec c 0x80); [|destruct (Z.ltb_spec c 0x800); [|destruct (Z.ltb_spec c 0x10000)]];
    cbn [app utf8_decode]; rewrite ?Z_of_byte_small by lia.
  - by decide_Z.
  - rewrite is_continuation_digit by done. decide_Z. do 2 f_equal; lia.
  - rewrite second_of_three_digit by lia. rewrite is_continuation_digit by done. cbn [negb].
    decide_Z. do 2 f_equal; lia.
  - rewrite second_of_four_digit by lia. rewrite !is_continuation_digit by done. cbn [negb].
    decide_Z. do 2 f_equal; lia.
Qed.

(** The UTF-8 bytes of any string decode to that string. *)
Lemma from_utf8_as_bytes s : forallb is_scalar s = true → from_utf8 (as_bytes s) = Ok s.
Proof.
  unfold from_utf8. generalize 0. induction s as [|c s IH]; intros i Hs; [done|].
  cbn in Hs. apply andb_true_iff in Hs as [Hc Hs].
  change (as_bytes (c :: s)) with (encode_utf8 c ++ as_bytes s).
  rewrite utf8_decode_char, IH by done. done.
Qed.

(** ** Instances that run *)
Definition toy_display : Display := {|
  f32_to_string _ := lit "f32";
  json_error_to_string _ := lit "malformed"
|}.
Definition toy_hash : HashOrder.
Proof. by refine (Build_HashOrder map_to_list _). Defined.
