(* ===== verification/FuzzySpec.v ===== *)
(** * What fuzzy queries match

    The documents of a fuzzy token query are those of the first words of the
    dictionary that start with the prefix of the token and lie within its edit
    distance, and it explains exactly these documents. *)

From S2P Require Import Prelude RustStd Error Scorers ScorersSpec Fuzzy Native BuildQuery.
#[local] Open Scope Z_scope.

(** ** UTF-8 is a prefix code *)
Section Utf8Prefix.
Lemma as_bytes_cons c s : as_bytes (c :: s) = encode_utf8 c ++ as_bytes s.
Proof. done. Qed.
Lemma as_bytes_app s t : as_bytes (s ++ t) = as_bytes s ++ as_bytes t.
Proof. apply bind_app. Qed.

Lemma encode_utf8_inj c d rest rest' :
  is_scalar c = true → is_scalar d = true →
  encode_utf8 c ++ as_bytes rest = encode_utf8 d ++ rest' → forallb is_scalar rest = true → c = d.
Proof.
  intros Hc Hd Heq Hr. pose proof (utf8_decode_char 0 c (as_bytes rest) Hc) as H1.
  pose proof (utf8_decode_char 0 d rest' Hd) as H2. rewrite <- Heq, H1 in H2.
  assert (∀ i, utf8_decode i (as_bytes rest) = Ok rest) as Hrest.
  { clear -Hr. induction rest as [|x rest IH]; intros i; [done|]. cbn in Hr.
    apply andb_true_iff in Hr as [Hx Hr]. rewrite as_bytes_cons, utf8_decode_char by done. by rewrite IH. }
  rewrite Hrest in H2. destruct (utf8_decode (0 + len_utf8 d) rest'); [|done]. by injection H2.
Qed.

(** A string starts with another one when its bytes do. *)
Lemma as_bytes_prefix p w :
  forallb is_scalar p = true → forallb is_scalar w = true →
  as_bytes p `prefix_of` as_bytes w ↔ p `prefix_of` w.
Proof.
  intros Hp Hw. split.
  - revert w Hp Hw. induction p as [|c p IH]; intros w Hp Hw [k Hk]; [apply prefix_nil|].
    cbn in Hp. apply andb_true_iff in Hp as [Hc Hp]. rewrite as_bytes_cons, <- app_assoc in Hk.
    destruct w as [|d w].
    { exfalso. revert Hk. unfold encode_utf8. by repeat case_match. }
    cbn in Hw. apply andb_true_iff in Hw as [Hd Hw]. rewrite as_bytes_cons in Hk.
    assert (d = c) as -> by (by eapply encode_utf8_inj).
    apply app_inv_head in Hk. apply prefix_cons, IH; [done..|]. by exists k.
  - intros [k ->]. rewrite as_bytes_app. by exists (as_bytes k).
Qed.
End Utf8Prefix.

(** ** What the engine promises *)
Section Run.
Context {A St : Type} `{Automaton A St}.
Definition aut_run (a : A) (st : St) (word : list byte) : St := foldl (aut_accept a) st word.
Definition aut_accepts (a : A) (word : list byte) : bool := aut_is_match a (aut_run a (aut_start a) word).
(** What an automaton owes a search that skips the states it gives up. *)
Definition dead_states_ok (a : A) : Prop :=
  ∀ st word, aut_can_match a st = false → aut_is_match a (aut_run a st word) = false.
End Run.

Class TermLaws (T : Type) `{TermApi T} : Prop := {
  term_field_text f s : term_field (from_field_text f s) = f;
  value_as_str_text f s : value_as_str (from_field_text f s) = Some s
}.

(** The DFA of a text accepts the words within the distance, and never
    leaves its sink. *)
Class LevenshteinLaws `{LevenshteinApi} : Type := {
  edit_distance : bool -> str -> str -> Z;
  dfa_sink b text : @sink_ok (build_dfa b text);
  dfa_accepts b text w : forallb is_scalar text = true → forallb is_scalar w = true →
    let dfa := build_dfa b text in
    is_exact (dfa_distance (dfa_run dfa_initial_state (as_bytes w)))
    = (edit_distance (transposition_cost_one b) text w <=? max_distance b)
}.

(** The dictionary of a text field holds words; a search returns, in its
    order, those an automaton accepts when that owes it nothing. *)
Class InvertedIndexLaws `{Terminated} (II TermInfo E : Type) `{InvertedIndexApi II TermInfo E} : Type := {
  dict_words : II -> list (str * TermInfo);
  dict_words_scalar (ii : II) e : e ∈ dict_words ii → forallb is_scalar e.1 = true;
  dict_search_ok {A St} `{Automaton A St} (ii : II) (a : A) infos :
    dead_states_ok a → dict_search ii a = Ok infos →
    infos = (List.filter (λ e, aut_accepts a (as_bytes e.1)) (dict_words ii)).*2;
  postings_range (ii : II) t d : t ∈ (dict_words ii).*2 → has_doc (read_block_postings ii) t d → 0 ≤ d < TERMINATED
}.
#[export] Hint Mode InvertedIndexLaws - ! - - - : typeclass_instances.

(** ** The automaton of a fuzzy query *)
Section Automaton.
Context `{LevenshteinLaws}.

Lemma prefixed_dead_states_ok dfa prefix : @sink_ok dfa → dead_states_ok (PrefixedDfaAutomaton_new dfa prefix).
Proof. intros Hs st word Hc. exact (@can_match_sound dfa prefix st word Hs Hc). Qed.

(** The words a fuzzy query looks for. *)
Definition similar (distance : Z) (prefix text w : str) : bool :=
  (edit_distance true text w <=? distance) && bool_decide (prefix `prefix_of` w).

Lemma fuzzy_automaton_accepts distance prefix text w :
  forallb is_scalar text = true → forallb is_scalar prefix = true → forallb is_scalar w = true →
  aut_accepts (PrefixedDfaAutomaton_new (build_dfa (levenshtein_builder distance true) text) (as_bytes prefix))
    (as_bytes w) = similar distance prefix text w.
Proof.
  intros Ht Hp Hw. set (dfa := build_dfa _ _).
  etransitivity; [exact (@prefixed_automaton_accepts dfa (as_bytes prefix) (as_bytes w))|].
  unfold similar. f_equal; [by apply dfa_accepts|]. by apply bool_decide_ext, as_bytes_prefix.
Qed.
End Automaton.

(** Seeking a set that has not moved finds exactly its documents. *)
Lemma seek_new_found `{Terminated} docs doc :
  docs_ok docs → 0 ≤ doc < TERMINATED →
  (SortedDocSet_seek doc (SortedDocSet_new docs)).1 =? doc = bool_decide (doc ∈ docs).
Proof.
  intros Hok Hd. pose proof (SortedDocSet_new_ready docs Hok) as Hready.
  rewrite <- first_from_doc by (done || lia). destruct (Z.ltb_spec (first_doc docs) doc).
  - destruct (enum_seek doc _ Hready) as (_ & Hrem & Hres); [cbn; fold (first_doc docs); lia|].
    f_equal. by rewrite Hrem in Hres.
  - rewrite from_doc_ge by (done || lia). unfold SortedDocSet_seek.
    change (sds_doc (SortedDocSet_new docs)) with (first_doc docs). by destruct (Z.leb_spec doc (first_doc docs)); [|lia].
Qed.

(** ** Fuzzy queries over a segment *)
Section FuzzyDocs.
Context `{Terminated} {T R II TermInfo E X Parsed : Type}.
Context `{LevenshteinLaws} `{TermLaws T} `{SegmentApi R II E} `{!InvertedIndexApi II TermInfo E}.
Context `{!InvertedIndexLaws II TermInfo E} `{ExplanationLaws X}.
Context (InvalidArgument : string -> E).

(** The query [build_token_query] boxes for a fuzzy token, its weight and its
    scorer. *)
Definition token_query (field : Z) (token : str) (distance : Z) (prefix : str) (max_expansions : Z) :
    CappedFuzzyTermQuery T :=
  CappedFuzzyTermQuery_new (from_field_text field token) distance prefix max_expansions.
Definition fuzzy_scorer (q : CappedFuzzyTermQuery T) (scoring : bool) (reader : R) (boost : f32) :
    result E (SortedDocSet * f32) :=
  w ← CappedFuzzyTermQuery_weight InvalidArgument q scoring;
  CappedAutomatonWeight_scorer w reader boost.
Definition fuzzy_explain (q : CappedFuzzyTermQuery T) (scoring : bool) (reader : R) (doc : Z) :
    result E X :=
  w ← CappedFuzzyTermQuery_weight InvalidArgument q scoring;
  CappedAutomatonWeight_explain InvalidArgument w reader doc.

(** The first [max_expansions] words of the dictionary similar to the text. *)
Definition expansions (ii : II) (distance : Z) (prefix text : str) (max_expansions : Z) : list TermInfo :=
  take (Z.to_nat max_expansions) (List.filter (λ e, similar distance prefix text e.1) (dict_words ii)).*2.

Lemma dict_search_similar (ii : II) distance prefix text (infos : list TermInfo) :
  forallb is_scalar text = true → forallb is_scalar prefix = true →
  dict_search ii (PrefixedDfaAutomaton_new (build_dfa (levenshtein_builder distance true) text)
    (as_bytes prefix)) = (Ok infos : result E _) →
  infos = (List.filter (λ e, similar distance prefix text e.1) (dict_words ii)).*2.
Proof.
  intros Ht Hp Hi. apply dict_search_ok in Hi as ->; [|apply prefixed_dead_states_ok, dfa_sink].
  f_equal. apply filter_ext_in. intros e He. apply fuzzy_automaton_accepts; [done..|].
  apply (dict_words_scalar ii), list_elem_of_In, He.
Qed.

Lemma expansions_words (ii : II) distance prefix text max :
  expansions ii distance prefix text max ⊆ (dict_words ii).*2.
Proof.
  unfold expansions. intros t (i & Ht%list_elem_of_lookup_2 & _)%elem_of_take.
  apply list_elem_of_fmap in Ht as (e & -> & He). apply list_elem_of_In, filter_In in He as [He _]. apply list_elem_of_fmap.
  exists e. split; [done|]. by apply list_elem_of_In.
Qed.

Lemma has_docs_range (ii : II) (l : list TermInfo) docs :
  l ⊆ (dict_words ii).*2 → (∀ d, d ∈ docs ↔ ∃ t, t ∈ l ∧ has_doc (read_block_postings ii) t d) →
  Forall (λ d, 0 ≤ d < TERMINATED) docs.
Proof.
  intros Hl Hd. apply Forall_forall. intros d (t & Hin & Ht)%Hd. exact (postings_range ii t d (Hl t Hin) Ht).
 Qed.

Lemma fuzzy_scorer_spec field text distance prefix max scoring reader boost :
  forallb is_scalar text = true → forallb is_scalar prefix = true →
  match fuzzy_scorer (token_query field text distance prefix max) scoring reader boost with
  | Ok (set, score) => score = boost ∧ ∃ (ii : II) docs, inverted_index reader field = Ok ii ∧
      set = SortedDocSet_new docs ∧ docs_ok docs ∧
      ∀ d, d ∈ docs ↔ ∃ t, t ∈ expansions ii distance prefix text max ∧ has_doc (read_block_postings ii) t d
  | Err e => inverted_index reader field = Err e ∨ ∃ ii : II, inverted_index reader field = Ok ii ∧
      ((∃ a : PrefixedDfaAutomaton, dict_search ii a = Err e) ∨
       ∃ t, t ∈ expansions ii distance prefix text max ∧ read_block_postings ii t = Err e)
  end.
Proof.
  intros Ht Hp. unfold fuzzy_scorer, CappedFuzzyTermQuery_weight, token_query, CappedFuzzyTermQuery_new.
  cbn [cfq_term cfq_distance cfq_prefix cfq_max_expansions].
  rewrite value_as_str_text, term_field_text. cbn.
  unfold CappedAutomatonWeight_scorer. cbn [caw_field caw_automaton caw_max_expansions].
  destruct (inverted_index reader field) as [ii|e]; cbn; [|by left].
  destruct (dict_search ii _) as [infos|e] eqn:Es; cbn; [|right; exists ii; eauto].
  apply dict_search_similar in Es as ->; [|done..].
  pose proof (capped_weight_docs (read_block_postings ii) max
    (List.filter (λ e, similar distance prefix text e.1) (dict_words ii)).*2) as Hw. cbn zeta in Hw.
  fold (expansions ii distance prefix text max) in Hw.
  destruct (CappedAutomatonWeight_docs _ _ _) as [docs|e]; cbn.
  - destruct Hw as (Hs & _ & Hd). split; [done|]. exists ii, docs. split_and!; try done.
    split; [done|]. by eapply has_docs_range, Hd; apply expansions_words.
  - right. exists ii. split; [done|]. by right.
Qed.

Lemma fuzzy_explain_spec q scoring reader doc docs score :
  fuzzy_scorer q scoring reader f32_one = Ok (SortedDocSet_new docs, score) →
  docs_ok docs → 0 ≤ doc < TERMINATED →
  if decide (doc ∈ docs)
  then ∃ e : X, fuzzy_explain q scoring reader doc = Ok e ∧ explanation_value e = f32_one
  else fuzzy_explain q scoring reader doc = Err (InvalidArgument "Document does not match fuzzy query").
Proof.
  unfold fuzzy_scorer, fuzzy_explain. intros (w & Hw & Hs)%bind_Ok Hok Hd. rewrite Hw. cbn.
  unfold CappedAutomatonWeight_explain. rewrite Hs. cbn.
  rewrite seek_new_found by done.
  case_decide; [rewrite bool_decide_true by done|by rewrite bool_decide_false].
  eexists. split; [done|]. apply value_new.
Qed.

(** C36: for a token with a fuzziness of 1 or 2, given or chosen from its
    length, [build_token_query] makes a fuzzy query, with the first
    [prefix_length] characters of the token as its prefix.  Run on a segment,
    its documents, each once and in increasing order, are those of the first
    [max_expansions] words of the dictionary that start with the prefix and
    are within the edit distance of the token, transpositions counting once;
    they all score the boost.  It fails only when the index of the field, its
    dictionary or the postings of one of these words cannot be read. *)
Theorem fuzzy_token_docs field token fuzziness max prefix_length scoring reader boost :
  let distance := default (auto_fuzziness token) fuzziness in
  let prefix := take (Z.to_nat prefix_length) token in
  1 ≤ distance ≤ 2 → forallb is_scalar token = true →
  (build_token_query field token fuzziness max prefix_length : Result (EngineQuery Parsed))
    = Ok (CappedFuzzyTerm field token distance prefix max) ∧
  match fuzzy_scorer (token_query field token distance prefix max) scoring reader boost with
  | Ok (set, score) => score = boost ∧ ∃ (ii : II) docs, inverted_index reader field = Ok ii ∧
      set = SortedDocSet_new docs ∧ docs_ok docs ∧
      ∀ d, d ∈ docs ↔ ∃ t, t ∈ expansions ii distance prefix token max ∧ has_doc (read_block_postings ii) t d
  | Err e => inverted_index reader field = Err e ∨ ∃ ii : II, inverted_index reader field = Ok ii ∧
      ((∃ a : PrefixedDfaAutomaton, dict_search ii a = Err e) ∨
       ∃ t, t ∈ expansions ii distance prefix token max ∧ read_block_postings ii t = Err e)
  end.
Proof.
  intros distance prefix Hdist Htoken. split.
  - unfold build_token_query. fold distance. by decide_Z.
  - apply fuzzy_scorer_spec; [done|]. unfold prefix.
    rewrite <- (take_drop (Z.to_nat prefix_length) token), forallb_app in Htoken.
    by apply andb_true_iff in Htoken as [? _].
Qed.

(** C37: a fuzzy query explains a document, with the value 1, exactly when one
    of the words it expands to occurs in it; any other document is an
    [InvalidArgument], and a scorer that cannot be made fails the explanation
    with its own error. *)
Theorem fuzzy_explains field text distance prefix max scoring reader doc :
  forallb is_scalar text = true → forallb is_scalar prefix = true → 0 ≤ doc < TERMINATED →
  let q := token_query field text distance prefix max in
  let found ii := ∃ t, t ∈ expansions ii distance prefix text max ∧ has_doc (read_block_postings ii) t doc in
  match (fuzzy_explain q scoring reader doc : result E X), fuzzy_scorer q scoring reader f32_one with
  | Ok x, Ok _ => explanation_value x = f32_one ∧
      ∃ ii : II, inverted_index reader field = Ok ii ∧ found ii
  | Err e, Ok _ => e = InvalidArgument "Document does not match fuzzy query" ∧
      ∃ ii : II, inverted_index reader field = Ok ii ∧ ¬ found ii
  | r, Err e => r = Err e
  end.
Proof.
  intros Ht Hp Hd q found. pose proof (fuzzy_scorer_spec field text distance prefix max scoring reader f32_one Ht Hp) as Hs.
  fold q in Hs. destruct (fuzzy_scorer q scoring reader f32_one) as [[set score]|e] eqn:Eq.
  - destruct Hs as (_ & ii & docs & Hii & -> & Hok & Hdocs).
    pose proof (fuzzy_explain_spec q scoring reader doc docs score Eq Hok Hd) as Hx.
    case_decide as Hin.
    + destruct Hx as (x & -> & Hv). split; [done|]. exists ii. split; [done|]. by apply Hdocs.
    + rewrite Hx. split; [done|]. exists ii. split; [done|]. unfold found. by rewrite <- Hdocs.
  - unfold fuzzy_scorer, fuzzy_explain, CappedAutomatonWeight_explain in *.
    destruct (CappedFuzzyTermQuery_weight _ _ _) as [w|e']; cbn in *; [by rewrite Eq|congruence].
Qed.
End FuzzyDocs.

(** ** A small dictionary *)

(** The edit distance with adjacent transpositions. *)
Fixpoint toy_distance (fuel : nat) (transpositions : bool) (a b : str) : Z :=
  match fuel with
  | O => 0
  | S fuel' =>
      match a, b with
      | [], _ => blen b
      | _, [] => blen a
      | x :: a', y :: b' =>
          let d := Z.min (toy_distance fuel' transpositions a' b + 1)
            (Z.min (toy_distance fuel' transpositions a b' + 1)
              (toy_distance fuel' transpositions a' b' + if x =? y then 0 else 1)) in
          match a', b' with
          | x' :: a2, y' :: b2 =>
              if transpositions && (x =? y') && (x' =? y)
              then Z.min d (toy_distance fuel' transpositions a2 b2 + 1) else d
          | _, _ => d
          end
      end
  end.
Definition toy_edit_distance (transpositions : bool) (a b : str) : Z :=
  toy_distance (List.length a + List.length b) transpositions a b.

(** A DFA whose states are the bytes read, as numbers; 0 is the sink. *)
Definition toy_state (bs : list byte) : Z := Zpos (encode (Z_of_byte <$> bs)).
Definition toy_bytes (q : Z) : option (list byte) :=
  match q with
  | Zpos p => match decode p with Some l => Some (List.map byte_of_Z l) | None => None end
  | _ => None
  end.
Definition toy_word (q : Z) : option str :=
  bs ← toy_bytes q; match from_utf8 bs with Ok w => Some w | Err _ => None end.
#[local] Instance toy_levenshtein : LevenshteinApi := λ b text, {|
  dfa_initial_state := toy_state [];
  dfa_transition q x :=
    match toy_bytes q with Some bs => toy_state (bs ++ [x]) | None => 0 end;
  dfa_distance q :=
    match toy_word q with
    | Some w =>
        let d := toy_edit_distance (transposition_cost_one b) text w in
        if d <=? max_distance b then Exact d else AtLeast (max_distance b + 1)
    | None => AtLeast (max_distance b + 1)
    end;
  SINK_STATE := 0
|}.

Lemma toy_bytes_state bs : toy_bytes (toy_state bs) = Some bs.
Proof.
  unfold toy_bytes, toy_state. rewrite decode_encode. cbn. f_equal. rewrite <- list_fmap_compose.
  rewrite <- (list_fmap_id bs) at 2. apply list_fmap_ext. intros i x _. apply byte_of_Z_of_byte.
Qed.
Lemma toy_run b text read word :
  @dfa_run (build_dfa b text) (toy_state read) word = toy_state (read ++ word).
Proof.
  unfold dfa_run. revert read. induction word as [|x word IH]; intros read; cbn -[toy_state toy_bytes].
  - by rewrite app_nil_r.
  - rewrite toy_bytes_state, IH. by rewrite <- app_assoc.
Qed.
#[local] Instance toy_levenshtein_laws : LevenshteinLaws.
Proof.
  refine {| edit_distance := toy_edit_distance |}.
  - by intros b text.
  - intros b text w _ Hw dfa. change dfa_initial_state with (toy_state []). unfold dfa. rewrite toy_run.
    cbn -[toy_state]. unfold toy_word. rewrite toy_bytes_state. cbn.
    rewrite from_utf8_as_bytes by done. by destruct (_ <=? _).
Defined.

(** Terms are fields and texts; a dictionary is a list of words, searched
    letter by letter as long as the automaton can match. *)
#[local] Instance toy_term : TermApi (Z * str) := {
  from_field_text := pair; term_field := fst; value_as_str t := Some t.2
}.
#[local] Instance toy_term_laws : TermLaws (Z * str).
Proof. by split. Qed.
Fixpoint toy_search {A St} `{Automaton A St} (a : A) (st : St) (bs : list byte) : bool :=
  match bs with
  | [] => aut_is_match a st
  | b :: bs' => if aut_can_match a st then toy_search a (aut_accept a st b) bs' else false
  end.
Lemma toy_search_accepts {A St} `{Automaton A St} (a : A) st bs :
  dead_states_ok a → toy_search a st bs = aut_is_match a (aut_run a st bs).
Proof.
  intros Hdead. revert st. induction bs as [|b bs IH]; intros st; cbn; [done|].
  destruct (aut_can_match a st) eqn:E; [apply IH|]. symmetry. exact (Hdead st (b :: bs) E).
Qed.

Definition toy_words : list (str * list (list Z)) := [
  (lit "cork", [[0]]); (lit "orck", [[5]]); (lit "rcok", [[1; 4]; [8]; []; [9]]);
  (lit "roc", [[2; 4]]); (lit "rock", [[3]])].
#[local] Instance toy_terminated : Terminated := i32_max.
#[local] Instance toy_inverted : InvertedIndexApi unit (list (list Z)) string := {
  dict_search A St _ _ a := Ok (List.filter (λ e, toy_search a (aut_start a) (as_bytes e.1)) toy_words).*2;
  read_block_postings _ blocks := Ok blocks
}.
#[local] Instance toy_segment : SegmentApi unit unit string :=
  λ _ field, if field =? 1 then Ok tt else Err "no such field"%string.
#[local] Instance toy_inverted_laws : InvertedIndexLaws unit (list (list Z)) string.
Proof.
  refine {| dict_words _ := toy_words |}.
  - intros ii e He. eapply (proj1 (forallb_forall (λ e, forallb is_scalar e.1) toy_words));
      [by vm_compute|by apply list_elem_of_In].
  - intros A St H ii a infos Hdead Hi. rewrite <- (Ok_inj _ _ Hi). f_equal.
    apply filter_ext_in. intros e _. by apply toy_search_accepts.
  - intros ii t d Ht (blocks & Hb & Hd). rewrite <- (Ok_inj _ _ Hb) in Hd.
    assert (forallb (λ t, forallb (λ d, (0 <=? d) && (d <? TERMINATED)) (read_blocks t)) toy_words.*2 = true) as Hr
      by by vm_compute.
    rewrite forallb_forall in Hr. specialize (Hr t (proj1 (list_elem_of_In _ _) Ht)).
    rewrite forallb_forall in Hr. specialize (Hr d (proj1 (list_elem_of_In _ _) Hd)). lia.
Defined.

(** The token [rock] with its automatic fuzziness of 1, a prefix of one letter
    and two expansions: [rcok] and [roc], of documents 1 and 4, 8, 2 and 4;
    [cork] is too far and [orck] misses the prefix, and [rock] comes too
    late. *)
Definition toy_invalid (s : string) : string := s.
Lemma fuzzy_token_docs_witness :
  (build_token_query 1 (lit "rock") None 2 1 : Result (EngineQuery unit))
    = Ok (CappedFuzzyTerm 1 (lit "rock") 1 (lit "r") 2) ∧
  ∀ d, d ∈ [1; 2; 4; 8] ↔
    ∃ t, t ∈ [[[1; 4]; [8]; []; [9]]; [[2; 4]]] ∧ has_doc (read_block_postings tt) t d.
Proof.
  pose proof (fuzzy_token_docs (T := Z * str) (R := unit) (II := unit) (Parsed := unit) toy_invalid
    1 (lit "rock") None 2 1 true tt f32_half ltac:(vm_compute; split; discriminate)
    ltac:(vm_compute; reflexivity)) as [Hq Hr].
  split; [exact Hq|].
  destruct (fuzzy_scorer _ _ _ _ _) as [[set score]|e] eqn:Es; [|vm_compute in Es; discriminate].
  destruct Hr as (_ & ii & docs & _ & Hset & _ & Hd). vm_compute in Es. injection Es as Es _.
  rewrite Hset in Es. injection Es as <-. exact Hd.
Defined.

Definition rock_query : CappedFuzzyTermQuery (Z * str) := token_query 1 (lit "rock") 1 (lit "r") 2.
#[local] Existing Instance value_explanation.
#[local] Existing Instance value_explanation_laws.
Lemma fuzzy_explains_witness :
  (∃ t, t ∈ expansions tt 1 (lit "r") (lit "rock") 2 ∧ has_doc (read_block_postings tt) t 4) ∧
  ¬ (∃ t, t ∈ expansions tt 1 (lit "r") (lit "rock") 2 ∧ has_doc (read_block_postings tt) t 3).
Proof.
  assert (0 ≤ 4 < TERMINATED ∧ 0 ≤ 3 < TERMINATED) as [H4 H3] by (vm_compute; by split_and!).
  pose proof (λ doc, fuzzy_explains (T := Z * str) (R := unit) (II := unit) (X := f32) toy_invalid
    1 (lit "rock") 1 (lit "r") 2 true tt doc eq_refl eq_refl) as H. cbn zeta in H.
  assert (fuzzy_scorer toy_invalid rock_query true tt f32_one
    = Ok (SortedDocSet_new [1; 2; 4; 8], f32_one)) as Es by (vm_compute; reflexivity).
  assert (fuzzy_explain (X := f32) toy_invalid rock_query true tt 4 = Ok f32_one) as E4 by (vm_compute; reflexivity).
  assert (fuzzy_explain (X := f32) toy_invalid rock_query true tt 3
    = Err "Document does not match fuzzy query"%string) as E3 by (vm_compute; reflexivity).
  fold rock_query in H. rewrite Es in H. split.
  - specialize (H 4 H4). rewrite E4 in H. destruct H as (_ & [] & _ & Hf). exact Hf.
  - specialize (H 3 H3). rewrite E3 in H. destruct H as (_ & [] & _ & Hf). exact Hf.
Defined.
