(* ===== verification/Ffi.v ===== *)
(** * The C interface ([ffi/src/lib.rs])

    The functions of [paimon_ftindex.h] over an explicit world: the memory of
    the caller, the handles it was given, and the error text of its thread.
    The core runs behind the callbacks of the caller; its panics are caught at
    the boundary ([ffi_value]). *)

From S2P Require Import Prelude RustStd Error IoLayer Json Tokenizer Config HeaderJson Storage Archive.
From S2P Require Import Query Analyzer BuildQuery Writer Reader Native.

Record PaimonFtindexReadMetrics : Type := paimon_metrics {
  m_pread_calls : Z;
  m_pread_ranges : Z;
  m_pread_bytes : Z;
  m_cache_hits : Z;
  m_cache_misses : Z;
  m_cache_evictions : Z;
  m_cached_blocks : Z
}.
(** [impl From<FullTextReadMetrics>] *)
Definition PaimonFtindexReadMetrics_from (m : FullTextReadMetrics) : PaimonFtindexReadMetrics :=
  paimon_metrics (snap_pread_calls m) (snap_pread_ranges m) (snap_pread_bytes m) (snap_cache_hits m)
    (snap_cache_misses m) (snap_cache_evictions m) (snap_cached_blocks m).

(** ** The memory of the caller

    Typed objects at addresses: a string up to its terminator, arrays, and
    cells.  A pointer without an entry of its type dangles. *)
Record CMemory : Type := c_memory {
  c_strings : gmap ptr (list byte);
  c_arrays : gmap ptr (list ptr);
  c_bytes : gmap ptr (list byte);
  c_row_ids : gmap ptr (list Z);
  c_scores : gmap ptr (list f32);
  c_lengths : gmap ptr Z;
  c_metrics : gmap ptr PaimonFtindexReadMetrics
}.

(** ** Files of the caller

    The callbacks are code of the caller: a function pointer is a value of an
    abstract type, and calling it a parameter.  [ctx] is modelled by what it
    points at, which the callbacks may change. *)
Class WriteCallbacks (O : Type) : Type := {
  WriteFn : Type;
  FlushFn : Type;
  call_write : WriteFn -> O -> list byte -> Z * O;
  call_flush : FlushFn -> O -> Z * O
}.
(** [pread_fn] returns its status and what the buffer holds afterwards. *)
Class ReadCallbacks (N : Type) : Type := {
  PreadFn : Type;
  call_pread : PreadFn -> N -> Z -> Z -> Z * list byte * N
}.

Definition io_other (s : string) : IoError := io_error Other [Txt s].

Section OutputFile.
Context {O : Type} `{WriteCallbacks O}.

Record PaimonFtindexOutputFile : Type := output_file {
  out_ctx : O;
  write_fn : option WriteFn;
  flush_fn : option FlushFn
}.
Record FfiOutputFile : Type := ffi_output_file { out_raw : PaimonFtindexOutputFile }.
Definition with_out_ctx (o : O) (f : FfiOutputFile) : FfiOutputFile :=
  ffi_output_file (output_file o (write_fn (out_raw f)) (flush_fn (out_raw f))).

Definition FfiOutputFile_write_all (buf : list byte) : ST FfiOutputFile IoError unit := λ f,
  match write_fn (out_raw f) with
  | None => (Err (io_other "write_fn is null"), f)
  | Some write_fn =>
      let '(status, ctx) := call_write write_fn (out_ctx (out_raw f)) buf in
      (if status =? 0 then Ok tt else Err (io_other "write callback failed"), with_out_ctx ctx f)
  end.
Definition FfiOutputFile_flush : ST FfiOutputFile IoError unit := λ f,
  match flush_fn (out_raw f) with
  | None => (Ok tt, f)
  | Some flush_fn =>
      let '(status, ctx) := call_flush flush_fn (out_ctx (out_raw f)) in
      (if negb (status =? 0) then Err (io_other "flush callback failed") else Ok tt, with_out_ctx ctx f)
  end.
#[export] Instance FfiOutputFile_SeekWrite : SeekWrite FfiOutputFile := {
  write_all := FfiOutputFile_write_all;
  flush := FfiOutputFile_flush
}.
End OutputFile.
Arguments PaimonFtindexOutputFile O {_}.
Arguments FfiOutputFile O {_}.

Section InputFile.
Context {N : Type} `{ReadCallbacks N}.

Record PaimonFtindexInputFile : Type := input_file {
  in_ctx : N;
  pread_fn : option PreadFn
}.
Record FfiInputFile : Type := ffi_input_file { in_raw : PaimonFtindexInputFile }.
Definition with_in_ctx (n : N) (f : FfiInputFile) : FfiInputFile :=
  ffi_input_file (input_file n (pread_fn (in_raw f))).

(** One call of the callback, for one range. *)
Definition pread_range (pread_fn : PreadFn) (range : ReadRequest) : ST FfiInputFile IoError (list byte) := λ f,
  let '(status, buf, ctx) := call_pread pread_fn (in_ctx (in_raw f)) (pos range) (buf_len range) in
  (if negb (status =? 0) then
     Err (io_error Other [Txt "pread callback failed at offset "; Int (pos range);
                          Txt " length "; Int (buf_len range)])
   else Ok buf, with_in_ctx ctx f).
(** The loop of [pread]. *)
Fixpoint pread_each (pread_fn : PreadFn) (ranges : list ReadRequest) :
    ST FfiInputFile IoError (list (list byte)) :=
  match ranges with
  | [] => mret []
  | range :: ranges' =>
      buf ← pread_range pread_fn range;
      bufs ← pread_each pread_fn ranges';
      mret (buf :: bufs)
  end.
Definition FfiInputFile_pread (ranges : list ReadRequest) : ST FfiInputFile IoError (list (list byte)) := λ f,
  match pread_fn (in_raw f) with
  | None => (Err (io_other "pread_fn is null"), f)
  | Some pread_fn => pread_each pread_fn ranges f
  end.
#[export] Instance FfiInputFile_SeekRead : SeekRead FfiInputFile := FfiInputFile_pread.
End InputFile.
Arguments PaimonFtindexInputFile N {_}.
Arguments FfiInputFile N {_}.

(** ** The error of the thread *)
Class ErrorCell (S : Type) : Type := {
  last_error_of : S -> option str;
  with_last_error : option str -> S -> S
}.

(** [CString::new(msg).ok()]: a text with a NUL has no C string. *)
Definition CString_new (s : str) : option str := if existsb (Z.eqb 0) s then None else Some s.

Section Status.
Context {S : Type} `{ErrorCell S}.

Definition set_error (msg : str) (s : S) : S :=
  let msg := replace_char 0 (lit "\0") msg in
  with_last_error (CString_new msg) s.

Definition panic_message (e : Payload) : str :=
  match e with
  | PayloadString s => lit "native panic: " ++ s
  | PayloadStr s => lit "native panic: " ++ s
  | PayloadOther => lit "native panic: unknown"
  end.

(** What a native function gives back; [None] stands for undefined behaviour. *)
Definition ffi_value {A} (on_ok : A -> ptr) (on_err : ptr) (f : FFI S A) (s : S) : option ptr * S :=
  match f s with
  | (Returned (Ok a), s') => (Some (on_ok a), s')
  | (Returned (Err e), s') => (Some on_err, set_error e s')
  | (Unwinds p, s') => (Some on_err, set_error (panic_message p) s')
  | (Undefined, s') => (None, s')
  end.
Definition ffi_status (f : FFI S unit) : S -> option Z * S := ffi_value (λ _, 0) (-1) f.
Definition ffi_ptr (f : FFI S ptr) : S -> option ptr * S := ffi_value id 0 f.
End Status.

(** ** The world of the interface *)
Section Interface.
Context `{Platform} `{Unicode} `{JsonText} `{Display} `{HashOrder} `{AnalysisEngine}.
Context {Schema I : Type} `{WriterEngine Schema I}.
Context {N Ix Parsed : Type} `{ReadCallbacks N} `{ReaderEngine (MeteredSeekRead (FfiInputFile N)) Ix Parsed}.

Record PaimonFtindexWriterHandle : Type := writer_handle {
  writer_inner : FullTextIndexWriter (Schema := Schema) (I := I) }.
Record PaimonFtindexReaderHandle : Type := reader_handle {
  reader_inner : FullTextIndexReader (R := FfiInputFile N) (Ix := Ix) (Parsed := Parsed) }.

Record World : Type := world {
  LAST_ERROR : option str;
  writers : gmap ptr PaimonFtindexWriterHandle;
  readers : gmap ptr PaimonFtindexReaderHandle;
  memory : CMemory
}.
#[export] Instance World_error : ErrorCell World := {
  last_error_of := LAST_ERROR;
  with_last_error e w := world e (writers w) (readers w) (memory w)
}.
#[export] Instance WorldWith_error (X : Type) : ErrorCell (World * X) := {
  last_error_of w := LAST_ERROR w.1;
  with_last_error e w := (with_last_error e w.1, w.2)
}.

Definition with_writers (m : gmap ptr PaimonFtindexWriterHandle) (w : World) : World :=
  world (LAST_ERROR w) m (readers w) (memory w).
Definition with_readers (m : gmap ptr PaimonFtindexReaderHandle) (w : World) : World :=
  world (LAST_ERROR w) (writers w) m (memory w).
Definition with_memory (m : CMemory) (w : World) : World :=
  world (LAST_ERROR w) (writers w) (readers w) m.

(** [paimon_ftindex_last_error]: null, or the text it points at. *)
Definition paimon_ftindex_last_error (w : World) : option str := LAST_ERROR w.

(** *** Reading the caller's memory *)

(** What [p] points at. *)
Definition load {T} (objects : World -> gmap ptr T) (p : ptr) : FFI World T := λ w,
  (match objects w !! p with Some v => Returned (Ok v) | None => Undefined end, w).

Definition is_null_error (name : string) : str := lit name ++ lit " is null".

(** [require_mut] and [require_ref]: the reference exists when the pointer is
    not null and points at a live object. *)
Definition require {T} (objects : World -> gmap ptr T) (p : ptr) (name : string) : FFI World unit :=
  if is_null p then ffi_fail (is_null_error name) else _ ← load objects p; mret tt.

(** [slice::from_raw_parts(p, len)] *)
Definition from_raw_parts {T} (objects : World -> gmap ptr (list T)) (p : ptr) (len : Z) : FFI World (list T) :=
  array ← load objects p;
  if len <=? blen array then mret (take (Z.to_nat len) array) else ffi_undefined.

Definition const_slice {T} (objects : World -> gmap ptr (list T)) (p : ptr) (len : Z) (name : string) :
    FFI World (list T) :=
  if len =? 0 then mret []
  else if is_null p then ffi_fail (is_null_error name)
  else from_raw_parts objects p len.

Definition strings (w : World) := c_strings (memory w).
Definition arrays (w : World) := c_arrays (memory w).
Definition bytes (w : World) := c_bytes (memory w).
Definition row_id_arrays (w : World) := c_row_ids (memory w).
Definition score_arrays (w : World) := c_scores (memory w).
Definition lengths (w : World) := c_lengths (memory w).
Definition metrics_cells (w : World) := c_metrics (memory w).

Definition cstr_to_string (p : ptr) (name : string) : FFI World str :=
  if is_null p then ffi_fail (is_null_error name)
  else
    bs ← load strings p;
    match from_utf8 bs with
    | Ok s => mret s
    | Err e => ffi_fail (lit name ++ lit " is not valid UTF-8: " ++ utf8_error_to_string e)
    end.

(** The loops over two arrays: [keys\[i\]] and [values\[i\]]. *)
Definition string_pair (key_name value_name : string) (p : ptr * ptr) : FFI World (str * str) :=
  key ← cstr_to_string p.1 key_name;
  value ← cstr_to_string p.2 value_name;
  mret (key, value).

(** [options.insert(key, value)], one pair after the other. *)
Definition insert_all (entries : list (str * str)) : gmap str str :=
  foldl (λ options e, <[e.1 := e.2]> options) ∅ entries.

Definition options_from_raw (keys values : ptr) (len : Z) : FFI World (gmap str str) :=
  if len =? 0 then mret ∅
  else if is_null keys then ffi_fail (is_null_error "keys")
  else if is_null values then ffi_fail (is_null_error "values")
  else
    keys ← from_raw_parts arrays keys len;
    values ← from_raw_parts arrays values len;
    entries ← ffi_mapM (string_pair "option key" "option value") (zip keys values);
    mret (insert_all entries).

Definition fields_from_raw (field_names texts : ptr) (len : Z) : FFI World (list (str * str)) :=
  if len =? 0 then ffi_fail (lit "document fields must not be empty")
  else if is_null field_names then ffi_fail (is_null_error "field_names")
  else if is_null texts then ffi_fail (is_null_error "texts")
  else
    field_names ← from_raw_parts arrays field_names len;
    texts ← from_raw_parts arrays texts len;
    ffi_mapM (string_pair "field name" "field text") (zip field_names texts).

(** *** Writers *)

(** A method of the writer behind the handle at [p]. *)
Definition on_writer {A} (p : ptr) (m : ST FullTextIndexWriter (Fault FtIndexError) A) : FFI World A := λ w,
  match writers w !! p with
  | None => (Undefined, w)
  | Some h =>
      let '(r, inner) := m (writer_inner h) in
      (ffi_outcome r, with_writers (<[p := writer_handle inner]> (writers w)) w)
  end.

(** [Box::into_raw(Box::new(..))] at the address the allocator returns. *)
Definition box_writer (address : ptr) (h : PaimonFtindexWriterHandle) : FFI World ptr := λ w,
  (Returned (Ok address), with_writers (<[address := h]> (writers w)) w).
Definition box_reader (address : ptr) (h : PaimonFtindexReaderHandle) : FFI World ptr := λ w,
  (Returned (Ok address), with_readers (<[address := h]> (readers w)) w).

(** [engine_panic] is the payload of the engine's panic on a repeated field. *)
Definition paimon_ftindex_writer_open (engine_panic : Payload) (address : ptr) (keys values : ptr) (len : Z) :
    World -> option ptr * World :=
  ffi_ptr (
    options ← options_from_raw keys values len;
    config ← ffi_lift (map_err to_string (from_options (hash_entries options)));
    writer ← ffi_may_panic engine_panic (FullTextIndexWriter_new config);
    box_writer address (writer_handle writer)).

Definition paimon_ftindex_writer_add_document (writer : ptr) (row_id : Z) (text : ptr) :
    World -> option Z * World :=
  ffi_status (
    _ ← require writers writer "writer";
    text ← cstr_to_string text "text";
    on_writer writer (add_document row_id text)).

Definition paimon_ftindex_writer_add_document_fields (writer : ptr) (row_id : Z) (field_names texts : ptr)
    (len : Z) : World -> option Z * World :=
  ffi_status (
    _ ← require writers writer "writer";
    fields ← fields_from_raw field_names texts len;
    on_writer writer (add_document_fields row_id fields)).

(** A computation that does not touch the output. *)
Definition in_world {X A} (m : FFI World A) : FFI (World * X) A := λ '(w, x),
  let '(r, w') := m w in (r, (w', x)).
Definition write_on {O : Type} `{WriteCallbacks O} (p : ptr) : FFI (World * FfiOutputFile O) unit := λ '(w, output),
  match writers w !! p with
  | None => (Undefined, (w, output))
  | Some h =>
      let '(r, (inner, output')) := write (writer_inner h, output) in
      (ffi_outcome r,
       (with_writers (<[p := writer_handle inner]> (writers w)) w, output'))
  end.
Definition paimon_ftindex_writer_write_index {O : Type} `{WriteCallbacks O} (writer : ptr) (output : PaimonFtindexOutputFile O)
    (w : World) : option Z * (World * FfiOutputFile O) :=
  ffi_status (_ ← in_world (require writers writer "writer"); write_on writer)
    (w, ffi_output_file output).

(** Dropping the box of a handle; a dangling pointer is undefined behaviour. *)
Definition paimon_ftindex_writer_free (writer : ptr) (w : World) : option unit * World :=
  if negb (is_null writer) then
    match writers w !! writer with
    | Some _ => (Some tt, with_writers (delete writer (writers w)) w)
    | None => (None, w)
    end
  else (Some tt, w).

(** *** Readers *)
Definition on_reader {A} (p : ptr) (m : ST FullTextIndexReader (Fault FtIndexError) A) : FFI World A := λ w,
  match readers w !! p with
  | None => (Undefined, w)
  | Some h =>
      let '(r, inner) := m (reader_inner h) in
      (ffi_outcome r, with_readers (<[p := reader_handle inner]> (readers w)) w)
  end.

Definition paimon_ftindex_reader_open (address : ptr) (input : PaimonFtindexInputFile N) :
    World -> option ptr * World :=
  ffi_ptr (
    let input := ffi_input_file input in
    reader ← (λ w, (ffi_outcome (FullTextIndexReader_open input), w));
    box_reader address (reader_handle reader)).

Record SearchRequest : Type := search_request {
  sr_query : ptr;
  sr_limit : Z;
  sr_roaring_filter : option (list byte);
  sr_row_ids : ptr;
  sr_scores : ptr;
  sr_capacity : Z;
  sr_result_len : ptr
}.

(** Writes through the pointers of the caller. *)
Definition store_length (p : ptr) (len : Z) : FFI World unit := λ w,
  match lengths w !! p with
  | None => (Undefined, w)
  | Some _ =>
      let m := memory w in
      (Returned (Ok tt), with_memory (c_memory (c_strings m) (c_arrays m) (c_bytes m) (c_row_ids m)
                           (c_scores m) (<[p := len]> (c_lengths m)) (c_metrics m)) w)
  end.
Definition store_metrics (p : ptr) (v : PaimonFtindexReadMetrics) : FFI World unit := λ w,
  match metrics_cells w !! p with
  | None => (Undefined, w)
  | Some _ =>
      let m := memory w in
      (Returned (Ok tt), with_memory (c_memory (c_strings m) (c_arrays m) (c_bytes m) (c_row_ids m)
                           (c_scores m) (c_lengths m) (<[p := v]> (c_metrics m))) w)
  end.
(** [ptr::copy_nonoverlapping(src, dst, n)]: [None] when the array is shorter. *)
Definition copy_into {T} (src : list T) (dst : option (list T)) : option (list T) :=
  match dst with
  | Some old => if blen src <=? blen old then Some (src ++ drop (List.length src) old) else None
  | None => None
  end.
Definition copy_row_ids (p : ptr) (src : list Z) : FFI World unit := λ w,
  match copy_into src (row_id_arrays w !! p) with
  | None => (Undefined, w)
  | Some array =>
      let m := memory w in
      (Returned (Ok tt), with_memory (c_memory (c_strings m) (c_arrays m) (c_bytes m)
                           (<[p := array]> (c_row_ids m)) (c_scores m) (c_lengths m) (c_metrics m)) w)
  end.
Definition copy_scores (p : ptr) (src : list f32) : FFI World unit := λ w,
  match copy_into src (score_arrays w !! p) with
  | None => (Undefined, w)
  | Some array =>
      let m := memory w in
      (Returned (Ok tt), with_memory (c_memory (c_strings m) (c_arrays m) (c_bytes m) (c_row_ids m)
                           (<[p := array]> (c_scores m)) (c_lengths m) (c_metrics m)) w)
  end.

Definition search_impl (reader : ptr) (request : SearchRequest) : FFI World unit :=
  if is_null (sr_result_len request) then ffi_fail (is_null_error "result_len")
  else
    query ← cstr_to_string (sr_query request) "query";
    result ← on_reader reader
      match sr_roaring_filter request with
      | Some roaring_filter => search_with_roaring_filter query (sr_limit request) roaring_filter
      | None => search query (sr_limit request)
      end;
    _ ← store_length (sr_result_len request) (blen (row_ids result));
    if sr_capacity request <? blen (row_ids result) then
      ffi_fail (message_to_string [Txt "result capacity "; Int (sr_capacity request);
                  Txt " is smaller than result length "; Int (blen (row_ids result))])
    else if negb (is_empty (row_ids result)) then
      if is_null (sr_row_ids request) then ffi_fail (is_null_error "row_ids")
      else if is_null (sr_scores request) then ffi_fail (is_null_error "scores")
      else
        _ ← copy_row_ids (sr_row_ids request) (row_ids result);
        copy_scores (sr_scores request) (scores result)
    else mret tt.

Definition paimon_ftindex_reader_search (reader query : ptr) (limit : Z) (row_ids scores : ptr)
    (capacity : Z) (result_len : ptr) : World -> option Z * World :=
  ffi_status (
    _ ← require readers reader "reader";
    search_impl reader (search_request query limit None row_ids scores capacity result_len)).

Definition paimon_ftindex_reader_search_with_roaring_filter (reader query : ptr) (limit : Z)
    (roaring_filter : ptr) (roaring_filter_len : Z) (row_ids scores : ptr) (capacity : Z)
    (result_len : ptr) : World -> option Z * World :=
  ffi_status (
    _ ← require readers reader "reader";
    roaring_filter ← const_slice bytes roaring_filter roaring_filter_len "roaring_filter";
    search_impl reader (search_request query limit (Some roaring_filter) row_ids scores capacity result_len)).

Definition paimon_ftindex_reader_prewarm (reader : ptr) : World -> option Z * World :=
  ffi_status (_ ← require readers reader "reader"; on_reader reader prewarm).

Definition paimon_ftindex_reader_read_metrics (reader metrics : ptr) : World -> option Z * World :=
  ffi_status (
    _ ← require readers reader "reader";
    _ ← require metrics_cells metrics "metrics";
    snapshot ← on_reader reader (ST_gets read_metrics);
    store_metrics metrics (PaimonFtindexReadMetrics_from snapshot)).

Definition paimon_ftindex_reader_free (reader : ptr) (w : World) : option unit * World :=
  if negb (is_null reader) then
    match readers w !! reader with
    | Some _ => (Some tt, with_readers (delete reader (readers w)) w)
    | None => (None, w)
    end
  else (Some tt, w).
End Interface.
