(* ===== verification/FfiSpec.v ===== *)
(** * What the C interface promises

    A caller that hands over null or live pointers never sees undefined
    behaviour or an unwinding panic: every call returns, fails with the error
    text of the thread set, and touches only its own handle and outputs.  A
    search fills the caller's arrays with the rows the query describes. *)

From S2P Require Import Prelude RustStd Error IoLayer Json Tokenizer Config HeaderJson Storage StorageSpec.
From S2P Require Import Archive ArchiveSpec Query Analyzer BuildQuery BuildQuerySpec Writer WriterSpec.
From S2P Require Import Reader ReaderSpec ToyEngine Native Ffi.

(** ** The error text *)
Lemma elem_of_replace_char from to_ s c :
  c ∈ replace_char from to_ s → (c ∈ to_ ∧ from ∈ s) ∨ (c ≠ from ∧ c ∈ s).
Proof.
  unfold replace_char. rewrite list_elem_of_bind. intros (x & Hc & Hx).
  destruct (Z.eqb_spec x from) as [E|E]; [subst; by left|].
  right. apply list_elem_of_singleton in Hc. by subst.
Qed.

(** An error text never has a NUL left, so it is never lost. *)
Lemma CString_new_replaced msg :
  ∃ text, CString_new (replace_char 0 (lit "\0") msg) = Some text ∧ 0 ∉ text.
Proof.
  set (text := replace_char 0 _ msg). assert (0 ∉ text) as Hnul.
  { intros [[Hin _]|[? _]]%elem_of_replace_char; [|done].
    assert (bool_decide (0 ∈ lit "\0") = false) as Hno by (vm_compute; reflexivity).
    apply bool_decide_eq_false_1 in Hno. exact (Hno Hin). }
  exists text. split; [|done]. unfold CString_new. destruct (existsb (Z.eqb 0) text) eqn:E; [|done].
  apply existsb_exists in E as (x & Hx & <-%Z.eqb_eq). by apply list_elem_of_In in Hx.
Qed.

(** ** Files behind callbacks *)

(** Write callbacks append to what [ctx] stands for: all of the buffer when
    they report success, a prefix of it when they do not. *)
Class AppendingCallbacks (O : Type) `{WriteCallbacks O} (written : O -> list byte) : Prop := {
  call_write_appends fn o buf :
    let '(status, o') := call_write fn o buf in
    ∃ p, p `prefix_of` buf ∧ written o' = written o ++ p ∧ (status = 0 → p = buf);
  call_flush_keeps fn o : written (call_flush fn o).2 = written o
}.
(** Read callbacks serve the bytes [ctx] stands for: exactly the ranges
    inside them succeed, and fill the buffer with the range. *)
Class ServingCallbacks (N : Type) `{ReadCallbacks N} (seen : N -> list byte) : Prop := {
  call_pread_keeps fn n p len : seen (call_pread fn n p len).2 = seen n;
  call_pread_serves fn n p len : 0 ≤ p → 0 ≤ len →
    let '(status, buf, _) := call_pread fn n p len in
    (status = 0 ↔ p + len ≤ blen (seen n)) ∧ (status = 0 → buf = slice p len (seen n))
}.

Section Files.
Context `{Platform} {O N : Type} `{AppendingCallbacks O written} `{ServingCallbacks N seen}.

#[export] Instance FfiOutputFile_Appends : Appends (FfiOutputFile O) (written ∘ out_ctx ∘ out_raw).
Proof.
  assert (∀ buf (w : FfiOutputFile O) r w', write_all buf w = (r, w') →
    ∃ p, p `prefix_of` buf ∧ written (out_ctx (out_raw w')) = written (out_ctx (out_raw w)) ++ p ∧
         (r = Ok tt → p = buf)) as Hw.
  { intros buf w r w'. cbn. unfold FfiOutputFile_write_all.
    destruct (write_fn (out_raw w)) as [fn|].
    - pose proof (call_write_appends fn (out_ctx (out_raw w)) buf) as Hc.
      destruct (call_write _ _ _) as [status o']. destruct Hc as (p & Hp & Ho & Hall).
      intros [= <- <-]. exists p. split_and!; [done|done|].
      destruct (Z.eqb_spec status 0); [auto|done].
    - intros [= <- <-]. exists []. rewrite app_nil_r. split_and!; [apply prefix_nil|done|done]. }
  split; cbn [compose].
  - intros buf w w' (p & _ & Ho & Hall)%Hw. by rewrite Ho, Hall.
  - intros buf w e w' (p & Hp & Ho & _)%Hw. by exists p.
  - intros w. cbn. unfold FfiOutputFile_flush. destruct (flush_fn (out_raw w)) as [fn|]; [|done].
    pose proof (call_flush_keeps fn (out_ctx (out_raw w))) as Hf. by destruct (call_flush _ _).
Qed.

(** A file without a callback cannot be read; it counts as one that no
    platform could address. *)
Definition unaddressable : list byte := replicate (Z.to_nat (usize_max + 1)) x00.
Definition input_bytes (f : FfiInputFile N) : list byte :=
  match pread_fn (in_raw f) with Some _ => seen (in_ctx (in_raw f)) | None => unaddressable end.

Lemma pread_range_keeps fn r (f : FfiInputFile N) :
  let f' := (pread_range fn r f).2 in
  pread_fn (in_raw f') = pread_fn (in_raw f) ∧ seen (in_ctx (in_raw f')) = seen (in_ctx (in_raw f)).
Proof.
  unfold pread_range. pose proof (call_pread_keeps fn (in_ctx (in_raw f)) (pos r) (buf_len r)) as Hk.
  by destruct (call_pread _ _ _ _) as [[status buf] n'].
Qed.

Lemma pread_range_spec fn r (f : FfiInputFile N) :
  request_wf r →
  let d := seen (in_ctx (in_raw f)) in
  let res := (pread_range fn r f).1 in
  (in_range d r → res = Ok (read_range d r)) ∧
  (∀ buf, res = Ok buf → in_range d r ∧ buf = read_range d r).
Proof.
  intros [Hp Hl]. unfold pread_range.
  pose proof (call_pread_serves fn (in_ctx (in_raw f)) (pos r) (buf_len r) Hp Hl) as Hs.
  destruct (call_pread _ _ _ _) as [[status buf] n']. destruct Hs as [Hin Hbuf]. cbn. split.
  - intros Hr. assert (status = 0) as -> by by apply Hin. cbn. by rewrite Hbuf.
  - intros buf'. destruct (Z.eqb_spec status 0) as [->|]; cbn; [|done]. intros [= <-].
    split; [by apply Hin|by apply Hbuf].
Qed.

Lemma pread_each_keeps fn reqs (f : FfiInputFile N) :
  let f' := (pread_each fn reqs f).2 in
  pread_fn (in_raw f') = pread_fn (in_raw f) ∧ seen (in_ctx (in_raw f')) = seen (in_ctx (in_raw f)).
Proof.
  revert f. induction reqs as [|r reqs IH]; intros f; [done|]. cbn [pread_each].
  unfold mbind, ST_bind. pose proof (pread_range_keeps fn r f) as [Hf Hs].
  destruct (pread_range fn r f) as [[buf|e] f1]; [|done]. cbn [snd] in Hf, Hs.
  specialize (IH f1) as [Hf' Hs'].
  destruct (pread_each fn reqs f1) as [[bufs|e] f2]; cbn in *; split; congruence.
Qed.

Lemma pread_each_spec fn reqs (f : FfiInputFile N) :
  Forall request_wf reqs →
  let d := seen (in_ctx (in_raw f)) in
  let res := (pread_each fn reqs f).1 in
  (Forall (in_range d) reqs → is_ok res = true) ∧
  (∀ bufs, res = Ok bufs → Forall (in_range d) reqs ∧ bufs = read_range d <$> reqs).
Proof.
  intros Hwf. revert f. induction Hwf as [|r reqs Hr Hwf IH]; intros f; cbn [pread_each].
  { split; [done|]. by intros bufs [= <-]. }
  unfold mbind, ST_bind. pose proof (pread_range_keeps fn r f) as [_ Hseen].
  pose proof (pread_range_spec fn r f Hr) as [Hok Hsound].
  destruct (pread_range fn r f) as [[buf|e] f1]; cbn [fst snd] in *.
  2:{ split; [|done]. by inversion 1 as [|?? Hx]; apply Hok in Hx. }
  destruct (IH f1) as [Hok' Hsound']. rewrite Hseen in *.
  destruct (pread_each fn reqs f1) as [[bufs|e] f2]; cbn in *; (split; [|done || idtac]); try done.
  - intros bufs' [= <-]. destruct (Hsound buf eq_refl) as [? ->], (Hsound' bufs eq_refl) as [? ->].
    split; [by constructor|done].
  - by inversion 1; apply Hok'.
Qed.

#[export] Instance FfiInputFile_ReadsData : ReadsData (FfiInputFile N) input_bytes.
Proof.
  split; unfold pread, FfiInputFile_SeekRead, FfiInputFile_pread, input_bytes.
  - intros reqs f. destruct (pread_fn (in_raw f)) as [fn|] eqn:E; [|cbn; by rewrite E].
    pose proof (pread_each_keeps fn reqs f) as [-> ->]. by rewrite E.
  - intros reqs f bufs f' Hwf. destruct (pread_fn (in_raw f)) as [fn|] eqn:E; [|done].
    intros Hr. pose proof (pread_each_spec fn reqs f Hwf) as [_ Hs]. rewrite Hr in Hs. by apply Hs.
Qed.

#[export] Instance FfiInputFile_ReadsAll : ReadsAll (FfiInputFile N) input_bytes usize_max.
Proof.
  split; [done|]. intros reqs f. unfold pread, FfiInputFile_SeekRead, FfiInputFile_pread, input_bytes.
  destruct (pread_fn (in_raw f)) as [fn|] eqn:E; intros Hlen Hwf Hin.
  - by apply pread_each_spec.
  - unfold unaddressable, blen in Hlen. rewrite length_replicate in Hlen.
    pose proof usize_max_bounds. unfold u32_max in *. lia.
Qed.
End Files.

(** ** Calls *)
Section Calls.
Context `{Platform} `{Unicode} `{JsonText} `{Display} `{HashOrder} `{AnalysisEngine}.
Context {Schema I : Type} `{WriterEngine Schema I} {laws : SchemaLaws Schema}.
Context {N Ix Parsed : Type} `{ReadCallbacks N} `{ReaderEngine (MeteredSeekRead (FfiInputFile N)) Ix Parsed}.
Context {O : Type} `{WriteCallbacks O}.

Notation World := (World (Schema := Schema) (I := I) (N := N) (Ix := Ix) (Parsed := Parsed)).

(** The functions of the header, with their arguments.  [address] is where the
    allocator puts a new handle. *)
Inductive Call : Type :=
| LastError
| WriterOpen (address keys values : ptr) (len : Z)
| AddDocument (writer : ptr) (row_id : Z) (text : ptr)
| AddDocumentFields (writer : ptr) (row_id : Z) (field_names texts : ptr) (len : Z)
| WriteIndex (writer : ptr) (output : PaimonFtindexOutputFile O)
| WriterFree (writer : ptr)
| ReaderOpen (address : ptr) (input : PaimonFtindexInputFile N)
| Search (reader query : ptr) (limit : Z) (row_ids scores : ptr) (capacity : Z) (result_len : ptr)
| SearchFiltered (reader query : ptr) (limit : Z) (filter : ptr) (filter_len : Z)
    (row_ids scores : ptr) (capacity : Z) (result_len : ptr)
| Prewarm (reader : ptr)
| Metrics (reader metrics : ptr)
| ReaderFree (reader : ptr).

(** What a call gives back. *)
Inductive Reply : Type :=
| RText (text : option str)
| RStatus (status : Z)
| RHandle (p : ptr)
| RWritten (status : Z) (output : FfiOutputFile O)
| RDone.
Definition failed (r : Reply) : bool :=
  match r with
  | RStatus status | RWritten status _ => negb (status =? 0)
  | RHandle p => is_null p
  | RText _ | RDone => false
  end.

Definition reply {A} (f : A -> Reply) (r : option A * World) : option Reply * World := (f <$> r.1, r.2).
Definition run_call (engine_panic : Payload) (c : Call) (w : World) : option Reply * World :=
  match c with
  | LastError => (Some (RText (paimon_ftindex_last_error w)), w)
  | WriterOpen address keys values len =>
      reply RHandle (paimon_ftindex_writer_open engine_panic address keys values len w)
  | AddDocument writer row_id text => reply RStatus (paimon_ftindex_writer_add_document writer row_id text w)
  | AddDocumentFields writer row_id field_names texts len =>
      reply RStatus (paimon_ftindex_writer_add_document_fields writer row_id field_names texts len w)
  | WriteIndex writer output =>
      let '(status, (w', output')) := paimon_ftindex_writer_write_index writer output w in
      ((λ status, RWritten status output') <$> status, w')
  | WriterFree writer => reply (λ _, RDone) (paimon_ftindex_writer_free writer w)
  | ReaderOpen address input => reply RHandle (paimon_ftindex_reader_open address input w)
  | Search reader query limit row_ids scores capacity result_len =>
      reply RStatus (paimon_ftindex_reader_search reader query limit row_ids scores capacity result_len w)
  | SearchFiltered reader query limit filter filter_len row_ids scores capacity result_len =>
      reply RStatus (paimon_ftindex_reader_search_with_roaring_filter reader query limit filter filter_len
                       row_ids scores capacity result_len w)
  | Prewarm reader => reply RStatus (paimon_ftindex_reader_prewarm reader w)
  | Metrics reader metrics => reply RStatus (paimon_ftindex_reader_read_metrics reader metrics w)
  | ReaderFree reader => reply (λ _, RDone) (paimon_ftindex_reader_free reader w)
  end.
Fixpoint run_calls (engine_panic : Payload) (cs : list Call) (w : World) : list (option Reply) * World :=
  match cs with
  | [] => ([], w)
  | c :: cs' =>
      let '(r, w1) := run_call engine_panic c w in
      let '(rs, w2) := run_calls engine_panic cs' w1 in
      (r :: rs, w2)
  end.

(** *** The caller's side of the contract *)
Definition valid_cell {T} (objects : World -> gmap ptr T) (w : World) (p : ptr) : Prop :=
  p ≠ 0 → is_Some (objects w !! p).
Definition valid_array {T} (objects : World -> gmap ptr (list T)) (w : World) (p : ptr) (len : Z) : Prop :=
  p ≠ 0 → ∃ a, objects w !! p = Some a ∧ len ≤ blen a.
Definition valid_strings (w : World) (p : ptr) (len : Z) : Prop :=
  valid_array arrays w p len ∧
  ∀ a q, arrays w !! p = Some a → q ∈ take (Z.to_nat len) a → valid_cell strings w q.
Definition fresh_address (w : World) (p : ptr) : Prop :=
  p ≠ 0 ∧ writers w !! p = None ∧ readers w !! p = None.

Definition search_args (w : World) (query row_ids scores : ptr) (capacity : Z) (result_len : ptr) : Prop :=
  valid_cell strings w query ∧ valid_cell lengths w result_len ∧
  valid_array row_id_arrays w row_ids capacity ∧ valid_array score_arrays w scores capacity.

(** Every pointer is null or points at what the call takes it for. *)
Definition contract (w : World) (c : Call) : Prop :=
  match c with
  | LastError => True
  | WriterOpen address keys values len =>
      fresh_address w address ∧ (len ≠ 0 → valid_strings w keys len ∧ valid_strings w values len)
  | AddDocument writer row_id text => valid_cell writers w writer ∧ valid_cell strings w text ∧ row_id ≤ i64_max
  | AddDocumentFields writer row_id field_names texts len =>
      valid_cell writers w writer ∧ row_id ≤ i64_max ∧
      (len ≠ 0 → valid_strings w field_names len ∧ valid_strings w texts len)
  | WriteIndex writer _ | WriterFree writer => valid_cell writers w writer
  | ReaderOpen address _ => fresh_address w address
  | Search reader query _ row_ids scores capacity result_len =>
      valid_cell readers w reader ∧ search_args w query row_ids scores capacity result_len
  | SearchFiltered reader query _ filter filter_len row_ids scores capacity result_len =>
      valid_cell readers w reader ∧ (filter_len ≠ 0 → valid_array bytes w filter filter_len) ∧
      search_args w query row_ids scores capacity result_len
  | Prewarm reader | ReaderFree reader => valid_cell readers w reader
  | Metrics reader metrics => valid_cell readers w reader ∧ valid_cell metrics_cells w metrics
  end.
Fixpoint contracts (engine_panic : Payload) (w : World) (cs : list Call) : Prop :=
  match cs with
  | [] => True
  | c :: cs' => contract w c ∧ contracts engine_panic (run_call engine_panic c w).2 cs'
  end.

#[export] Instance valid_cell_dec {T} (objects : World -> gmap ptr T) w p : Decision (valid_cell objects w p).
Proof. unfold valid_cell. apply _. Defined.
#[export] Instance valid_array_dec {T} (objects : World -> gmap ptr (list T)) w p len :
  Decision (valid_array objects w p len).
Proof.
  unfold valid_array. destruct (decide (p = 0)); [by left|].
  destruct (objects w !! p) as [a|]; [destruct (decide (len ≤ blen a))|].
  - left. intros _. by exists a.
  - right. intros Hv. destruct Hv as (b & [= <-] & ?); done.
  - right. intros Hv. by destruct Hv as (b & ? & _).
Defined.
#[export] Instance valid_strings_dec w p len : Decision (valid_strings w p len).
Proof.
  unfold valid_strings. apply and_dec; [apply _|].
  destruct (arrays w !! p) as [a|]; [destruct (decide (Forall (valid_cell strings w) (take (Z.to_nat len) a))) as [Hf|Hf]|].
  - left. intros b q [= <-]. by apply Forall_forall.
  - right. intros Hall. apply Hf, Forall_forall. intros q. by apply Hall.
  - by left.
Defined.
#[export] Instance contract_dec w c : Decision (contract w c).
Proof. destruct c; cbn; unfold fresh_address, search_args; apply _. Defined.
#[export] Instance contracts_dec engine_panic w cs : Decision (contracts engine_panic w cs).
Proof. revert w. induction cs as [|c cs IH]; intros w; cbn; apply _. Defined.

(** *** What a call may change *)
Definition handle_of (c : Call) : ptr :=
  match c with
  | LastError => 0
  | WriterOpen p _ _ _ | AddDocument p _ _ | AddDocumentFields p _ _ _ _ | WriteIndex p _ | WriterFree p
  | ReaderOpen p _ | Search p _ _ _ _ _ _ | SearchFiltered p _ _ _ _ _ _ _ _ | Prewarm p | Metrics p _
  | ReaderFree p => p
  end.
Definition outputs_of (c : Call) : list ptr :=
  match c with
  | Search _ _ _ row_ids scores _ result_len | SearchFiltered _ _ _ _ _ row_ids scores _ result_len =>
      [row_ids; scores; result_len]
  | Metrics _ metrics => [metrics]
  | _ => []
  end.

(** Every writer behind a handle is well formed, and null is not a handle. *)
Definition world_ok (w : World) : Prop :=
  (∀ p h, writers w !! p = Some h → p ≠ 0 ∧ writer_ok (writer_inner h)) ∧
  (∀ p h, readers w !! p = Some h → p ≠ 0).

(** Apart from the error text, only the handle [h] and the outputs [outs]
    differ, and no array has changed its length. *)
Record frame (h : ptr) (outs : list ptr) (w w' : World) : Prop := {
  frame_ok : world_ok w → world_ok w';
  frame_writers p : p ≠ h → writers w' !! p = writers w !! p;
  frame_readers p : p ≠ h → readers w' !! p = readers w !! p;
  frame_strings : strings w' = strings w;
  frame_arrays : arrays w' = arrays w;
  frame_bytes : bytes w' = bytes w;
  frame_row_ids p : p ∉ outs → row_id_arrays w' !! p = row_id_arrays w !! p;
  frame_scores p : p ∉ outs → score_arrays w' !! p = score_arrays w !! p;
  frame_lengths p : p ∉ outs → lengths w' !! p = lengths w !! p;
  frame_metrics p : p ∉ outs → metrics_cells w' !! p = metrics_cells w !! p;
  frame_row_ids_size p : blen <$> row_id_arrays w' !! p = blen <$> row_id_arrays w !! p;
  frame_scores_size p : blen <$> score_arrays w' !! p = blen <$> score_arrays w !! p;
  frame_lengths_live p : is_Some (lengths w !! p) → is_Some (lengths w' !! p)
}.
#[export] Instance frame_preorder h outs : PreOrder (frame h outs).
Proof.
  split; [intros w; by split|]. intros w1 w2 w3 [] []. split; intros; first [by auto | congruence | 
    repeat match goal with Hf : ∀ p, _ → _ !! p = _ |- _ => rewrite Hf by done; clear Hf end; done].
Qed.

(** [m] returns or is unwound by a panic; it changes no more than the frame
    and leaves the error text. *)
Definition within (h : ptr) (outs : list ptr) (w w' : World) : Prop :=
  frame h outs w w' ∧ LAST_ERROR w' = LAST_ERROR w.
#[export] Instance within_preorder h outs : PreOrder (within h outs).
Proof.
  split; [by split|]. intros w1 w2 w3 [Hf1 He1] [Hf2 He2]. split; [by transitivity w2|congruence].
Qed.
Definition runs {A} (h : ptr) (outs : list ptr) (m : FFI World A) (w : World) : Prop :=
  keeps (within h outs) (λ _, True) m w.
Lemma runs_reads {A} h outs (m : FFI World A) w : reads m w → runs h outs m w.
Proof. apply keeps_reads, _. Qed.
Lemma runs_read_bind {A B} h outs (m : FFI World A) (f : A -> FFI World B) w :
  reads m w → (∀ a, m w = (Returned (Ok a), w) → runs h outs (f a) w) → runs h outs (m ≫= f) w.
Proof. apply keeps_read_bind, _. Qed.
Lemma runs_bind {A B} h outs (m : FFI World A) (f : A -> FFI World B) w :
  runs h outs m w →
  (∀ a w', m w = (Returned (Ok a), w') → frame h outs w w' → runs h outs (f a) w') →
  runs h outs (m ≫= f) w.
Proof.
  intros Hm Hf. apply (keeps_bind (within h outs) _); [done|]. intros a w' Ha [Hfr _]. by apply Hf.
Qed.

Lemma reads_load {T} (objects : World -> gmap ptr T) p w :
  is_Some (objects w !! p) → reads (load objects p) w.
Proof. intros [v Hv]. apply (reads_intro _ _ (Ok v)). unfold load. by rewrite Hv. Qed.
(** *** Reading arguments *)
Lemma reads_require {T} (objects : World -> gmap ptr T) w p name :
  valid_cell objects w p → reads (require objects p name) w.
Proof.
  intros Hv. unfold require, is_null. destruct (Z.eqb_spec p 0); [apply reads_fail|].
  apply reads_bind; [by apply reads_load, Hv|]. intros. apply reads_ret.
Qed.
Lemma require_Ok {T} (objects : World -> gmap ptr T) w p name w' :
  require objects p name w = (Returned (Ok tt), w') → p ≠ 0 ∧ ∃ h, objects w !! p = Some h.
Proof.
  unfold require, is_null, load, mbind, FFI_bind. destruct (Z.eqb_spec p 0); [done|].
  destruct (objects w !! p) as [h|]; [|done]. intros _. split; [done|by eexists].
Qed.
Lemma reads_from_raw_parts {T} (objects : World -> gmap ptr (list T)) w p len :
  p ≠ 0 → valid_array objects w p len → reads (from_raw_parts objects p len) w.
Proof.
  intros Hp Hv. destruct (Hv Hp) as (a & Ha & Hlen). unfold from_raw_parts.
  apply reads_bind; [apply reads_load; by eexists|]. unfold load. rewrite Ha. intros a' [= <-].
  destruct (Z.leb_spec len (blen a)); [apply reads_ret|lia].
Qed.
Lemma from_raw_parts_Ok {T} (objects : World -> gmap ptr (list T)) w p len l w' :
  from_raw_parts objects p len w = (Returned (Ok l), w') →
  ∃ a, objects w !! p = Some a ∧ l = take (Z.to_nat len) a.
Proof.
  unfold from_raw_parts, load, mbind, FFI_bind. destruct (objects w !! p) as [a|]; [|done].
  destruct (len <=? blen a); [|done]. intros [= <- _]. by exists a.
Qed.
Lemma reads_cstr w p name : valid_cell strings w p → reads (cstr_to_string p name) w.
Proof.
  intros Hv. unfold cstr_to_string, is_null. destruct (Z.eqb_spec p 0); [apply reads_fail|].
  apply reads_bind; [by apply reads_load, Hv|]. intros bs _.
  destruct (from_utf8 bs); [apply reads_ret|apply reads_fail].
Qed.
Lemma reads_pairs key_name value_name w ks vs :
  (∀ q, q ∈ ks → valid_cell strings w q) → (∀ q, q ∈ vs → valid_cell strings w q) →
  reads (ffi_mapM (string_pair key_name value_name) (zip ks vs)) w.
Proof.
  intros Hk Hv. apply reads_mapM. intros [k v] Hkv.
  pose proof (elem_of_zip_l _ _ _ _ Hkv). pose proof (elem_of_zip_r _ _ _ _ Hkv).
  unfold string_pair. cbn [fst snd].
  apply reads_bind; [by apply reads_cstr, Hk|]. intros. apply reads_bind; [by apply reads_cstr, Hv|].
  intros. apply reads_ret.
Qed.
(** The two arrays of strings of an option map or a document. *)
Lemma reads_two_arrays {A} w ks vs len (k : list ptr -> list ptr -> FFI World A) :
  ks ≠ 0 → vs ≠ 0 → valid_strings w ks len → valid_strings w vs len →
  (∀ ks' vs', (∀ q, q ∈ ks' → valid_cell strings w q) → (∀ q, q ∈ vs' → valid_cell strings w q) →
     reads (k ks' vs') w) →
  reads (ks' ← from_raw_parts arrays ks len; vs' ← from_raw_parts arrays vs len; k ks' vs') w.
Proof.
  intros Hk Hv [Hk1 Hk2] [Hv1 Hv2] Hcont.
  apply reads_bind; [by apply reads_from_raw_parts|]. intros ks' (a & Ha & ->)%from_raw_parts_Ok.
  apply reads_bind; [by apply reads_from_raw_parts|]. intros vs' (b & Hb & ->)%from_raw_parts_Ok.
  apply Hcont; intros q Hq; eauto.
Qed.
Lemma reads_options w ks vs len :
  (len ≠ 0 → valid_strings w ks len ∧ valid_strings w vs len) → reads (options_from_raw ks vs len) w.
Proof.
  intros Hs. unfold options_from_raw, is_null. destruct (Z.eqb_spec len 0); [apply reads_ret|].
  destruct Hs; [done|]. destruct (Z.eqb_spec ks 0); [apply reads_fail|].
  destruct (Z.eqb_spec vs 0); [apply reads_fail|]. apply reads_two_arrays; [done..|]. intros.
  apply reads_bind; [by apply reads_pairs|]. intros. apply reads_ret.
Qed.
Lemma reads_fields w ks vs len :
  (len ≠ 0 → valid_strings w ks len ∧ valid_strings w vs len) → reads (fields_from_raw ks vs len) w.
Proof.
  intros Hs. unfold fields_from_raw, is_null. destruct (Z.eqb_spec len 0); [apply reads_fail|].
  destruct Hs; [done|]. destruct (Z.eqb_spec ks 0); [apply reads_fail|].
  destruct (Z.eqb_spec vs 0); [apply reads_fail|]. apply reads_two_arrays; [done..|]. intros.
  by apply reads_pairs.
Qed.
Lemma reads_const_slice {T} (objects : World -> gmap ptr (list T)) w p len name :
  (len ≠ 0 → valid_array objects w p len) → reads (const_slice objects p len name) w.
Proof.
  intros Hv. unfold const_slice, is_null. destruct (Z.eqb_spec len 0); [apply reads_ret|].
  destruct (Z.eqb_spec p 0); [apply reads_fail|]. apply reads_from_raw_parts; auto.
Qed.

(** *** Handles and outputs *)
Lemma frame_with_writer outs w p h :
  (world_ok w → p ≠ 0 ∧ writer_ok (writer_inner h)) →
  frame p outs w (with_writers (<[p := h]> (writers w)) w).
Proof.
  intros Hok. split; try done.
  - intros Hw. pose proof Hw as [Hws Hrs]. destruct (Hok Hw). split; [|done]. cbn [writers with_writers].
    intros q h'. destruct (decide (q = p)) as [->|]; [rewrite lookup_insert_eq; by intros [= <-]|].
    rewrite lookup_insert_ne by done. apply Hws.
  - intros q Hq. cbn [writers with_writers]. by rewrite lookup_insert_ne.
Qed.
Lemma frame_with_reader outs w p h :
  (world_ok w → p ≠ 0) → frame p outs w (with_readers (<[p := h]> (readers w)) w).
Proof.
  intros Hok. split; try done.
  - intros Hw. pose proof Hw as [Hws Hrs]. split; [done|]. cbn [readers with_readers].
    intros q h'. destruct (decide (q = p)) as [->|]; [intros _; by apply Hok|].
    rewrite lookup_insert_ne by done. apply Hrs.
  - intros q Hq. cbn [readers with_readers]. by rewrite lookup_insert_ne.
Qed.

Lemma runs_on_writer {A} outs w p h (m : ST FullTextIndexWriter (Fault FtIndexError) A) :
  writers w !! p = Some h →
  (writer_ok (writer_inner h) → writer_ok (m (writer_inner h)).2) →
  runs p outs (on_writer p m) w.
Proof.
  intros Hh Hm. unfold runs, keeps, on_writer. rewrite Hh. destruct (m (writer_inner h)) as [r w'].
  assert (within p outs w (with_writers (<[p := writer_handle w']> (writers w)) w)) as Hw.
  { split; [|done]. apply frame_with_writer. intros [Hws _]. destruct (Hws _ _ Hh). auto. }
  by destruct r as [a|[e|pl]].
Qed.
Lemma runs_on_reader {A} outs w p h (m : ST FullTextIndexReader (Fault FtIndexError) A) :
  readers w !! p = Some h → runs p outs (on_reader p m) w.
Proof.
  intros Hh. unfold runs, keeps, on_reader. rewrite Hh. destruct (m (reader_inner h)) as [r w'].
  assert (within p outs w (with_readers (<[p := reader_handle w']> (readers w)) w)) as Hw.
  { split; [|done]. apply frame_with_reader. intros [_ Hrs]. by eapply Hrs. }
  by destruct r as [a|[e|pl]].
Qed.
Lemma on_reader_Ok {A} w p h (m : ST FullTextIndexReader (Fault FtIndexError) A) a w' :
  readers w !! p = Some h → on_reader p m w = (Returned (Ok a), w') →
  ∃ s', m (reader_inner h) = (Ok a, s') ∧ w' = with_readers (<[p := reader_handle s']> (readers w)) w.
Proof.
  intros Hh. unfold on_reader. rewrite Hh. destruct (m (reader_inner h)) as [[a'|[e|pl]] s']; [|done..].
  intros [= <- <-]. by exists s'.
Qed.

Lemma runs_store_length h outs w p n :
  p ∈ outs → is_Some (lengths w !! p) → runs h outs (store_length p n) w.
Proof.
  intros Hp [v Hv]. unfold runs, keeps, store_length. rewrite Hv.
  split; [|done]. split; try done; unfold lengths; cbn [snd memory with_memory c_lengths].
  - intros q Hq. rewrite lookup_insert_ne; [done|]. by intros ->.
  - intros q [u Hu]. destruct (decide (q = p)) as [->|]; [rewrite lookup_insert_eq; by eexists|].
    rewrite lookup_insert_ne by done. by exists u.
Qed.
Lemma runs_store_metrics h outs w p v :
  p ∈ outs → is_Some (metrics_cells w !! p) → runs h outs (store_metrics p v) w.
Proof.
  intros Hp [u Hu]. unfold runs, keeps, store_metrics. rewrite Hu.
  split; [|done]. split; try done; unfold metrics_cells; cbn [snd memory with_memory c_metrics].
  intros q Hq. rewrite lookup_insert_ne; [done|]. by intros ->.
Qed.
Lemma copy_into_Some {T} (src old : list T) :
  blen src ≤ blen old →
  copy_into src (Some old) = Some (src ++ drop (List.length src) old) ∧
  blen (src ++ drop (List.length src) old) = blen old.
Proof.
  intros Hle. unfold copy_into. destruct (Z.leb_spec (blen src) (blen old)); [|lia].
  split; [done|]. unfold blen in *. rewrite length_app, length_drop. lia.
Qed.
Lemma runs_copy_row_ids h outs w p src :
  p ∈ outs → p ≠ 0 → valid_array row_id_arrays w p (blen src) → runs h outs (copy_row_ids p src) w.
Proof.
  intros Hp Hnz Hv. destruct (Hv Hnz) as (old & Hold & Hle). unfold runs, keeps, copy_row_ids.
  destruct (copy_into_Some src old Hle) as [Hc Hl]. rewrite Hold, Hc.
  split; [|done]. split; try done; unfold row_id_arrays; cbn [snd memory with_memory c_row_ids].
  - intros q Hq. rewrite lookup_insert_ne; [done|]. by intros ->.
  - intros q. destruct (decide (q = p)) as [->|]; [|by rewrite lookup_insert_ne].
    rewrite lookup_insert_eq. unfold row_id_arrays in Hold. rewrite Hold. cbn. by rewrite Hl.
Qed.
Lemma runs_copy_scores h outs w p src :
  p ∈ outs → p ≠ 0 → valid_array score_arrays w p (blen src) → runs h outs (copy_scores p src) w.
Proof.
  intros Hp Hnz Hv. destruct (Hv Hnz) as (old & Hold & Hle). unfold runs, keeps, copy_scores.
  destruct (copy_into_Some src old Hle) as [Hc Hl]. rewrite Hold, Hc.
  split; [|done]. split; try done; unfold score_arrays; cbn [snd memory with_memory c_scores].
  - intros q Hq. rewrite lookup_insert_ne; [done|]. by intros ->.
  - intros q. destruct (decide (q = p)) as [->|]; [|by rewrite lookup_insert_ne].
    rewrite lookup_insert_eq. unfold score_arrays in Hold. rewrite Hold. cbn. by rewrite Hl.
Qed.
Lemma valid_array_size {T} (objects : World -> gmap ptr (list T)) w w' p n :
  blen <$> objects w' !! p = blen <$> objects w !! p →
  valid_array objects w p n → valid_array objects w' p n.
Proof.
  intros Hs Hv Hp. destruct (Hv Hp) as (a & Ha & Hn). rewrite Ha in Hs.
  destruct (objects w' !! p) as [a'|]; [|done]. injection Hs as Hs. exists a'. split; [done|lia].
Qed.
Lemma valid_array_mono {T} (objects : World -> gmap ptr (list T)) w p n m :
  m ≤ n → valid_array objects w p n → valid_array objects w p m.
Proof. intros Hle Hv Hp. destruct (Hv Hp) as (a & Ha & Hn). exists a. split; [done|lia]. Qed.

(** *** Every call *)
Lemma runs_search_impl w reader req :
  (∃ h, readers w !! reader = Some h) →
  search_args w (sr_query req) (sr_row_ids req) (sr_scores req) (sr_capacity req) (sr_result_len req) →
  runs reader [sr_row_ids req; sr_scores req; sr_result_len req] (search_impl reader req) w.
Proof.
  intros [h Hh] (Hq & Hl & Hi & Hs). unfold search_impl, is_null.
  destruct (Z.eqb_spec (sr_result_len req) 0) as [|Hnl]; [apply runs_reads, reads_fail|].
  apply runs_read_bind; [by apply reads_cstr|]. intros q _.
  apply runs_bind; [by eapply runs_on_reader|]. intros res w1 Hres Hf1.
  destruct (on_reader_Ok _ _ _ _ _ _ Hh Hres) as (s' & Hsearch & _). apply search_scores in Hsearch.
  apply runs_bind.
  { apply runs_store_length; [do 2 right; left|]. by apply (frame_lengths_live _ _ _ _ Hf1), Hl. }
  intros [] w2 _ Hf2. pose proof (transitivity Hf1 Hf2) as Hf.
  destruct (Z.ltb_spec (sr_capacity req) (blen (row_ids res))); [apply runs_reads, reads_fail|].
  destruct (is_empty (row_ids res)); cbn [negb]; [apply runs_reads, reads_ret|].
  destruct (Z.eqb_spec (sr_row_ids req) 0); [apply runs_reads, reads_fail|].
  destruct (Z.eqb_spec (sr_scores req) 0); [apply runs_reads, reads_fail|].
  apply runs_bind.
  { apply runs_copy_row_ids; [left|done|]. eapply valid_array_size; [apply (frame_row_ids_size _ _ _ _ Hf)|].
    by eapply valid_array_mono. }
  intros [] w3 _ Hf3. apply runs_copy_scores; [right; left|done|].
  eapply valid_array_size; [apply (frame_scores_size _ _ _ _ Hf3)|].
  eapply valid_array_size; [apply (frame_scores_size _ _ _ _ Hf)|].
  rewrite Hsearch. by eapply valid_array_mono.
Qed.

Lemma frame_set_error h outs w w' msg : frame h outs w w' → frame h outs w (set_error msg w').
Proof. by intros []; split. Qed.

(** How a wrapped computation replies. *)
Definition reported (w w' : World) (bad : bool) : Prop :=
  if bad then ∃ text, LAST_ERROR w' = Some text ∧ 0 ∉ text else LAST_ERROR w' = LAST_ERROR w.
Lemma reported_error w w' msg : reported w (set_error msg w') true.
Proof. unfold reported, set_error. destruct (CString_new_replaced msg) as (text & -> & Hn). by exists text. Qed.
Lemma ffi_value_runs {A} (on_ok : A -> ptr) on_err (m : FFI World A) h outs w (bad : ptr -> bool) :
  runs h outs m w → bad on_err = true →
  (∀ a w', m w = (Returned (Ok a), w') → bad (on_ok a) = false) →
  ∃ v w', ffi_value on_ok on_err m w = (Some v, w') ∧ frame h outs w w' ∧ reported w w' (bad v).
Proof.
  unfold runs, keeps. intros Hm Hbad Hgood. unfold ffi_value.
  destruct (m w) as [[[a|e]|p|] w'] eqn:Em; [destruct Hm as [Hf He]..|destruct Hm as [[Hf He] _]|done].
  - exists (on_ok a), w'. split_and!; [done|done|]. by erewrite Hgood.
  - exists on_err, (set_error e w'). split_and!; [done|by apply frame_set_error|]. rewrite Hbad. apply reported_error.
  - exists on_err, (set_error (panic_message p) w'). split_and!; [done|by apply frame_set_error|].
    rewrite Hbad. apply reported_error.
Qed.

Definition call_ok (engine_panic : Payload) (c : Call) (w : World) : Prop :=
  ∃ r w', run_call engine_panic c w = (Some r, w') ∧
    frame (handle_of c) (outputs_of c) w w' ∧ reported w w' (failed r).

Lemma status_call_ok engine_panic c w (m : FFI World unit) :
  run_call engine_panic c w = reply RStatus (ffi_status m w) →
  runs (handle_of c) (outputs_of c) m w → call_ok engine_panic c w.
Proof.
  intros Hc Hm. destruct (ffi_value_runs (λ _, 0) (-1) m _ _ _ (λ v, negb (v =? 0)) Hm) as (v & w' & Hv & Hf & Hr);
    [done..|]. exists (RStatus v), w'. rewrite Hc. unfold ffi_status. by rewrite Hv.
Qed.

Lemma box_writer_Ok w p h a w' : box_writer p h w = (Returned (Ok a), w') → a = p.
Proof. by intros [= <- _]. Qed.
Lemma box_reader_Ok w p h a w' : box_reader p h w = (Returned (Ok a), w') → a = p.
Proof. by intros [= <- _]. Qed.
Lemma writer_open_ok engine_panic address keys values len w :
  contract w (WriterOpen address keys values len) → call_ok engine_panic (WriterOpen address keys values len) w.
Proof.
  intros [(Hnz & _ & _) Hargs]. unfold call_ok, run_call, paimon_ftindex_writer_open, ffi_ptr.
  edestruct (ffi_value_runs (A := ptr)) as (v & w' & Hv & Hf & Hr); [| | |rewrite Hv; by exists (RHandle v), w'].
  - apply runs_read_bind; [by apply reads_options|]. intros options _.
    apply runs_read_bind; [apply reads_lift|]. intros config _.
    pose proof (new_writer_ok config) as Hnew. unfold runs, keeps, mbind, FFI_bind, ffi_may_panic.
    destruct (FullTextIndexWriter_new config) as [[wr|[e|p]]|]; cbn [ffi_outcome]; [|by split..|done].
    destruct Hnew as [Hok _]. split; [|done]. by apply frame_with_writer.
  - done.
  - intros a w' Hm. do 3 (apply ffi_bind_Ok in Hm as (? & ? & _ & Hm)). apply box_writer_Ok in Hm as ->.
    by apply Z.eqb_neq.
Qed.
Lemma reader_open_ok engine_panic address input w :
  contract w (ReaderOpen address input) → call_ok engine_panic (ReaderOpen address input) w.
Proof.
  intros (Hnz & _ & _). unfold call_ok, run_call, paimon_ftindex_reader_open, ffi_ptr.
  edestruct (ffi_value_runs (A := ptr)) as (v & w' & Hv & Hf & Hr); [| | |rewrite Hv; by exists (RHandle v), w'].
  - unfold runs, keeps, mbind, FFI_bind.
    destruct (FullTextIndexReader_open (ffi_input_file input)) as [rd|[e|p]]; cbn [ffi_outcome]; [|by split..].
    split; [|done]. by apply frame_with_reader.
  - done.
  - intros a w' Hm. apply ffi_bind_Ok in Hm as (? & ? & _ & Hm). apply box_reader_Ok in Hm as ->.
    by apply Z.eqb_neq.
Qed.

Lemma write_index_ok engine_panic writer output w :
  contract w (WriteIndex writer output) → call_ok engine_panic (WriteIndex writer output) w.
Proof.
  intros Hv. unfold call_ok, run_call, paimon_ftindex_writer_write_index, ffi_status, ffi_value.
  unfold mbind at 1, FFI_bind at 1, in_world.
  destruct (reads_run _ _ (reads_require _ _ _ "writer" Hv)) as [r Hr]. rewrite Hr.
  assert (∀ msg w', frame writer [] w w' → frame writer [] w (set_error msg w') ∧
    reported w (set_error msg w') true) as Herr.
  { intros msg w' Hf. split; [by apply frame_set_error|apply reported_error]. }
  destruct r as [[]|e].
  2:{ eexists _, _. split; [reflexivity|]. by apply Herr. }
  destruct (require_Ok _ _ _ _ _ Hr) as (Hnz & h & Hh). unfold write_on. rewrite Hh.
  pose proof (write_writer_ok (writer_inner h) (ffi_output_file output)) as Hok.
  destruct (write _) as [r [inner output']]. cbn [fst snd] in Hok.
  assert (frame writer [] w (with_writers (<[writer := writer_handle inner]> (writers w)) w)) as Hf.
  { apply frame_with_writer. intros [Hws _]. destruct (Hws _ _ Hh). auto. }
  destruct r as [[]|[e|p]]; (eexists _, _; split; [reflexivity|]); [by split|by apply Herr..].
Qed.

Lemma frees_ok engine_panic w c :
  match c with WriterFree _ | ReaderFree _ => True | _ => False end →
  contract w c → call_ok engine_panic c w.
Proof.
  assert (∀ {T} (m : gmap ptr T) p q h, delete p m !! q = Some h → m !! q = Some h) as Hdel.
  { intros T m p q h. destruct (decide (q = p)) as [->|]; [by rewrite lookup_delete_eq|].
    by rewrite lookup_delete_ne. }
  destruct c; try done; intros _ Hv; unfold call_ok, run_call, reply;
    unfold paimon_ftindex_writer_free, paimon_ftindex_reader_free, is_null.
  - destruct (Z.eqb_spec writer 0); cbn [negb]; [by eexists _, _|]. destruct (Hv n) as [h Hh]. rewrite Hh.
    eexists _, _. split; [reflexivity|]. split; [|done]. split; try done.
    + intros [Hws Hrs]. split; [|done]. intros p h' Hp%Hdel. by apply Hws.
    + intros p Hp. cbn. by rewrite lookup_delete_ne.
  - destruct (Z.eqb_spec reader 0); cbn [negb]; [by eexists _, _|]. destruct (Hv n) as [h Hh]. rewrite Hh.
    eexists _, _. split; [reflexivity|]. split; [|done]. split; try done.
    + intros [Hws Hrs]. split; [done|]. intros p h' Hp%Hdel. by eapply Hrs.
    + intros p Hp. cbn. by rewrite lookup_delete_ne.
Qed.

(** A call that keeps its contract returns, within its frame. *)
Lemma contract_call_ok engine_panic c w : contract w c → call_ok engine_panic c w.
Proof.
  intros Hc. pose proof Hc as Hall. destruct c; cbn [contract] in Hall; try by (apply frees_ok; done).
  - by eexists _, _.
  - by apply writer_open_ok.
  - destruct Hall as (Hw & Ht & Hr). eapply status_call_ok; [reflexivity|].
    apply runs_read_bind; [by apply reads_require|]. intros [] (_ & h & Hh)%require_Ok.
    apply runs_read_bind; [by apply reads_cstr|]. intros text' _.
    eapply runs_on_writer; [done|]. intros Hok. by apply add_document_keeps.
  - destruct Hall as (Hw & Hr & Hargs). eapply status_call_ok; [reflexivity|].
    apply runs_read_bind; [by apply reads_require|]. intros [] (_ & h & Hh)%require_Ok.
    apply runs_read_bind; [by apply reads_fields|]. intros fields' _.
    eapply runs_on_writer; [done|]. intros Hok. by apply add_document_fields_keeps.
  - by apply write_index_ok.
  - by apply reader_open_ok.
  - destruct Hall as (Hrd & Hargs). eapply status_call_ok; [reflexivity|].
    apply runs_read_bind; [by apply reads_require|]. intros [] (_ & Hh)%require_Ok. by apply runs_search_impl.
  - destruct Hall as (Hrd & Hfl & Hargs). eapply status_call_ok; [reflexivity|].
    apply runs_read_bind; [by apply reads_require|]. intros [] (_ & Hh)%require_Ok.
    apply runs_read_bind; [by apply reads_const_slice|]. intros f _. by apply runs_search_impl.
  - eapply status_call_ok; [reflexivity|].
    apply runs_read_bind; [by apply reads_require|]. intros [] (_ & h & Hh)%require_Ok. by eapply runs_on_reader.
  - destruct Hall as (Hrd & Hm). eapply status_call_ok; [reflexivity|].
    apply runs_read_bind; [by apply reads_require|]. intros [] (_ & h & Hh)%require_Ok.
    apply runs_read_bind; [by apply reads_require|]. intros [] (_ & u & Hu)%require_Ok.
    apply runs_bind; [by eapply runs_on_reader|]. intros snap w1 Hs Hf.
    apply runs_store_metrics; [left|].
    destruct (on_reader_Ok _ _ _ _ _ _ Hh Hs) as (s' & _ & ->). by exists u.
Qed.

(** What makes a call panic behind the interface: the core, on the object
    behind the handle or the input of the call and the arguments it has read. *)
Definition filter_slice (w : World) (filter : ptr) (len : Z) : list byte :=
  if len =? 0 then [] else take (Z.to_nat len) (default [] (bytes w !! filter)).
Definition search_panics (w : World) (reader query : ptr) (limit : Z) (filter : option (list byte)) (result_len : ptr)
    (p : Payload) : Prop :=
  reader ≠ 0 ∧ query ≠ 0 ∧ result_len ≠ 0 ∧ ∃ h bs q s',
    readers w !! reader = Some h ∧ strings w !! query = Some bs ∧ from_utf8 bs = Ok q ∧
    core_search q limit filter (reader_inner h) = (Err (Panicked p), s').
Definition call_panics (w : World) (c : Call) (p : Payload) : Prop :=
  match c with
  | WriterOpen _ keys values len => ∃ options config,
      options_from_raw keys values len w = (Returned (Ok options), w) ∧
      from_options (hash_entries options) = Ok config ∧
      FullTextIndexWriter_new (Schema := Schema) (I := I) config = Some (Err (Panicked p))
  | AddDocument writer row_id text => writer ≠ 0 ∧ text ≠ 0 ∧ ∃ h bs t s',
      writers w !! writer = Some h ∧ strings w !! text = Some bs ∧ from_utf8 bs = Ok t ∧
      add_document row_id t (writer_inner h) = (Err (Panicked p), s')
  | AddDocumentFields writer row_id field_names texts len => writer ≠ 0 ∧ ∃ h fields s',
      writers w !! writer = Some h ∧ fields_from_raw field_names texts len w = (Returned (Ok fields), w) ∧
      add_document_fields row_id fields (writer_inner h) = (Err (Panicked p), s')
  | WriteIndex writer output => writer ≠ 0 ∧ ∃ h s',
      writers w !! writer = Some h ∧ write (writer_inner h, ffi_output_file output) = (Err (Panicked p), s')
  | ReaderOpen _ input => FullTextIndexReader_open (ffi_input_file input) = Err (Panicked p)
  | Search reader query limit _ _ _ result_len => search_panics w reader query limit None result_len p
  | SearchFiltered reader query limit filter filter_len _ _ _ result_len =>
      (filter_len ≠ 0 → filter ≠ 0) ∧
      search_panics w reader query limit (Some (filter_slice w filter filter_len)) result_len p
  | Prewarm reader => reader ≠ 0 ∧ ∃ h s',
      readers w !! reader = Some h ∧ prewarm (reader_inner h) = (Err (Panicked p), s')
  | _ => False
  end.

Lemma require_live {T} (objects : World -> gmap ptr T) w p name h :
  p ≠ 0 → objects w !! p = Some h → require objects p name w = (Returned (Ok tt), w).
Proof.
  intros Hp Hh. unfold require, is_null, load, mbind, FFI_bind. apply Z.eqb_neq in Hp. by rewrite Hp, Hh.
Qed.
Lemma cstr_live w p name bs t :
  p ≠ 0 → strings w !! p = Some bs → from_utf8 bs = Ok t → cstr_to_string p name w = (Returned (Ok t), w).
Proof.
  intros Hp Hbs Hdec. unfold cstr_to_string, is_null, load, mbind, FFI_bind. apply Z.eqb_neq in Hp.
  by rewrite Hp, Hbs, Hdec.
Qed.
Lemma search_impl_unwinds w reader req p :
  search_panics w reader (sr_query req) (sr_limit req) (sr_roaring_filter req) (sr_result_len req) p →
  ∃ w', search_impl reader req w = (Unwinds p, w').
Proof.
  intros (Hr & Hq & Hl & h & bs & q & s' & Hh & Hbs & Hdec & Hp). unfold search_impl, is_null.
  apply Z.eqb_neq in Hq, Hl. rewrite Hl. unfold cstr_to_string, is_null, load, mbind, FFI_bind. rewrite Hq, Hbs, Hdec.
  unfold mret, FFI_ret, on_reader. rewrite Hh. fold (core_search q (sr_limit req) (sr_roaring_filter req)).
  rewrite Hp. by eexists.
Qed.
Lemma const_slice_live w filter len name :
  (len ≠ 0 → filter ≠ 0) → (len ≠ 0 → valid_array bytes w filter len) →
  const_slice bytes filter len name w = (Returned (Ok (filter_slice w filter len)), w).
Proof.
  intros Hnz Hv. unfold const_slice, filter_slice, is_null. destruct (Z.eqb_spec len 0) as [|Hlen]; [done|].
  specialize (Hnz Hlen). destruct (Hv Hlen Hnz) as (a & Ha & Hle). apply Z.eqb_neq in Hnz. rewrite Hnz.
  unfold from_raw_parts, load, mbind, FFI_bind. rewrite Ha. by destruct (Z.leb_spec len (blen a)); [|lia].
Qed.

(** The panic is caught, and its message becomes the error text. *)
Lemma panicking_call engine_panic w c p :
  contract w c → call_panics w c p →
  ∃ r w', run_call engine_panic c w = (Some r, set_error (panic_message p) w') ∧ failed r = true.
Proof.
  intros Hc Hp. destruct c; cbn [call_panics contract] in Hc, Hp; try done; cbn [run_call].
  - destruct Hp as (options & config & Hopt & Hcfg & Hnew).
    unfold paimon_ftindex_writer_open, ffi_ptr, ffi_value, mbind, FFI_bind, ffi_lift, ffi_may_panic.
    rewrite Hopt, Hcfg. cbn [map_err]. rewrite Hnew. by eexists (RHandle 0), _.
  - destruct Hp as (Hw & Ht & h & bs & t & s' & Hh & Hbs & Hdec & Hp).
    unfold paimon_ftindex_writer_add_document, ffi_status, ffi_value, mbind, FFI_bind.
    rewrite (require_live writers _ _ _ h), (cstr_live _ _ _ _ _ Ht Hbs Hdec) by done.
    unfold on_writer. rewrite Hh, Hp. by eexists (RStatus (-1)), _.
  - destruct Hp as (Hw & h & fields & s' & Hh & Hf & Hp).
    unfold paimon_ftindex_writer_add_document_fields, ffi_status, ffi_value, mbind, FFI_bind.
    rewrite (require_live writers _ _ _ h), Hf by done.
    unfold on_writer. rewrite Hh, Hp. by eexists (RStatus (-1)), _.
  - destruct Hp as (Hw & h & [inner out] & Hh & Hp).
    unfold paimon_ftindex_writer_write_index, ffi_status, ffi_value, mbind, FFI_bind, in_world.
    rewrite (require_live writers _ _ _ h) by done.
    unfold write_on. rewrite Hh, Hp. by eexists (RWritten (-1) out), _.
  - unfold paimon_ftindex_reader_open, ffi_ptr, ffi_value, mbind, FFI_bind. rewrite Hp. by eexists (RHandle 0), _.
  - unfold paimon_ftindex_reader_search, ffi_status, ffi_value, mbind at 1, FFI_bind at 1.
    pose proof Hp as (Hr & _ & _ & h & _ & _ & _ & Hh & _). rewrite (require_live readers _ _ _ h) by done.
    destruct (search_impl_unwinds w reader (search_request query limit None row_ids scores capacity result_len) p Hp)
      as [w' ->]. by eexists (RStatus (-1)), w'.
  - destruct Hc as (_ & Hfl & _), Hp as [Hnz Hp].
    unfold paimon_ftindex_reader_search_with_roaring_filter, ffi_status, ffi_value, mbind, FFI_bind.
    pose proof Hp as (Hr & _ & _ & h & _ & _ & _ & Hh & _). rewrite (require_live readers _ _ _ h) by done.
    rewrite const_slice_live by done.
    destruct (search_impl_unwinds w reader (search_request query limit (Some (filter_slice w filter filter_len))
      row_ids scores capacity result_len) p Hp) as [w' ->]. by eexists (RStatus (-1)), w'.
  - destruct Hp as (Hr & h & s' & Hh & Hpre).
    unfold paimon_ftindex_reader_prewarm, ffi_status, ffi_value, mbind, FFI_bind.
    rewrite (require_live readers _ _ _ h) by done. unfold on_reader. rewrite Hh, Hpre. by eexists (RStatus (-1)), _.
Qed.

(** C3: a program whose every pointer is null or points at what the called
    function takes it for never meets undefined behaviour or a panic, whatever
    the engine, the files and the callbacks do: each call returns; one that
    fails (status -1 or a null handle) has left an error text without a NUL,
    one that succeeds the previous text; a panic of the core (an engine that
    panics, a read that does) is such a failure, with the message of the panic
    as the text; only the handle of the call and its output cells have
    changed; and every writer stays well formed. *)
Theorem calls_never_undefined engine_panic cs w :
  world_ok w → contracts engine_panic w cs →
  List.length (run_calls engine_panic cs w).1 = List.length cs ∧
  world_ok (run_calls engine_panic cs w).2 ∧
  ∀ i c, cs !! i = Some c →
    let w1 := (run_calls engine_panic (take i cs) w).2 in
    ∃ r w2, run_call engine_panic c w1 = (Some r, w2) ∧
      (run_calls engine_panic cs w).1 !! i = Some (Some r) ∧
      frame (handle_of c) (outputs_of c) w1 w2 ∧
      (if failed r then ∃ text, LAST_ERROR w2 = Some text ∧ 0 ∉ text else LAST_ERROR w2 = LAST_ERROR w1) ∧
      ∀ p, call_panics w1 c p →
        failed r = true ∧ LAST_ERROR w2 = CString_new (replace_char 0 (lit "\0") (panic_message p)).
Proof.
  revert w. induction cs as [|c cs IH]; intros w Hok Hcs; [by split_and!|].
  destruct Hcs as [Hc Hcs]. destruct (contract_call_ok engine_panic c w Hc) as (r & w' & Hr & Hf & He).
  rewrite Hr in Hcs. destruct (IH w' (frame_ok _ _ _ _ Hf Hok) Hcs) as (Hlen & Hok' & Hall).
  cbn [run_calls]. rewrite Hr. destruct (run_calls engine_panic cs w') as [rs w2] eqn:Ecs.
  cbn [fst snd] in *. split_and!; [cbn; lia|done|].
  intros [|i] c' Hc'; cbn in Hc'.
  - injection Hc' as <-. exists r, w'. split_and!; [done..|]. intros p Hp.
    destruct (panicking_call engine_panic w c p Hc Hp) as (r' & w3 & Hr' & Hfail). rewrite Hr in Hr'.
    by injection Hr' as -> ->.
  - cbn [take run_calls]. rewrite Hr. destruct (run_calls engine_panic (take i cs) w') as [rs1 w3] eqn:Et.
    cbn [snd]. specialize (Hall i c' Hc'). rewrite Et in Hall. exact Hall.
Qed.
End Calls.

(** ** Searching through the interface *)
Section Deliver.
Context `{Platform} `{Unicode} `{JsonText} `{Display} `{HashOrder} `{AnalysisEngine}.
Context {Schema I : Type} `{WriterEngine Schema I}.
Context {N Ix Parsed : Type} `{ReadCallbacks N} `{ReaderEngine (MeteredSeekRead (FfiInputFile N)) Ix Parsed}.

Notation World := (World (Schema := Schema) (I := I) (N := N) (Ix := Ix) (Parsed := Parsed)).

(** The caller's arrays start with the result, which fits; the rest of them
    is as it was. *)
Record delivered (req : SearchRequest) (res : FullTextSearchResult) (w w' : World) : Prop := {
  del_fits : blen (row_ids res) ≤ sr_capacity req;
  del_length : lengths w' !! sr_result_len req = Some (blen (row_ids res));
  del_row_ids old : row_id_arrays w !! sr_row_ids req = Some old →
    row_id_arrays w' !! sr_row_ids req = Some (row_ids res ++ drop (List.length (row_ids res)) old);
  del_scores old : score_arrays w !! sr_scores req = Some old →
    score_arrays w' !! sr_scores req = Some (scores res ++ drop (List.length (scores res)) old);
  del_buffers : row_ids res ≠ [] → sr_row_ids req ≠ 0 ∧ sr_scores req ≠ 0
}.
(** A failed search leaves the arrays alone; the length cell is written only
    when a result did not fit or had no array to go to. *)
Definition kept (req : SearchRequest) (w w' : World) : Prop :=
  row_id_arrays w' = row_id_arrays w ∧ score_arrays w' = score_arrays w ∧
  (memory w' = memory w ∨
   ∃ n, lengths w' = <[sr_result_len req := n]> (lengths w) ∧
     (sr_capacity req < n ∨ (0 < n ∧ (sr_row_ids req = 0 ∨ sr_scores req = 0)))).

Lemma cstr_to_string_cases w p name :
  valid_cell strings w p →
  (∃ e, cstr_to_string p name w = (Returned (Err e), w)) ∨
  ∃ bs s, strings w !! p = Some bs ∧ from_utf8 bs = Ok s ∧ cstr_to_string p name w = (Returned (Ok s), w).
Proof.
  intros Hv. unfold cstr_to_string, is_null. destruct (Z.eqb_spec p 0) as [|Hp]; [left; by eexists|].
  destruct (Hv Hp) as [bs Hbs]. unfold load, mbind, FFI_bind. rewrite Hbs.
  destruct (from_utf8 bs) as [s|e] eqn:Es; [right; by exists bs, s|left; by eexists].
Qed.

(** What follows the search: the length, the checks and the two copies. *)
Definition deliver (req : SearchRequest) (result : FullTextSearchResult) : FFI World unit :=
  _ ← store_length (sr_result_len req) (blen (row_ids result));
  if sr_capacity req <? blen (row_ids result) then
    ffi_fail (message_to_string [Txt "result capacity "; Int (sr_capacity req);
                Txt " is smaller than result length "; Int (blen (row_ids result))])
  else if negb (is_empty (row_ids result)) then
    if is_null (sr_row_ids req) then ffi_fail (is_null_error "row_ids")
    else if is_null (sr_scores req) then ffi_fail (is_null_error "scores")
    else
      _ ← copy_row_ids (sr_row_ids req) (row_ids result);
      copy_scores (sr_scores req) (scores result)
  else mret tt.

Lemma deliver_cases w req res :
  sr_result_len req ≠ 0 → blen (scores res) = blen (row_ids res) →
  search_args w (sr_query req) (sr_row_ids req) (sr_scores req) (sr_capacity req) (sr_result_len req) →
  let '(o, w') := deliver req res w in
  (∃ e, o = Returned (Err e) ∧ kept req w w') ∨ (o = Returned (Ok tt) ∧ delivered req res w w').
Proof.
  intros Hnl Hsc (_ & Hl & Hi & Hs). destruct (Hl Hnl) as [l0 Hl0]. unfold deliver, is_null.
  unfold mbind at 1, FFI_bind at 1, store_length. unfold lengths in Hl0 |- *. rewrite Hl0.
  destruct (Z.ltb_spec (sr_capacity req) (blen (row_ids res))) as [Hcap|Hcap].
  { left. eexists. split; [reflexivity|]. split_and!; [done|done|right]. exists (blen (row_ids res)). auto. }
  destruct (is_empty (row_ids res)) eqn:Ee; cbn [negb].
  { apply is_empty_true in Ee. right. split; [reflexivity|].
    assert (scores res = []) as Es by (rewrite Ee in Hsc; by destruct (scores res)). split; try done.
    - unfold lengths. cbn. by rewrite lookup_insert_eq.
    - intros old. by rewrite Ee.
    - intros old. by rewrite Es. }
  apply is_empty_false in Ee.
  assert (0 < blen (row_ids res)) as Hpos by (destruct (row_ids res); [done|]; rewrite blen_cons;
    pose proof (blen_nonneg l); lia).
  destruct (Z.eqb_spec (sr_row_ids req) 0) as [Hri|Hri].
  { left. eexists. split; [reflexivity|]. split_and!; [done|done|right]. exists (blen (row_ids res)). auto. }
  destruct (Z.eqb_spec (sr_scores req) 0) as [Hss|Hss].
  { left. eexists. split; [reflexivity|]. split_and!; [done|done|right]. exists (blen (row_ids res)). auto. }
  destruct (Hi Hri) as (ids & Hids & Hidl). destruct (Hs Hss) as (ss & Hssl & Hsl).
  destruct (copy_into_Some (row_ids res) ids ltac:(lia)) as [Hc1 _].
  destruct (copy_into_Some (scores res) ss ltac:(lia)) as [Hc2 _].
  unfold row_id_arrays in Hids. unfold score_arrays in Hssl.
  unfold mbind at 1, FFI_bind at 1, copy_row_ids, row_id_arrays. cbn [memory with_memory c_row_ids].
  rewrite Hids, Hc1. unfold copy_scores, score_arrays. cbn [memory with_memory c_scores]. rewrite Hssl, Hc2.
  right. split; [reflexivity|]. split; try done; unfold lengths, row_id_arrays, score_arrays;
    cbn [memory with_memory c_scores c_row_ids c_lengths].
  - by rewrite lookup_insert_eq.
  - intros old Hold. rewrite Hids in Hold. injection Hold as <-. by rewrite lookup_insert_eq.
  - intros old Hold. rewrite Hssl in Hold. injection Hold as <-. by rewrite lookup_insert_eq.
Qed.

(** A computation that fails, or is unwound. *)
Definition fails {A} (o : outcome A) : Prop :=
  match o with Returned (Err _) | Unwinds _ => True | _ => False end.
Lemma fails_status (m : FFI World unit) w o w' :
  m w = (o, w') → fails o → ∃ msg, ffi_status m w = (Some (-1), set_error msg w').
Proof. intros Hm Hf. unfold ffi_status, ffi_value. rewrite Hm. destruct o as [[[]|e]|p|]; try done; by eexists. Qed.

Lemma search_impl_cases w reader h req :
  readers w !! reader = Some h →
  search_args w (sr_query req) (sr_row_ids req) (sr_scores req) (sr_capacity req) (sr_result_len req) →
  let '(o, w') := search_impl reader req w in
  (fails o ∧ kept req w w') ∨
  (o = Returned (Ok tt) ∧ ∃ bs q res s', strings w !! sr_query req = Some bs ∧ from_utf8 bs = Ok q ∧
     core_search q (sr_limit req) (sr_roaring_filter req) (reader_inner h) = (Ok res, s') ∧
     delivered req res w w').
Proof.
  intros Hh Hargs. pose proof Hargs as (Hq & _). unfold search_impl, is_null.
  destruct (Z.eqb_spec (sr_result_len req) 0) as [|Hnl].
  { left. split; [done|]. split_and!; [done|done|by left]. }
  unfold mbind at 1, FFI_bind at 1.
  destruct (cstr_to_string_cases w _ "query" Hq) as [[e ->]|(bs & q & Hbs & Hdec & ->)].
  { left. split; [done|]. split_and!; [done|done|by left]. }
  unfold mbind at 1, FFI_bind at 1, on_reader. rewrite Hh.
  fold (core_search q (sr_limit req) (sr_roaring_filter req)).
  destruct (core_search q _ _ (reader_inner h)) as [[res|[e|p]] s'] eqn:Ecore; cbn [ffi_outcome].
  2,3: left; split; [done|]; split_and!; [done|done|by left].
  pose proof (search_scores _ _ _ _ _ _ Ecore) as Hsc.
  set (w1 := with_readers _ w).
  pose proof (deliver_cases w1 req res Hnl Hsc Hargs) as Hd. unfold deliver, is_null in Hd.
  match type of Hd with let '(_, _) := ?x in _ => destruct x as [o w'] end.
  destruct Hd as [(e & -> & Hk)|[-> Hd]].
  - left. by split.
  - right. split; [done|]. exists bs, q, res, s'. split_and!; [done..|]. destruct Hd. by split.
Qed.
End Deliver.

(** Either search function of the interface. *)
Section Found.
Context `{Platform} `{Unicode} `{JsonText} `{Display} `{HashOrder} `{AnalysisEngine}.
Context {Schema I : Type} `{WriterEngine Schema I}.
Context {N Ix Parsed : Type} `{ReadCallbacks N} `{ReaderEngine (MeteredSeekRead (FfiInputFile N)) Ix Parsed}.
Context (live : Searcher -> DocAddress -> Prop) (row_of : Searcher -> DocAddress -> Z).
Context (has_term : Searcher -> DocAddress -> Z -> str -> bool).
Context (has_similar : Searcher -> DocAddress -> Z -> str -> Z -> str -> Z -> bool).
Context (parsed_matches : Searcher -> DocAddress -> Parsed -> bool).
Context (score_of : Searcher -> EngineQuery Parsed -> DocAddress -> f32).

Notation World := (World (Schema := Schema) (I := I) (N := N) (Ix := Ix) (Parsed := Parsed)).

Definition search_through (filter : option (ptr * Z)) (reader query : ptr) (limit : Z) (row_ids scores : ptr)
    (capacity : Z) (result_len : ptr) : World -> option Z * World :=
  match filter with
  | Some (p, n) =>
      paimon_ftindex_reader_search_with_roaring_filter reader query limit p n row_ids scores capacity result_len
  | None => paimon_ftindex_reader_search reader query limit row_ids scores capacity result_len
  end.
Definition filter_args (w : World) (filter : option (ptr * Z)) : Prop :=
  match filter with Some (p, n) => n ≠ 0 → valid_array bytes w p n | None => True end.
Definition filter_bytes (w : World) (filter : option (ptr * Z)) : option (list byte) :=
  (λ f, if f.2 =? 0 then [] else take (Z.to_nat f.2) (default [] (bytes w !! f.1))) <$> filter.
Lemma search_through_run filter reader query limit row_ids scores capacity result_len w h :
  readers w !! reader = Some h → reader ≠ 0 → filter_args w filter →
  (∃ e, search_through filter reader query limit row_ids scores capacity result_len w
        = (Some (-1), set_error e w)) ∨
  search_through filter reader query limit row_ids scores capacity result_len w =
    ffi_status (search_impl reader
      (search_request query limit (filter_bytes w filter) row_ids scores capacity result_len)) w.
Proof.
  intros Hh Hnz Hf.
  assert (require readers reader "reader" w = (Returned (Ok tt), w)) as Hreq.
  { unfold require, is_null, load, mbind, FFI_bind. apply Z.eqb_neq in Hnz. by rewrite Hnz, Hh. }
  assert (∀ (k : FFI World unit), ffi_status (_ ← require readers reader "reader"; k) w = ffi_status k w) as Hk.
  { intros k. unfold ffi_status, ffi_value, mbind at 1, FFI_bind at 1. by rewrite Hreq. }
  destruct filter as [[p n]|]; cbn [search_through].
  2:{ right. apply (Hk (search_impl _ _)). }
  unfold paimon_ftindex_reader_search_with_roaring_filter. rewrite Hk. cbn [filter_bytes fmap option_fmap option_map fst snd].
  unfold ffi_status, ffi_value, mbind, FFI_bind, const_slice, is_null. destruct (Z.eqb_spec n 0) as [|Hn]; [by right|].
  destruct (Z.eqb_spec p 0) as [|Hp]; [left; by eexists|]. destruct (Hf Hn Hp) as (a & Ha & Hle).
  unfold from_raw_parts, load, mbind, FFI_bind. rewrite Ha. destruct (Z.leb_spec n (blen a)); [by right|lia].
Qed.

(** C4: a search through the C interface either reports -1 and leaves the
    caller's arrays alone (its length cell then holds the length of a result
    that did not fit, if anything new), or reports 0 and has put into the
    length cell and the front of the two arrays exactly the row ids and the
    scores of the documents that answer the query text under the filter, no
    more than [capacity]. *)
Theorem search_delivers filter reader query limit row_ids scores capacity result_len w h status w' :
  readers w !! reader = Some h → reader ≠ 0 →
  search_args w query row_ids scores capacity result_len → filter_args w filter →
  SearchLaws live row_of has_term has_similar parsed_matches (row_id_field (config (fr_metadata (reader_inner h)))) →
  RankLaws live row_of has_term has_similar parsed_matches score_of
    (row_id_field (config (fr_metadata (reader_inner h)))) →
  0 ≤ limit →
  search_through filter reader query limit row_ids scores capacity result_len w = (status, w') →
  (status = Some (-1) ∧
     kept (search_request query limit None row_ids scores capacity result_len) w w') ∨
  (status = Some 0 ∧ ∃ bs text spec accepts se built docs,
     strings w !! query = Some bs ∧ from_utf8 bs = Ok text ∧ from_json text = Ok spec ∧
     filter_decodes (filter_bytes w filter) accepts ∧
     answer live row_of has_term has_similar parsed_matches score_of (reader_inner h)
       se spec built accepts limit docs ∧
     blen docs ≤ capacity ∧ lengths w' !! result_len = Some (blen docs) ∧
     (∀ old, row_id_arrays w !! row_ids = Some old →
        row_id_arrays w' !! row_ids = Some ((row_of se <$> docs) ++ drop (List.length docs) old)) ∧
     (∀ old, score_arrays w !! scores = Some old →
        score_arrays w' !! scores = Some ((score_of se built <$> docs) ++ drop (List.length docs) old))).
Proof.
  intros Hh Hnz Hargs Hfilter Hlaws Hrank Hpos.
  intros Hrun. pose proof (search_through_run filter reader query limit row_ids scores capacity result_len w h
    Hh Hnz Hfilter) as [[e He] | He]; rewrite He in Hrun.
  { injection Hrun as <- <-. left. split; [done|]. split_and!; [done|done|by left]. }
  pose proof (search_impl_cases w reader h
    (search_request query limit (filter_bytes w filter) row_ids scores capacity result_len) Hh Hargs) as Hc.
  destruct (search_impl _ _ w) as [o w1] eqn:Eimpl. destruct Hc as [[Hfail Hk] | [-> Hd]].
  { destruct (fails_status _ _ _ _ Eimpl Hfail) as [msg Hmsg]. rewrite Hmsg in Hrun. injection Hrun as <- <-. by left. }
  unfold ffi_status, ffi_value in Hrun. rewrite Eimpl in Hrun. injection Hrun as <- <-.
  right. split; [done|]. destruct Hd as (bs & q & res & s' & Hbs & Hdec & Hcore & [Hfits Hlen Hids Hscores _]).
  cbn in Hbs, Hcore, Hfits, Hlen, Hids, Hscores.
  destruct (core_search_answers live row_of has_term has_similar parsed_matches score_of _ _ _ _ _ _
    Hlaws Hrank Hpos Hcore) as (accepts & spec & se & built & docs & Ha & Hq & Hd & Hr & Hsc).
  assert (blen docs = blen (row_of se <$> docs)) as Hbl by (unfold blen; by rewrite length_fmap).
  rewrite Hr, <- Hbl in *. rewrite Hsc, length_fmap in Hscores. rewrite length_fmap in Hids.
  exists bs, q, spec, accepts, se, built, docs. by split_and!.
Qed.
End Found.

(** ** Writing and reopening through the interface *)
Section Reopen.
Context `{Platform} `{Profile} `{Unicode} `{JsonText} `{Display} `{HashOrder} `{AnalysisEngine}.
Context {Schema I : Type} `{WriterEngine Schema I} {laws : SchemaLaws Schema}.
Context {O N Ix Parsed : Type} `{AppendingCallbacks O written} `{ServingCallbacks N seen}.
Context `{ReaderEngine (MeteredSeekRead (FfiInputFile N)) Ix Parsed} `{!RegistryLaws Ix}.

Notation World := (World (Schema := Schema) (I := I) (N := N) (Ix := Ix) (Parsed := Parsed)).

(** C5: an index that [paimon_ftindex_writer_write_index] reports as written,
    through write callbacks that append to an empty file, opens again through
    read callbacks over the bytes of that file: [paimon_ftindex_reader_open]
    hands the engine a directory that answers every sequence of reads like the
    map from names to contents of the files the writer collected; when the
    engine opens it, the call returns the handle of a reader with the writer's
    configuration, document count and analyzer, and otherwise null with the
    text of the engine's error or of its panic.  A vector can hold each of the
    files. *)
Theorem interface_roundtrip writer h output w w1 out' entries input address w2 :
  world_ok w → writers w !! writer = Some h →
  TokenizerConfig_typed (tokenizer_config_of (w_config (writer_inner h))) →
  trim tantivy_version_string ≠ [] → runtime_version = tantivy_version_string →
  written (out_ctx output) = [] →
  paimon_ftindex_writer_write_index writer output w = (Some 0, (w1, out')) →
  committed (writer_inner h) (Ok <$> entries) → listing_sound entries → (∃ e n, e ∈ entries ∧ archived e n) →
  is_Some (pread_fn input) → seen (in_ctx input) = written (out_ctx (out_raw out')) →
  blen (seen (in_ctx input)) ≤ usize_max → entries_fit entries →
  ∃ contents directory shared,
    (∀ n c, (n, c) ∈ contents ↔ ∃ e, e ∈ entries ∧ archived e n ∧ open_file e = Ok c) ∧
    NoDup contents.*1 ∧
    (∀ ops, Forall (λ op : str * Z * Z, 0 ≤ op.1.2 ∧ 0 ≤ op.2) ops →
       (run_reads directory ops shared).1 = spec_read contents <$> ops) ∧
    match index_open directory shared with
    | (Err (Failed e), _) =>
        paimon_ftindex_reader_open address input w2 = (Some 0, set_error (to_string (Tantivy e)) w2)
    | (Err (Panicked p), _) =>
        paimon_ftindex_reader_open address input w2 = (Some 0, set_error (panic_message p) w2)
    | (Ok _, shared') => ∃ rd : FullTextIndexReader (R := FfiInputFile N) (Ix := Ix) (Parsed := Parsed),
        paimon_ftindex_reader_open address input w2
          = (Some address, with_readers (<[address := reader_handle rd]> (readers w2)) w2) ∧
        fr_shared rd = shared' ∧
        fr_metadata rd = index_metadata (w_config (writer_inner h)) (w_document_count (writer_inner h))
                           runtime_version ∧
        (∃ a, build_text_analyzer (tokenizer_config_of (w_config (writer_inner h))) = Ok a ∧
              registered (fr_index rd) (tokenizer_name (tokenizer_config_of (w_config (writer_inner h)))) = Some a)
    end.
Proof.
  intros [Hws _] Hh Htyped Hver Hrun Hempty Hwrite Hcom Hsound Hsome Hfn Hseen Hsize Hfit.
  destruct (Hws _ _ Hh) as [Hnz Hok].
  assert (∃ inner, write (writer_inner h, ffi_output_file output) = (Ok tt, (inner, out'))) as [inner Hw].
  { revert Hwrite. unfold paimon_ftindex_writer_write_index, ffi_status, ffi_value, mbind, FFI_bind, in_world.
    unfold require, is_null, load. apply Z.eqb_neq in Hnz. rewrite Hnz. unfold mbind, FFI_bind. rewrite Hh.
    cbn -[write]. unfold write_on. rewrite Hh.
    destruct (write (writer_inner h, ffi_output_file output)) as [[[]|[e|p]] [inner o]]; cbn -[write];
      [|discriminate..]. intros Heq. exists inner. by simplify_eq. }
  assert (input_bytes (seen := seen) (ffi_input_file input) = seen (in_ctx input)) as Hbytes.
  { unfold input_bytes. cbn. by destruct Hfn as [? ->]. }
  destruct (written_opens (written ∘ out_ctx ∘ out_raw) (input_bytes (seen := seen)) (Ix := Ix) (Parsed := Parsed)
    (writer_inner h) (ffi_output_file output) inner out' entries (ffi_input_file input))
    as (contents & directory & shared & Hc & Hnd & _ & Hreads & Hopen); try done; try by rewrite Hbytes.
  exists contents, directory, shared. split_and!; [done|done|by apply Hreads, (entries_fit_contents entries)|].
  destruct (index_open directory shared) as [[ix|[e|p]] shared'].
  - destruct Hopen as (rd & Hrd & Hsh & Hmeta & Ha). exists rd. split; [|done].
    unfold paimon_ftindex_reader_open, ffi_ptr, ffi_value, mbind, FFI_bind. by rewrite Hrd.
  - unfold paimon_ftindex_reader_open, ffi_ptr, ffi_value, mbind, FFI_bind. by rewrite Hopen.
  - unfold paimon_ftindex_reader_open, ffi_ptr, ffi_value, mbind, FFI_bind. by rewrite Hopen.
Qed.
End Reopen.

(** ** A caller *)
#[local] Existing Instances toy_platform toy_unicode toy_text toy_profile toy_analysis toy_schema toy_registry
  toy_writer toy_reader toy_schema_laws toy_registry_laws toy_search_laws toy_display toy_hash.

(** Files in memory, like the test callbacks [write_vec] and [read_vec]. *)
#[local] Instance toy_write_callbacks : WriteCallbacks (list byte) := {
  WriteFn := unit;
  FlushFn := unit;
  call_write _ o buf := (0, o ++ buf);
  call_flush _ o := (0, o)
}.
#[local] Instance toy_read_callbacks : ReadCallbacks (list byte) := {
  PreadFn := unit;
  call_pread _ input pos len :=
    if pos + len <=? blen input then (0, slice pos len input, input) else (-1, replicate (Z.to_nat len) x00, input)
}.
#[local] Instance toy_appending : AppendingCallbacks (list byte) id.
Proof. split; [|done]. intros fn o buf. cbn. by exists buf. Defined.
#[local] Instance toy_serving : ServingCallbacks (list byte) id.
Proof.
  split; intros fn n p len; cbn; destruct (Z.leb_spec (p + len) (blen n)); try done.
  intros _ _. split; [split|]; lia.
Defined.

Definition ToyWorld : Type :=
  World (Schema := ToySchema) (I := list Document) (N := list byte) (Ix := ToyIndex) (Parsed := str).
Definition toy_caller_reader : FullTextIndexReader (R := FfiInputFile (list byte)) (Ix := ToyIndex) (Parsed := str) :=
  full_text_index_reader (new_shared (metered (ffi_input_file (input_file [] (Some tt))) ReadMetrics_default))
    [("paimon_custom"%string, text_analyzer SimpleTokenizer [])] None false
    (index_metadata toy_config 2 (lit "0.26.1")).

(** A text at 1, a query at 2, arrays at 3 and 4, a length at 5; a writer
    with two documents at 100 and a reader at 200. *)
Definition toy_memory : CMemory :=
  c_memory {[1 := as_bytes (lit "lake format"); 2 := as_bytes toy_query]} ∅ ∅
    {[3 := [0; 0; 0]]} {[4 := [f32_zero; f32_zero; f32_zero]]} {[5 := 0]} ∅.
Definition toy_world : ToyWorld :=
  world None {[100 := writer_handle (run_adds toy_adds toy_w0).2]} {[200 := reader_handle toy_caller_reader]} toy_memory.
Definition toy_output : PaimonFtindexOutputFile (list byte) := output_file [] (Some tt) None.

Lemma toy_world_ok : world_ok toy_world.
Proof.
  split; intros p h Hp; cbn in Hp; apply lookup_singleton_Some in Hp as [<- <-]; [|done].
  split; [done|]. destruct toy_added as (st & _ & Hok & _). exact Hok.
Qed.

Definition toy_calls : list (Call (N := list byte) (O := list byte)) := [
  AddDocument 0 7 1; LastError; WriterOpen 300 0 0 0; AddDocument 300 11 1; AddDocument 300 12 0;
  WriteIndex 300 toy_output; AddDocument 300 13 1; WriterFree 300; ReaderOpen 400 (input_file [] (Some tt));
  Search 200 2 5 3 4 3 5; Search 200 2 5 3 4 0 5; ReaderFree 200].
Definition toy_payload : Payload := PayloadOther.

Lemma calls_never_undefined_witness :
  List.length (run_calls toy_payload toy_calls toy_world).1 = 12%nat ∧
  world_ok (run_calls toy_payload toy_calls toy_world).2.
Proof.
  assert (contracts toy_payload toy_world toy_calls) as Hcs by (apply (bool_decide_unpack _); vm_compute; exact I).
  destruct (calls_never_undefined toy_payload toy_calls toy_world toy_world_ok Hcs) as (Hlen & Hok & _).
  split; [exact Hlen|exact Hok].
Defined.

Lemma search_delivers_witness :
  ∃ docs : list Z, [7; 0; 0] = (toy_row <$> docs) ++ drop (List.length docs) [0; 0; 0] ∧ NoDup docs ∧ blen docs ≤ 5.
Proof.
  assert (match search_through None 200 2 5 3 4 3 5 toy_world with
    | (Some 0, w') => bool_decide (row_id_arrays w' !! 3 = Some [7; 0; 0]) | _ => false end = true) as Hrun
    by (vm_compute; reflexivity).
  destruct (search_through None 200 2 5 3 4 3 5 toy_world) as [[status|] w'] eqn:E; [|done].
  assert (status = 0) as -> by (destruct status; [done|discriminate Hrun..]).
  apply bool_decide_eq_true in Hrun.
  assert (search_args toy_world 2 3 4 3 5) as Hargs
    by (unfold search_args; apply (bool_decide_unpack _); vm_compute; exact I).
  destruct (search_delivers _ _ _ _ _ _ None 200 2 5 3 4 3 5 toy_world (reader_handle toy_caller_reader) _ w'
    eq_refl ltac:(discriminate) Hargs I toy_search_laws toy_rank_laws ltac:(discriminate) E) as [[[=] _] | [_ Hfound]].
  destruct Hfound as (bs & text & spec & accepts & se & built & docs & _ & _ & _ & _ & (_ & Hnd & Hle & _) & _ & _ & Hids & _).
  exists docs. split_and!; [|exact Hnd|exact Hle]. specialize (Hids [0; 0; 0] eq_refl). rewrite Hrun in Hids. by injection Hids.
Defined.

Definition toy_through : option Z * (ToyWorld * FfiOutputFile (list byte)) :=
  paimon_ftindex_writer_write_index 100 toy_output toy_world.
Definition toy_file : list byte := out_ctx (out_raw toy_through.2.2).
Definition toy_reopened (file : list byte) : PaimonFtindexInputFile (list byte) := input_file file (Some tt).

Lemma interface_roundtrip_witness :
  ∃ rd : FullTextIndexReader (R := FfiInputFile (list byte)) (Ix := ToyIndex) (Parsed := str),
    paimon_ftindex_reader_open 300 (toy_reopened toy_file) toy_world
    = (Some 300, with_readers (<[300 := reader_handle rd]> (readers toy_world)) toy_world).
Proof.
  destruct toy_added as (st & Hst & Hok & Hcfg).
  assert (toy_through.1 = Some 0) as Hstatus by (vm_compute; reflexivity).
  assert (blen toy_file < 2 ^ 40) as Hsize by (vm_compute; reflexivity).
  unfold toy_file in *.
  destruct toy_through as [status [w1 out']] eqn:E. cbn [fst snd] in *. subst status.
  assert (blen (id (out_ctx (out_raw out'))) + READ_CACHE_BLOCK_BYTES ≤ usize_max + 1) as Hroom.
  { unfold usize_max, pointer_bits, toy_platform, platform64, READ_CACHE_BLOCK_BYTES, id. lia. }
  destruct (interface_roundtrip (written := id) (seen := id) (Ix := ToyIndex) (Parsed := str) 100
    (writer_handle (run_adds toy_adds toy_w0).2) toy_output toy_world w1 out' (toy_entries (index_writer st))
    (toy_reopened (out_ctx (out_raw out'))) 300 toy_world toy_world_ok eq_refl
    ltac:(cbn [writer_inner]; rewrite Hcfg; exact toy_config_typed) ltac:(vm_compute; discriminate) eq_refl eq_refl E)
    as (contents & dir & sh & _ & _ & _ & Hopen).
  - exists st. split; [exact Hst|reflexivity].
  - apply toy_listing_sound.
  - apply toy_archived.
  - by eexists.
  - reflexivity.
  - cbn [in_ctx toy_reopened]. unfold READ_CACHE_BLOCK_BYTES in Hroom. lia.
  - by apply toy_log_fits.
  - destruct Hopen as (rd & Hrd & _). by exists rd.
Defined.
