(* ===== verification/Jni.v ===== *)
(** * The JNI bridge ([jni/src/lib.rs])

    The native methods of [FullTextNative] over an explicit world: the state
    of the Java virtual machine and the handles Java holds as [long]s.  The
    operations of [JNIEnv] are calls into the virtual machine and parameters
    of the model, each with the text of its error.  Nothing catches a panic of
    the core: the process aborts ([Exit]). *)

From S2P Require Import Prelude RustStd Error IoLayer Json Tokenizer Config HeaderJson Storage Archive.
From S2P Require Import Query Analyzer BuildQuery Writer Reader Native.

(** ** Conversions between machine types *)

(** [x as i32] of a [usize], [x as usize] of an [i32]. *)
Definition usize_as_i32 (n : Z) : Z := let m := n mod 2 ^ 32 in if m <=? i32_max then m else m - 2 ^ 32.
Definition i32_as_usize `{Platform} (n : Z) : Z := n mod 2 ^ pointer_bits.
(** [b as i8] of a [u8], and back. *)
Definition u8_as_i8 (b : byte) : Z := let z := Z_of_byte b in if z <? 128 then z else z - 256.
Definition i8_as_u8 (z : Z) : byte := byte_of_Z z.
(** [ptr as jlong] and [long as *mut T]: a pointer has [pointer_bits]. *)
Definition ptr_as_jlong (p : ptr) : Z := u64_as_i64 p.
Definition jlong_as_ptr `{Platform} (n : Z) : ptr := n mod 2 ^ pointer_bits.

(** ** The Java virtual machine *)
Inductive JValue (Obj : Type) : Type :=
| JObjectValue (o : Obj)
| JInt (n : Z)
| JLong (n : Z).
Arguments JObjectValue {Obj} o.
Arguments JInt {Obj} n.
Arguments JLong {Obj} n.

Class JNIEnv (J : Type) : Type := {
  JObject : Type;
  null_object : JObject;
  object_is_null : JObject -> bool;
  attach_current_thread : ST J str unit;
  get_java_vm : ST J str unit;
  new_global_ref : JObject -> ST J str JObject;
  get_array_length : JObject -> ST J str Z;
  get_object_array_element : JObject -> Z -> ST J str JObject;
  get_string : JObject -> ST J str str;
  convert_byte_array : JObject -> ST J str (list byte);
  new_byte_array : Z -> ST J str JObject;
  set_byte_array_region : JObject -> Z -> list Z -> ST J str unit;
  (** The elements from an index on, as many as the slice to fill holds. *)
  get_byte_array_region : JObject -> Z -> Z -> ST J str (list Z);
  new_long_array : Z -> ST J str JObject;
  set_long_array_region : JObject -> Z -> list Z -> ST J str unit;
  new_float_array : Z -> ST J str JObject;
  set_float_array_region : JObject -> Z -> list f32 -> ST J str unit;
  call_method : JObject -> string -> string -> list (JValue JObject) -> ST J str unit;
  new_object : string -> string -> list (JValue JObject) -> ST J str JObject;
  throw_new : string -> str -> ST J str unit
}.

Section Files.
Context `{Platform} {J : Type} `{JNIEnv J}.

(** ** [JavaOutput] and [JavaInput] *)
Record JavaOutput : Type := java_output { output_jvm : J; output : JObject }.
Record JavaInput : Type := java_input { input_jvm : J; input_object : JObject }.

(** A call on the environment of the attached thread, whose error becomes an
    I/O error under a label. *)
Definition env_io {S A} (jvm : S -> J) (with_jvm : J -> S -> S) (label : string) (m : ST J str A) :
    ST S IoError A := λ s,
  let '(r, j) := m (jvm s) in
  (map_err (λ e, io_error Other [Txt label; Str e]) r, with_jvm j s).
Definition env_output {A} : string -> ST J str A -> ST JavaOutput IoError A :=
  env_io output_jvm (λ j s, java_output j (output s)).
Definition env_input {A} : string -> ST J str A -> ST JavaInput IoError A :=
  env_io input_jvm (λ j s, java_input j (input_object s)).

Definition JavaOutput_write_all (buf : list byte) : ST JavaOutput IoError unit :=
  _ ← env_output "JNI attach failed: " attach_current_thread;
  array ← env_output "new_byte_array failed: " (new_byte_array (usize_as_i32 (blen buf)));
  let signed := u8_as_i8 <$> buf in
  _ ← env_output "set_byte_array_region failed: " (set_byte_array_region array 0 signed);
  object ← ST_gets output;
  env_output "Java output write failed: "
    (call_method object "write" "([BII)V" [JObjectValue array; JInt 0; JInt (usize_as_i32 (blen buf))]).
Definition JavaOutput_flush : ST JavaOutput IoError unit :=
  _ ← env_output "JNI attach failed: " attach_current_thread;
  object ← ST_gets output;
  env_output "Java output flush failed: " (call_method object "flush" "()V" []).
#[export] Instance JavaOutput_SeekWrite : SeekWrite JavaOutput := {
  write_all := JavaOutput_write_all;
  flush := JavaOutput_flush
}.

(** [copy_java_buffer], into an output of length [len]. *)
Definition copy_java_buffer (buffer : JObject) (len : Z) : ST JavaInput IoError (list byte) :=
  length ← env_input "get_array_length failed: " (get_array_length buffer);
  let length := i32_as_usize length in
  if negb (length =? len) then
    ST_fail (io_error InvalidData [Txt "Java pread returned buffer length "; Int length; Txt " != "; Int len])
  else if 0 <? length then
    signed ← env_input "get_byte_array_region failed: " (get_byte_array_region buffer 0 len);
    mret (i8_as_u8 <$> signed)
  else mret [].

(** The body of the loop of [pread]. *)
Definition java_pread_range (range : ReadRequest) : ST JavaInput IoError (list byte) :=
  position ← ST_lift (ok_or (try_from_unsigned i64_max (pos range)) (io_error InvalidInput [Txt "offset overflow"]));
  length ← ST_lift (ok_or (try_from_unsigned i32_max (buf_len range)) (io_error InvalidInput [Txt "range too large"]));
  buffer ← env_input "new_byte_array failed: " (new_byte_array length);
  object ← ST_gets input_object;
  _ ← env_input "Java input pread failed: "
        (call_method object "pread" "(J[BII)V" [JLong position; JObjectValue buffer; JInt 0; JInt length]);
  copy_java_buffer buffer (buf_len range).
Fixpoint java_pread_each (ranges : list ReadRequest) : ST JavaInput IoError (list (list byte)) :=
  match ranges with
  | [] => mret []
  | range :: ranges' =>
      buf ← java_pread_range range;
      bufs ← java_pread_each ranges';
      mret (buf :: bufs)
  end.
Definition JavaInput_pread (ranges : list ReadRequest) : ST JavaInput IoError (list (list byte)) :=
  _ ← env_input "JNI attach failed: " attach_current_thread;
  java_pread_each ranges.
#[export] Instance JavaInput_SeekRead : SeekRead JavaInput := JavaInput_pread.
End Files.
Arguments JavaOutput J {_}.
Arguments JavaInput J {_}.

(** ** Native methods *)

(** How a native method ends.  Nothing in the bridge catches a panic, and a
    panic that reaches the boundary of an [extern "system"] function aborts
    the process. *)
Inductive Exit (A : Type) : Type :=
| Gives (a : A)
| Aborts (p : Payload)
| Misbehaves.
Arguments Gives {A} a.
Arguments Aborts {A} p.
Arguments Misbehaves {A}.

Section Bridge.
Context `{Platform} `{Unicode} `{JsonText} `{Display} `{HashOrder} `{AnalysisEngine} {J : Type} `{JNIEnv J}.
Context {Schema I : Type} `{WriterEngine Schema I}.
Context {Ix Parsed : Type} `{ReaderEngine (MeteredSeekRead (JavaInput J)) Ix Parsed}.

Record WriterHandle : Type := writer_handle { writer_inner : FullTextIndexWriter (Schema := Schema) (I := I) }.
Record ReaderHandle : Type := reader_handle {
  reader_inner : FullTextIndexReader (R := JavaInput J) (Ix := Ix) (Parsed := Parsed) }.

Record JavaWorld : Type := java_world {
  jvm : J;
  writers : gmap ptr WriterHandle;
  readers : gmap ptr ReaderHandle
}.

(** A call on the environment the method was given. *)
Definition env {A} (f : str -> str) (m : ST J str A) : FFI JavaWorld A := λ w,
  let '(r, j) := m (jvm w) in (Returned (map_err f r), java_world j (writers w) (readers w)).

Definition throw (message : str) (w : JavaWorld) : JavaWorld :=
  java_world (throw_new "java/lang/RuntimeException" message (jvm w)).2 (writers w) (readers w).
Definition throw_and_return {A} (message : str) (value : A) (w : JavaWorld) : A * JavaWorld :=
  (value, throw message w).

(** A native method gives back a value, after throwing when it fails. *)
Definition native {A} (on_err : A) (f : FFI JavaWorld A) (w : JavaWorld) : Exit A * JavaWorld :=
  match f w with
  | (Returned (Ok a), w') => (Gives a, w')
  | (Returned (Err e), w') => let '(a, w'') := throw_and_return e on_err w' in (Gives a, w'')
  | (Unwinds p, w') => (Aborts p, w')
  | (Undefined, w') => (Misbehaves, w')
  end.

(** *** Handles *)

(** [handle_mut] and [handle_ref]: the address behind the handle. *)
Definition handle {T} (objects : JavaWorld -> gmap ptr T) (p : Z) (name : string) : FFI JavaWorld ptr :=
  if p =? 0 then ffi_fail (lit name ++ lit " is closed")
  else
    let address := jlong_as_ptr p in
    if is_null address then ffi_fail (lit name ++ lit " is null")
    else λ w, (match objects w !! address with Some _ => Returned (Ok address) | None => Undefined end, w).

Definition on_writer {A} (p : ptr) (m : ST FullTextIndexWriter (Fault FtIndexError) A) : FFI JavaWorld A := λ w,
  match writers w !! p with
  | None => (Undefined, w)
  | Some h =>
      let '(r, inner) := m (writer_inner h) in
      (ffi_outcome r, java_world (jvm w) (<[p := writer_handle inner]> (writers w)) (readers w))
  end.

(** The virtual machine is one: the input of a reader acts on the state it is
    in when a method of the reader runs. *)
Definition reader_jvm (s : FullTextIndexReader (R := JavaInput J) (Ix := Ix) (Parsed := Parsed)) : J :=
  input_jvm (inner (input (fr_shared s))).
Definition with_reader_jvm (j : J) (s : FullTextIndexReader) : FullTextIndexReader :=
  let i := input (fr_shared s) in
  full_text_index_reader
    (with_input (metered (java_input j (input_object (inner i))) (metrics i)) (fr_shared s))
    (fr_index s) (fr_reader s) (fr_poisoned s) (fr_metadata s).
Definition on_reader {A} (p : ptr) (m : ST FullTextIndexReader (Fault FtIndexError) A) : FFI JavaWorld A := λ w,
  match readers w !! p with
  | None => (Undefined, w)
  | Some h =>
      let '(r, inner) := m (with_reader_jvm (jvm w) (reader_inner h)) in
      (ffi_outcome r,
       java_world (reader_jvm inner) (writers w) (<[p := reader_handle inner]> (readers w)))
  end.

(** *** Arrays of strings *)
Definition string_element (key_array value_array : JObject) (i : Z) : FFI JavaWorld (str * str) :=
  key ← env id (get_object_array_element key_array i);
  value ← env id (get_object_array_element value_array i);
  key ← env id (get_string key);
  value ← env id (get_string value);
  mret (key, value).

Definition insert_all (entries : list (str * str)) : gmap str str :=
  foldl (λ options e, <[e.1 := e.2]> options) ∅ entries.
Definition options_from_arrays (keys values : JObject) : FFI JavaWorld (gmap str str) :=
  key_len ← env id (get_array_length keys);
  value_len ← env id (get_array_length values);
  if negb (key_len =? value_len) then
    ffi_fail (message_to_string [Txt "keys length "; Int key_len; Txt " does not match values length "; Int value_len])
  else
    entries ← ffi_mapM (string_element keys values) (seqZ 0 key_len);
    mret (insert_all entries).

Definition string_pair_arrays (keys values : JObject) : FFI JavaWorld (list (str * str)) :=
  key_len ← env id (get_array_length keys);
  value_len ← env id (get_array_length values);
  if negb (key_len =? value_len) then
    ffi_fail (message_to_string [Txt "fieldNames length "; Int key_len; Txt " does not match texts length "; Int value_len])
  else if key_len =? 0 then ffi_fail (lit "document fields must not be empty")
  else ffi_mapM (string_element keys values) (seqZ 0 key_len).

(** *** Writers *)

(** [Box::into_raw(Box::new(..)) as jlong], at the address the allocator
    returns. *)
Definition box_writer (address : ptr) (h : WriterHandle) : FFI JavaWorld Z := λ w,
  (Returned (Ok (ptr_as_jlong address)), java_world (jvm w) (<[address := h]> (writers w)) (readers w)).
Definition create_writer (engine_panic : Payload) (address : ptr) (keys values : JObject) : FFI JavaWorld Z :=
  options ← options_from_arrays keys values;
  config ← ffi_lift (map_err to_string (from_options (hash_entries options)));
  writer ← ffi_may_panic engine_panic (FullTextIndexWriter_new config);
  box_writer address (writer_handle writer).

Definition add_document (writer_ptr row_id : Z) (text : JObject) : FFI JavaWorld unit :=
  writer ← handle writers writer_ptr "writer";
  text ← env (app (lit "failed to read text: ")) (get_string text);
  on_writer writer (Writer.add_document row_id text).

Definition add_document_fields (writer_ptr row_id : Z) (field_names texts : JObject) : FFI JavaWorld unit :=
  writer ← handle writers writer_ptr "writer";
  fields ← string_pair_arrays field_names texts;
  on_writer writer (Writer.add_document_fields row_id fields).

Definition write_on (p : ptr) (object : JObject) : FFI JavaWorld unit := λ w,
  match writers w !! p with
  | None => (Undefined, w)
  | Some h =>
      let '(r, (inner, out)) := write (writer_inner h, java_output (jvm w) object) in
      (ffi_outcome r,
       java_world (output_jvm out) (<[p := writer_handle inner]> (writers w)) (readers w))
  end.
Definition write_index (writer_ptr : Z) (output : JObject) : FFI JavaWorld unit :=
  writer ← handle writers writer_ptr "writer";
  _ ← env id get_java_vm;
  output ← env id (new_global_ref output);
  write_on writer output.

(** *** Readers *)
Definition open_on_object (address : ptr) (object : JObject) : FFI JavaWorld Z := λ w,
  let '(r, remains) := open_on (java_input (jvm w) object) in
  match r with
  | Err e => (ffi_outcome (Err e), java_world (input_jvm remains) (writers w) (readers w))
  | Ok reader => (Returned (Ok (ptr_as_jlong address)),
                  java_world (input_jvm remains) (writers w) (<[address := reader_handle reader]> (readers w)))
  end.
Definition open_reader (address : ptr) (input : JObject) : FFI JavaWorld Z :=
  _ ← env id get_java_vm;
  input ← env id (new_global_ref input);
  open_on_object address input.

Definition validate_search_limit (limit : Z) : result str Z :=
  if limit <=? 0 then Err (lit "search limit must be positive") else Ok (i32_as_usize limit).

Definition read_byte_array (array : JObject) : FFI JavaWorld (list byte) :=
  if object_is_null array then ffi_fail (lit "roaringFilter is null")
  else env (app (lit "failed to read roaringFilter: ")) (convert_byte_array array).

(** The second half of [search]: the Java object of a result. *)
Definition java_result (result : FullTextSearchResult) : FFI JavaWorld JObject :=
  row_id_array ← env id (new_long_array (usize_as_i32 (blen (row_ids result))));
  _ ← env id (set_long_array_region row_id_array 0 (row_ids result));
  score_array ← env id (new_float_array (usize_as_i32 (blen (scores result))));
  _ ← env id (set_float_array_region score_array 0 (scores result));
  env id (new_object "org/apache/paimon/index/fulltext/FullTextSearchResult" "([J[F)V"
            [JObjectValue row_id_array; JObjectValue score_array]).
Definition search (reader_ptr : Z) (query : JObject) (limit : Z) (roaring_filter : option JObject) :
    FFI JavaWorld JObject :=
  reader ← handle readers reader_ptr "reader";
  query ← env (app (lit "failed to read query: ")) (get_string query);
  limit ← ffi_lift (validate_search_limit limit);
  result ←
    match roaring_filter with
    | Some roaring_filter =>
        roaring_filter ← read_byte_array roaring_filter;
        on_reader reader (Reader.search_with_roaring_filter query limit roaring_filter)
    | None => on_reader reader (Reader.search query limit)
    end;
  java_result result.

Definition prewarm (reader_ptr : Z) : FFI JavaWorld unit :=
  reader ← handle readers reader_ptr "reader";
  on_reader reader Reader.prewarm.

Definition read_metrics (reader_ptr : Z) : FFI JavaWorld JObject :=
  reader ← handle readers reader_ptr "reader";
  metrics ← on_reader reader (ST_gets Reader.read_metrics);
  env id (new_object "org/apache/paimon/index/fulltext/FullTextReadMetrics" "(JJJJJJJ)V"
    [JLong (u64_as_i64 (snap_pread_calls metrics)); JLong (u64_as_i64 (snap_pread_ranges metrics));
     JLong (u64_as_i64 (snap_pread_bytes metrics)); JLong (u64_as_i64 (snap_cache_hits metrics));
     JLong (u64_as_i64 (snap_cache_misses metrics)); JLong (u64_as_i64 (snap_cache_evictions metrics));
     JLong (u64_as_i64 (snap_cached_blocks metrics))]).

(** *** The exported methods of [FullTextNative] *)
Definition FullTextNative_createWriter (engine_panic : Payload) (address : ptr) (keys values : JObject) :
    JavaWorld -> Exit Z * JavaWorld := native 0 (create_writer engine_panic address keys values).
Definition FullTextNative_addDocument (writer_ptr row_id : Z) (text : JObject) :
    JavaWorld -> Exit unit * JavaWorld := native tt (add_document writer_ptr row_id text).
Definition FullTextNative_addDocumentFields (writer_ptr row_id : Z) (field_names texts : JObject) :
    JavaWorld -> Exit unit * JavaWorld := native tt (add_document_fields writer_ptr row_id field_names texts).
Definition FullTextNative_writeIndex (writer_ptr : Z) (output : JObject) :
    JavaWorld -> Exit unit * JavaWorld := native tt (write_index writer_ptr output).
Definition FullTextNative_openReader (address : ptr) (input : JObject) :
    JavaWorld -> Exit Z * JavaWorld := native 0 (open_reader address input).
Definition FullTextNative_search (reader_ptr : Z) (query : JObject) (limit : Z) :
    JavaWorld -> Exit JObject * JavaWorld := native null_object (search reader_ptr query limit None).
Definition FullTextNative_searchWithRoaringFilter (reader_ptr : Z) (query : JObject) (limit : Z)
    (roaring_filter : JObject) : JavaWorld -> Exit JObject * JavaWorld :=
  native null_object (search reader_ptr query limit (Some roaring_filter)).
Definition FullTextNative_prewarm (reader_ptr : Z) : JavaWorld -> Exit unit * JavaWorld :=
  native tt (prewarm reader_ptr).
Definition FullTextNative_readMetrics (reader_ptr : Z) : JavaWorld -> Exit JObject * JavaWorld :=
  native null_object (read_metrics reader_ptr).

(** Dropping the box behind a handle that is not 0. *)
Definition FullTextNative_freeWriter (writer_ptr : Z) (w : JavaWorld) : Exit unit * JavaWorld :=
  if negb (writer_ptr =? 0) then
    let address := jlong_as_ptr writer_ptr in
    match writers w !! address with
    | Some _ => (Gives tt, java_world (jvm w) (delete address (writers w)) (readers w))
    | None => (Misbehaves, w)
    end
  else (Gives tt, w).
Definition FullTextNative_freeReader (reader_ptr : Z) (w : JavaWorld) : Exit unit * JavaWorld :=
  if negb (reader_ptr =? 0) then
    let address := jlong_as_ptr reader_ptr in
    match readers w !! address with
    | Some _ => (Gives tt, java_world (jvm w) (writers w) (delete address (readers w)))
    | None => (Misbehaves, w)
    end
  else (Gives tt, w).
End Bridge.
