(* ===== verification/ToyJava.v ===== *)
(** * A small Java virtual machine

    An instance of the environment that runs: a heap of arrays, strings and
    result objects, files in memory, and a pending exception.  The theorems
    hold for every virtual machine; this one shows that their hypotheses can. *)

From S2P Require Import Prelude RustStd Error Native Jni.

Record ToyJvm : Type := toy_jvm {
  t_next : positive;
  t_bytes : gmap Z (list Z);
  t_longs : gmap Z (list Z);
  t_floats : gmap Z (list f32);
  t_results : gmap Z (list Z * list f32);
  t_files : gmap Z (list byte);
  t_strings : gmap Z str;
  t_arrays : gmap Z (list Z);
  t_pending : option str
}.
Definition toy_file_of (j : ToyJvm) (o : Z) : list byte := default [] (t_files j !! o).
Definition toy_with_bytes (m : gmap Z (list Z)) (j : ToyJvm) : ToyJvm :=
  toy_jvm (t_next j + 1) m (t_longs j) (t_floats j) (t_results j) (t_files j) (t_strings j) (t_arrays j) (t_pending j).
Definition toy_with_longs (m : gmap Z (list Z)) (j : ToyJvm) : ToyJvm :=
  toy_jvm (t_next j + 1) (t_bytes j) m (t_floats j) (t_results j) (t_files j) (t_strings j) (t_arrays j) (t_pending j).
Definition toy_with_floats (m : gmap Z (list f32)) (j : ToyJvm) : ToyJvm :=
  toy_jvm (t_next j + 1) (t_bytes j) (t_longs j) m (t_results j) (t_files j) (t_strings j) (t_arrays j) (t_pending j).
Definition toy_with_results (m : gmap Z (list Z * list f32)) (j : ToyJvm) : ToyJvm :=
  toy_jvm (t_next j + 1) (t_bytes j) (t_longs j) (t_floats j) m (t_files j) (t_strings j) (t_arrays j) (t_pending j).
Definition toy_with_files (m : gmap Z (list byte)) (j : ToyJvm) : ToyJvm :=
  toy_jvm (t_next j) (t_bytes j) (t_longs j) (t_floats j) (t_results j) m (t_strings j) (t_arrays j) (t_pending j).

Definition toy_new {A} (get : ToyJvm -> gmap Z A) (put : gmap Z A -> ToyJvm -> ToyJvm) (v : A) : ST ToyJvm str Z :=
  λ j, (Ok (Zpos (t_next j)), put (<[Zpos (t_next j) := v]> (get j)) j).
Definition toy_new_array {A} (get : ToyJvm -> gmap Z (list A)) put (x : A) (n : Z) : ST ToyJvm str Z :=
  λ j, if 0 <=? n then toy_new get put (replicate (Z.to_nat n) x) j else (Err (lit "NegativeArraySizeException"), j).
(** Only the region at the start is ever set. *)
Definition toy_set_region {A} (get : ToyJvm -> gmap Z (list A)) (put : gmap Z (list A) -> ToyJvm -> ToyJvm)
    (a i : Z) (l : list A) : ST ToyJvm str unit := λ j,
  match get j !! a with
  | Some old =>
      if (i =? 0) && (blen l <=? blen old) then (Ok tt, put (<[a := l ++ drop (List.length l) old]> (get j)) j)
      else (Err (lit "ArrayIndexOutOfBoundsException"), j)
  | None => (Err (lit "NullPointerException"), j)
  end.
Definition toy_get {A} (o : option A) : ST ToyJvm str A := λ j, (ok_or o (lit "NullPointerException"), j).

Definition toy_call (o : Z) (name : string) (args : list (JValue Z)) : ST ToyJvm str unit := λ j,
  match args with
  | [JObjectValue a; JInt 0; JInt n] =>
      match t_bytes j !! a with
      | Some arr =>
          if (0 <=? n) && (n <=? blen arr) then
            (Ok tt, toy_with_files
              (<[o := toy_file_of j o ++ (i8_as_u8 <$> take (Z.to_nat n) arr)]> (t_files j)) j)
          else (Err (lit "IndexOutOfBoundsException"), j)
      | None => (Err (lit "NullPointerException"), j)
      end
  | [JLong p; JObjectValue a; JInt 0; JInt n] =>
      let d := toy_file_of j o in
      if (0 <=? p) && (0 <=? n) && (p + n <=? blen d) then
        (Ok tt, toy_with_bytes (<[a := u8_as_i8 <$> slice p n d]> (t_bytes j)) j)
      else (Err (lit "EOFException"), j)
  | [] => (Ok tt, j)
  | _ => (Err (lit "NoSuchMethodError"), j)
  end.

Definition toy_object (args : list (JValue Z)) : ST ToyJvm str Z := λ j,
  match args with
  | [JObjectValue a; JObjectValue b] =>
      match t_longs j !! a, t_floats j !! b with
      | Some ids, Some ss => toy_new t_results toy_with_results (ids, ss) j
      | _, _ => (Err (lit "NullPointerException"), j)
      end
  | _ => toy_new t_longs toy_with_longs [] j
  end.

#[local] Instance toy_env : JNIEnv ToyJvm := {
  JObject := Z;
  null_object := 0;
  object_is_null o := o =? 0;
  attach_current_thread j := (Ok tt, j);
  get_java_vm j := (Ok tt, j);
  new_global_ref o j := (Ok o, j);
  get_array_length a j :=
    toy_get (match t_bytes j !! a with Some l => Some (blen l) | None => blen <$> t_arrays j !! a end) j;
  get_object_array_element a i j := toy_get (l ← t_arrays j !! a; l !! Z.to_nat i) j;
  get_string o j := toy_get (t_strings j !! o) j;
  convert_byte_array a j := toy_get ((λ l : list Z, i8_as_u8 <$> l) <$> t_bytes j !! a) j;
  new_byte_array := toy_new_array t_bytes toy_with_bytes 0;
  set_byte_array_region := toy_set_region t_bytes toy_with_bytes;
  get_byte_array_region a i n j := toy_get ((λ l : list Z, take (Z.to_nat n) (drop (Z.to_nat i) l)) <$> t_bytes j !! a) j;
  new_long_array := toy_new_array t_longs toy_with_longs 0;
  set_long_array_region := toy_set_region t_longs toy_with_longs;
  new_float_array := toy_new_array t_floats toy_with_floats f32_zero;
  set_float_array_region := toy_set_region t_floats toy_with_floats;
  call_method o name _ args := toy_call o name args;
  new_object _ _ args := toy_object args;
  throw_new _ message j :=
    (Ok tt, toy_jvm (t_next j) (t_bytes j) (t_longs j) (t_floats j) (t_results j) (t_files j) (t_strings j)
              (t_arrays j) (Some message))
}.
