(* ===== verification/JniSpec.v ===== *)
(** * What the JNI bridge promises

    Files that Java implements keep the promises the core expects of its
    files; handles are 0 or live, so no call meets undefined behaviour, a
    failing call throws, and the process aborts exactly when the core panics;
    a search hands Java the rows its query describes. *)

From S2P Require Import Prelude RustStd Error IoLayer Json Tokenizer Config HeaderJson Storage StorageSpec.
From S2P Require Import Archive ArchiveSpec Query Analyzer BuildQuery BuildQuerySpec Writer WriterSpec.
From S2P Require Import Reader ReaderSpec ToyEngine Native Jni ToyJava.

(** ** Casts *)
Lemma i8_u8_roundtrip b : i8_as_u8 (u8_as_i8 b) = b.
Proof.
  unfold i8_as_u8, u8_as_i8. pose proof (Z_of_byte_range b) as Hb.
  destruct (Z.ltb_spec (Z_of_byte b) 128); [apply byte_of_Z_of_byte|].
  rewrite <- (byte_of_Z_of_byte b) at 2. unfold byte_of_Z. do 3 f_equal.
  change (2 ^ 8) with 256. rewrite <- (Z_mod_plus_full (Z_of_byte b - 256) 1 256). f_equal. lia.
Qed.
Lemma i8_u8_bytes (l : list byte) : i8_as_u8 <$> (u8_as_i8 <$> l) = l.
Proof.
  rewrite <- list_fmap_compose. rewrite <- (list_fmap_id l) at 2. apply list_fmap_ext.
  intros i b _. apply i8_u8_roundtrip.
Qed.
Lemma i32_as_usize_small `{Platform} n : 0 ≤ n ≤ i32_max → i32_as_usize n = n.
Proof.
  unfold i32_as_usize, i32_max. intros. apply Z.mod_small. destruct pointer_bits_ok as [-> | ->]; lia.
Qed.
(** An address survives the trip through a Java [long]. *)
Lemma jlong_roundtrip `{Platform} p : 0 ≤ p ≤ usize_max → jlong_as_ptr (ptr_as_jlong p) = p.
Proof.
  unfold jlong_as_ptr, ptr_as_jlong, u64_as_i64, usize_max, i64_max. intros Hp.
  destruct pointer_bits_ok as [E|E]; rewrite E in *; destruct (Z.leb_spec p (2 ^ 63 - 1));
    try (apply Z.mod_small; lia); [lia|].
  rewrite <- (Z_mod_plus_full (p - 2 ^ 64) 1 (2 ^ 64)). rewrite Z.mod_small; lia.
Qed.
Lemma ptr_as_jlong_nonzero `{Platform} p : 0 < p ≤ usize_max → ptr_as_jlong p ≠ 0.
Proof.
  intros Hp Hz. assert (0 ≤ p ≤ usize_max) as Hb by lia. pose proof (jlong_roundtrip p Hb) as Hr. rewrite Hz in Hr.
  unfold jlong_as_ptr in Hr. rewrite Zmod_0_l in Hr. lia.
Qed.

(** The cast of a length is exact when an array of that size holds it. *)
Lemma usize_as_i32_exact n : 0 ≤ n → n ≤ usize_as_i32 n → usize_as_i32 n = n.
Proof.
  unfold usize_as_i32, i32_max. intros Hn.
  pose proof (Z.mod_le n (2 ^ 32) Hn ltac:(lia)). pose proof (Z.mod_pos_bound n (2 ^ 32) ltac:(lia)).
  destruct (Z.leb_spec (n mod 2 ^ 32) (2 ^ 31 - 1)); lia.
Qed.

(** ** Files Java implements *)

(** What the documentation of the environment and of the Java interfaces of
    the files says.  [byte_array] is the contents of an array, and [java_file] the
    bytes an output has been given or an input serves. *)
Class JavaFiles (J : Type) `{JNIEnv J} (byte_array : J -> JObject -> option (list Z))
    (java_file : J -> JObject -> list byte) : Prop := {
  attach_keeps j o : java_file (attach_current_thread j).2 o = java_file j o;
  new_array_spec n j :
    let '(r, j') := new_byte_array n j in
    (∀ o, java_file j' o = java_file j o) ∧
    (∀ a, r = Ok a → 0 ≤ n ∧ byte_array j' a = Some (replicate (Z.to_nat n) 0));
  set_region_spec a l j :
    let '(r, j') := set_byte_array_region a 0 l j in
    (∀ o, java_file j' o = java_file j o) ∧
    (∀ old, r = Ok tt → byte_array j a = Some old →
       blen l ≤ blen old ∧ byte_array j' a = Some (l ++ drop (List.length l) old));
  write_spec out a n j arr : byte_array j a = Some arr →
    let '(r, j') := call_method out "write" "([BII)V" [JObjectValue a; JInt 0; JInt n] j in
    ∃ p, p `prefix_of` (i8_as_u8 <$> take (Z.to_nat n) arr) ∧ java_file j' out = java_file j out ++ p ∧
         (r = Ok tt → p = i8_as_u8 <$> take (Z.to_nat n) arr);
  flush_spec out j : java_file (call_method out "flush" "()V" [] j).2 out = java_file j out;
  pread_spec inp p a n j :
    let '(r, j') := call_method inp "pread" "(J[BII)V" [JLong p; JObjectValue a; JInt 0; JInt n] j in
    java_file j' inp = java_file j inp ∧
    (∀ arr, r = Ok tt → byte_array j a = Some arr → blen arr = n → 0 ≤ p →
       p + n ≤ blen (java_file j inp) ∧ byte_array j' a = Some (u8_as_i8 <$> slice p n (java_file j inp)));
  array_length_spec a j :
    let '(r, j') := get_array_length a j in
    (∀ o, java_file j' o = java_file j o) ∧ byte_array j' a = byte_array j a ∧
    (∀ n arr, r = Ok n → byte_array j a = Some arr → n = blen arr);
  get_region_spec a n j :
    let '(r, j') := get_byte_array_region a 0 n j in
    (∀ o, java_file j' o = java_file j o) ∧
    (∀ l arr, r = Ok l → byte_array j a = Some arr → l = take (Z.to_nat n) arr)
}.

Section Files.
Context `{Platform} {J : Type} `{JavaFiles J byte_array java_file}.

Definition written_to (s : JavaOutput J) : list byte := java_file (output_jvm s) (output s).
Definition served_by (s : JavaInput J) : list byte := java_file (input_jvm s) (input_object s).

Lemma java_write_all_spec buf (s : JavaOutput J) :
  let '(r, s') := JavaOutput_write_all buf s in
  ∃ p, p `prefix_of` buf ∧ written_to s' = written_to s ++ p ∧ (r = Ok tt → p = buf).
Proof.
  assert (∀ e (s' : JavaOutput J), written_to s' = written_to s →
    ∃ p, p `prefix_of` buf ∧ written_to s' = written_to s ++ p ∧ ((Err e : result IoError unit) = Ok tt → p = buf)) as Hfail.
  { intros e s' Hs. exists []. rewrite app_nil_r. split_and!; [apply prefix_nil|done|done]. }
  unfold JavaOutput_write_all, env_output, env_io, mbind, ST_bind, ST_gets. destruct s as [j o]. cbn [output_jvm].
  pose proof (attach_keeps j) as Ha. destruct (attach_current_thread j) as [[[]|e] j1];
    cbn [map_err snd output_jvm output] in *; [|apply Hfail, Ha].
  pose proof (new_array_spec (usize_as_i32 (blen buf)) j1) as Hn.
  destruct (new_byte_array _ j1) as [[a|e] j2]; destruct Hn as [Hf2 Hn]; cbn [map_err output_jvm output] in *;
    [|apply Hfail; unfold written_to; cbn; by rewrite Hf2].
  destruct (Hn a eq_refl) as [Hpos Harr].
  pose proof (set_region_spec a (u8_as_i8 <$> buf) j2) as Hs.
  destruct (set_byte_array_region _ _ _ j2) as [[[]|e] j3]; destruct Hs as [Hf3 Hs]; cbn [map_err output_jvm output] in *;
    [|apply Hfail; unfold written_to; cbn; by rewrite Hf3, Hf2].
  destruct (Hs _ eq_refl Harr) as [Hlen Harr3]. unfold blen in Hlen. rewrite length_fmap, length_replicate in Hlen.
  assert (usize_as_i32 (blen buf) = blen buf) as Hexact.
  { apply usize_as_i32_exact; [apply blen_nonneg|]. unfold blen in *. lia. }
  rewrite drop_ge in Harr3 by (rewrite length_replicate, length_fmap; rewrite Hexact; unfold blen; lia).
  rewrite app_nil_r in Harr3. rewrite Hexact.
  pose proof (write_spec o a (blen buf) j3 _ Harr3) as Hw.
  destruct (call_method _ _ _ _ j3) as [r j4]. destruct Hw as (p & Hp & Hfile & Hok).
  rewrite take_ge in Hp, Hok by (rewrite length_fmap; unfold blen; lia). rewrite i8_u8_bytes in Hp, Hok.
  exists p. unfold written_to. cbn. split_and!; [done| |].
  - by rewrite Hfile, Hf3, Hf2, Ha.
  - intros Hr. apply Hok. by destruct r as [[]|].
Qed.

#[export] Instance JavaOutput_Appends : Appends (JavaOutput J) written_to.
Proof.
  split.
  - intros buf w w' Hw. pose proof (java_write_all_spec buf w) as Hs. cbn in Hw. rewrite Hw in Hs.
    destruct Hs as (p & _ & -> & Hp). by rewrite Hp.
  - intros buf w e w' Hw. pose proof (java_write_all_spec buf w) as Hs. cbn in Hw. rewrite Hw in Hs.
    destruct Hs as (p & Hp & Hf & _). by exists p.
  - intros [j o]. cbn. unfold JavaOutput_flush, env_output, env_io, mbind, ST_bind, ST_gets. cbn [output_jvm].
    pose proof (attach_keeps j) as Ha. destruct (attach_current_thread j) as [[[]|e] j1]; cbn [map_err snd] in *;
      [|apply Ha].
    cbn [output_jvm output]. pose proof (flush_spec o j1) as Hf. destruct (call_method _ _ _ _ j1) as [r j2].
    unfold written_to. cbn in *. by rewrite Hf, Ha.
Qed.

Lemma java_pread_range_spec range (s : JavaInput J) :
  let '(r, s') := java_pread_range range s in
  input_object s' = input_object s ∧ served_by s' = served_by s ∧
  (∀ buf, r = Ok buf → request_wf range → in_range (served_by s) range ∧ buf = read_range (served_by s) range).
Proof.
  unfold java_pread_range, env_input, env_io, mbind, ST_bind, ST_lift, ST_gets. destruct s as [j o].
  destruct (try_from_unsigned i64_max (pos range)) as [p|] eqn:Ep; cbn [ok_or]; [|by split_and!].
  destruct (try_from_unsigned i32_max (buf_len range)) as [n|] eqn:En; cbn [ok_or]; [|by split_and!].
  apply try_from_unsigned_Some in Ep as [_ ->]. apply try_from_unsigned_Some in En as [Hmax ->].
  cbn [input_jvm input_object].
  pose proof (new_array_spec (buf_len range) j) as Hn.
  destruct (new_byte_array _ j) as [[a|e] j1]; destruct Hn as [Hf1 Hn]; cbn [map_err input_jvm input_object];
    [|unfold served_by; cbn; by split_and!].
  destruct (Hn a eq_refl) as [Hpos Harr].
  pose proof (pread_spec o (pos range) a (buf_len range) j1) as Hr.
  destruct (call_method _ _ _ _ j1) as [[[]|e] j2]; destruct Hr as [Hf2 Hr]; cbn [map_err input_jvm input_object];
    [|unfold served_by; cbn; split_and!; [done|congruence|done]].
  specialize (Hr _ eq_refl Harr ltac:(unfold blen; rewrite length_replicate; lia)).
  unfold copy_java_buffer, env_input, env_io, mbind, ST_bind. cbn [input_jvm].
  pose proof (array_length_spec a j2) as Hl. destruct (get_array_length a j2) as [[len|e] j3];
    destruct Hl as (Hf3 & Ha3 & Hl); cbn [map_err input_jvm input_object];
    [|unfold served_by; cbn; split_and!; [done|rewrite Hf3; congruence|done]].
  destruct (negb _) eqn:Elen; [unfold served_by; cbn; split_and!; [done|rewrite Hf3; congruence|done]|].
  apply negb_false_iff, Z.eqb_eq in Elen. rewrite Elen.
  destruct (Z.ltb_spec 0 (buf_len range)).
  - cbn [input_jvm input_object]. pose proof (get_region_spec a (buf_len range) j3) as Hg.
    destruct (get_byte_array_region _ _ _ j3) as [[l|e] j4]; destruct Hg as [Hf4 Hg]; unfold served_by;
      cbn; (split_and!; [done|rewrite Hf4, Hf3; congruence|]); [|done].
    intros buf [= <-] [Hp _]. destruct (Hr Hp) as [Hin Ha2]. rewrite Hf1 in Hin, Ha2. rewrite Ha2 in Ha3.
    split; [exact Hin|]. rewrite (Hg _ _ eq_refl Ha3). rewrite take_ge.
    + apply i8_u8_bytes.
    + rewrite length_fmap. unfold slice. rewrite length_take. lia.
  - unfold served_by. cbn. split_and!; [done|rewrite Hf3; congruence|].
    intros buf [= <-] [Hp _]. destruct (Hr Hp) as [Hin _]. rewrite Hf1 in Hin. split; [exact Hin|].
    unfold read_range. by replace (buf_len range) with 0 by lia.
Qed.

Lemma java_pread_each_spec reqs (s : JavaInput J) :
  let '(r, s') := java_pread_each reqs s in
  served_by s' = served_by s ∧
  (∀ bufs, r = Ok bufs → Forall request_wf reqs →
     Forall (in_range (served_by s)) reqs ∧ bufs = read_range (served_by s) <$> reqs).
Proof.
  revert s. induction reqs as [|req reqs IH]; intros s; [split; [done|]; by intros bufs [= <-]|].
  cbn [java_pread_each]. unfold mbind, ST_bind. pose proof (java_pread_range_spec req s) as Hs.
  destruct (java_pread_range req s) as [[buf|e] s1]; destruct Hs as (_ & Hs1 & Hok); [|done].
  specialize (IH s1). destruct (java_pread_each reqs s1) as [[bufs|e] s2]; destruct IH as [Hs2 Hall]; cbn;
    (split; [congruence|]); [|done].
  intros bufs' [= <-] Hwf. inversion Hwf as [|? ? Hr Hrs]; subst.
  destruct (Hok _ eq_refl Hr) as [? ->]. destruct (Hall _ eq_refl Hrs) as [? ->]. rewrite Hs1 in *.
  split; [by constructor|done].
Qed.

#[export] Instance JavaInput_ReadsData : ReadsData (JavaInput J) served_by.
Proof.
  assert (∀ reqs s, let '(r, s') := pread reqs s in served_by s' = served_by s ∧
    (∀ bufs, r = Ok bufs → Forall request_wf reqs →
       Forall (in_range (served_by s)) reqs ∧ bufs = read_range (served_by s) <$> reqs)) as Hs.
  { intros reqs [j o]. unfold pread, JavaInput_SeekRead, JavaInput_pread, env_input, env_io, mbind, ST_bind. cbn [input_jvm].
    pose proof (attach_keeps j o) as Ha. destruct (attach_current_thread j) as [[[]|e] j1]; cbn [map_err snd] in *.
    - pose proof (java_pread_each_spec reqs (java_input j1 o)) as Hr. cbn [input_object].
      destruct (java_pread_each reqs _) as [r s']. unfold served_by in *. cbn [input_jvm input_object] in *. by rewrite Ha in Hr.
    - unfold served_by. by split. }
  split.
  - intros reqs s. specialize (Hs reqs s). destruct (pread reqs s). apply Hs.
  - intros reqs s bufs s' Hwf Hr. specialize (Hs reqs s). rewrite Hr in Hs. by apply Hs.
Qed.
End Files.

(** C8: when the environment and the Java objects do what they document (a
    successful [write] has taken the given part of the array, a failed one
    some prefix of it; a successful [pread] has filled the buffer with a range
    inside the data), the bridge turns them into files as the core expects
    them: an output that has been given exactly the bytes of each successful
    write, signed bytes and 32-bit lengths notwithstanding, and an input whose
    successful reads return exactly the requested ranges. *)
Theorem java_files_keep_promises `{Platform} {J : Type} `{JavaFiles J byte_array java_file} :
  Appends (JavaOutput J) (written_to (java_file := java_file)) ∧
  ReadsData (JavaInput J) (served_by (java_file := java_file)).
Proof. split; apply _. Qed.

(** ** Native methods *)
Section Methods.
Context `{Platform} `{Unicode} `{JsonText} `{Display} `{HashOrder} `{AnalysisEngine} {J : Type} `{JNIEnv J}.
Context {Schema I : Type} `{WriterEngine Schema I} {laws : SchemaLaws Schema}.
Context {Ix Parsed : Type} `{ReaderEngine (MeteredSeekRead (JavaInput J)) Ix Parsed}.

Notation JavaWorld := (JavaWorld (J := J) (Schema := Schema) (I := I) (Ix := Ix) (Parsed := Parsed)).

(** The methods of [FullTextNative]; [address] is where the allocator puts a
    new handle. *)
Inductive Method : Type :=
| CreateWriter (address : ptr) (keys values : JObject)
| AddDocument (writer row_id : Z) (text : JObject)
| AddDocumentFields (writer row_id : Z) (field_names texts : JObject)
| WriteIndex (writer : Z) (output : JObject)
| FreeWriter (writer : Z)
| OpenReader (address : ptr) (input : JObject)
| Search (reader : Z) (query : JObject) (limit : Z)
| SearchFiltered (reader : Z) (query : JObject) (limit : Z) (filter : JObject)
| Prewarm (reader : Z)
| ReadMetrics (reader : Z)
| FreeReader (reader : Z).
Inductive Value : Type := VVoid | VLong (n : Z) | VObject (o : JObject).

Definition value {A} (f : A -> Value) (r : Exit A * JavaWorld) : Exit Value * JavaWorld :=
  (match r.1 with Gives a => Gives (f a) | Aborts p => Aborts p | Misbehaves => Misbehaves end, r.2).
Definition run_method (engine_panic : Payload) (m : Method) (w : JavaWorld) : Exit Value * JavaWorld :=
  match m with
  | CreateWriter address keys values =>
      value VLong (FullTextNative_createWriter engine_panic address keys values w)
  | AddDocument writer row_id text => value (λ _, VVoid) (FullTextNative_addDocument writer row_id text w)
  | AddDocumentFields writer row_id field_names texts =>
      value (λ _, VVoid) (FullTextNative_addDocumentFields writer row_id field_names texts w)
  | WriteIndex writer output => value (λ _, VVoid) (FullTextNative_writeIndex writer output w)
  | FreeWriter writer => value (λ _, VVoid) (FullTextNative_freeWriter writer w)
  | OpenReader address input => value VLong (FullTextNative_openReader address input w)
  | Search reader query limit => value VObject (FullTextNative_search reader query limit w)
  | SearchFiltered reader query limit filter =>
      value VObject (FullTextNative_searchWithRoaringFilter reader query limit filter w)
  | Prewarm reader => value (λ _, VVoid) (FullTextNative_prewarm reader w)
  | ReadMetrics reader => value VObject (FullTextNative_readMetrics reader w)
  | FreeReader reader => value (λ _, VVoid) (FullTextNative_freeReader reader w)
  end.
(** A program goes on while its process lives. *)
Fixpoint run_methods (engine_panic : Payload) (ms : list Method) (w : JavaWorld) : list (Exit Value) * JavaWorld :=
  match ms with
  | [] => ([], w)
  | m :: ms' =>
      match run_method engine_panic m w with
      | (Gives v, w1) => let '(xs, w2) := run_methods engine_panic ms' w1 in (Gives v :: xs, w2)
      | (x, w1) => ([x], w1)
      end
  end.

(** Java passes 0 or a handle it was given and has not freed. *)
Definition live_handle {T} (objects : JavaWorld -> gmap ptr T) (w : JavaWorld) (n : Z) : Prop :=
  n ≠ 0 → ∃ p h, n = ptr_as_jlong p ∧ objects w !! p = Some h.
Definition new_address (w : JavaWorld) (p : ptr) : Prop :=
  0 < p ≤ usize_max ∧ writers w !! p = None ∧ readers w !! p = None.
Definition method_contract (w : JavaWorld) (m : Method) : Prop :=
  match m with
  | CreateWriter address _ _ | OpenReader address _ => new_address w address
  | AddDocument writer row_id _ | AddDocumentFields writer row_id _ _ =>
      live_handle writers w writer ∧ row_id ≤ i64_max
  | WriteIndex writer _ | FreeWriter writer => live_handle writers w writer
  | Search reader _ _ | SearchFiltered reader _ _ _ | Prewarm reader | ReadMetrics reader | FreeReader reader =>
      live_handle readers w reader
  end.
Fixpoint method_contracts (engine_panic : Payload) (w : JavaWorld) (ms : list Method) : Prop :=
  match ms with
  | [] => True
  | m :: ms' =>
      method_contract w m ∧
      match run_method engine_panic m w with (Gives _, w') => method_contracts engine_panic w' ms' | _ => True end
  end.

(** Handles sit at addresses, and writers are well formed. *)
Definition java_world_ok (w : JavaWorld) : Prop :=
  (∀ p h, writers w !! p = Some h → 0 < p ≤ usize_max ∧ writer_ok (writer_inner h)) ∧
  (∀ p h, readers w !! p = Some h → 0 < p ≤ usize_max).

(** The address of the handle a call is about; every other handle is as it
    was. *)
Definition address_of (m : Method) : ptr :=
  match m with
  | CreateWriter p _ _ | OpenReader p _ => p
  | AddDocument n _ _ | AddDocumentFields n _ _ _ | WriteIndex n _ | FreeWriter n | Search n _ _
  | SearchFiltered n _ _ _ | Prewarm n | ReadMetrics n | FreeReader n => jlong_as_ptr n
  end.
Record only_handle (p : ptr) (w w' : JavaWorld) : Prop := {
  oh_ok : java_world_ok w → java_world_ok w';
  oh_writers q : q ≠ p → writers w' !! q = writers w !! q;
  oh_readers q : q ≠ p → readers w' !! q = readers w !! q
}.
#[export] Instance only_handle_preorder p : PreOrder (only_handle p).
Proof.
  split; [by split|]. intros w1 w2 w3 [] []. split; intros; [by auto|..];
    repeat match goal with Hf : ∀ q, _ → _ !! q = _ |- _ => rewrite Hf by done; clear Hf end; done.
Qed.

Lemma only_handle_jvm p w w' : writers w' = writers w → readers w' = readers w → only_handle p w w'.
Proof. intros Hw Hr. split; unfold java_world_ok; rewrite ?Hw, ?Hr; done. Qed.
Lemma only_handle_throw p w w' e : only_handle p w w' → only_handle p w (throw e w').
Proof. intros Hp. transitivity w'; [done|]. by apply only_handle_jvm. Qed.
Lemma only_handle_writer p w h j :
  (java_world_ok w → 0 < p ≤ usize_max ∧ writer_ok (writer_inner h)) →
  only_handle p w (java_world j (<[p := h]> (writers w)) (readers w)).
Proof.
  intros Hok. split; cbn; [|intros q Hq; by rewrite lookup_insert_ne|done].
  intros Hw. pose proof Hw as [Hws Hrs]. split; [|done]. intros q h'. cbn.
  destruct (decide (q = p)) as [->|]; [rewrite lookup_insert_eq; intros [= <-]; by apply Hok|].
  rewrite lookup_insert_ne by done. apply Hws.
Qed.
Lemma only_handle_reader p w h j :
  (java_world_ok w → 0 < p ≤ usize_max) →
  only_handle p w (java_world j (writers w) (<[p := h]> (readers w))).
Proof.
  intros Hok. split; cbn; [|done|intros q Hq; by rewrite lookup_insert_ne].
  intros Hw. pose proof Hw as [Hws Hrs]. split; [done|]. intros q h'. cbn.
  destruct (decide (q = p)) as [->|]; [intros _; by apply Hok|].
  rewrite lookup_insert_ne by done. apply Hrs.
Qed.

(** [m] changes at most the handle at [p]; it is [quiet] when it does not
    unwind either. *)
Definition tame_unless {A} (U : Payload -> Prop) (p : ptr) (m : FFI JavaWorld A) (w : JavaWorld) : Prop :=
  keeps (only_handle p) U m w.
Abbreviation quiet := (tame_unless (λ _, False)).
Abbreviation tame := (tame_unless (λ _, True)).
Lemma tame_bind {A B} U p (m : FFI JavaWorld A) (f : A -> FFI JavaWorld B) w :
  tame_unless U p m w → (∀ a w', m w = (Returned (Ok a), w') → only_handle p w w' → tame_unless U p (f a) w') →
  tame_unless U p (m ≫= f) w.
Proof. apply keeps_bind, _. Qed.
Lemma tame_reads {A} U p (m : FFI JavaWorld A) w : reads m w → tame_unless U p m w.
Proof. apply keeps_reads, _. Qed.

(** Calls into the virtual machine leave the handles alone. *)
Definition same_handles (w w' : JavaWorld) : Prop := writers w' = writers w ∧ readers w' = readers w.
#[export] Instance same_handles_preorder : PreOrder same_handles.
Proof. split; [by split|]. intros w1 w2 w3 [] []. split; congruence. Qed.
Definition foreign {A} (m : FFI JavaWorld A) (w : JavaWorld) : Prop := keeps same_handles (λ _, False) m w.
Lemma foreign_bind {A B} (m : FFI JavaWorld A) (f : A -> FFI JavaWorld B) w :
  foreign m w → (∀ a w', foreign (f a) w') → foreign (m ≫= f) w.
Proof. intros Hm Hf. apply (keeps_bind same_handles _); [done|]. intros a w' _ _. apply Hf. Qed.
Lemma foreign_reads {A} (m : FFI JavaWorld A) w : reads m w → foreign m w.
Proof. apply keeps_reads, _. Qed.
Lemma foreign_env {A} f (m : ST J str A) w : foreign (env f m) w.
Proof. unfold foreign, keeps, env. by destruct (m (jvm w)) as [r j]. Qed.
Lemma foreign_tame {A} U p (m : FFI JavaWorld A) w : foreign m w → tame_unless U p m w.
Proof. apply keeps_weaken; [|done]. intros w' [Hw Hr]. by apply only_handle_jvm. Qed.
Lemma foreign_Ok {A} (m : FFI JavaWorld A) w a w' :
  foreign m w → m w = (Returned (Ok a), w') → same_handles w w'.
Proof. intros (r & w1 & Hm & Hs)%keeps_returns. rewrite Hm. by intros [= _ <-]. Qed.
Lemma tame_foreign {A B} U p (m : FFI JavaWorld A) (f : A -> FFI JavaWorld B) w :
  foreign m w → (∀ a w', same_handles w w' → tame_unless U p (f a) w') → tame_unless U p (m ≫= f) w.
Proof.
  intros Hm Hf. apply tame_bind; [by apply foreign_tame|]. intros a w1 Ha _.
  by apply Hf; eapply foreign_Ok.
Qed.

(** The panics of a computation that starts with one that does not. *)
Definition unwinds {A} (m : FFI JavaWorld A) (w : JavaWorld) (p : Payload) : Prop := (m w).1 = Unwinds p.
Lemma foreign_unwinds {A B} (m : FFI JavaWorld A) (f : A -> FFI JavaWorld B) w p :
  foreign m w → unwinds (m ≫= f) w p ↔ ∃ a w', m w = (Returned (Ok a), w') ∧ unwinds (f a) w' p.
Proof.
  intros (r & w' & Hm & _)%keeps_returns. unfold unwinds, mbind, FFI_bind. rewrite Hm.
  destruct r as [a|e]; [|naive_solver]. split; [by exists a, w'|]. by intros (? & ? & [= <- <-] & ?).
Qed.
Lemma env_unwinds {A B} g (m : ST J str A) (f : A -> FFI JavaWorld B) w p :
  unwinds (env g m ≫= f) w p ↔
  ∃ a j, m (jvm w) = (Ok a, j) ∧ unwinds (f a) (java_world j (writers w) (readers w)) p.
Proof.
  rewrite foreign_unwinds by apply foreign_env. unfold env. destruct (m (jvm w)) as [[a|e] j]; naive_solver.
Qed.
Lemma foreign_elements ks vs l w : foreign (ffi_mapM (string_element ks vs) l) w.
Proof.
  apply (keeps_mapM same_handles). intros i w' _ _. unfold string_element.
  repeat (apply foreign_bind; [apply foreign_env|intros ? ?]). apply foreign_reads, reads_ret.
Qed.
Lemma foreign_options ks vs w : foreign (options_from_arrays ks vs) w.
Proof.
  unfold options_from_arrays. repeat (apply foreign_bind; [apply foreign_env|intros ? ?]).
  destruct (negb _); [apply foreign_reads, reads_fail|].
  apply foreign_bind; [apply foreign_elements|]. intros. apply foreign_reads, reads_ret.
Qed.
Lemma foreign_pairs ks vs w : foreign (string_pair_arrays ks vs) w.
Proof.
  unfold string_pair_arrays. repeat (apply foreign_bind; [apply foreign_env|intros ? ?]).
  destruct (negb _); [apply foreign_reads, reads_fail|]. destruct (_ =? 0); [apply foreign_reads, reads_fail|].
  apply foreign_elements.
Qed.
Lemma foreign_result res w : foreign (java_result res) w.
Proof. unfold java_result. repeat (apply foreign_bind; [apply foreign_env|intros ? ?]). apply foreign_env. Qed.
Lemma foreign_bytes a w : foreign (read_byte_array a) w.
Proof. unfold read_byte_array. destruct (object_is_null a); [apply foreign_reads, reads_fail|apply foreign_env]. Qed.

(** *** Handles *)
Lemma handle_live {T} (objects : JavaWorld -> gmap ptr T) n name w :
  (∀ p h, objects w !! p = Some h → 0 < p ≤ usize_max) → live_handle objects w n →
  (∃ e, handle objects n name w = (Returned (Err e), w)) ∨
  ∃ h, handle objects n name w = (Returned (Ok (jlong_as_ptr n)), w) ∧ objects w !! jlong_as_ptr n = Some h.
Proof.
  intros Hrange Hl. unfold handle. destruct (Z.eqb_spec n 0) as [|Hn]; [left; by eexists|].
  destruct (Hl Hn) as (p & h & -> & Hh). pose proof (Hrange _ _ Hh). rewrite jlong_roundtrip by lia.
  unfold is_null. destruct (Z.eqb_spec p 0); [lia|]. right. exists h. by rewrite Hh.
Qed.
Lemma tame_handle {T A} U (objects : JavaWorld -> gmap ptr T) n name (f : ptr -> FFI JavaWorld A) w :
  (∀ p h, objects w !! p = Some h → 0 < p ≤ usize_max) → live_handle objects w n →
  (∀ h, objects w !! jlong_as_ptr n = Some h → tame_unless U (jlong_as_ptr n) (f (jlong_as_ptr n)) w) →
  tame_unless U (jlong_as_ptr n) (p ← handle objects n name; f p) w.
Proof.
  intros Hrange Hl Hf. destruct (handle_live objects n name w Hrange Hl) as [[e He]|(h & He & Hh)].
  - unfold tame_unless, keeps, mbind, FFI_bind. by rewrite He.
  - unfold tame_unless, keeps, mbind, FFI_bind. rewrite He. by eapply Hf.
Qed.
Lemma handle_unwinds {T A} (objects : JavaWorld -> gmap ptr T) n name (f : ptr -> FFI JavaWorld A) w p :
  (∀ p h, objects w !! p = Some h → 0 < p ≤ usize_max) → live_handle objects w n →
  unwinds (q ← handle objects n name; f q) w p ↔
  ∃ h, n ≠ 0 ∧ objects w !! jlong_as_ptr n = Some h ∧ unwinds (f (jlong_as_ptr n)) w p.
Proof.
  intros Hrange Hl. unfold unwinds, mbind, FFI_bind, handle.
  destruct (Z.eqb_spec n 0) as [|Hn]; [naive_solver|]. destruct (Hl Hn) as (q & h & -> & Hh).
  pose proof (Hrange _ _ Hh). rewrite jlong_roundtrip by lia. unfold is_null.
  destruct (Z.eqb_spec q 0); [lia|]. rewrite Hh. naive_solver.
Qed.
Lemma tame_on_writer {A} p h (m : ST FullTextIndexWriter (Fault FtIndexError) A) w :
  writers w !! p = Some h → (writer_ok (writer_inner h) → writer_ok (m (writer_inner h)).2) →
  tame p (on_writer p m) w.
Proof.
  intros Hh Hm. unfold on_writer, tame_unless, keeps. rewrite Hh. destruct (m (writer_inner h)) as [r x].
  assert (only_handle p w (java_world (jvm w) (<[p := writer_handle x]> (writers w)) (readers w))) as Ho.
  { apply only_handle_writer. intros [Hws _]. destruct (Hws _ _ Hh). auto. }
  by destruct r as [a|[e|q]].
Qed.
Lemma on_writer_unwinds {A} p h (m : ST FullTextIndexWriter (Fault FtIndexError) A) w q :
  writers w !! p = Some h → unwinds (on_writer p m) w q ↔ (m (writer_inner h)).1 = Err (Panicked q).
Proof. intros Hh. unfold unwinds, on_writer. rewrite Hh. by destruct (m _) as [[a|[e|p']] x]; cbn; naive_solver. Qed.
Lemma tame_on_reader {A} (U : Payload -> Prop) p h (m : ST FullTextIndexReader (Fault FtIndexError) A) w :
  readers w !! p = Some h → (∀ q, (m (with_reader_jvm (jvm w) (reader_inner h))).1 = Err (Panicked q) → U q) →
  tame_unless U p (on_reader p m) w.
Proof.
  intros Hh Hm. unfold on_reader, tame_unless, keeps. rewrite Hh. destruct (m _) as [r x].
  assert (only_handle p w (java_world (reader_jvm x) (writers w) (<[p := reader_handle x]> (readers w)))) as Ho.
  { apply only_handle_reader. intros [_ Hrs]. by eapply Hrs. }
  destruct r as [a|[e|q]]; [done..|]. split; [done|by apply Hm].
Qed.
Lemma on_reader_unwinds {A} p h (m : ST FullTextIndexReader (Fault FtIndexError) A) w q :
  readers w !! p = Some h →
  unwinds (on_reader p m) w q ↔ (m (with_reader_jvm (jvm w) (reader_inner h))).1 = Err (Panicked q).
Proof. intros Hh. unfold unwinds, on_reader. rewrite Hh. by destruct (m _) as [[a|[e|p']] x]; cbn; naive_solver. Qed.

(** *** Every method *)
Definition error_value (m : Method) : Value :=
  match m with
  | CreateWriter _ _ _ | OpenReader _ _ => VLong 0
  | Search _ _ _ | SearchFiltered _ _ _ _ | ReadMetrics _ => VObject null_object
  | _ => VVoid
  end.
Definition succeeded (m : Method) (v : Value) (w : JavaWorld) : Prop :=
  match m with
  | CreateWriter p _ _ => v = VLong (ptr_as_jlong p) ∧ ptr_as_jlong p ≠ 0 ∧ is_Some (writers w !! p)
  | OpenReader p _ => v = VLong (ptr_as_jlong p) ∧ ptr_as_jlong p ≠ 0 ∧ is_Some (readers w !! p)
  | FreeWriter n => v = VVoid ∧ (n ≠ 0 → writers w !! jlong_as_ptr n = None)
  | FreeReader n => v = VVoid ∧ (n ≠ 0 → readers w !! jlong_as_ptr n = None)
  | Search _ _ _ | SearchFiltered _ _ _ _ | ReadMetrics _ => ∃ o, v = VObject o
  | _ => v = VVoid
  end.
(** A method on a closed handle. *)
Definition closed (m : Method) : option str :=
  match m with
  | AddDocument 0 _ _ | AddDocumentFields 0 _ _ _ | WriteIndex 0 _ => Some (lit "writer is closed")
  | Search 0 _ _ | SearchFiltered 0 _ _ _ | Prewarm 0 | ReadMetrics 0 => Some (lit "reader is closed")
  | _ => None
  end.
(** The panics of the core behind a call: the arguments are read, and then
    what the call is for panics. *)
Definition create_panics (w : JavaWorld) (keys values : JObject) (p : Payload) : Prop :=
  ∃ options w1 config, options_from_arrays keys values w = (Returned (Ok options), w1) ∧
    from_options (hash_entries options) = Ok config ∧
    FullTextIndexWriter_new (Schema := Schema) (I := I) config = Some (Err (Panicked p)).
Definition add_panics (w : JavaWorld) (writer row_id : Z) (text : JObject) (p : Payload) : Prop :=
  ∃ h s j, writer ≠ 0 ∧ writers w !! jlong_as_ptr writer = Some h ∧ get_string text (jvm w) = (Ok s, j) ∧
    (Writer.add_document row_id s (writer_inner h)).1 = Err (Panicked p).
Definition add_fields_panics (w : JavaWorld) (writer row_id : Z) (names texts : JObject) (p : Payload) : Prop :=
  ∃ h fields w1, writer ≠ 0 ∧ writers w !! jlong_as_ptr writer = Some h ∧
    string_pair_arrays names texts w = (Returned (Ok fields), w1) ∧
    (Writer.add_document_fields row_id fields (writer_inner h)).1 = Err (Panicked p).
Definition write_panics (w : JavaWorld) (writer : Z) (output : JObject) (p : Payload) : Prop :=
  ∃ h v j1 o j2, writer ≠ 0 ∧ writers w !! jlong_as_ptr writer = Some h ∧
    get_java_vm (jvm w) = (Ok v, j1) ∧ new_global_ref output j1 = (Ok o, j2) ∧
    (write (writer_inner h, java_output j2 o)).1 = Err (Panicked p).
Definition open_panics (w : JavaWorld) (input : JObject) (p : Payload) : Prop :=
  ∃ v j1 o j2, get_java_vm (jvm w) = (Ok v, j1) ∧ new_global_ref input j1 = (Ok o, j2) ∧
    (open_on (Ix := Ix) (Parsed := Parsed) (java_input j2 o)).1 = Err (Panicked p).
Definition search_panics (w : JavaWorld) (reader : Z) (query : JObject) (limit : Z) (filter : option JObject)
    (p : Payload) : Prop :=
  ∃ h text j bs j', reader ≠ 0 ∧ readers w !! jlong_as_ptr reader = Some h ∧
    get_string query (jvm w) = (Ok text, j) ∧ 0 < limit ∧
    match filter with
    | Some f => object_is_null f = false ∧ ∃ l, convert_byte_array f j = (Ok l, j') ∧ bs = Some l
    | None => j' = j ∧ bs = None
    end ∧
    (core_search text (i32_as_usize limit) bs (with_reader_jvm j' (reader_inner h))).1 = Err (Panicked p).
Definition prewarm_panics (w : JavaWorld) (reader : Z) (p : Payload) : Prop :=
  ∃ h, reader ≠ 0 ∧ readers w !! jlong_as_ptr reader = Some h ∧
    (Reader.prewarm (with_reader_jvm (jvm w) (reader_inner h))).1 = Err (Panicked p).
Definition method_panics (w : JavaWorld) (m : Method) (p : Payload) : Prop :=
  match m with
  | CreateWriter _ keys values => create_panics w keys values p
  | AddDocument writer row_id text => add_panics w writer row_id text p
  | AddDocumentFields writer row_id names texts => add_fields_panics w writer row_id names texts p
  | WriteIndex writer output => write_panics w writer output p
  | OpenReader _ input => open_panics w input p
  | Search reader query limit => search_panics w reader query limit None p
  | SearchFiltered reader query limit filter => search_panics w reader query limit (Some filter) p
  | Prewarm reader => prewarm_panics w reader p
  | _ => False
  end.

Definition method_ok (engine_panic : Payload) (m : Method) (w : JavaWorld) : Prop :=
  ∃ x w', run_method engine_panic m w = (x, w') ∧ only_handle (address_of m) w w' ∧
    x ≠ Misbehaves ∧
    (∀ v, x = Gives v → (∃ e w1, w' = throw e w1 ∧ v = error_value m) ∨ succeeded m v w') ∧
    (∀ p, x = Aborts p ↔ method_panics w m p) ∧
    (∀ e, closed m = Some e → x = Gives (error_value m) ∧ w' = throw e w).

Lemma method_native {A} U engine_panic m w (f : FFI JavaWorld A) on_err (g : A -> Value) :
  run_method engine_panic m w = value g (native on_err f w) → g on_err = error_value m →
  tame_unless U (address_of m) f w →
  (∀ a w', f w = (Returned (Ok a), w') → succeeded m (g a) w') →
  (∀ p, unwinds f w p ↔ method_panics w m p) →
  (∀ e, closed m = Some e → f w = (Returned (Err e), w)) →
  method_ok engine_panic m w.
Proof.
  intros Hrun Herr Htame Hok Hpanic Hclosed. unfold method_ok. rewrite Hrun. clear Hrun.
  unfold unwinds in Hpanic. unfold tame_unless, keeps in Htame. unfold value, native.
  destruct (f w) as [[[a|e]|p|] w'] eqn:Ef; cbn [fst snd throw_and_return] in *; try done; eexists _, _.
  - split_and!; [done..| | |].
    + intros v [= <-]. right. by apply Hok.
    + intros p. rewrite <- Hpanic. naive_solver.
    + intros e He. by specialize (Hclosed e He).
  - split_and!; [done|by apply only_handle_throw|done|..].
    + intros v [= <-]. left. by eexists _, _.
    + intros p. rewrite <- Hpanic. naive_solver.
    + intros e' He. specialize (Hclosed e' He). injection Hclosed as -> ->. by rewrite Herr.
  - destruct Htame. split_and!; [done..| |].
    + intros q. rewrite <- Hpanic. naive_solver.
    + intros e He. by specialize (Hclosed e He).
Qed.
Lemma quiet_unwinds {A} p (f : FFI JavaWorld A) w q : quiet p f w → unwinds f w q ↔ False.
Proof.
  intros (r & w' & Hf & _)%keeps_returns. unfold unwinds. by rewrite Hf.
Qed.

Lemma handle_closed {T A} (objects : JavaWorld -> gmap ptr T) name (f : ptr -> FFI JavaWorld A) w :
  (p ← handle objects 0 name; f p) w = (Returned (Err (lit name ++ lit " is closed")), w).
Proof. done. Qed.

Lemma create_writer_tame engine_panic p ks vs w :
  0 < p ≤ usize_max → tame p (create_writer engine_panic p ks vs) w.
Proof.
  intros Hp. apply tame_foreign; [apply foreign_options|]. intros options w1 _.
  apply tame_foreign; [apply foreign_reads, reads_lift|]. intros config w2 _.
  pose proof (new_writer_ok config) as Hnew. unfold tame_unless, keeps, mbind, FFI_bind, ffi_may_panic.
  destruct (FullTextIndexWriter_new config) as [[x|[e|q]]|]; cbn [ffi_outcome]; [|by split..|done].
  destruct Hnew as [Hok _]. by apply only_handle_writer.
Qed.
Lemma create_writer_unwinds engine_panic p ks vs w q :
  unwinds (create_writer engine_panic p ks vs) w q ↔ create_panics w ks vs q.
Proof.
  unfold create_writer, create_panics. rewrite foreign_unwinds by apply foreign_options.
  setoid_rewrite foreign_unwinds; [|by intros; apply foreign_reads, reads_lift].
  assert (∀ config w', unwinds (writer ← ffi_may_panic engine_panic (FullTextIndexWriter_new config);
      box_writer p (writer_handle writer)) w' q
    ↔ FullTextIndexWriter_new (Schema := Schema) (I := I) config = Some (Err (Panicked q))) as Hnew.
  { intros config w'. pose proof (new_writer_ok config) as Hnew. unfold unwinds, mbind, FFI_bind, ffi_may_panic.
    by destruct (FullTextIndexWriter_new config) as [[x|[e|p']]|]; cbn; naive_solver. }
  setoid_rewrite Hnew. unfold ffi_lift. split.
  - intros (options & w1 & Ho & config & w2 & [= Hc <-] & Hp). apply map_err_Ok in Hc. by exists options, w1, config.
  - intros (options & w1 & config & Ho & Hc & Hp). exists options, w1. split; [done|].
    exists config, w1. by rewrite Hc.
Qed.
Lemma create_writer_Ok engine_panic p ks vs w a w' :
  create_writer engine_panic p ks vs w = (Returned (Ok a), w') → a = ptr_as_jlong p ∧ is_Some (writers w' !! p).
Proof.
  intros Hm. do 3 (apply ffi_bind_Ok in Hm as (? & ? & _ & Hm)). injection Hm as <- <-. cbn.
  rewrite lookup_insert_eq. by split.
Qed.
Lemma open_reader_tame p o w : 0 < p ≤ usize_max → tame p (open_reader p o) w.
Proof.
  intros Hp. apply tame_foreign; [apply foreign_env|]. intros [] w1 _.
  apply tame_foreign; [apply foreign_env|]. intros r w2 _.
  unfold open_on_object, tame_unless, keeps. destruct (open_on _) as [[rd|[e|q]] i]; cbn [ffi_outcome].
  - by apply only_handle_reader.
  - by apply only_handle_jvm.
  - split; [by apply only_handle_jvm|done].
Qed.
Lemma open_reader_unwinds p o w q : unwinds (open_reader p o) w q ↔ open_panics w o q.
Proof.
  unfold open_reader, open_panics. rewrite env_unwinds.
  assert (∀ o' w', unwinds (open_on_object p o') w' q
    ↔ (open_on (Ix := Ix) (Parsed := Parsed) (java_input (jvm w') o')).1 = Err (Panicked q)) as Hopen.
  { intros o' w'. unfold unwinds, open_on_object. by destruct (open_on _) as [[rd|[e|p']] i]; cbn; naive_solver. }
  setoid_rewrite env_unwinds. setoid_rewrite Hopen. cbn [jvm]. naive_solver.
Qed.
Lemma open_reader_Ok p o w a w' :
  open_reader p o w = (Returned (Ok a), w') → a = ptr_as_jlong p ∧ is_Some (readers w' !! p).
Proof.
  intros Hm. do 2 (apply ffi_bind_Ok in Hm as (? & ? & _ & Hm)). unfold open_on_object in Hm.
  destruct (open_on _) as [[rd|[e|q]] i]; [|done..]. injection Hm as <- <-. cbn. rewrite lookup_insert_eq. by split.
Qed.

Lemma write_index_tame w n o :
  java_world_ok w → live_handle writers w n → tame (jlong_as_ptr n) (write_index n o) w.
Proof.
  intros Hok Hl. apply tame_handle; [by intros p h Hp; apply (proj1 Hok p h)|done|]. intros h Hh.
  apply tame_foreign; [apply foreign_env|]. intros [] w1 [Hw1 _].
  apply tame_foreign; [apply foreign_env|]. intros out w2 [Hw2 _].
  assert (writers w2 !! jlong_as_ptr n = Some h) as Hh2 by (by rewrite Hw2, Hw1).
  unfold write_on, tame_unless, keeps. rewrite Hh2.
  pose proof (write_writer_ok (writer_inner h) (java_output (jvm w2) out)) as Hkeep.
  destruct (write (writer_inner h, java_output (jvm w2) out)) as [r [x out']].
  assert (only_handle (jlong_as_ptr n) w2
    (java_world (output_jvm out') (<[jlong_as_ptr n := writer_handle x]> (writers w2)) (readers w2))) as Ho.
  { apply only_handle_writer. intros _. destruct (proj1 Hok _ _ Hh). auto. }
  by destruct r as [[]|[e|q]].
Qed.
Lemma write_index_unwinds w n o q :
  java_world_ok w → live_handle writers w n → unwinds (write_index n o) w q ↔ write_panics w n o q.
Proof.
  intros Hok Hl. unfold write_index, write_panics.
  rewrite handle_unwinds; [|by intros a h Ha; apply (proj1 Hok a h)|done].
  setoid_rewrite env_unwinds. setoid_rewrite env_unwinds. cbn [jvm writers readers].
  assert (∀ h o' j, writers w !! jlong_as_ptr n = Some h →
    unwinds (write_on (jlong_as_ptr n) o') (java_world j (writers w) (readers w)) q
    ↔ (write (writer_inner h, java_output j o')).1 = Err (Panicked q)) as Hwrite.
  { intros h o' j Hh. unfold unwinds, write_on. cbn [writers jvm readers]. rewrite Hh.
    by destruct (write _) as [[[]|[e|p']] [x out]]; cbn; naive_solver. }
  split.
  - intros (h & Hn & Hh & v & j1 & Hv & o' & j2 & Ho & Hp). apply (Hwrite h) in Hp; [|done]. by exists h, v, j1, o', j2.
  - intros (h & v & j1 & o' & j2 & Hn & Hh & Hv & Ho & Hp). exists h. do 2 (split; [done|]). exists v, j1. split; [done|].
    exists o', j2. split; [done|]. by apply (Hwrite h).
Qed.

Lemma search_tame w n q limit filter :
  java_world_ok w → live_handle readers w n → tame (jlong_as_ptr n) (search n q limit filter) w.
Proof.
  intros Hok Hl. apply tame_handle; [by intros p h Hp; apply (proj2 Hok p h)|done|]. intros h Hh.
  apply tame_foreign; [apply foreign_env|]. intros text w1 [_ Hr1].
  apply tame_foreign; [apply foreign_reads, reads_lift|]. intros lim w2 [_ Hr2].
  apply tame_bind.
  - destruct filter as [f|]; [|by eapply tame_on_reader; [rewrite Hr2, Hr1|]].
    apply tame_foreign; [apply foreign_bytes|]. intros bs w3 [_ Hr3].
    by eapply tame_on_reader; [rewrite Hr3, Hr2, Hr1|].
  - intros res w3 _ _. apply foreign_tame, foreign_result.
Qed.
Lemma unwinds_then_foreign {A B} (m : FFI JavaWorld A) (f : A -> FFI JavaWorld B) w p :
  (∀ a w', foreign (f a) w') → unwinds (m ≫= f) w p ↔ unwinds m w p.
Proof.
  intros Hf. unfold unwinds, mbind, FFI_bind. destruct (m w) as [[[a|e]|q|] w'] eqn:E; cbn;
    [|naive_solver..].
  destruct (keeps_returns _ _ _ (Hf a w')) as (r & w2 & -> & _). naive_solver.
Qed.
Lemma filtered_unwinds w q h text limit filter p :
  readers w !! q = Some h →
  unwinds (match filter with
           | Some f => bs ← read_byte_array f; on_reader q (Reader.search_with_roaring_filter text limit bs)
           | None => on_reader q (Reader.search text limit)
           end) w p ↔
  ∃ bs j', match filter with
           | Some f => object_is_null f = false ∧ ∃ l, convert_byte_array f (jvm w) = (Ok l, j') ∧ bs = Some l
           | None => j' = jvm w ∧ bs = None
           end ∧ (core_search text limit bs (with_reader_jvm j' (reader_inner h))).1 = Err (Panicked p).
Proof.
  intros Hh. destruct filter as [f|]; [|rewrite (on_reader_unwinds _ h) by done; naive_solver].
  unfold read_byte_array. destruct (object_is_null f); [unfold unwinds, mbind, FFI_bind, ffi_fail; cbn; naive_solver|].
  rewrite env_unwinds. split.
  - intros (l & j & Hl & Hu). rewrite (on_reader_unwinds _ h) in Hu by done. exists (Some l), j. by split; [eauto|].
  - intros (bs & j & (_ & l & Hl & ->) & Hc). exists l, j. by rewrite (on_reader_unwinds _ h).
Qed.
Lemma search_unwinds w n q limit filter p :
  java_world_ok w → live_handle readers w n →
  unwinds (search n q limit filter) w p ↔ search_panics w n q limit filter p.
Proof.
  intros Hok Hl. unfold search. rewrite handle_unwinds; [|by intros a h Ha; apply (proj2 Hok a h)|done].
  setoid_rewrite env_unwinds.
  setoid_rewrite foreign_unwinds; [|by intros; apply foreign_reads, reads_lift].
  unfold ffi_lift, validate_search_limit.
  setoid_rewrite unwinds_then_foreign; [|by intros; apply foreign_result].
  unfold search_panics. split.
  - intros (h & Hn & Hh & text & j & Htext & lim & w' & [= Hlim <-] & Hu).
    destruct (Z.leb_spec limit 0); [done|]. injection Hlim as <-.
    apply (filtered_unwinds _ _ h) in Hu as (bs & j' & Hf & Hc); [|done]. by exists h, text, j, bs, j'.
  - intros (h & text & j & bs & j' & Hn & Hh & Htext & Hpos & Hf & Hc). exists h. do 2 (split; [done|]).
    exists text, j. split; [done|]. destruct (Z.leb_spec limit 0); [lia|]. eexists _, _. split; [reflexivity|].
    apply (filtered_unwinds _ _ h); [done|]. by exists bs, j'.
Qed.
Lemma frees_method_ok engine_panic m w :
  match m with FreeWriter _ | FreeReader _ => True | _ => False end →
  java_world_ok w → method_contract w m → method_ok engine_panic m w.
Proof.
  assert (∀ {T} (m : gmap ptr T) p q h, delete p m !! q = Some h → m !! q = Some h) as Hdel.
  { intros T m' p q h. destruct (decide (q = p)) as [->|]; [by rewrite lookup_delete_eq|].
    by rewrite lookup_delete_ne. }
  destruct m; try done; intros _ [Hws Hrs] Hl; unfold method_ok, run_method, value;
    unfold FullTextNative_freeWriter, FullTextNative_freeReader.
  - destruct (Z.eqb_spec writer 0) as [|Hn]; cbn [negb]; [eexists _, _; split_and!; [reflexivity|done|done|naive_solver..]|].
    destruct (Hl Hn) as (p & h & -> & Hh). destruct (Hws _ _ Hh) as [Hp _]. rewrite jlong_roundtrip by lia. rewrite Hh.
    eexists _, _. split_and!; [reflexivity| |done| |done|done].
    + cbn [address_of]. rewrite jlong_roundtrip by lia. split; cbn; [|intros q Hq; by rewrite lookup_delete_ne|done].
      intros _. split; [|done]. intros q h' Hq%Hdel. by apply Hws.
    + intros v [= <-]. right. split; [done|]. intros _. cbn. rewrite jlong_roundtrip by lia. apply lookup_delete_eq.
  - destruct (Z.eqb_spec reader 0) as [|Hn]; cbn [negb]; [eexists _, _; split_and!; [reflexivity|done|done|naive_solver..]|].
    destruct (Hl Hn) as (p & h & -> & Hh). pose proof (Hrs _ _ Hh) as Hp. rewrite jlong_roundtrip by lia. rewrite Hh.
    eexists _, _. split_and!; [reflexivity| |done| |done|done].
    + cbn [address_of]. rewrite jlong_roundtrip by lia. split; cbn; [|done|intros q Hq; by rewrite lookup_delete_ne].
      intros _. split; [done|]. intros q h' Hq%Hdel. by eapply Hrs.
    + intros v [= <-]. right. split; [done|]. intros _. cbn. rewrite jlong_roundtrip by lia. apply lookup_delete_eq.
Qed.

(** *** Additions *)
Lemma add_document_tame w n row text :
  java_world_ok w → live_handle writers w n → row ≤ i64_max → tame (jlong_as_ptr n) (Jni.add_document n row text) w.
Proof.
  intros Hok Hl Hr. apply tame_handle; [by intros p h Hp; apply (proj1 Hok p h)|done|]. intros h Hh.
  apply tame_foreign; [apply foreign_env|]. intros text' w1 [Hw1 _].
  eapply tame_on_writer; [by rewrite Hw1|]. by apply add_document_keeps.
Qed.
Lemma add_document_unwinds w n row text p :
  java_world_ok w → live_handle writers w n →
  unwinds (Jni.add_document n row text) w p ↔ add_panics w n row text p.
Proof.
  intros Hok Hl. unfold Jni.add_document, add_panics.
  rewrite handle_unwinds; [|by intros a h Ha; apply (proj1 Hok a h)|done]. setoid_rewrite env_unwinds. split.
  - intros (h & Hn & Hh & s & j & Hs & Hp). rewrite (on_writer_unwinds _ h) in Hp by done. by exists h, s, j.
  - intros (h & s & j & Hn & Hh & Hs & Hp). exists h. do 2 (split; [done|]). exists s, j.
    by rewrite (on_writer_unwinds _ h).
Qed.
Lemma add_fields_tame w n row names texts :
  java_world_ok w → live_handle writers w n → row ≤ i64_max →
  tame (jlong_as_ptr n) (Jni.add_document_fields n row names texts) w.
Proof.
  intros Hok Hl Hr. apply tame_handle; [by intros p h Hp; apply (proj1 Hok p h)|done|]. intros h Hh.
  apply tame_foreign; [apply foreign_pairs|]. intros fields w1 [Hw1 _].
  eapply tame_on_writer; [by rewrite Hw1|]. by apply add_document_fields_keeps.
Qed.
Lemma add_fields_unwinds w n row names texts p :
  java_world_ok w → live_handle writers w n →
  unwinds (Jni.add_document_fields n row names texts) w p ↔ add_fields_panics w n row names texts p.
Proof.
  intros Hok Hl. unfold Jni.add_document_fields, add_fields_panics.
  rewrite handle_unwinds; [|by intros a h Ha; apply (proj1 Hok a h)|done].
  setoid_rewrite foreign_unwinds; [|by intros; apply foreign_pairs].
  assert (∀ fields w1, string_pair_arrays names texts w = (Returned (Ok fields), w1) → writers w1 = writers w) as Hsame
    by (intros fields w1 Hf; by destruct (foreign_Ok _ _ _ _ (foreign_pairs _ _ _) Hf)).
  split.
  - intros (h & Hn & Hh & fields & w1 & Hf & Hp).
    rewrite (on_writer_unwinds _ h) in Hp by (by rewrite (Hsame _ _ Hf)). by exists h, fields, w1.
  - intros (h & fields & w1 & Hn & Hh & Hf & Hp). exists h. do 2 (split; [done|]). exists fields, w1. split; [done|].
    by rewrite (on_writer_unwinds _ h) by (by rewrite (Hsame _ _ Hf)).
Qed.

(** *** The contracts are enough *)
Ltac by_closed := intros ? He; cbn in He; repeat case_match; simplify_eq; apply handle_closed.
Lemma contract_method_ok engine_panic m w :
  java_world_ok w → method_contract w m → method_ok engine_panic m w.
Proof.
  intros Hok Hm. pose proof Hok as [Hws Hrs]. pose proof Hm as Hall.
  assert (∀ p h, writers w !! p = Some h → 0 < p ≤ usize_max) as Hwr by (intros p h Hp; by apply (Hws p h)).
  assert (∀ p h, readers w !! p = Some h → 0 < p ≤ usize_max) as Hrr by (intros p h Hp; by apply (Hrs p h)).
  destruct m; cbn [method_contract] in Hall; try by (apply frees_method_ok; done).
  - destruct Hall as (Hp & _).
    eapply (method_native _ _ _ _ _ 0 VLong);
      [reflexivity|done|by apply create_writer_tame| |apply create_writer_unwinds|done].
    intros a w' [-> ?]%create_writer_Ok. split_and!; [done|by apply ptr_as_jlong_nonzero|done].
  - destruct Hall as [Hl Hr].
    by eapply (method_native _ _ _ _ _ tt (λ _, VVoid));
      [..|apply add_document_tame|done|intros; apply add_document_unwinds|by_closed].
  - destruct Hall as [Hl Hr].
    by eapply (method_native _ _ _ _ _ tt (λ _, VVoid));
      [..|apply add_fields_tame|done|intros; apply add_fields_unwinds|by_closed].
  - by eapply (method_native _ _ _ _ _ tt (λ _, VVoid));
      [..|apply write_index_tame|done|intros; apply write_index_unwinds|by_closed].
  - destruct Hall as (Hp & _).
    eapply (method_native _ _ _ _ _ 0 VLong); [reflexivity|done|by apply open_reader_tame| |apply open_reader_unwinds|done].
    intros a w' [-> ?]%open_reader_Ok. split_and!; [done|by apply ptr_as_jlong_nonzero|done].
  - eapply (method_native _ _ _ _ _ null_object VObject);
      [reflexivity|done|by apply search_tame|by eexists|by intros; apply search_unwinds|by_closed].
  - eapply (method_native _ _ _ _ _ null_object VObject);
      [reflexivity|done|by apply search_tame|by eexists|by intros; apply search_unwinds|by_closed].
  - eapply (method_native (λ _, True) _ _ _ _ tt (λ _, VVoid)); [reflexivity|done| |done| |by_closed].
    + apply tame_handle; [done..|]. intros h Hh. by eapply tame_on_reader.
    + intros p. unfold Jni.prewarm. rewrite handle_unwinds by done. unfold method_panics, prewarm_panics.
      split; intros (h & Hn & Hh & Hp); exists h; rewrite (on_reader_unwinds _ h) in * by done; done.
  - assert (quiet (jlong_as_ptr reader) (Jni.read_metrics reader) w) as Hq.
    { apply tame_handle; [done..|]. intros h Hh. apply tame_bind; [by eapply tame_on_reader|].
      intros snap w1 _ _. apply foreign_tame, foreign_env. }
    eapply (method_native _ _ _ _ _ null_object VObject);
      [reflexivity|done|exact Hq|by eexists|by intros; eapply quiet_unwinds|by_closed].
Qed.

(** C6: when Java passes 0 or handles it has been given and has not freed, no
    native method meets undefined behaviour, whatever the virtual machine, the
    engine and the files do.  A method aborts the process exactly when, its
    arguments read, the core panics in what the method is for (creating a
    writer, adding, writing, opening, searching, warming up), which nothing in
    the bridge catches; that call is the last, and without such a panic every
    call of the program returns.  A call that returns either throws and returns the error
    value of its type, or has done what it is for (a new handle is not 0 and
    live, a freed one is gone); a method on a closed handle throws and changes
    nothing; only the handle of the call changes, and every writer stays well
    formed. *)
Theorem methods_never_undefined engine_panic ms w :
  java_world_ok w → method_contracts engine_panic w ms →
  java_world_ok (run_methods engine_panic ms w).2 ∧
  (List.length (run_methods engine_panic ms w).1 = List.length ms ∨
   ∃ xs p, (run_methods engine_panic ms w).1 = xs ++ [Aborts p]) ∧
  ∀ i x, (run_methods engine_panic ms w).1 !! i = Some x →
    let w1 := (run_methods engine_panic (take i ms) w).2 in
    ∃ m w2, ms !! i = Some m ∧ run_method engine_panic m w1 = (x, w2) ∧
      only_handle (address_of m) w1 w2 ∧
      match x with
      | Gives v => (∃ e w3, w2 = throw e w3 ∧ v = error_value m) ∨ succeeded m v w2
      | Aborts _ => List.length (run_methods engine_panic ms w).1 = S i
      | Misbehaves => False
      end ∧
      (∀ p, x = Aborts p ↔ method_panics w1 m p) ∧
      (∀ e, closed m = Some e → x = Gives (error_value m) ∧ w2 = throw e w1).
Proof.
  revert w. induction ms as [|m ms IH]; intros w Hok Hms; [split_and!; [done|by left|by intros [|i]]|].
  destruct Hms as [Hm Hms].
  destruct (contract_method_ok engine_panic m w Hok Hm) as (x & w' & Hr & Ho & Hdef & Hgives & Hpanic & Hclosed).
  pose proof (oh_ok _ _ _ Ho Hok) as Hok'. cbn [run_methods]. rewrite Hr in Hms |- *.
  destruct x as [v|p|]; [|split_and!; [done|right; by exists [], p|]|done].
  - destruct (IH w' Hok' Hms) as (Hok2 & Hend & Hall).
    destruct (run_methods engine_panic ms w') as [xs w2] eqn:Ems. cbn [fst snd] in *. split_and!; [done|..].
    + destruct Hend as [Hlen|(ys & p & ->)]; [left; cbn; lia|right; by exists (Gives v :: ys), p].
    + intros [|i] x Hx; cbn in Hx.
      * injection Hx as <-. exists m, w'. split_and!; auto.
      * cbn [lookup list_lookup take run_methods]. rewrite Hr.
        destruct (run_methods engine_panic (take i ms) w') as [xs1 w3] eqn:Et. specialize (Hall i x Hx).
        rewrite Et in Hall. destruct Hall as (m' & w4 & ? & ? & ? & Hx' & Hmore). exists m', w4.
        split_and!; try done; [|apply Hmore..]. destruct x; [done|cbn; lia|done].
  - intros [|i] x Hx; [injection Hx as <-|done]. exists m, w'. by split_and!.
Qed.
End Methods.

(** ** Searching from Java *)

(** The arrays and result objects of the virtual machine. *)
Class JavaResults (J : Type) `{JNIEnv J} (long_array : J -> JObject -> option (list Z))
    (float_array : J -> JObject -> option (list f32))
    (found : J -> JObject -> option (list Z * list f32)) : Prop := {
  new_long_spec n a j j' : new_long_array n j = (Ok a, j') →
    0 ≤ n ∧ long_array j' a = Some (replicate (Z.to_nat n) 0);
  set_long_spec a l old j j' : set_long_array_region a 0 l j = (Ok tt, j') → long_array j a = Some old →
    blen l ≤ blen old ∧ long_array j' a = Some (l ++ drop (List.length l) old);
  new_float_spec n b j j' : new_float_array n j = (Ok b, j') →
    0 ≤ n ∧ float_array j' b = Some (replicate (Z.to_nat n) f32_zero) ∧
    ∀ a l, long_array j a = Some l → long_array j' a = Some l;
  set_float_spec b l old j j' : set_float_array_region b 0 l j = (Ok tt, j') → float_array j b = Some old →
    blen l ≤ blen old ∧ float_array j' b = Some (l ++ drop (List.length l) old) ∧
    ∀ a l, long_array j a = Some l → long_array j' a = Some l;
  new_result_spec a b o ids ss j j' :
    new_object "org/apache/paimon/index/fulltext/FullTextSearchResult" "([J[F)V"
      [JObjectValue a; JObjectValue b] j = (Ok o, j') →
    long_array j a = Some ids → float_array j b = Some ss →
    object_is_null o = false ∧ found j' o = Some (ids, ss);
  null_is_null : object_is_null null_object = true
}.

Section Found.
Context `{Platform} `{Unicode} `{JsonText} `{Display} `{HashOrder} `{AnalysisEngine} {J : Type}.
Context `{JavaResults J long_array float_array found_in}.
Context {Schema I : Type} `{WriterEngine Schema I}.
Context {Ix Parsed : Type} `{ReaderEngine (MeteredSeekRead (JavaInput J)) Ix Parsed}.
Context (live : Searcher -> DocAddress -> Prop) (row_of : Searcher -> DocAddress -> Z).
Context (has_term : Searcher -> DocAddress -> Z -> str -> bool).
Context (has_similar : Searcher -> DocAddress -> Z -> str -> Z -> str -> Z -> bool).
Context (parsed_matches : Searcher -> DocAddress -> Parsed -> bool).
Context (score_of : Searcher -> EngineQuery Parsed -> DocAddress -> f32).

Notation JavaWorld := (JavaWorld (J := J) (Schema := Schema) (I := I) (Ix := Ix) (Parsed := Parsed)).

Lemma env_Ok {A} f (m : ST J str A) (w : JavaWorld) a w' :
  env f m w = (Returned (Ok a), w') → m (jvm w) = (Ok a, jvm w').
Proof. unfold env. destruct (m (jvm w)) as [[x|e] j]; [|done]. by intros [= <- <-]. Qed.

Lemma filled {A} (l : list A) (x : A) n :
  blen l = n → l ++ drop (List.length l) (replicate (Z.to_nat n) x) = l.
Proof. intros <-. rewrite drop_ge, app_nil_r; [done|]. rewrite length_replicate. unfold blen. lia. Qed.

(** The object of a result holds it. *)
Lemma java_result_Ok res (w : JavaWorld) o w' :
  java_result res w = (Returned (Ok o), w') →
  object_is_null o = false ∧ found_in (jvm w') o = Some (row_ids res, scores res).
Proof.
  unfold java_result. intros Hr.
  apply ffi_bind_Ok in Hr as (a & w1 & Ha%env_Ok & Hr). destruct (new_long_spec _ _ _ _ Ha) as [_ Ha1].
  apply ffi_bind_Ok in Hr as ([] & w2 & Hl%env_Ok & Hr). destruct (set_long_spec _ _ _ _ _ Hl Ha1) as [Hle Ha2].
  apply ffi_bind_Ok in Hr as (b & w3 & Hb%env_Ok & Hr). destruct (new_float_spec _ _ _ _ Hb) as (_ & Hb3 & Ha3).
  apply ffi_bind_Ok in Hr as ([] & w4 & Hs%env_Ok & Hr). destruct (set_float_spec _ _ _ _ _ Hs Hb3) as (Hle' & Hb4 & Ha4).
  apply env_Ok in Hr.
  assert (∀ {A} (l : list A) (x : A), blen l ≤ blen (replicate (Z.to_nat (usize_as_i32 (blen l))) x) →
    blen l = usize_as_i32 (blen l)) as Hexact.
  { intros A l x Hb'. unfold blen at 2 in Hb'. rewrite length_replicate in Hb'.
    pose proof (blen_nonneg l) as Hnn. symmetry. destruct (decide (0 ≤ usize_as_i32 (blen l))).
    - apply usize_as_i32_exact; lia.
    - assert (blen l = 0) as -> by lia. done. }
  rewrite filled in Ha2 by (by eapply Hexact). rewrite filled in Hb4 by (by eapply Hexact).
  eapply new_result_spec; [exact Hr| |exact Hb4]. by apply Ha4, Ha3.
Qed.

Definition java_search (reader_ptr : Z) (query : JObject) (limit : Z) (filter : option JObject) :
    JavaWorld -> Exit JObject * JavaWorld :=
  match filter with
  | Some f => FullTextNative_searchWithRoaringFilter reader_ptr query limit f
  | None => FullTextNative_search reader_ptr query limit
  end.
(** The serialized filter Java hands over, read on the machine state [j]. *)
Definition filter_read (j : J) (filter : option JObject) (bs : option (list byte)) : Prop :=
  match filter, bs with
  | Some f, Some l => (convert_byte_array f j).1 = Ok l
  | None, None => True
  | _, _ => False
  end.

(** A handle Java got from the library resolves to its object. *)
Lemma handle_resolves {T} (objects : JavaWorld -> gmap ptr T) p h (w : JavaWorld) name :
  objects w !! p = Some h → 0 < p ≤ usize_max → handle objects (ptr_as_jlong p) name w = (Returned (Ok p), w).
Proof.
  intros Hh Hp. unfold handle. pose proof (ptr_as_jlong_nonzero p Hp) as Hnz. apply Z.eqb_neq in Hnz. rewrite Hnz.
  assert (0 ≤ p ≤ usize_max) as Hp' by lia. rewrite (jlong_roundtrip p Hp'). unfold is_null.
  destruct (Z.eqb_spec p 0); [lia|]. by rewrite Hh.
Qed.
Lemma env_readers {A} f (m : ST J str A) (w : JavaWorld) o w' :
  env f m w = (o, w') → readers w' = readers w.
Proof. unfold env. destruct (m (jvm w)) as [r j]. by intros [= _ <-]. Qed.
Lemma on_java_reader_Ok {A} p h (m : ST FullTextIndexReader (Fault FtIndexError) A) (w : JavaWorld) a w' :
  readers w !! p = Some h → on_reader p m w = (Returned (Ok a), w') →
  ∃ s', m (with_reader_jvm (jvm w) (reader_inner h)) = (Ok a, s').
Proof.
  intros Hh. unfold on_reader. rewrite Hh. destruct (m _) as [[x|[e|q]] s']; [|done..]. intros [= -> _]. by exists s'.
Qed.

(** The search of the native method is the core's, with the filter it has read. *)
Lemma java_core_search p h text limit filter (w : JavaWorld) res w' :
  readers w !! p = Some h →
  (match filter with
   | Some roaring_filter =>
       roaring_filter ← read_byte_array roaring_filter;
       on_reader p (Reader.search_with_roaring_filter text limit roaring_filter)
   | None => on_reader p (Reader.search text limit)
   end) w = (Returned (Ok res), w') →
  ∃ bs s' j, filter_read (jvm w) filter bs ∧
    core_search text limit bs (with_reader_jvm j (reader_inner h)) = (Ok res, s').
Proof.
  intros Hh Hres. destruct filter as [f|].
  - apply ffi_bind_Ok in Hres as (l & w5 & Hl & Hres). unfold read_byte_array in Hl.
    destruct (object_is_null f); [done|]. pose proof (env_readers _ _ _ _ _ Hl) as Hr. apply env_Ok in Hl.
    rewrite <- Hr in Hh. destruct (on_java_reader_Ok _ _ _ _ _ _ Hh Hres) as [s' Hs'].
    exists (Some l), s'. eexists. split; [cbn; by rewrite Hl|exact Hs'].
  - destruct (on_java_reader_Ok _ _ _ _ _ _ Hh Hres) as [s' Hs']. exists None, s'. by eexists.
Qed.

(** C7: a search from Java on an open reader either throws and returns null,
    or returns an object whose arrays hold exactly the row ids and the scores
    of the documents that answer the query string under the filter, for a
    limit that was positive. *)
Theorem java_search_delivers p reader_ptr query limit filter w h obj w' :
  readers w !! p = Some h → reader_ptr = ptr_as_jlong p → 0 < p ≤ usize_max →
  SearchLaws live row_of has_term has_similar parsed_matches (row_id_field (config (fr_metadata (reader_inner h)))) →
  RankLaws live row_of has_term has_similar parsed_matches score_of
    (row_id_field (config (fr_metadata (reader_inner h)))) →
  limit ≤ i32_max →
  java_search reader_ptr query limit filter w = (Gives obj, w') →
  (object_is_null obj = true ∧ ∃ e w1, w' = throw e w1) ∨
  (object_is_null obj = false ∧ 0 < limit ∧ ∃ text j bs spec accepts se built docs,
     get_string query (jvm w) = (Ok text, j) ∧ from_json text = Ok spec ∧
     filter_read j filter bs ∧ filter_decodes bs accepts ∧
     answer live row_of has_term has_similar parsed_matches score_of (reader_inner h)
       se spec built accepts limit docs ∧
     found_in (jvm w') obj = Some (row_of se <$> docs, score_of se built <$> docs)).
Proof.
  intros Hh -> Hp Hlaws Hrank Hmax Hrun.
  assert (java_search (ptr_as_jlong p) query limit filter w
    = native null_object (search (ptr_as_jlong p) query limit filter) w) as Hs by (by destruct filter).
  rewrite Hs in Hrun. clear Hs. unfold native in Hrun.
  destruct (search (ptr_as_jlong p) query limit filter w) as [[[o|e]|pl|] w1] eqn:Es; try done;
    injection Hrun as <- <-; [right|left; split; [apply null_is_null|by eexists _, _]].
  unfold search in Es. apply ffi_bind_Ok in Es as (q & w2 & Hq & Es).
  rewrite (handle_resolves readers p h w "reader" Hh Hp) in Hq. injection Hq as <- <-.
  apply ffi_bind_Ok in Es as (text & w2 & Htext & Es).
  pose proof (env_readers _ _ _ _ _ Htext) as Hr2. apply env_Ok in Htext.
  apply ffi_bind_Ok in Es as (lim & w3 & Hlim & Es). injection Hlim as Hlim <-. unfold validate_search_limit in Hlim.
  destruct (Z.leb_spec limit 0) as [|Hpos]; [done|]. injection Hlim as <-.
  rewrite i32_as_usize_small in Es by lia.
  apply ffi_bind_Ok in Es as (res & w4 & Hres & Es).
  destruct (java_result_Ok _ _ _ _ Es) as [Hnn Hfound]. rewrite <- Hr2 in Hh.
  destruct (java_core_search _ _ _ _ _ _ _ _ Hh Hres) as (bs & s' & j & Hbs & Hcore).
  assert (0 ≤ limit) as Hnneg by lia.
  destruct (core_search_answers live row_of has_term has_similar parsed_matches score_of _ _ _
    (with_reader_jvm j (reader_inner h)) _ _ Hlaws Hrank Hnneg Hcore)
    as (accepts & spec & se & built & docs & Ha & Hq & Hd & Hr & Hsc).
  rewrite Hr, Hsc in Hfound. split; [done|]. split; [done|].
  exists text, (jvm w2), bs, spec, accepts, se, built, docs. by split_and!.
Qed.
End Found.

(** ** A Java program *)
#[local] Existing Instances toy_platform toy_unicode toy_text toy_profile toy_analysis toy_schema toy_registry
  toy_writer toy_reader toy_schema_laws toy_registry_laws toy_search_laws toy_rank_laws toy_env toy_display toy_hash.

Lemma toy_new_array_spec {A} (get : ToyJvm -> gmap Z (list A)) put x n a (j j' : ToyJvm) :
  (∀ m j, get (put m j) = m) → toy_new_array get put x n j = (Ok a, j') →
  0 ≤ n ∧ get j' !! a = Some (replicate (Z.to_nat n) x) ∧ j' = put (<[a := replicate (Z.to_nat n) x]> (get j)) j.
Proof.
  intros Hget. unfold toy_new_array, toy_new. destruct (Z.leb_spec 0 n); [|done]. intros [= <- <-].
  rewrite Hget, lookup_insert_eq. done.
Qed.
Lemma toy_set_region_spec {A} (get : ToyJvm -> gmap Z (list A)) put a l old (j j' : ToyJvm) :
  (∀ m j, get (put m j) = m) → toy_set_region get put a 0 l j = (Ok tt, j') → get j !! a = Some old →
  blen l ≤ blen old ∧ get j' !! a = Some (l ++ drop (List.length l) old) ∧
  j' = put (<[a := l ++ drop (List.length l) old]> (get j)) j.
Proof.
  intros Hget. unfold toy_set_region. intros Hs Hold. rewrite Hold in Hs. change (0 =? 0) with true in Hs.
  destruct (Z.leb_spec (blen l) (blen old)); [|done]. injection Hs as <-. rewrite Hget, lookup_insert_eq. done.
Qed.

Definition toy_java_file : ToyJvm -> JObject -> list byte := toy_file_of.
#[local] Instance toy_java_files : JavaFiles ToyJvm (λ j a, t_bytes j !! a) toy_java_file.
Proof.
  split; unfold toy_java_file.
  - done.
  - intros n j. cbn. unfold toy_new_array, toy_new. destruct (Z.leb_spec 0 n); [|cbn; split; [done|congruence]].
    split; [done|]. intros a [= <-]. cbn. by rewrite lookup_insert_eq.
  - intros a l j. cbn in a |- *. unfold toy_set_region. destruct (t_bytes j !! a) as [old|] eqn:Ea; [|cbn; split; [done|congruence]].
    change (0 =? 0) with true. cbn [andb].
    destruct (Z.leb_spec (blen l) (blen old)); [|cbn; split; [done|congruence]]. split; [done|]. intros ? _ [= <-]. cbn. by rewrite lookup_insert_eq.
  - intros out a n j arr Ha. cbn in out, a, Ha |- *. rewrite Ha. destruct (Z.leb_spec 0 n); cbn [andb].
    2:{ exists []. rewrite app_nil_r. split_and!; [apply prefix_nil|done|done]. }
    destruct (Z.leb_spec n (blen arr)); [|exists []; rewrite app_nil_r; split_and!; [apply prefix_nil|done|done]].
    eexists. split_and!; [done| |done]. unfold toy_file_of at 1. cbn. by rewrite lookup_insert_eq.
  - done.
  - intros inp p a n j. cbn in inp, a |- *. destruct (Z.leb_spec 0 p); cbn [andb]; [|cbn; split; [done|congruence]].
    destruct (Z.leb_spec 0 n); cbn [andb]; [|cbn; split; [done|congruence]].
    destruct (Z.leb_spec (p + n) (blen (toy_file_of j inp))); [|cbn; split; [done|congruence]]. split; [done|].
    intros arr _ _ _ _. split; [done|]. cbn. by rewrite lookup_insert_eq.
  - intros a j. cbn in a |- *. unfold toy_get. split_and!; [done|done|]. intros n arr Hn Ha. rewrite Ha in Hn. by injection Hn.
  - intros a n j. cbn in a |- *. unfold toy_get. split; [done|]. intros l arr Hl Ha. rewrite Ha in Hl. cbn in Hl. by injection Hl.
Defined.

#[local] Instance toy_java_results :
  JavaResults ToyJvm (λ j a, t_longs j !! a) (λ j a, t_floats j !! a) (λ j a, t_results j !! a).
Proof.
  split.
  - intros n a j j' Hn. by apply toy_new_array_spec in Hn as (? & ? & _).
  - intros a l old j j' Hs Ha. by destruct (toy_set_region_spec _ _ _ _ _ _ _ (λ _ _, eq_refl) Hs Ha) as (? & ? & _).
  - intros n a j j' Hn. by apply toy_new_array_spec in Hn as (? & ? & ->).
  - intros a l old j j' Hs Ha. by destruct (toy_set_region_spec _ _ _ _ _ _ _ (λ _ _, eq_refl) Hs Ha) as (? & ? & ->).
  - intros a b o ids ss j j' Ho Ha Hb. cbn in a, b, o, Ha, Hb, Ho. rewrite Ha, Hb in Ho. injection Ho as <- <-. split; [done|].
    cbn. by rewrite lookup_insert_eq.
  - done.
Defined.

Lemma java_files_keep_promises_witness :
  Appends (JavaOutput ToyJvm) (written_to (java_file := toy_java_file)) ∧
  ReadsData (JavaInput ToyJvm) (served_by (java_file := toy_java_file)).
Proof. apply (java_files_keep_promises (java_file := toy_java_file)). Defined.

(** A text at 1, a query at 2, empty arrays of names at 3, a file at 4; a
    writer at the address 100 and a reader at 200. *)
Definition toy_heap : ToyJvm :=
  toy_jvm 1000 ∅ ∅ ∅ ∅ ∅ {[1 := lit "lake format"; 2 := toy_query]} {[3 := []]} None.
Definition toy_java_reader : FullTextIndexReader (R := JavaInput ToyJvm) (Ix := ToyIndex) (Parsed := str) :=
  full_text_index_reader (new_shared (metered (java_input toy_heap 4) ReadMetrics_default))
    [("paimon_custom"%string, text_analyzer SimpleTokenizer [])] None false
    (index_metadata toy_config 2 (lit "0.26.1")).
Definition ToyJavaWorld : Type :=
  JavaWorld (J := ToyJvm) (Schema := ToySchema) (I := list Document) (Ix := ToyIndex) (Parsed := str).
Definition toy_java_world : ToyJavaWorld :=
  java_world toy_heap {[100 := writer_handle (run_adds toy_adds toy_w0).2]} {[200 := reader_handle toy_java_reader]}.

Definition toy_methods : list (Method (J := ToyJvm)) := [
  AddDocument 0 7 1; CreateWriter 300 3 3; AddDocument 300 11 1; WriteIndex 300 4; AddDocument 300 12 1;
  FreeWriter 300; OpenReader 400 4; Search 200 2 5; Search 200 2 0; ReadMetrics 200; FreeReader 200; Prewarm 0].

(** The contract, checked. *)
Definition check_live {T} (objects : ToyJavaWorld -> gmap ptr T) (w : ToyJavaWorld) (n : Z) : bool :=
  (n =? 0) || ((n =? ptr_as_jlong (jlong_as_ptr n)) && bool_decide (is_Some (objects w !! jlong_as_ptr n))).
Definition check_contract (w : ToyJavaWorld) (m : Method (J := ToyJvm)) : bool :=
  match m with
  | CreateWriter p _ _ | OpenReader p _ => bool_decide (new_address w p)
  | AddDocument n row_id _ | AddDocumentFields n row_id _ _ => check_live writers w n && (row_id <=? i64_max)
  | WriteIndex n _ | FreeWriter n => check_live writers w n
  | Search n _ _ | SearchFiltered n _ _ _ | Prewarm n | ReadMetrics n | FreeReader n => check_live readers w n
  end.
Fixpoint check_contracts (w : ToyJavaWorld) (ms : list (Method (J := ToyJvm))) : bool :=
  match ms with
  | [] => true
  | m :: ms' =>
      check_contract w m &&
      match run_method PayloadOther m w with (Gives _, w') => check_contracts w' ms' | _ => true end
  end.
Lemma check_live_sound {T} (objects : ToyJavaWorld -> gmap ptr T) w n :
  check_live objects w n = true → live_handle objects w n.
Proof.
  unfold check_live, live_handle. intros [->%Z.eqb_eq | [Hn Hs]%andb_true_iff]%orb_true_iff Hnz; [done|].
  apply bool_decide_eq_true in Hs as [h Hh]. apply Z.eqb_eq in Hn. by exists (jlong_as_ptr n), h.
Qed.
Lemma check_contracts_sound w ms : check_contracts w ms = true → method_contracts PayloadOther w ms.
Proof.
  revert w. induction ms as [|m ms IH]; intros w; [done|]. cbn [check_contracts method_contracts].
  intros [Hm Hms]%andb_true_iff. split; [|by destruct (run_method _ m w) as [[v|p|] w']; [apply IH|..]].
  destruct m; cbn in Hm |- *; try apply bool_decide_eq_true in Hm; try apply andb_true_iff in Hm as [Hm ?%Z.leb_le];
    try done; try split; try done; by apply check_live_sound.
Qed.

Lemma methods_never_undefined_witness :
  java_world_ok (run_methods PayloadOther toy_methods toy_java_world).2.
Proof.
  assert (java_world_ok toy_java_world) as Hok.
  { split; intros p h Hp; cbn in Hp; apply lookup_singleton_Some in Hp as [<- <-];
      [destruct toy_added as (st & _ & Hw & _)|]; unfold usize_max, pointer_bits, toy_platform, platform64; [split; [|exact Hw]|]; lia. }
  assert (method_contracts PayloadOther toy_java_world toy_methods) as Hms
    by (apply check_contracts_sound; vm_compute; reflexivity).
  apply (methods_never_undefined PayloadOther toy_methods toy_java_world Hok Hms).
Defined.

Definition toy_query_object : JObject (J := ToyJvm) := 2.
Lemma java_search_delivers_witness :
  ∃ docs : list Z, [7] = toy_row <$> docs ∧ blen docs ≤ 5 ∧ NoDup docs.
Proof.
  assert (match java_search 200 toy_query_object 5 None toy_java_world with
    | (Gives o, w') => match t_results (jvm w') !! o with Some (ids, _) => bool_decide (ids = [7]) | None => false end
    | _ => false end = true) as Hrun by (vm_compute; reflexivity).
  assert (match java_search 200 toy_query_object 5 None toy_java_world with
    | (Gives o, _) => negb (object_is_null o) | _ => false end = true) as Hnn by (vm_compute; reflexivity).
  destruct (java_search 200 toy_query_object 5 None toy_java_world) as [[o|p|] w'] eqn:E; [|done..].
  assert (0 < 200 ≤ usize_max) as Hp by (vm_compute; split; [reflexivity|discriminate]).
  assert (5 ≤ i32_max) as Hlimit by (vm_compute; discriminate).
  destruct (java_search_delivers (long_array := λ j a, t_longs j !! a) (float_array := λ j a, t_floats j !! a)
    (found_in := λ j a, t_results j !! a) _ _ _ _ _ _ 200 200 toy_query_object 5 None toy_java_world (reader_handle toy_java_reader) o w'
    eq_refl eq_refl Hp toy_search_laws toy_rank_laws Hlimit E) as [[Hnull _] | (_ & _ & Hfound)]; [by rewrite Hnull in Hnn|].
  destruct Hfound as (text & j & bs & spec & accepts & se & built & docs & _ & _ & _ & _ & (_ & Hnd & Hle & _) & Hf).
  exists docs. cbn in Hf, Hrun. rewrite Hf in Hrun. apply bool_decide_eq_true in Hrun. by split_and!.
Defined.
