(* ===== verification/JavaRoundtrip.v ===== *)
(** * An index written and read through Java

    An environment that never refuses a call its documentation allows, and
    Java objects that serve every range inside their data, make every read of
    an archive of up to [i32::MAX] bytes succeed.  So an index written through
    a Java output opens again through a Java input over the same bytes. *)

From S2P Require Import Prelude RustStd Error IoLayer Json Tokenizer Config HeaderJson Storage StorageSpec.
From S2P Require Import Archive ArchiveSpec Query Analyzer BuildQuery Writer WriterSpec Reader ReaderSpec.
From S2P Require Import ToyEngine Native Jni ToyJava JniSpec.

(** What an environment with enough memory and an input in one piece do. *)
Class JavaObliging (J : Type) `{JNIEnv J} (byte_array : J -> JObject -> option (list Z))
    (java_file : J -> JObject -> list byte) : Prop := {
  attach_total j : is_ok (attach_current_thread j).1 = true;
  new_array_total n j : 0 ≤ n ≤ i32_max → is_ok (new_byte_array n j).1 = true;
  pread_total inp p a n j arr :
    byte_array j a = Some arr → blen arr = n → 0 ≤ p ≤ i64_max → p + n ≤ blen (java_file j inp) →
    is_ok (call_method inp "pread" "(J[BII)V" [JLong p; JObjectValue a; JInt 0; JInt n] j).1 = true;
  array_length_total a j : is_Some (byte_array j a) → is_ok (get_array_length a j).1 = true;
  get_region_total a n j arr :
    byte_array j a = Some arr → 0 ≤ n ≤ blen arr → is_ok (get_byte_array_region a 0 n j).1 = true
}.

(** References to the virtual machine and to objects: a global reference names
    the object it was made of. *)
Class JavaReferences (J : Type) `{JNIEnv J} (java_file : J -> JObject -> list byte) : Prop := {
  get_java_vm_spec j : is_ok (get_java_vm j).1 = true ∧ ∀ o, java_file (get_java_vm j).2 o = java_file j o;
  global_ref_spec o j :
    is_ok (new_global_ref o j).1 = true ∧ (∀ o', java_file (new_global_ref o j).2 o' = java_file j o') ∧
    ∀ o' j', new_global_ref o j = (Ok o', j') → ∀ j1, java_file j1 o' = java_file j1 o
}.

Section Reads.
Context `{Platform} {J : Type} `{JavaFiles J byte_array java_file} `{!JavaObliging J byte_array java_file}.
Notation served := (served_by (java_file := java_file)).

Lemma java_pread_range_total range (s : JavaInput J) :
  request_wf range → blen (served s) ≤ i32_max → in_range (served s) range →
  is_ok (java_pread_range range s).1 = true.
Proof.
  intros [Hp Hl] Hmax Hin. unfold in_range in Hin. destruct s as [j o]. unfold served_by in *. cbn [input_jvm input_object] in *.
  unfold java_pread_range, env_input, env_io, mbind, ST_bind, ST_lift, ST_gets.
  assert (i32_max ≤ i64_max) as Hmm by (vm_compute; discriminate).
  rewrite (proj2 (try_from_unsigned_Some i64_max (pos range) (pos range))) by lia.
  rewrite (proj2 (try_from_unsigned_Some i32_max (buf_len range) (buf_len range))) by lia.
  cbn [ok_or input_jvm].
  pose proof (new_array_total (buf_len range) j ltac:(lia)) as Hn.
  pose proof (new_array_spec (buf_len range) j) as Hns. destruct (new_byte_array _ j) as [[a|e] j1]; [|done].
  destruct Hns as [Hf1 Hns]. destruct (Hns a eq_refl) as [_ Ha1]. cbn [map_err input_jvm input_object].
  assert (blen (replicate (Z.to_nat (buf_len range)) 0) = buf_len range) as Hlen
    by (unfold blen; rewrite length_replicate; lia).
  assert (is_ok (call_method o "pread" "(J[BII)V"
    [JLong (pos range); JObjectValue a; JInt 0; JInt (buf_len range)] j1).1 = true) as Hok.
  { eapply pread_total; [exact Ha1|exact Hlen|lia|]. by rewrite Hf1. }
  pose proof (pread_spec o (pos range) a (buf_len range) j1) as Hr.
  destruct (call_method _ _ _ _ j1) as [[[]|e] j2]; [|done]. destruct Hr as [_ Hr].
  destruct (Hr _ eq_refl Ha1 Hlen Hp) as [_ Ha2]. cbn [map_err input_jvm input_object].
  unfold copy_java_buffer, env_input, env_io, mbind, ST_bind. cbn [input_jvm].
  pose proof (array_length_total a j2 ltac:(by eexists)) as Hal. pose proof (array_length_spec a j2) as Hals.
  destruct (get_array_length a j2) as [[n|e] j3]; [|done]. destruct Hals as (_ & Ha3 & Hn3).
  specialize (Hn3 _ _ eq_refl Ha2). cbn [map_err input_jvm input_object].
  assert (blen (u8_as_i8 <$> slice (pos range) (buf_len range) (java_file j1 o)) = buf_len range) as Hfull.
  { rewrite Hf1. unfold blen in *. rewrite length_fmap. unfold slice. rewrite length_take, length_drop. lia. }
  rewrite Hfull in Hn3. subst n. rewrite i32_as_usize_small by lia. rewrite Z.eqb_refl. cbn [negb].
  destruct (Z.ltb_spec 0 (buf_len range)); [|done]. cbn [input_jvm input_object].
  pose proof (get_region_total a (buf_len range) j3 _ (eq_trans Ha3 Ha2) ltac:(lia)) as Hg.
  by destruct (get_byte_array_region _ _ _ j3) as [[l|e] j4].
Qed.

Lemma java_pread_each_total reqs (s : JavaInput J) :
  Forall request_wf reqs → blen (served s) ≤ i32_max → Forall (in_range (served s)) reqs →
  is_ok (java_pread_each reqs s).1 = true.
Proof.
  revert s. induction reqs as [|req reqs IH]; intros s Hwf Hmax Hin; [done|].
  apply Forall_cons in Hwf as [Hr Hwf]. apply Forall_cons in Hin as [Hi Hin].
  cbn [java_pread_each]. unfold mbind, ST_bind.
  pose proof (java_pread_range_total req s Hr Hmax Hi) as Hok. pose proof (java_pread_range_spec req s) as Hs.
  destruct (java_pread_range req s) as [[buf|e] s1]; [|done]. destruct Hs as (_ & Hs & _). rewrite <- Hs in Hmax, Hin.
  specialize (IH s1 Hwf Hmax Hin). by destruct (java_pread_each reqs s1) as [[bufs|e] s2].
Qed.

#[export] Instance JavaInput_ReadsAll : ReadsAll (JavaInput J) served i32_max.
Proof.
  split.
  - pose proof usize_max_bounds. unfold i32_max, u32_max in *. lia.
  - intros reqs [j o] Hmax Hwf Hin. unfold pread, JavaInput_SeekRead, JavaInput_pread, env_input, env_io, mbind, ST_bind.
    cbn [input_jvm]. pose proof (attach_total j) as Ha. pose proof (attach_keeps j o) as Hk.
    destruct (attach_current_thread j) as [[[]|e] j1]; [|done]. cbn [map_err snd input_object] in *.
    unfold served_by in *. cbn [input_jvm input_object] in *. rewrite <- Hk in Hmax, Hin.
    by apply java_pread_each_total.
Qed.
End Reads.

(** ** Through the native methods *)
Section Roundtrip.
Context `{Platform} `{Profile} `{Unicode} `{JsonText} `{Display} `{HashOrder} `{AnalysisEngine} {J : Type}.
Context `{JavaFiles J byte_array java_file} `{!JavaObliging J byte_array java_file} `{!JavaReferences J java_file}.
Context {Schema I : Type} `{WriterEngine Schema I} {laws : SchemaLaws Schema}.
Context {Ix Parsed : Type} `{ReaderEngine (MeteredSeekRead (JavaInput J)) Ix Parsed} `{!RegistryLaws Ix}.

Notation JavaWorld := (JavaWorld (J := J) (Schema := Schema) (I := I) (Ix := Ix) (Parsed := Parsed)).
Notation JavaReader := (FullTextIndexReader (R := JavaInput J) (Ix := Ix) (Parsed := Parsed)).

(** A reader owns what is left of the input. *)
Lemma open_on_remains (i : JavaInput J) (rd : JavaReader) remains :
  open_on i = (Ok rd, remains) → input_jvm remains = reader_jvm rd.
Proof.
  unfold open_on. destruct (read_header _) as [r s1].
  destruct (_ ← r; _) as [[h dir]|e]; [|done].
  destruct (index_open dir (new_shared s1)) as [[ix|e] sh]; cbn; [|done].
  destruct (register_tokenizer _ _) as [ix'|e]; cbn; [|done]. by intros [= <- <-].
Qed.

Lemma env_io_preserves {S A B} (jvm_of : S -> J) with_jvm label (m : ST J str A) (f : S -> B) :
  (∀ j s, f (with_jvm j s) = f s) → preserves f (env_io jvm_of with_jvm label m).
Proof. intros Hf s. unfold env_io. destruct (m (jvm_of s)). apply Hf. Qed.
(** An output stays the object it is. *)
Lemma write_keeps_object (w : FullTextIndexWriter) (out : JavaOutput J) :
  Jni.output (write (w, out)).2.2 = Jni.output out.
Proof.
  unfold write. destruct (w_state w) as [st|]; [|done].
  destruct ((commit ≫= _) (index_writer st)) as [fin iw].
  match goal with |- context [match ?p with Ok _ => _ | Err _ => _ end] => destruct p as [[files h]|e] end; [|done].
  assert (preserves Jni.output (write_envelope_from_paths (W := JavaOutput J) open_file h (if_path <$> files))) as Hk.
  { apply write_envelope_from_paths_preserves.
    - intros buf. cbn. unfold JavaOutput_write_all, env_output. eauto 20 using env_io_preserves with preserves.
    - cbn. unfold JavaOutput_flush, env_output. eauto 20 using env_io_preserves with preserves. }
  specialize (Hk out). by destruct (write_envelope_from_paths _ _ _ out).
Qed.

(** The references a method takes before it acts on a file. *)
Lemma with_references {A} object (f : JObject -> FFI JavaWorld A) w :
  ∃ j o, (_ ← env id get_java_vm; o ← env id (new_global_ref object); f o) w
         = f o (java_world j (writers w) (readers w)) ∧
    (∀ o', java_file j o' = java_file (jvm w) o') ∧ ∀ j1, java_file j1 o = java_file j1 object.
Proof.
  unfold mbind, FFI_bind, env. pose proof (get_java_vm_spec (jvm w)) as [Hv Hvf].
  destruct (get_java_vm (jvm w)) as [[v|e] j1]; [|done]. cbn [map_err jvm writers readers] in *.
  pose proof (global_ref_spec object j1) as (Hg & Hgf & Halias).
  destruct (new_global_ref object j1) as [[o|e] j2]; [|done]. cbn [map_err jvm writers readers snd] in *.
  exists j2, o. split_and!; [done| |by eapply Halias]. intros o'. by rewrite Hgf, Hvf.
Qed.

(** A successful [write_index] has written to a reference to the output. *)
Lemma write_index_writes p h output w w1 :
  writers w !! p = Some h → 0 < p ≤ usize_max →
  write_index (ptr_as_jlong p) output w = (Returned (Ok tt), w1) →
  ∃ j o inner out', (∀ o', java_file j o' = java_file (jvm w) o') ∧ (∀ j1, java_file j1 o = java_file j1 output) ∧
    write (writer_inner h, java_output j o) = (Ok tt, (inner, out')) ∧
    written_to (java_file := java_file) out' = java_file (jvm w1) output.
Proof.
  intros Hh Hp. unfold write_index. unfold mbind at 1, FFI_bind at 1. rewrite (handle_resolves writers p h w "writer" Hh Hp).
  destruct (with_references output (write_on p) w) as (j & o & -> & Hj & Ho).
  unfold write_on. cbn [writers jvm readers]. rewrite Hh.
  destruct (write (writer_inner h, java_output j o)) as [[[]|[e|q]] [inner out']] eqn:Ew; [|done..].
  cbn [ffi_outcome]. intros [= <-]. exists j, o, inner, out'. split_and!; try done.
  pose proof (write_keeps_object (writer_inner h) (java_output j o)) as Hk. rewrite Ew in Hk. cbn in Hk.
  unfold written_to. cbn [jvm]. by rewrite Hk, Ho.
Qed.

(** C9: an index that [writeIndex] has written without an exception, through
    a Java output that had no bytes, opens again through a Java input that
    serves the bytes of that output, up to [i32::MAX] of them: [openReader]
    hands the engine a directory that answers every sequence of reads like
    the map from names to contents of the files the writer collected; when
    the engine opens it, the method returns the handle of a reader with the
    writer's configuration, document count and analyzer; when the engine
    reports an error it returns 0 and throws that error; and an engine that
    panics aborts the process. *)
Theorem java_roundtrip p h output w w1 entries input address w2 :
  writers w !! p = Some h → 0 < p ≤ usize_max → writer_ok (writer_inner h) →
  TokenizerConfig_typed (tokenizer_config_of (w_config (writer_inner h))) →
  trim tantivy_version_string ≠ [] → runtime_version = tantivy_version_string →
  java_file (jvm w) output = [] →
  write_index (ptr_as_jlong p) output w = (Returned (Ok tt), w1) →
  committed (writer_inner h) (Ok <$> entries) → listing_sound entries → (∃ e n, e ∈ entries ∧ archived e n) →
  java_file (jvm w2) input = java_file (jvm w1) output → blen (java_file (jvm w2) input) ≤ i32_max →
  ∃ contents directory shared,
    (∀ n c, (n, c) ∈ contents ↔ ∃ e, e ∈ entries ∧ archived e n ∧ open_file e = Ok c) ∧
    NoDup contents.*1 ∧
    (∀ ops, Forall (λ op : str * Z * Z, 0 ≤ op.1.2 ∧ 0 ≤ op.2) ops →
       (run_reads directory ops shared).1 = spec_read contents <$> ops) ∧
    match index_open directory shared with
    | (Err (Failed e), _) => ∃ j, FullTextNative_openReader address input w2
        = (Gives 0, throw (to_string (Tantivy e)) (java_world j (writers w2) (readers w2)))
    | (Err (Panicked q), _) => ∃ j, FullTextNative_openReader address input w2
        = (Aborts q, java_world j (writers w2) (readers w2))
    | (Ok _, shared') => ∃ rd : JavaReader,
        FullTextNative_openReader address input w2
          = (Gives (ptr_as_jlong address),
             java_world (reader_jvm rd) (writers w2) (<[address := reader_handle rd]> (readers w2))) ∧
        fr_shared rd = shared' ∧
        fr_metadata rd = index_metadata (w_config (writer_inner h)) (w_document_count (writer_inner h))
                           runtime_version ∧
        (∃ a, build_text_analyzer (tokenizer_config_of (w_config (writer_inner h))) = Ok a ∧
              registered (fr_index rd) (tokenizer_name (tokenizer_config_of (w_config (writer_inner h)))) = Some a)
    end.
Proof.
  intros Hh Hp Hok Htyped Hver Hrun Hempty Hwrite Hcom Hsound Hsome Hseen Hsize.
  destruct (write_index_writes _ _ _ _ _ Hh Hp Hwrite) as (j & o & inner & out' & Hj & Ho & Hw & Hout).
  destruct (with_references input (open_on_object address) w2) as (j2 & i2 & Hopening & Hfiles & Hi2).
  assert (served_by (java_file := java_file) (java_input j2 i2) = java_file (jvm w1) output) as Hserved.
  { unfold served_by. cbn. by rewrite Hi2, Hfiles. }
  destruct (written_opens (written_to (java_file := java_file)) (served_by (java_file := java_file)) (Ix := Ix) (Parsed := Parsed)
    (writer_inner h) (java_output j o) inner out' entries (java_input j2 i2))
    as (contents & directory & shared & Hc & Hnd & Hfit & Hreads & Hopen); try done.
  { unfold written_to. cbn. by rewrite Ho, Hj. }
  { by rewrite Hserved. }
  { rewrite Hserved, <- Hseen. exact Hsize. }
  exists contents, directory, shared. split_and!; [done|done|apply Hreads|].
  { eapply Forall_impl; [exact Hfit|]. intros c Hc'. rewrite Hserved, <- Hseen in Hc'.
    pose proof isize_max_bounds. lia. }
  assert (FullTextNative_openReader address input w2
    = native 0 (λ _, open_on_object address i2 (java_world j2 (writers w2) (readers w2))) w2) as ->.
  { unfold FullTextNative_openReader, native, open_reader. by rewrite Hopening. }
  unfold native, open_on_object. cbn [jvm writers readers].
  unfold FullTextIndexReader_open in Hopen. destruct (open_on (java_input j2 i2)) as [r remains] eqn:Er. cbn [fst] in Hopen.
  destruct (index_open directory shared) as [[ix|[e|q]] shared'].
  - destruct Hopen as (rd & -> & Hsh & Hmeta & Ha). exists rd. split_and!; try done.
    by rewrite (open_on_remains _ _ _ Er).
  - rewrite Hopen. by eexists.
  - rewrite Hopen. by eexists.
Qed.
End Roundtrip.

(** ** A Java program *)
#[local] Existing Instances toy_platform toy_unicode toy_text toy_profile toy_analysis toy_schema toy_registry
  toy_writer toy_reader toy_schema_laws toy_registry_laws toy_env toy_display toy_hash toy_java_files.

#[local] Instance toy_java_obliging : JavaObliging ToyJvm (λ j a, t_bytes j !! a) toy_java_file.
Proof.
  split; unfold toy_java_file.
  - done.
  - intros n j Hn. cbn. unfold toy_new_array. by destruct (Z.leb_spec 0 n); [|lia].
  - intros inp p a n j arr Ha Hlen Hp Hin. cbn in inp, a, Ha |- *. pose proof (blen_nonneg arr).
    destruct (Z.leb_spec 0 p); [|lia]. destruct (Z.leb_spec 0 n); [|lia].
    by destruct (Z.leb_spec (p + n) (blen (toy_file_of j inp))); [|lia].
  - intros a j [l Hl]. cbn in a, Hl |- *. unfold toy_get. by rewrite Hl.
  - intros a n j arr Ha Hn. cbn in a, Ha |- *. unfold toy_get. by rewrite Ha.
Defined.
#[local] Instance toy_java_references : JavaReferences ToyJvm toy_java_file.
Proof.
  split; [done|]. intros o j. split_and!; [done..|]. cbn. by intros o' j' [= <- <-].
Defined.

Definition toy_file_object : JObject (J := ToyJvm) := 4.
Definition toy_written : outcome unit * ToyJavaWorld := write_index 100 toy_file_object toy_java_world.
Lemma java_roundtrip_witness :
  ∃ rd : FullTextIndexReader (R := JavaInput ToyJvm) (Ix := ToyIndex) (Parsed := str),
    FullTextNative_openReader 300 toy_file_object toy_written.2
    = (Gives 300, java_world (reader_jvm rd) (writers toy_written.2)
                   (<[300 := reader_handle rd]> (readers toy_written.2))).
Proof.
  destruct toy_added as (st & Hst & Hok & Hcfg).
  assert (toy_written.1 = Returned (Ok tt)) as Hstatus by (vm_compute; reflexivity).
  assert (blen (toy_java_file (jvm toy_written.2) toy_file_object) <= i32_max) as Hsize by (vm_compute; discriminate).
  assert (0 < 100 ≤ usize_max) as Hp by (vm_compute; split; [reflexivity|discriminate]).
  pose proof (eq_trans (surjective_pairing toy_written) (f_equal2 pair Hstatus eq_refl)) as E.
  destruct (java_roundtrip (Ix := ToyIndex) (Parsed := str) 100 (writer_handle (run_adds toy_adds toy_w0).2) toy_file_object
    toy_java_world toy_written.2 (toy_entries (index_writer st)) toy_file_object 300 toy_written.2 eq_refl Hp Hok
    ltac:(cbn [writer_inner]; rewrite Hcfg; exact toy_config_typed) ltac:(vm_compute; discriminate) eq_refl eq_refl E)
    as (contents & dir & sh & _ & _ & _ & Hopen).
  - exists st. split; [exact Hst|reflexivity].
  - apply toy_listing_sound.
  - apply toy_archived.
  - exact eq_refl.
  - exact Hsize.
  - destruct Hopen as (rd & Hrd & _). exists rd. exact Hrd.
Defined.
