(* ===== verification/MiniAnalysis.v ===== *)
(** * Text analysis for the small engine

    The analyzers the crate builds, run: its own ICU tokenizer as the crate
    has it, the tokenizers and filters of the engine as small stand-ins (plurals
    are stemmed, one stop word and one accent are known).  Tokens keep the
    position of the tokenizer when filters drop others. *)

From S2P Require Import Prelude RustStd Native Icu Analyzer.

(** ASCII, the unified ideographs and [é]. *)
#[local] Obligation Tactic := idtac.
Program Definition mini_unicode : Unicode := {|
  char_is_alphanumeric c := ascii_alphanumeric c || ((19968 <=? c) && (c <=? 40959)) || (c =? 233);
  str_to_lowercase := fmap ascii_lower
|}.
Next Obligation.
  intros c. unfold is_ascii. intros [_ Hc%Z.ltb_lt]%andb_true_iff.
  replace (19968 <=? c) with false by (symmetry; apply Z.leb_gt; lia).
  replace (c =? 233) with false by (symmetry; apply Z.eqb_neq; lia). by rewrite !orb_false_r.
Qed.
Next Obligation. done. Qed.
#[local] Existing Instance mini_unicode.

(** A text in the encoding of this file. *)
Definition utf8 (s : string) : str :=
  match from_utf8 (String.list_byte_of_string s) with Ok text => text | Err _ => [] end.

(** ** Words *)

(** The words of the dictionary, a run of letters, digits, [_] and [.], or a
    character by itself. *)
Definition dictionary_words : list str :=
  utf8 <$> ["中文"; "英文"; "支持"; "搜索"; "开发"; "高级"; "中华"; "人民"; "北京大学"; "全文"; "检索"; "大学"]%string.
Definition is_word_char (c : char) : bool := ascii_alphanumeric c || (c =? 95) || (c =? 46) || (c =? 233).
Fixpoint run_of (p : char -> bool) (s : str) : nat :=
  match s with c :: s' => if p c then S (run_of p s') else O | [] => O end.
Definition first_word (s : str) : nat :=
  match find (λ w, bool_decide (w `prefix_of` s)) dictionary_words with
  | Some w => List.length w
  | None => Nat.max 1 (run_of is_word_char s)
  end.
Fixpoint word_segments (fuel : nat) (s : str) : list str :=
  match fuel, s with
  | O, _ | _, [] => []
  | Datatypes.S fuel', _ => take (first_word s) s :: word_segments fuel' (drop (first_word s) s)
  end.
Definition segments (s : str) : list str := word_segments (List.length s) s.
#[local] Instance mini_segmenter : WordSegmenter := λ s, ends 0 ([] :: segments s).

(** ** Tokens *)
Definition numbered (words : list str) : list (Z * str) := zip (seqZ 0 (blen words)) words.
Definition is_word (s : str) : bool := existsb char_is_alphanumeric s.
Definition grams (min max : Z) (prefix_only : bool) (s : str) : list str :=
  seqZ 0 (if prefix_only then 1 else blen s) ≫= λ o,
    omap (λ n, if o + n <=? blen s then Some (slice o n s) else None) (seqZ min (max - min + 1)).
(** The tokens of a stream of the crate. *)
Definition icu_tokens (tokenizer : Icu.IcuTokenizer) (s : str) : list (Z * str) :=
  let default_token := token [] 0 0 0 1 in
  (λ t, (position t, text_of t)) <$>
    default [] (process id (Datatypes.S (List.length s)) (IcuTokenizer_token_stream tokenizer default_token s)).
Definition run_base (base : BaseTokenizer) (s : str) : list (Z * str) :=
  match base with
  | SimpleTokenizer => numbered (List.filter is_word (split_on (λ c, negb (char_is_alphanumeric c)) s))
  | WhitespaceTokenizer => numbered (List.filter is_word (split_on (λ c, c =? 32) s))
  | RawTokenizer => [(0, s)]
  | NgramTokenizer min max prefix_only => (0,.) <$> grams min max prefix_only s
  | JiebaTokenizer _ _ => numbered (List.filter is_word (segments s))
  | IcuTokenizer false => icu_tokens IcuTokenizer_default s
  | IcuTokenizer true => icu_tokens (with_simple_split IcuTokenizer_default) s
  end.

Definition keep (p : str -> bool) (ts : list (Z * str)) : list (Z * str) := List.filter (λ t, p t.2) ts.
Definition change (f : str -> str) (ts : list (Z * str)) : list (Z * str) := prod_map id f <$> ts.
Definition singular (s : str) : str :=
  match reverse s with 115 :: s' => reverse s' | _ => s end.
Definition run_filter (f : TokenFilter) : list (Z * str) -> list (Z * str) :=
  match f with
  | RemoveLongFilter limit => keep (λ s, str_len s <? limit)
  | LowerCaser => change str_to_lowercase
  | Stemmer _ => change singular
  | StopWordFilter_new _ => keep (λ s, negb (str_eqb s (lit "the")))
  | StopWordFilter_remove words => keep (λ s, negb (bool_decide (s ∈ words)))
  | AsciiFoldingFilter => change (fmap (λ c, if c =? 233 then 101 else c))
  end.
Definition run_analyzer (a : TextAnalyzer) (s : str) : list (Z * str) :=
  foldl (λ ts f, run_filter f ts) (run_base (base_tokenizer a) s) (filters a).
