(* ===== verification/MiniEngine.v ===== *)
(** * A small engine with an index in the archive

    The fields with their tokenizers are in one file, the analyzed documents in
    another: a search finds what was analyzed when it was written, whatever
    wrote and read the archive.  The queries of the crate are run by the crate:
    fuzzy terms by [CappedFuzzyTermQuery] over the dictionary of the field,
    boosting queries by [DemoteScorer]; the engine's own queries are evaluated
    to lists of documents with their scores. *)

From S2P Require Import Prelude RustStd Error IoLayer Json Tokenizer Config HeaderJson Storage Archive.
From S2P Require Import Query Icu Analyzer BuildQuery BuildQuerySpec Writer Reader ToyEngine MiniAnalysis.
From S2P Require Import Scorers ScorersSpec Fuzzy FuzzySpec.

#[local] Existing Instances toy_platform mini_unicode toy_profile toy_analysis toy_schema toy_registry
  toy_levenshtein toy_term toy_terminated value_explanation.

(** ** Values as bytes *)
Definition to_bytes {A} `{Countable A} (a : A) : list byte := positive_to_bytes (encode a).
Definition of_bytes {A} `{Countable A} (bs : list byte) : option A := positive_of_bytes bs ≫= decode.

(** ** Writing *)
Definition MiniHandle : Type := ToyIndex * ToySchema.
#[local] Instance mini_handle_registry : TokenizerRegistry MiniHandle := {
  register n a h := (register n a h.1, h.2);
  registered h n := registered h.1 n
}.
(** The fields, each text field with its tokenizer, and the numbers or the
    tokens that a document gives to its fields. *)
Definition MiniField : Type := str * option string.
Definition MiniDocument : Type := list (Z * (Z + list (Z * str))).
Definition MiniWriter : Type := MiniHandle * list MiniDocument.
Definition field_tokenizer (t : FieldType) : option string :=
  match t with TextField name _ => Some name | U64Field _ _ _ => None end.
Definition mini_fields (s : ToySchema) : list MiniField := prod_map id field_tokenizer <$> s.
Definition no_tokenizer : TantivyError := tantivy_error [Txt "no such tokenizer"].

Section Fields.
Context {Ix : Type} `{TokenizerRegistry Ix} (ix : Ix) (fields : list MiniField).
Definition field_tokens (field : Z) (text : str) : result TantivyError (list (Z * str)) :=
  analyzer ← ok_or (f ← fields !! Z.to_nat field; name ← f.2; registered ix name) no_tokenizer;
  Ok (run_analyzer analyzer text).
Definition index_value (v : Z * FieldValue) : result TantivyError (Z * (Z + list (Z * str))) :=
  match v.2 with
  | U64 n => Ok (v.1, inl n)
  | Text text => tokens ← field_tokens v.1 text; Ok (v.1, inr tokens)
  end.
End Fields.

Definition plain_file (name : string) (bytes : list byte) : DirEntry :=
  dir_entry (OsUnicode (lit name)) (Ok true) (Ok (blen bytes)) (Ok bytes).
#[local] Instance mini_writer : WriterEngine ToySchema MiniWriter := {
  TempDir := unit;
  IndexHandle := MiniHandle;
  temp_dir_new := Ok tt;
  create_in_dir _ schema := Ok ([], schema);
  writer_with_num_threads _ _ h := Ok (h, []);
  engine_add_document d w :=
    match result_mapM (index_value w.1 (mini_fields w.1.2)) d with
    | Ok doc => (Ok tt, (w.1, w.2 ++ [doc]))
    | Err e => (Err (Failed e), w)
    end;
  commit w := (Ok tt, w);
  wait_merging_threads w := (Ok tt, w);
  read_dir _ w := Ok (Ok <$> [plain_file "store" (to_bytes w.2); plain_file "writer.lock" [];
                              plain_file "meta.json" (to_bytes (mini_fields w.1.2))]);
  tantivy_version_string := lit "0.26.1"
}.

(** ** Reading *)
Definition MiniIndex : Type := path_map ArchivedFile * list MiniField * ToyIndex.
#[local] Instance mini_registry : TokenizerRegistry MiniIndex := {
  register n a ix := (ix.1, register n a ix.2);
  registered ix n := registered ix.2 n
}.
(** The fields and the documents. *)
Definition MiniSearcher : Type := list MiniField * list MiniDocument.

(** The tokens of each value of a field. *)
Definition tokens_in (se : MiniSearcher) (d : Z) (field : Z) : list (list (Z * str)) :=
  omap (λ v : Z * (Z + list (Z * str)),
    match v.2 with inr ts => if v.1 =? field then Some ts else None | inl _ => None end)
    (default [] (se.2 !! Z.to_nat d)).
Definition text_words (se : MiniSearcher) (d : Z) (field : Z) : list (list str) :=
  (λ ts, ts.*2) <$> tokens_in se d field.
Definition number_of (doc : MiniDocument) (field : Z) : Z :=
  default 0 (head (omap (λ v : Z * (Z + list (Z * str)),
    match v.2 with inl n => if v.1 =? field then Some n else None | inr _ => None end) doc)).
Definition all_docs (se : MiniSearcher) : list Z := seqZ 0 (blen se.2).
Definition docs_with (se : MiniSearcher) (field : Z) (word : str) : list Z :=
  List.filter (λ d, existsb (λ ws, bool_decide (word ∈ ws)) (text_words se d field)) (all_docs se).
Definition mini_row (se : MiniSearcher) (field : str) (d : Z) : Z :=
  match toy_field_number 0 se.1.*1 field with
  | Some n => number_of (default [] (se.2 !! Z.to_nat d)) n
  | None => 0
  end.

(** The dictionary of a field: its words in the order of their bytes. *)
Fixpoint str_lt (a b : str) : bool :=
  match a, b with
  | _, [] => false
  | [], _ :: _ => true
  | x :: a', y :: b' => (x <? y) || ((x =? y) && str_lt a' b')
  end.
Fixpoint insert_by {A} (before : A -> A -> bool) (x : A) (l : list A) : list A :=
  match l with [] => [x] | y :: l' => if before x y then x :: l else y :: insert_by before x l' end.
Definition sort_by {A} (before : A -> A -> bool) (l : list A) : list A := foldr (insert_by before) [] l.
Definition dictionary (se : MiniSearcher) (field : Z) : list str :=
  sort_by str_lt (remove_dups (concat (all_docs se ≫= λ d, text_words se d field))).
#[local] Instance mini_segment : SegmentApi MiniSearcher (MiniSearcher * Z) string := λ se field, Ok (se, field).
#[local] Instance mini_inverted : InvertedIndexApi (MiniSearcher * Z) str string := {
  dict_search A St _ ii a :=
    Ok (List.filter (λ w, toy_search a (aut_start a) (as_bytes w)) (dictionary ii.1 ii.2));
  read_block_postings ii word := Ok [docs_with ii.1 ii.2 word; []]
}.

(** *** Scored documents *)
Record Scored : Type := scored { hits : list (Z * f32) }.
#[local] Instance Scored_DocSet : DocSet Scored := {
  ds_advance s := let l := tail (hits s) in (first_doc l.*1, scored l);
  ds_seek t s := let l := drop_while (λ h : Z * f32, h.1 <? t) (hits s) in (first_doc l.*1, scored l);
  ds_doc s := first_doc (hits s).*1;
  ds_size_hint s := blen (hits s)
}.
#[local] Instance Scored_Scorer : Scorer Scored := λ s, (default f32_zero (snd <$> head (hits s)), s).
(** A query that has been evaluated weighs what it found. *)
#[local] Instance Scored_query : WeightedQuery Scored string Scored := λ q _, Ok q.
Definition score_of_doc (doc : Z) (l : list (Z * f32)) : option f32 := snd <$> find (λ h, h.1 =? doc) l.
#[local] Instance Scored_weight : Weight Scored MiniSearcher Scored string f32 := {
  w_scorer q _ boost := Ok (scored (prod_map id (f32_mul boost) <$> hits q));
  w_explain q _ doc := ok_or (score_of_doc doc (hits q)) "Document does not match"%string;
  w_count q _ := Ok (blen (hits q))
}.

(** The collector: the documents of a scorer with their scores. *)
Fixpoint collect {S} `{Scorer S} (fuel : nat) (s : S) : list (Z * f32) :=
  match fuel with
  | O => []
  | Datatypes.S fuel' =>
      if ds_doc s =? TERMINATED then []
      else let '(score, s) := sc_score s in (ds_doc s, score) :: collect fuel' (ds_advance s).2
  end.

(** *** Queries *)
Definition MiniParsed : Type := list (Z * list (Z * str)).
(** A phrase in some fields: its tokens at the distances they have in it. *)
Definition phrase_in (phrase ts : list (Z * str)) : bool :=
  match phrase with
  | [] => false
  | (o, word) :: _ => existsb (λ t, str_eqb t.2 word &&
      forallb (λ p, bool_decide ((t.1 + (p.1 - o), p.2) ∈ ts)) phrase) ts
  end.
Definition docs_parsed (se : MiniSearcher) (p : MiniParsed) : list Z :=
  List.filter (λ d, existsb (λ f, existsb (phrase_in f.2) (tokens_in se d f.1)) p) (all_docs se).
(** The parser of phrases between quotes, over the analyzers of the fields. *)
Definition mini_parse (ix : MiniIndex) (fields : list Z) (text : str) : result message MiniParsed :=
  result_mapM (λ field,
    tokens ← map_err (λ _, [Txt "unknown tokenizer"])
      (field_tokens ix ix.1.2 field (List.filter (λ c, negb (c =? QUOTE)) text));
    Ok (field, tokens)) fields.

Definition const_score (score : f32) (docs : list Z) : list (Z * f32) := (λ d, (d, score)) <$> docs.
Definition run_fuzzy (se : MiniSearcher) (q : CappedFuzzyTermQuery (Z * str)) : list (Z * f32) :=
  match (weight ← CappedFuzzyTermQuery_weight id q true; CappedAutomatonWeight_scorer weight se f32_one) with
  | Ok (docs, score) => const_score score (sds_remaining docs)
  | Err _ => []
  end.
Definition run_demote (se : MiniSearcher) (q : DemoteQuery Scored Scored) : list (Z * f32) :=
  match (weight ← DemoteQuery_weight q true;
         match weight with
         | inl positive => collect (List.length se.2) <$> w_scorer positive se f32_one
         | inr weight => collect (List.length se.2) <$> DemoteWeight_scorer weight se f32_one
         end) with
  | Ok hits => hits
  | Err _ => []
  end.
(** The sum of the scores of the clauses that hold and count. *)
Definition run_boolean (se : MiniSearcher) (clauses : list (Occur * list (Z * f32))) : list (Z * f32) :=
  omap (λ d,
    if boolean_matches ((λ c, (c.1, bool_decide (d ∈ c.2.*1))) <$> clauses) then
      Some (d, foldl (SpecFloat.SFadd 24 128) f32_zero
        (omap (λ c, match c.1 with OccurMustNot => None | _ => score_of_doc d c.2 end) clauses))
    else None) (all_docs se).
Fixpoint run_query (se : MiniSearcher) (q : EngineQuery MiniParsed) : list (Z * f32) :=
  match q with
  | EmptyQuery => []
  | TermQuery field text _ => const_score f32_one (docs_with se field text)
  | BooleanQuery clauses => run_boolean se (map (λ c, (c.1, run_query se c.2)) clauses)
  | BoostQuery q boost => prod_map id (f32_mul boost) <$> run_query se q
  | ParsedQuery p => const_score f32_one (docs_parsed se p)
  | Demote positive negative boost =>
      run_demote se (demote_query (scored (run_query se positive)) (scored (run_query se negative)) boost)
  | CappedFuzzyTerm field text distance prefix max =>
      run_fuzzy se (CappedFuzzyTermQuery_new (from_field_text field text) distance prefix max)
  end.

Definition mini_passes (se : MiniSearcher) (filter : option (str * (Z -> bool))) (d : Z) : bool :=
  match filter with Some (field, f) => f (mini_row se field d) | None => true end.
(** The best scores first, and the first documents among equal ones. *)
Definition mini_top (se : MiniSearcher) (q : EngineQuery MiniParsed) (limit : Z)
    (filter : option (str * (Z -> bool))) : list (f32 * Z) :=
  take (Z.to_nat limit) (sort_by (λ a b, negb (f32_lt a.1 b.1))
    ((λ h, (h.2, h.1)) <$> List.filter (λ h, mini_passes se filter h.1) (run_query se q))).

Section Reading.
Context {R : Type} `{SeekRead R}.

Definition mini_read {A} `{Countable A} (dir : path_map ArchivedFile) (path : string) :
    ST (Shared (MeteredSeekRead R)) (Fault TantivyError) A := λ s,
  match get_file_handle dir (lit path) with
  | Err _ => (Err (Failed (tantivy_error [Txt "no such file"])), s)
  | Ok h =>
      let '(r, s') := read_bytes h 0 (handle_length h) s in
      (match r with
       | Ok bytes => ok_or (of_bytes bytes) (Failed (tantivy_error [Txt "corrupted file"]))
       | Err e => Err (map_fault (λ _, tantivy_error [Txt "unreadable file"]) e)
       end, s')
  end.

#[local] Instance mini_reader : ReaderEngine (MeteredSeekRead R) MiniIndex MiniParsed := {
  IndexReader := MiniSearcher;
  Searcher := MiniSearcher;
  DocAddress := Z;
  runtime_version := lit "0.26.1";
  index_open dir := names ← mini_read dir "meta.json"; mret (dir, names, []);
  index_reader ix := docs ← mini_read ix.1.1 "store"; mret (ix.1.2, docs);
  searcher_of x := x;
  index_api ix := {|
    schema_get_field := toy_field_number 0 ix.1.2.*1;
    tokenizers_get name := (λ a text, (run_analyzer a text).*2) <$> registered ix name;
    parse_query := mini_parse ix
  |};
  search_top_docs se q limit f sh := (Ok (mini_top se q limit f), sh);
  fast_field_u64 se field d sh := (Ok (mini_row se field d), sh);
  roaring_deserialize bs :=
    match of_bytes bs with
    | Some rows => Ok (λ row, bool_decide (row ∈ (rows : list Z)))
    | None => Err [Txt "unknown cookie value"]
    end
}.
End Reading.
