(* ===== verification/Conformance.v ===== *)
(** * The repository's tests, run on the model

    The unit and integration tests of the crates that do not depend on what
    the engine finds ([core/tests], the [tests] modules of storage.rs,
    archive_directory.rs, icu.rs and jni/src/lib.rs), evaluated on the
    definitions of this development with the inputs and the expected results
    of the tests.  A test that needs an engine runs on [ToyEngine]; one over a
    text of JSON starts at its tree; the boundaries of a text are given. *)

From S2P Require Import Native Jni.
From S2P Require Import Prelude RustStd Error IoLayer Tokenizer Config Json HeaderJson Storage StorageSpec.
From S2P Require Import Archive ArchiveSpec ArchiveConc Icu Query Analyzer BuildQuery BuildQuerySpec Writer Reader ToyEngine WriterSpec.

#[local] Existing Instances toy_platform toy_unicode toy_text toy_profile toy_analysis toy_schema toy_registry
  toy_writer toy_reader toy_schema_laws toy_registry_laws.
#[local] Instance plain_display : Display := {
  f32_to_string _ := lit "f32";
  json_error_to_string _ := lit "json"
}.

(** [err.to_string().contains(expected)] *)
Fixpoint contains (s needle : str) : bool :=
  match strip_prefix needle s, s with
  | Some _, _ => true
  | None, [] => false
  | None, _ :: s' => contains s' needle
  end.
Definition fails_with {A} (r : Result A) (expected : string) : bool :=
  match r with Ok _ => false | Err e => contains (to_string e) (lit expected) end.
(** The same of a result whose computation could have panicked. *)
Definition fault_with {A} (r : result (Fault FtIndexError) A) (expected : string) : bool :=
  match r with Err (Failed e) => contains (to_string e) (lit expected) | _ => false end.

(** ** [core/tests/core_roundtrip.rs]: options *)
Module Options.
Example tokenizer_default_values_are_explicit :
  TokenizerConfig_default
  = tokenizer_config Default 3 3 false true true true 40 true true (lit "english") true [] true.
Proof. reflexivity. Qed.

Definition jieba_options : list (str * str) := [
  (lit "fulltext.tokenizer", lit "jieba"); (lit "fulltext.jieba.search-mode", lit "false");
  (lit "fulltext.jieba.ordinal-position", lit "false")].
Example tokenizer_options_parse_jieba_settings :
  (λ c, (tokenizer c, jieba_search_mode c, jieba_ordinal_position c)) <$> TokenizerConfig_from_options jieba_options
  = Ok (Jieba, false, false).
Proof. vm_compute. reflexivity. Qed.

Definition ngram_options : list (str * str) := [
  (lit "fulltext.tokenizer", lit "ngram"); (lit "fulltext.ngram.min-gram", lit "2");
  (lit "fulltext.ngram.max-gram", lit "4"); (lit "fulltext.ngram.prefix-only", lit "true");
  (lit "fulltext.stop-words", lit "apache;paimon")].
Example tokenizer_options_parse_ngram_and_stop_word_settings :
  (λ c, (tokenizer c, ngram_min_gram c, ngram_max_gram c, ngram_prefix_only c, stop_words c))
    <$> TokenizerConfig_from_options ngram_options
  = Ok (Ngram, 2, 4, true, [lit "apache"; lit "paimon"]).
Proof. vm_compute. reflexivity. Qed.

Example stop_words_require_stop_word_removal :
  fails_with (TokenizerConfig_from_options
    [(lit "remove-stop-words", lit "false"); (lit "stop-words", lit "apache")])
    "requires remove-stop-words=true" = true.
Proof. vm_compute. reflexivity. Qed.
End Options.

(** ** [core/src/storage.rs]

    A test of a [tests] module is a proposition, its assertions. *)
Module StorageTests.
Definition test_bytes (s : string) : list byte := as_bytes (lit s).

Record CountingReader : Type := counting_reader {
  data : list byte;
  pread_batches : Z;
  max_ranges_per_batch : Z
}.
#[local] Instance CountingReader_SeekRead : SeekRead CountingReader := λ ranges r,
  (SliceReader_read (data r) ranges,
   counting_reader (data r) (pread_batches r + 1) (Z.max (max_ranges_per_batch r) (blen ranges))).

Definition read_archive_files_uses_one_batched_pread : Prop :=
  let reader := counting_reader (test_bytes "headerabcdef") 0 0 in
  let files := [archive_file (lit "a") 0 2; archive_file (lit "b") 2 3; archive_file (lit "c") 5 1] in
  let '(files, reader) := read_archive_files 6 files reader in
  pread_batches reader = 1 ∧ max_ranges_per_batch reader = 3 ∧
  files = Ok [(lit "a", test_bytes "ab"); (lit "b", test_bytes "cde"); (lit "c", test_bytes "f")].
Lemma batched_pread_test_passes : read_archive_files_uses_one_batched_pread.
Proof. vm_compute. done. Qed.

Definition valid_metadata : FullTextIndexMetadata :=
  index_metadata FullTextIndexConfig_default 1 (lit "0.26.1").
Definition encode_header (h : IndexHeader) : list byte :=
  into_inner (write_envelope h [(lit "meta.json", test_bytes "ab")] (pos_writer [])).2.

Definition read_header_rejects_invalid_archive_metadata : Prop :=
  let cases : list (list ArchiveFileEntry * string) := [
    ([archive_file (lit "meta.json") 0 2; archive_file (lit "meta.json") 2 2], "duplicate archive file"%string);
    ([archive_file (lit "../meta.json") 0 2], "must be a plain file name"%string);
    ([archive_file (lit "a") 0 3; archive_file (lit "b") 2 3], "overlaps a previous file"%string)] in
  Forall (λ '(files, expected),
    let bytes := encode_header (index_header valid_metadata files) in
    fails_with (read_header (slice_reader bytes)).1 expected = true) cases.
Lemma invalid_metadata_test_passes : read_header_rejects_invalid_archive_metadata.
Proof. repeat (constructor; [vm_compute; reflexivity|]). constructor. Qed.

Definition read_header_rejects_missing_tantivy_version : Prop :=
  let bytes := encode_header (index_header
    (index_metadata (config valid_metadata) (document_count valid_metadata) [])
    [archive_file (lit "meta.json") 0 2]) in
  fails_with (read_header (slice_reader bytes)).1 "missing Tantivy version in index metadata" = true.
Lemma missing_version_test_passes : read_header_rejects_missing_tantivy_version.
Proof. vm_compute. reflexivity. Qed.

Definition read_header_rejects_oversized_header_before_allocating : Prop :=
  let OVERSIZED_HEADER_LEN := 16 * 1024 * 1024 + 1 in
  let bytes := FORMAT_MAGIC ++ u32_to_be_bytes FORMAT_VERSION ++ u32_to_be_bytes OVERSIZED_HEADER_LEN in
  fails_with (read_header (slice_reader bytes)).1 "header too large" = true.
Lemma oversized_header_test_passes : read_header_rejects_oversized_header_before_allocating.
Proof. vm_compute. reflexivity. Qed.
End StorageTests.

(** ** [core/tests/core_roundtrip.rs]: the golden envelope *)
Module Golden.
(** [decode_hex] *)
Definition to_digit (c : char) : option Z :=
  if (48 <=? c) && (c <=? 57) then Some (c - 48)
  else if (97 <=? c) && (c <=? 102) then Some (c - 87) else None.
Fixpoint decode_hex (s : str) : option (list byte) :=
  match s with
  | [] => Some []
  | [_] => None
  | h :: l :: s' => h ← to_digit h; l ← to_digit l; bs ← decode_hex s'; Some (byte_of_Z (16 * h + l) :: bs)
  end.

(** [core/tests/golden/storage_v1_envelope.hex] *)
Definition golden_hex : list string := [
  "5046544944583031000000010000020f7b226d65746164617461223a7b22636f";
  "6e666967223a7b22726f775f69645f6669656c64223a22726f775f6964222c22";
  "746578745f6669656c6473223a5b2274657874225d2c22746f6b656e697a6572";
  "223a7b22746f6b656e697a6572223a2264656661756c74222c226e6772616d5f";
  "6d696e5f6772616d223a332c226e6772616d5f6d61785f6772616d223a332c22";
  "6e6772616d5f7072656669785f6f6e6c79223a66616c73652c226a696562615f";
  "7365617263685f6d6f6465223a747275652c226a696562615f6f7264696e616c";
  "5f706f736974696f6e223a747275652c226c6f7765725f63617365223a747275";
  "652c226d61785f746f6b656e5f6c656e677468223a34302c2261736369695f66";
  "6f6c64696e67223a747275652c227374656d223a747275652c226c616e677561";
  "6765223a22656e676c697368222c2272656d6f76655f73746f705f776f726473";
  "223a747275652c2273746f705f776f726473223a5b5d2c22776974685f706f73";
  "6974696f6e223a747275657d7d2c22646f63756d656e745f636f756e74223a32";
  "2c2274616e746976795f76657273696f6e223a22302e32362e30227d2c226669";
  "6c6573223a5b7b226e616d65223a226d6574612e6a736f6e222c226f66667365";
  "74223a302c226c656e677468223a327d2c7b226e616d65223a227365676d656e";
  "742e696478222c226f6666736574223a322c226c656e677468223a347d5d7d61";
  "6263646566"]%string.
Definition golden : list byte := default [] (decode_hex (golden_hex ≫= lit)).

Definition golden_header : IndexHeader := index_header
  (index_metadata FullTextIndexConfig_default 2 (lit "0.26.0"))
  [archive_file (lit "meta.json") 0 2; archive_file (lit "segment.idx") 2 4].
Definition golden_files : list (str * list byte) :=
  [(lit "meta.json", as_bytes (lit "ab")); (lit "segment.idx", as_bytes (lit "cdef"))].

(** The compact text of a tree without floats and without characters that
    are escaped. *)
Definition quoted (s : str) : str := [34] ++ s ++ [34].
Definition join (sep : char) (l : list str) : str :=
  match l with [] => [] | s :: l' => s ++ (l' ≫= λ t, sep :: t) end.
Fixpoint compact (j : json) : str :=
  match j with
  | JNull | JFloat _ => lit "null"
  | JBool b => lit (if b then "true" else "false")
  | JInt z => int_to_string z
  | JString s => quoted s
  | JArray l => lit "[" ++ join 44 (compact <$> l) ++ lit "]"
  | JObject kvs => lit "{" ++ join 44 ((λ kv : str * json, quoted kv.1 ++ lit ":" ++ compact kv.2) <$> kvs) ++ lit "}"
  end.
Definition golden_text : list byte := as_bytes (compact (IndexHeader_to_json golden_header)).

Lemma golden_is_envelope : golden = envelope golden_text (as_bytes (lit "abcdef")).
Proof. vm_compute. reflexivity. Qed.

(** Whatever the text level is, if it writes this tree compactly and reads the
    text back, the archive is the golden file and the golden file is the
    archive. *)
Lemma storage_v1_envelope_matches_golden_file {T : JsonText} :
  json_to_vec (IndexHeader_to_json golden_header) = Ok golden_text →
  json_from_slice golden_text = Ok (IndexHeader_to_json golden_header) →
  (write_envelope golden_header golden_files (pos_writer [])).1 = Ok tt ∧
  into_inner (write_envelope golden_header golden_files (pos_writer [])).2 = golden ∧
  ∃ s, read_header (slice_reader golden) = (Ok (golden_header, blen golden - 6), s) ∧
    drop (Z.to_nat (blen golden - 6)) golden = as_bytes (lit "abcdef").
Proof.
  intros Hwrite Hread. assert (blen golden_text ≤ MAX_HEADER_BYTES) as Hlen by (vm_compute; discriminate).
  pose proof (write_envelope_succeeds golden_header golden_files golden_text Hwrite Hlen (pos_writer [])) as Hok.
  pose proof (write_envelope_outputs into_inner golden_header golden_files golden_text Hwrite (pos_writer [])) as Ho.
  split; [exact Hok|]. split.
  - destruct (write_envelope golden_header golden_files (pos_writer [])) as [[[]|e] out]; [|done].
    rewrite golden_is_envelope. exact Ho.
  - destruct (read_header_complete (data_of := data) (slice_reader golden) golden_header golden_text
      (as_bytes (lit "abcdef"))) as (s & Hr & _).
    + vm_compute. discriminate.
    + exact golden_is_envelope.
    + exact Hlen.
    + rewrite Hread. vm_compute. reflexivity.
    + vm_compute. reflexivity.
    + exists s. split; [|vm_compute; reflexivity]. rewrite Hr.
      by assert (blen (header_bytes golden_text) = blen golden - 6) as -> by (vm_compute; reflexivity).
Qed.
End Golden.

(** ** [core/src/archive_directory.rs] *)
Module DirectoryTests.
(** The readers of the tests, each with the metrics of the cache over it. *)
Record SyncCountingReader : Type := sync_counting_reader { calls : Z; sync_metrics : ReadMetrics }.
#[local] Instance SyncCountingReader_SeekRead : SeekRead SyncCountingReader := λ ranges r,
  (Ok ((λ range, replicate (Z.to_nat (buf_len range)) x00) <$> ranges),
   sync_counting_reader (calls r + 1) (sync_metrics r)).
#[local] Instance SyncCountingReader_metrics : MetricsCell SyncCountingReader := {
  metrics_of := sync_metrics;
  with_metrics m r := sync_counting_reader (calls r) m
}.

(** A range past the end, where the slice would panic, does not occur. *)
Record CountingDataReader : Type := counting_data_reader {
  data : list byte;
  read_calls : Z;
  data_metrics : ReadMetrics
}.
#[local] Instance CountingDataReader_SeekRead : SeekRead CountingDataReader := λ ranges r,
  (SliceReader_read (data r) ranges, counting_data_reader (data r) (read_calls r + 1) (data_metrics r)).
#[local] Instance CountingDataReader_metrics : MetricsCell CountingDataReader := {
  metrics_of := data_metrics;
  with_metrics m r := counting_data_reader (data r) (read_calls r) m
}.

(** [directory.open_read(path)?], and what is done with the file. *)
Definition with_file {S A} (files : list ArchiveFileEntry) (path : str)
    (f : ArchiveFileHandle -> ST (Shared S) (Fault IoError) A) (input : S) :
    Result (result (Fault IoError) A * Shared S) :=
  directory ← ArchiveDirectory_new 0 files;
  handle ← map_err (λ _, InvalidStorage [Txt "file"]) (get_file_handle directory path);
  Ok (f handle (new_shared input)).

Definition archive_directory_accepts_shared_sync_reader_without_mutex : Prop :=
  match with_file [archive_file (lit "meta.json") 0 1] (lit "meta.json")
          (λ file, read_bytes file 0 (handle_length file)) (sync_counting_reader 0 ReadMetrics_default) with
  | Ok (bytes, s) => bytes = Ok [x00] ∧ calls (input s) = 1
  | Err _ => False
  end.
Lemma sync_reader_test_passes : archive_directory_accepts_shared_sync_reader_without_mutex.
Proof. vm_compute. done. Qed.

Definition archive_directory_caches_repeated_small_reads : Prop :=
  let data := as_bytes (lit "abcdefghijklmnopqrstuvwxyz") in
  match with_file [archive_file (lit "meta.json") 0 26] (lit "meta.json")
          (λ file, first ← read_bytes file 3 9; second ← read_bytes file 3 9; mret (first, second))
          (counting_data_reader data 0 ReadMetrics_default) with
  | Ok (r, s) =>
      r = Ok (as_bytes (lit "defghi"), as_bytes (lit "defghi")) ∧ read_calls (input s) = 1 ∧
      let metrics := snapshot (metrics_of (input s)) in
      snap_cache_hits metrics = 1 ∧ snap_cache_misses metrics = 1 ∧ snap_cached_blocks metrics = 1
  | Err _ => False
  end.
Lemma repeated_reads_test_passes : archive_directory_caches_repeated_small_reads.
Proof. vm_compute. done. Qed.
(** *** Threads *)

(** [ConcurrentReader]: a thread is inside [pread] before the action that
    reads; the calls that are active at once are counted there. *)
Definition concurrent_reader : MeteredSeekRead SliceReader :=
  metered (slice_reader (as_bytes (lit "abcdef"))) ReadMetrics_default.
Definition active_calls (st : System (MeteredSeekRead SliceReader)) : Z :=
  blen (List.filter (λ p, match p with Fetching _ _ | ReadingDirect _ _ => true | _ => false end) (threads st)).
Definition meta_file : ArchiveFileHandle := file_handle (lit "meta.json") 0 6.
Definition read_meta : Job := job meta_file 0 6.
Definition started : System (MeteredSeekRead SliceReader) :=
  system [Called read_meta; Called read_meta] (new_shared concurrent_reader).
Definition runs_to : System (MeteredSeekRead SliceReader) -> Prop := rtc (sys_step (λ _, False)) started.
(** Some schedule has both threads inside [pread]; both can be joined; and
    whatever the schedule, what a thread returns is the file. *)
Definition archive_directory_allows_concurrent_pread_calls : Prop :=
  (directory ← ArchiveDirectory_new 0 [archive_file (lit "meta.json") 0 6];
   map_err (λ _, InvalidStorage [Txt "file"]) (get_file_handle directory (lit "meta.json"))) = Ok meta_file ∧
  (∃ st, runs_to st ∧ active_calls st = 2) ∧
  (∃ st, runs_to st ∧ Forall (λ p, p = Returned read_meta (Ok (as_bytes (lit "abcdef")))) (threads st)) ∧
  (∀ st r, runs_to st → Returned read_meta r ∈ threads st → r = Ok (as_bytes (lit "abcdef"))).

(** Both threads do [n] actions, then both do [m]. *)
Definition both (n : nat) (st : System (MeteredSeekRead SliceReader)) : System (MeteredSeekRead SliceReader) :=
  match threads st with
  | [p; q] =>
      let '(p', s) := run_thread n p (memory st) in
      let '(q', s) := run_thread n q s in system [p'; q'] s
  | _ => st
  end.
Lemma both_runs n p q s : rtc (sys_step (λ _, False)) (system [p; q] s) (both n (system [p; q] s)).
Proof.
  unfold both. cbn [threads memory].
  destruct (run_thread n p s) as [p' s1] eqn:E1. destruct (run_thread n q s1) as [q' s2] eqn:E2.
  etrans; [by eapply (run_thread_rtc _ n _ _ 0)|]. by apply (run_thread_rtc _ n [p'; q] s1 1 q q').
Qed.
Lemma started_ok st :
  runs_to st → sys_ok metered_bytes [archived_file 0 6] (as_bytes (lit "abcdef")) True st.
Proof.
  intros Hst. assert (files_ok [archived_file 0 6]) as Hfs.
  { apply (files_ok_disjoint 0 [archive_file (lit "meta.json") 0 6]); [done|by repeat constructor|].
    intros f g Hf%list_elem_of_singleton Hg%list_elem_of_singleton. left. by subst. }
  assert (blen (as_bytes (lit "abcdef")) ≤ usize_max) as Hlen by (vm_compute; discriminate).
  assert (True → reads_within metered_bytes (as_bytes (lit "abcdef"))) as Hrel.
  { intros _. by apply (reads_within_limit _ (max_len := usize_max)). }
  refine (reachable_ok metered_bytes [archived_file 0 6] (as_bytes (lit "abcdef")) True Hfs Hlen Hrel started st _ _).
  - eapply rtc_subrel; [|exact Hst]. intros a b. apply sys_step_weaken. by intros j [].
  - split; [by apply (reading_new _ _ _ True)|]. assert (on_files [archived_file 0 6] read_meta); [|by repeat constructor].
    split; [by left|]. by vm_compute.
Qed.
Lemma concurrent_pread_test_passes : archive_directory_allows_concurrent_pread_calls.
Proof.
  split; [vm_compute; reflexivity|]. split_and!.
  - exists (both 3 started). split; [apply both_runs|vm_compute; reflexivity].
  - exists (both 6 started). split; [apply both_runs|]. vm_compute. repeat constructor.
  - intros st r Hst Hin. destruct (started_ok st Hst) as [_ Hts].
    rewrite Forall_forall in Hts. destruct (Hts _ Hin) as (_ & Hr & _).
    specialize (Hr ltac:(vm_compute; split; discriminate)).
    destruct Hr as [Hcalm Hr]. destruct r as [bytes|[e|p]]; cbn in Hr.
    + rewrite Hr. vm_compute. reflexivity.
    + exfalso. apply Hr. split; [exact I|vm_compute; discriminate].
    + exfalso. revert Hcalm. vm_compute. discriminate.
Qed.
End DirectoryTests.

(** ** [core/src/tokenizer/icu.rs] *)
Module IcuTests.
(** Tables that know ASCII and the unified ideographs. *)
#[local] Obligation Tactic := idtac.
#[local] Program Instance cjk_unicode : Unicode := {|
  char_is_alphanumeric c := ascii_alphanumeric c || ((19968 <=? c) && (c <=? 40959));
  str_to_lowercase := fmap ascii_lower
|}.
Next Obligation.
  intros c. unfold is_ascii. intros [_ Hc%Z.ltb_lt]%andb_true_iff.
  replace (19968 <=? c) with false by (symmetry; apply Z.leb_gt; lia). by rewrite orb_false_r.
Qed.
Next Obligation. done. Qed.

Definition world : str := [19990; 30028]. (* 世界 *)
Definition default_token : Token := token [] 0 0 0 1.
(** The tokens of the text with these segments. *)
Definition tokens (split : bool) (modify : Token -> Token) (segments : list str) : option (list Token) :=
  let text := concat segments in
  process modify 100 (token_stream (λ _, ends 0 ([] :: segments)) default_token split text).
Definition texts (split : bool) (segments : list str) : option (list str) :=
  (λ ts : list Token, text_of <$> ts) <$> tokens split id segments.

(** [Hello，世界！Rust] *)
Definition icu_modes_segment_mixed_text_with_utf8_offsets : Prop :=
  Forall (λ split, tokens split id [lit "Hello"; [65292]; world; [65281]; lit "Rust"]
    = Some [token (lit "Hello") 0 5 0 1; token world 8 14 1 1; token (lit "Rust") 17 21 2 1]) [false; true].
Lemma mixed_text_test_passes : icu_modes_segment_mixed_text_with_utf8_offsets.
Proof. repeat constructor. Qed.

Definition icu_modes_preserve_or_split_word_internal_punctuation : Prop :=
  let segments :=
    [lit "hello_world"; lit " "; lit "alpha.beta"; lit " "; lit "don't"; lit " "; lit "getUserName"] in
  Forall (λ '(split, expected), texts split segments = Some expected) [
    (false, [lit "hello_world"; lit "alpha.beta"; lit "don't"; lit "getUserName"]);
    (true, [lit "hello"; lit "world"; lit "alpha"; lit "beta"; lit "don"; lit "t"; lit "getUserName"])].
Lemma punctuation_test_passes : icu_modes_preserve_or_split_word_internal_punctuation.
Proof. repeat constructor. Qed.

Definition icu_split_tracks_offsets_and_positions_across_repeated_delimiters : Prop :=
  tokens true id [lit "foo_bar__baz"; lit "-"; lit "alpha.beta"]
  = Some [token (lit "foo") 0 3 0 1; token (lit "bar") 4 7 1 1; token (lit "baz") 9 12 2 1;
          token (lit "alpha") 13 18 3 1; token (lit "beta") 19 23 4 1].
Lemma delimiters_test_passes : icu_split_tracks_offsets_and_positions_across_repeated_delimiters.
Proof. vm_compute. reflexivity. Qed.

(** Nothing, and blanks, punctuation and a pictograph; a stream of its own for
    each document. *)
Definition icu_modes_ignore_empty_and_nonword_text_and_reset_between_documents : Prop :=
  let hello := [lit "Hello"; world; lit "Rust"] in
  Forall (λ split, Forall (λ '(segments, expected), texts split segments = Some expected) [
    (hello, hello); ([], []);
    ([lit " "; [9]; [10]; [65292]; [12290]; [128578]; lit "-"; lit "_"], []); (hello, hello)]) [false; true].
Lemma nonword_test_passes : icu_modes_ignore_empty_and_nonword_text_and_reset_between_documents.
Proof. repeat constructor. Qed.

(** A filter changes the text, the position and the end of each token. *)
Definition icu_stream_resets_fields_modified_by_filters : Prop :=
  let change (t : Token) := token (text_of t ++ lit "changed") (offset_from t) 999 99 7 in
  tokens true change [lit "_hello__"; world; lit "_"] = Some [token (lit "hello") 1 6 0 1; token world 8 14 1 1].
Lemma reset_fields_test_passes : icu_stream_resets_fields_modified_by_filters.
Proof. vm_compute. reflexivity. Qed.
End IcuTests.

(** ** [core/tests/core_roundtrip.rs]: the writer and the reader *)
Module WriterTests.
(** [FailingWriter] *)
Record FailingWriter : Type := failing_writer {}.
#[local] Instance FailingWriter_SeekWrite : SeekWrite FailingWriter := {
  write_all _ w := (Err (io_error Other [Txt "intentional output failure"]), w);
  flush w := (Ok tt, w)
}.
Definition added : FullTextIndexWriter (Schema := ToySchema) (I := list Document) :=
  (add_document 1 (lit "Apache Paimon full text") toy_w0).2.
Definition after_failure : FullTextIndexWriter (Schema := ToySchema) (I := list Document) :=
  (write (added, failing_writer)).2.1.
Example failed_write_attempt_finalizes_writer :
  fault_with (write (added, failing_writer)).1 "intentional output failure" = true ∧
  fault_with (write (after_failure, pos_writer ([] : list byte))).1 "already finalized" = true ∧
  fault_with (add_document 2 (lit "retry document") after_failure).1 "already finalized" = true.
Proof. vm_compute. done. Qed.

(** A writer of the default configuration takes every document of one text. *)
Definition source_text (row_id : Z) : str :=
  message_to_string [Txt "document "; Int row_id; Txt " with unique source text"].
Definition add_all (rows : list Z) (w : FullTextIndexWriter (Schema := ToySchema) (I := list Document)) :=
  foldl (λ writer row_id, (add_document row_id (source_text row_id) writer).2) w rows.
Lemma add_all_counts rows w :
  writer_ok w → w_config w = toy_config → is_Some (w_state w) → 0 ≤ w_document_count w →
  w_document_count w + blen rows ≤ u64_max → Forall (λ row_id, 0 ≤ row_id ≤ i64_max) rows →
  is_Some (w_state (add_all rows w)) ∧ w_document_count (add_all rows w) = w_document_count w + blen rows.
Proof.
  revert w. induction rows as [|row_id rows IH]; intros w Hok Hcfg Hst Hn Hmax Hrows.
  { rewrite blen_nil. split; [done|]. cbn. lia. }
  apply Forall_cons in Hrows as [Hrow Hrows]. rewrite blen_cons in *. pose proof (blen_nonneg rows).
  assert (admissible w row_id [(default_text_field (w_config w), source_text row_id)]) as Hadm.
  { split; [lia|done|lia|done|]. apply Forall_singleton. rewrite Hcfg. left. }
  pose proof (add_document_fields_spec w row_id [(default_text_field (w_config w), source_text row_id)] Hok
    ltac:(lia)) as Hadd.
  change (add_all (row_id :: rows) w) with (add_all rows (add_document row_id (source_text row_id) w).2).
  unfold add_document. destruct (add_document_fields _ _ w) as [r w'].
  destruct Hadd as (Hok' & Hacc & _). destruct (Hacc Hadm) as (st & Hst' & _ & ->). cbn [snd] in *.
  destruct (IH (with_engine (index_writer st ++ [document_of w row_id [(default_text_field (w_config w), source_text row_id)]])
    (w_document_count w + 1) w)) as [IHs IHn]; try done.
  - unfold with_engine. cbn. by rewrite Hst'.
  - cbn. lia.
  - cbn. lia.
  - split; [exact IHs|]. etrans; [exact IHn|]. cbn. lia.
Qed.

(** The record of the writer has no field for the sources of documents. *)
Definition added_documents_are_not_retained_as_source_strings : Prop :=
  ∃ writer, FullTextIndexWriter_new (Schema := ToySchema) (I := list Document) FullTextIndexConfig_default
              = Some (Ok writer) ∧
  let writer := add_all (seqZ 0 10000) writer in
  let '(full_text_index_writer _ state _ _ document_count) := writer in
  is_Some state ∧ document_count = 10000.
Lemma exhaustive_fields (w : FullTextIndexWriter (Schema := ToySchema) (I := list Document)) n :
  is_Some (w_state w) → w_document_count w = n →
  let '(full_text_index_writer _ state _ _ document_count) := w in is_Some state ∧ document_count = n.
Proof. by destruct w. Qed.
Lemma retained_documents_test_passes : added_documents_are_not_retained_as_source_strings.
Proof.
  exists toy_w0. split; [vm_compute; reflexivity|].
  destruct toy_w0_ok as (Hok & Hcfg & Hst).
  assert (w_document_count toy_w0 = 0) as Hzero by (vm_compute; reflexivity).
  assert (blen (seqZ 0 10000) = 10000) as Hlen by (unfold blen; rewrite length_seqZ; lia).
  destruct (add_all_counts (seqZ 0 10000) toy_w0 Hok Hcfg ltac:(by eexists)) as [Hs Hn]; rewrite ?Hzero, ?Hlen in *.
  - lia.
  - unfold u64_max. lia.
  - apply Forall_forall. intros x Hx%elem_of_seqZ. unfold i64_max. lia.
  - exact (exhaustive_fields _ _ Hs Hn).
Qed.

Definition outdated : list byte :=
  into_inner (write_envelope (index_header (index_metadata FullTextIndexConfig_default 0 (lit "0.0.0"))
    [archive_file (lit "meta.json") 0 0]) [(lit "meta.json", [])] (pos_writer [])).2.
Example reader_rejects_mismatched_tantivy_version :
  fault_with (FullTextIndexReader_open (Ix := ToyIndex) (Parsed := str) (slice_reader outdated))
    "unsupported Tantivy index version 0.0.0" = true.
Proof. vm_compute. reflexivity. Qed.
End WriterTests.

(** ** [core/tests/core_roundtrip.rs]: queries *)
Module QueryTests.
Definition obj (kvs : list (string * json)) : json := JObject ((λ kv, (lit kv.1, kv.2)) <$> kvs).
Definition text (s : string) : json := JString (lit s).
(** An index with the field [text] of the default configuration. *)
Definition text_index : Index str := {|
  schema_get_field f := if str_eqb f (lit "text") then Some 1 else None;
  tokenizers_get _ := Some (split_on (λ c, c =? 32));
  parse_query _ text := Ok text
|}.
Definition built (j : json) : Result (EngineQuery str) :=
  q ← map_err Json (QuerySpec_deserialize j); build_query text_index FullTextIndexConfig_default q.

(** [2.0] as a binary64 number and its cast. *)
Definition two : SpecFloat.spec_float := SpecFloat.S754_finite false 4503599627370496 (-51).
Example match_query_aliases_parse :
  QuerySpec_deserialize (obj [("match", obj [("column", text "text"); ("query", text "paimon indexes");
    ("operator", text "AND"); ("boost", JFloat two); ("fuzziness", JInt 0); ("maxExpansions", JInt 50);
    ("prefixLength", JInt 0)])]%string)
  = Ok (Match (Some (lit "text")) (lit "paimon indexes") And (f64_as_f32 two) (Some 0) 50 0).
Proof. vm_compute. reflexivity. Qed.

Example omitted_column_builds_the_same_query :
  built (obj [("match", obj [("query", text "paimon"); ("operator", text "OR")])]%string)
  = built (obj [("match", obj [("query", text "paimon"); ("column", text "text")])]%string) ∧
  is_ok (built (obj [("match", obj [("query", text "paimon"); ("operator", text "OR")])]%string)) = true.
Proof. vm_compute. done. Qed.

Example unknown_column_is_rejected :
  fails_with (built (obj [("match", obj [("column", text "content"); ("query", text "paimon");
    ("operator", text "OR")])]%string)) "column 'content' is not configured" = true.
Proof. vm_compute. reflexivity. Qed.

Example boolean_query_forms_build :
  is_ok (built (obj [("boolean", obj [
    ("must", JArray [obj [("match", obj [("column", text "text"); ("terms", text "paimon")])]]);
    ("must_not", JArray [obj [("phrase", obj [("column", text "text"); ("query", text "legacy")])]])])]%string)) = true.
Proof. vm_compute. reflexivity. Qed.

Example only_must_not_is_rejected :
  fails_with (built (obj [("boolean", obj [
    ("must_not", JArray [obj [("match", obj [("column", text "text"); ("query", text "paimon")])]])])]%string))
    "at least one should or must clause" = true.
Proof. vm_compute. reflexivity. Qed.

(** [fuzzy_match_query_supports_auto_fuzziness_json] *)
Example auto_fuzziness_is_accepted :
  (q ← QuerySpec_deserialize (obj [("match", obj [("column", text "text"); ("query", text "paimxx");
    ("fuzziness", text "auto")])]%string);
   Ok match q with Match _ _ _ _ f _ _ => bool_decide (f = None) | _ => false end) = Ok true.
Proof. vm_compute. reflexivity. Qed.

Example phrase_without_positions_is_rejected :
  fails_with (build_query text_index (with_positions false FullTextIndexConfig_default)
    (MatchPhrase (Some (lit "text")) (lit "full text") 0)) "phrase query requires positions" = true.
Proof. vm_compute. reflexivity. Qed.
End QueryTests.

(** ** [jni/src/lib.rs] *)
Module JniTests.
Definition validates_search_limit_before_usize_cast : Prop :=
  validate_search_limit 1 = Ok 1 ∧ is_ok (validate_search_limit 0) = false ∧ is_ok (validate_search_limit (-1)) = false.
Lemma search_limit_test_passes : validates_search_limit_before_usize_cast.
Proof. vm_compute. done. Qed.
End JniTests.
