(* ===== verification/EndToEnd.v ===== *)
(** * The repository's round-trip tests, run on the model

    The tests that write an index, open what was written and search it
    ([core/tests/core_roundtrip.rs], [core/tests/tokenizer_roundtrip.rs] and the
    [tests] module of ffi/src/lib.rs), with the engine of [MiniEngine], so that
    the rows of a search come out of the bytes of the archive.  Queries are the
    texts of JSON trees.  At the end an archive whose file cannot be read is
    opened through both foreign interfaces. *)

From S2P Require Import Prelude RustStd Error IoLayer Json Tokenizer Config HeaderJson Storage Archive.
From S2P Require Import Query Analyzer BuildQuery BuildQuerySpec Writer Reader ToyEngine MiniAnalysis MiniEngine Native Ffi.
From S2P Require Import Conformance.
From S2P Require Jni ToyJava.
Import QueryTests.

#[local] Existing Instances toy_platform mini_unicode toy_text toy_profile toy_analysis toy_schema
  toy_display toy_hash mini_handle_registry mini_writer mini_registry mini_reader.

Definition to_text (j : json) : str := Z_of_byte <$> to_bytes (json_to_tree j).

(** ** [core/tests/core_roundtrip.rs] *)
Module RoundTrip.
Abbreviation Fallible := (result (Fault FtIndexError)) (only parsing).
Definition Written : Type := FullTextIndexWriter (Schema := ToySchema) (I := MiniWriter).
Definition Addition : Type := ST Written (Fault FtIndexError) unit.
Definition add_each (docs : list Addition) : Addition := foldr (λ add rest, _ ← add; rest) (mret tt) docs.
(** A writer, its documents and [writer.write(&mut PosWriter::new(&mut bytes))]. *)
Definition build (config : FullTextIndexConfig) (docs : list Addition) : Fallible (list byte) :=
  match FullTextIndexWriter_new (Schema := ToySchema) (I := MiniWriter) config with
  | Some writer =>
      writer ← writer;
      let '(added, writer) := add_each docs writer in
      _ ← added;
      let '(written, (_, output)) := write (writer, pos_writer ([] : list byte)) in
      _ ← written;
      Ok (into_inner output)
  | None => Err (Panicked PayloadOther)
  end.
Definition build_index_with_config (config : FullTextIndexConfig) : Fallible (list byte) := build config [
  add_document 10 (lit "Apache Paimon supports full text search");
  add_document 11 (lit "Tantivy is a Rust search engine");
  add_document 12 (lit "Paimon tables can use indexes")].
Definition build_index : Fallible (list byte) := build_index_with_config FullTextIndexConfig_default.
Definition build_fields : Fallible (list byte) :=
  build (with_text_fields [lit "title"; lit "body"] FullTextIndexConfig_default) [
    add_document_fields 1 [(lit "title", lit "Apache Paimon"); (lit "body", lit "lake storage")];
    add_document_fields 2 [(lit "title", lit "Tantivy"); (lit "body", lit "Rust search engine")]].

Definition Opened (R : Type) `{SeekRead R} : Type :=
  FullTextIndexReader (R := R) (Ix := MiniIndex) (Parsed := MiniParsed).
(** [FullTextIndexReader::open(input)?], and a method of the reader. *)
Definition on_opened {R A} `{SeekRead R} (input : R) (m : ST (Opened R) (Fault FtIndexError) A) : Fallible A :=
  reader ← FullTextIndexReader_open (Ix := MiniIndex) (Parsed := MiniParsed) input; (m reader).1.
Definition on_index {A} (bytes : Fallible (list byte)) (m : ST (Opened SliceReader) (Fault FtIndexError) A) : Fallible A :=
  bytes ← bytes; on_opened (slice_reader bytes) m.
Definition found (bytes : Fallible (list byte)) (query : json) : Fallible (list Z) :=
  row_ids <$> on_index bytes (search (to_text query) 10).
Definition match_query (terms column : string) : json :=
  obj [("match", obj [("query", text terms); ("column", text column)])]%string.
Definition match_query_without_column (terms : string) : json :=
  obj [("match", obj [("query", text terms)])]%string.
Definition match_query_and (terms : str) (column : string) : json :=
  obj [("match", obj [("query", JString terms); ("column", text column); ("operator", text "AND")])]%string.

Definition match_query_round_trip : Prop :=
  on_index build_index (
    result ← search (to_text (match_query "paimon" "text")) 10;
    metadata ← ST_gets reader_metadata;
    mret (document_count metadata, row_ids result, blen (scores result)))
  = Ok (3, [10; 12], 2).
Lemma round_trip_test_passes : match_query_round_trip.
Proof. vm_compute. reflexivity. Qed.

Definition match_query_and_operator_filters_terms : Prop :=
  found build_index (match_query_and (lit "paimon indexes") "text") = Ok [12].
Lemma and_operator_test_passes : match_query_and_operator_filters_terms.
Proof. vm_compute. reflexivity. Qed.

(** The best row without a filter, and the other one with a filter. *)
Definition filter_of (allowed : list Z) : list byte := to_bytes allowed.
Definition search_with_roaring_filter_limits_allowed_row_ids_before_top_docs : Prop :=
  let query := to_text (match_query "paimon" "text") in
  (unfiltered ← on_index build_index (search query 1);
   let allowed_id := if head (row_ids unfiltered) is Some 10 then 12 else 10 in
   filtered ← on_index build_index (search_with_roaring_filter query 1 (filter_of [allowed_id]));
   Ok (bool_decide (row_ids filtered = [allowed_id]), blen (scores filtered))) = Ok (true, 1).
Lemma filter_before_top_docs_test_passes : search_with_roaring_filter_limits_allowed_row_ids_before_top_docs.
Proof. vm_compute. reflexivity. Qed.

Definition search_with_empty_roaring_filter_returns_empty_results : Prop :=
  (λ result, (row_ids result, scores result)) <$> on_index build_index
    (search_with_roaring_filter (to_text (match_query "paimon" "text")) 10 (filter_of [])) = Ok ([], []).
Lemma empty_filter_test_passes : search_with_empty_roaring_filter_returns_empty_results.
Proof. vm_compute. reflexivity. Qed.

Definition search_with_roaring_filter_supports_64_bit_row_ids : Prop :=
  let allowed_id := Z.shiftl 1 33 + 17 in
  row_ids <$> on_index
    (build FullTextIndexConfig_default [add_document 1 (lit "apache paimon"); add_document allowed_id (lit "paimon filtered row")])
    (search_with_roaring_filter (to_text (match_query "paimon" "text")) 10 (filter_of [allowed_id]))
  = Ok [allowed_id].
Lemma row_ids_of_64_bits_test_passes : search_with_roaring_filter_supports_64_bit_row_ids.
Proof. vm_compute. reflexivity. Qed.

Definition search_rejects_invalid_roaring_filter_bytes : Prop :=
  fault_with (on_index build_index (search_with_roaring_filter (to_text (match_query "paimon" "text")) 10
    (as_bytes (lit "not roaring")))) "invalid RoaringTreemap filter" = true.
Lemma invalid_filter_test_passes : search_rejects_invalid_roaring_filter_bytes.
Proof. vm_compute. reflexivity. Qed.

(** [0.5] as a binary64 number. *)
Definition half : SpecFloat.spec_float := SpecFloat.S754_finite false 4503599627370496 (-53).
Definition boost_query_requires_positive_match : Prop :=
  found (build FullTextIndexConfig_default [add_document 1 (lit "apache paimon"); add_document 2 (lit "tantivy only")])
    (obj [("boost", obj [
      ("positive", match_query "paimon" "text"); ("negative", match_query "tantivy" "text");
      ("negative_boost", JFloat half)])]%string) = Ok [1].
Lemma positive_match_test_passes : boost_query_requires_positive_match.
Proof. vm_compute. reflexivity. Qed.

Definition match_query_without_column_searches_all_indexed_fields : Prop :=
  found build_fields (match_query_without_column "rust") = Ok [2].
Lemma all_fields_test_passes : match_query_without_column_searches_all_indexed_fields.
Proof. vm_compute. reflexivity. Qed.

Definition multi_field_match_searches_named_fields : Prop := found build_fields (match_query "rust" "body") = Ok [2].
Lemma named_fields_test_passes : multi_field_match_searches_named_fields.
Proof. vm_compute. reflexivity. Qed.

Definition repeated_named_fields_support_string_arrays : Prop :=
  found (build (with_text_fields [lit "tags"] FullTextIndexConfig_default) [
    add_document_fields 1 [(lit "tags", lit "paimon"); (lit "tags", lit "lakehouse")]; add_document_fields 2 [(lit "tags", lit "tantivy")]])
    (match_query "lakehouse" "tags") = Ok [1].
Lemma repeated_fields_test_passes : repeated_named_fields_support_string_arrays.
Proof. vm_compute. reflexivity. Qed.

(** *** Forms of queries *)
Definition search_accepts_paimon_match_query_aliases : Prop :=
  found build_index (obj [("match", obj [("column", text "text"); ("query", text "paimon indexes");
    ("operator", text "AND"); ("boost", JFloat two); ("fuzziness", JInt 0); ("maxExpansions", JInt 50);
    ("prefixLength", JInt 0)])]%string) = Ok [12].
Lemma aliases_test_passes : search_accepts_paimon_match_query_aliases.
Proof. vm_compute. reflexivity. Qed.

Definition match_query_can_omit_column_for_single_field_index : Prop :=
  found build_index (obj [("match", obj [("query", text "paimon"); ("operator", text "OR")])]%string) = Ok [10; 12].
Lemma omitted_column_test_passes : match_query_can_omit_column_for_single_field_index.
Proof. vm_compute. reflexivity. Qed.

Definition search_rejects_unknown_column_name : Prop :=
  fault_with (found build_index (obj [("match", obj [("column", text "content"); ("query", text "paimon");
    ("operator", text "OR")])]%string)) "column 'content' is not configured" = true.
Lemma unknown_column_test_passes : search_rejects_unknown_column_name.
Proof. vm_compute. reflexivity. Qed.

Definition search_accepts_paimon_boolean_query_forms : Prop :=
  found build_index (obj [("boolean", obj [
    ("must", JArray [obj [("match", obj [("column", text "text"); ("terms", text "paimon")])]]);
    ("must_not", JArray [obj [("phrase", obj [("column", text "text"); ("query", text "legacy")])]])])]%string)
  = Ok [10; 12].
Lemma boolean_forms_test_passes : search_accepts_paimon_boolean_query_forms.
Proof. vm_compute. reflexivity. Qed.

Definition boolean_query_rejects_only_must_not : Prop :=
  fault_with (found build_index (obj [("boolean", obj [
    ("must_not", JArray [obj [("match", obj [("column", text "text"); ("query", text "paimon")])]])])]%string))
    "at least one should or must clause" = true.
Lemma only_must_not_test_passes : boolean_query_rejects_only_must_not.
Proof. vm_compute. reflexivity. Qed.

(** *** Phrases, boosts and scores *)
Definition phrase_query (terms column : string) : json :=
  obj [("match_phrase", obj [("query", text terms); ("column", text column)])]%string.
Definition phrase_query_uses_positions : Prop := found build_index (phrase_query "full text" "text") = Ok [10].
Lemma phrase_test_passes : phrase_query_uses_positions.
Proof. vm_compute. reflexivity. Qed.

Definition phrase_query_rejects_index_without_positions : Prop :=
  fault_with (found (build_index_with_config (with_positions false FullTextIndexConfig_default))
    (phrase_query "full text" "text"))
    "phrase query requires positions" = true.
Lemma phrase_without_positions_test_passes : phrase_query_rejects_index_without_positions.
Proof. vm_compute. reflexivity. Qed.

(** The rows and whether the first score is greater than the second. *)
Definition ranked (bytes : Fallible (list byte)) (query : json) : Fallible (list Z * bool) :=
  (λ result, (row_ids result,
    match scores result with first :: second :: _ => f32_lt second first | _ => false end))
  <$> on_index bytes (search (to_text query) 10).
Definition boost_query_demotes_negative_matches : Prop :=
  ranked (build FullTextIndexConfig_default [add_document 1 (lit "paimon good"); add_document 2 (lit "paimon bad")])
    (obj [("boost", obj [
      ("positive", match_query "paimon" "text"); ("negative", match_query "bad" "text");
      ("negative_boost", JFloat half)])]%string) = Ok ([1; 2], true).
Lemma demoted_match_test_passes : boost_query_demotes_negative_matches.
Proof. vm_compute. reflexivity. Qed.

(** [3.0] and [1.0] as binary64 numbers. *)
Definition three : SpecFloat.spec_float := SpecFloat.S754_finite false 6755399441055744 (-51).
Definition one : SpecFloat.spec_float := SpecFloat.S754_finite false 4503599627370496 (-52).
Definition multi_match_searches_columns_and_applies_boosts : Prop :=
  ranked (build (with_text_fields [lit "title"; lit "body"] FullTextIndexConfig_default) [
      add_document_fields 1 [(lit "title", lit "paimon"); (lit "body", lit "storage")];
      add_document_fields 2 [(lit "title", lit "storage"); (lit "body", lit "paimon")]])
    (obj [("multi_match", obj [("query", text "paimon"); ("columns", JArray [text "title"; text "body"]);
      ("boost", JArray [JFloat three; JFloat one])])]%string) = Ok ([1; 2], true).
Lemma multi_match_test_passes : multi_match_searches_columns_and_applies_boosts.
Proof. vm_compute. reflexivity. Qed.

(** *** Analyzers *)
Definition default_tokenizer_stems_removes_stop_words_and_folds_ascii : Prop :=
  on_index (build FullTextIndexConfig_new [
      add_document 1 (lit "The runners visited cafes"); add_document 2 (lit "plain unrelated text")])
    (result ← search (to_text (match_query_and (utf8 "runner café") "text")) 10; mret (row_ids result))
  = Ok [1].
Lemma analyzer_test_passes : default_tokenizer_stems_removes_stop_words_and_folds_ascii.
Proof. vm_compute. reflexivity. Qed.

Definition with_kind (kind : TokenizerKind) : TokenizerConfig := assign (Set_tokenizer kind) TokenizerConfig_default.
Definition jieba_tokenizer_searches_chinese_terms : Prop :=
  row_ids <$> on_index (build (with_tokenizer (with_kind Jieba) FullTextIndexConfig_new) [
      add_document 20 (utf8 "中华人民共和国人民大会堂"); add_document 21 (utf8 "北京大学支持全文检索")])
    (search (to_text (obj [("match", obj [("query", JString (utf8 "中华")); ("column", text "text")])]%string)) 10)
  = Ok [20].
Lemma jieba_terms_test_passes : jieba_tokenizer_searches_chinese_terms.
Proof. vm_compute. reflexivity. Qed.

Definition jieba_tokenizer_supports_chinese_phrase_queries : Prop :=
  row_ids <$> on_index (build (with_tokenizer (assign (Set_jieba_ordinal_position true)
      (assign (Set_with_position true) (with_kind Jieba))) FullTextIndexConfig_new) [
      add_document 30 (utf8 "北京大学支持全文检索"); add_document 31 (utf8 "北京的大学很多")])
    (search (to_text (obj [("match_phrase", obj [("query", JString (utf8 "北京大学")); ("column", text "text")])]%string)) 10)
  = Ok [30].
Lemma jieba_phrases_test_passes : jieba_tokenizer_supports_chinese_phrase_queries.
Proof. vm_compute. reflexivity. Qed.

(** *** Fuzzy terms *)
Definition fuzzy_match_query (terms column : string) (fuzziness max_expansions prefix_length : Z) : json :=
  obj [("match", obj [("query", text terms); ("column", text column); ("fuzziness", JInt fuzziness);
    ("max_expansions", JInt max_expansions); ("prefix_length", JInt prefix_length)])]%string.
Definition fuzzy_match_query_matches_typos : Prop :=
  found build_index (fuzzy_match_query "paimno" "text" 1 50 0) = Ok [10; 12].
Lemma typos_test_passes : fuzzy_match_query_matches_typos.
Proof. vm_compute. reflexivity. Qed.

Definition fuzzy_match_query_supports_auto_fuzziness_json : Prop :=
  (λ rows, blen rows) <$> found build_index
    (obj [("match", obj [("column", text "text"); ("query", text "paimxx"); ("fuzziness", text "auto")])]%string)
  = Ok 2.
Lemma auto_fuzziness_test_passes : fuzzy_match_query_supports_auto_fuzziness_json.
Proof. vm_compute. reflexivity. Qed.

Definition fuzzy_prefix_length_requires_exact_start : Prop :=
  let bytes := build FullTextIndexConfig_default [add_document 1 (lit "paimon search"); add_document 2 (lit "xaimon search")] in
  found bytes (fuzzy_match_query "paimno" "text" 1 50 3) = Ok [1] ∧
  found bytes (fuzzy_match_query "qaimon" "text" 1 50 1) = Ok [].
Lemma prefix_length_test_passes : fuzzy_prefix_length_requires_exact_start.
Proof. vm_compute. done. Qed.

Definition fuzzy_match_query_honors_max_expansions : Prop :=
  let bytes := build FullTextIndexConfig_default
    [add_document 1 (lit "aac"); add_document 2 (lit "abc"); add_document 3 (lit "acc"); add_document 4 (lit "bbc")] in
  (λ rows, blen rows) <$> found bytes (fuzzy_match_query "abc" "text" 1 1 0) = Ok 1 ∧
  (λ rows, blen rows) <$> found bytes (fuzzy_match_query "abc" "text" 1 50 0) = Ok 4.
Lemma max_expansions_test_passes : fuzzy_match_query_honors_max_expansions.
Proof. vm_compute. done. Qed.

(** *** What is read *)
Record ReadStats : Type := read_stats { pread_calls : Z; max_ranges_per_batch : Z; total_bytes_read : Z }.
Record CountingSliceReader : Type := counting_slice_reader { data : list byte; stats : ReadStats }.
#[local] Instance CountingSliceReader_SeekRead : SeekRead CountingSliceReader := λ ranges r,
  (SliceReader_read (data r) ranges,
   counting_slice_reader (data r) (read_stats (pread_calls (stats r) + 1)
     (Z.max (max_ranges_per_batch (stats r)) (blen ranges))
     (total_bytes_read (stats r) + foldr Z.add 0 (buf_len <$> ranges)))).
Definition counting (bytes : list byte) : CountingSliceReader := counting_slice_reader bytes (read_stats 0 0 0).
Definition stats_of {A} (f : ReadStats -> A) : ST (Opened CountingSliceReader) (Fault FtIndexError) A :=
  ST_gets (λ s, f (stats (inner (input (fr_shared s))))).

Definition reader_open_does_not_load_all_archive_files : Prop :=
  (bytes ← build_index;
   '(header, body_start) ← map_err Failed (read_header (slice_reader bytes)).1;
   let body_len := foldr Z.max 0 ((λ file, offset file + length file) <$> files header) in
   on_opened (counting bytes) (
     metadata ← ST_gets reader_metadata;
     bytes_read_at_open ← stats_of total_bytes_read;
     result ← search (to_text (match_query "paimon" "text")) 10;
     mret (document_count metadata, bytes_read_at_open <? body_start + body_len, blen (row_ids result))))
  = Ok (3, true, 2).
Lemma open_loads_little_test_passes : reader_open_does_not_load_all_archive_files.
Proof. vm_compute. reflexivity. Qed.

Definition missing : ST (Opened CountingSliceReader) (Fault FtIndexError) (list Z) :=
  result ← search (to_text (match_query "missing" "text")) 10; mret (row_ids result).
Definition repeated_search_reuses_tantivy_reader_io : Prop :=
  (bytes ← build_index;
   on_opened (counting bytes) (
     calls_after_open ← stats_of pread_calls;
     first ← missing;
     calls_after_first_search ← stats_of pread_calls;
     second ← missing;
     calls_after_second_search ← stats_of pread_calls;
     mret (first, second,
       calls_after_second_search - calls_after_first_search <? calls_after_first_search - calls_after_open)))
  = Ok ([], [], true).
Lemma repeated_search_test_passes : repeated_search_reuses_tantivy_reader_io.
Proof. vm_compute. reflexivity. Qed.

(** The calls of the first search of a reader that is cold, and of one that is
    warm after the calls of [prewarm]. *)
Definition first_search_calls : ST (Opened CountingSliceReader) (Fault FtIndexError) (list Z * Z) :=
  before ← stats_of pread_calls;
  rows ← missing;
  after ← stats_of pread_calls;
  mret (rows, after - before).
Definition prewarm_initializes_tantivy_reader_before_first_search : Prop :=
  (bytes ← build_index;
   '(cold_rows, cold_first_search_calls) ← on_opened (counting bytes) first_search_calls;
   on_opened (counting bytes) (
     warm_calls_after_open ← stats_of pread_calls;
     _ ← prewarm;
     warm_calls_after_prewarm ← stats_of pread_calls;
     '(warm_rows, warm_first_search_calls) ← first_search_calls;
     mret (cold_rows, warm_rows, warm_calls_after_open <? warm_calls_after_prewarm,
           warm_first_search_calls <? cold_first_search_calls)))
  = Ok ([], [], true, true).
Lemma prewarm_test_passes : prewarm_initializes_tantivy_reader_before_first_search.
Proof. vm_compute. reflexivity. Qed.

Definition read_metrics_report_pread_and_cache_activity : Prop :=
  on_index build_index (
    after_open ← ST_gets read_metrics;
    result ← search (to_text (match_query "missing" "text")) 10;
    after_first_search ← ST_gets read_metrics;
    mret ((2 <=? snap_pread_calls after_open) && (16 <? snap_pread_bytes after_open),
      row_ids result,
      (snap_pread_calls after_open <? snap_pread_calls after_first_search)
      && (snap_pread_bytes after_open <? snap_pread_bytes after_first_search)
      && (snap_cache_misses after_open <? snap_cache_misses after_first_search)
      && (0 <? snap_cached_blocks after_first_search)))
  = Ok (true, [], true).
Lemma metrics_test_passes : read_metrics_report_pread_and_cache_activity.
Proof. vm_compute. reflexivity. Qed.
End RoundTrip.

(** ** [core/tests/tokenizer_roundtrip.rs] *)
Module TokenizerTests.
Import RoundTrip.
(** Each case of a test is evaluated by itself. *)
#[local] Ltac run_cases :=
  hnf; repeat match goal with |- Forall _ _ => constructor end; vm_compute; reflexivity.

Definition Reader : Type := Opened SliceReader.
Definition build_reader (tokenizer : string) (documents : list (Z * str)) : Fallible Reader :=
  let options := [(lit "fulltext.tokenizer", lit tokenizer); (lit "fulltext.stem", lit "false");
                  (lit "fulltext.remove-stop-words", lit "false")] in
  config ← map_err Failed (TokenizerConfig_from_options options);
  bytes ← build (with_tokenizer config FullTextIndexConfig_new) ((λ d, add_document d.1 d.2) <$> documents);
  reader ← FullTextIndexReader_open (slice_reader bytes);
  if str_eqb (TokenizerKind_name (Tokenizer.tokenizer (tokenizer_config_of (Config.config (reader_metadata reader)))))
       (lit tokenizer)
  then Ok reader else Err (Failed (InvalidStorage [Txt "another tokenizer"])).
Definition ids (reader : Fallible Reader) (query : json) : Fallible (list Z) :=
  reader ← reader; row_ids <$> (search (to_text query) 10 reader).1.
Definition matching_ids (reader : Fallible Reader) (query : string) : Fallible (list Z) :=
  ids reader (match_query_and (utf8 query) "text").
Definition phrase_ids (reader : Fallible Reader) (query : string) : Fallible (list Z) :=
  ids reader (obj [("match_phrase", obj [("query", JString (utf8 query)); ("column", text "text")])]%string).

Definition mixed_language_tokenizers_search_chinese_and_english_terms : Prop :=
  Forall (λ tokenizer,
    let reader := build_reader tokenizer
      [(1, utf8 "Paimon支持中文搜索和Rust开发"); (2, utf8 "Paimon支持英文搜索和Java开发")] in
    matching_ids reader <$> ["中文RUST"; "英文java"; "Paimon中文Rust"; "中文java"]%string
    = Ok <$> [[1]; [2]; [1]; []])
    ["icu"; "icu/split"; "jieba"]%string.
Lemma mixed_language_test_passes : mixed_language_tokenizers_search_chinese_and_english_terms.
Proof. run_cases. Qed.

Definition icu_modes_control_identifier_boundaries_after_reopening_index : Prop :=
  Forall (λ '(tokenizer, partial_ids),
    let reader := build_reader tokenizer
      [(1, utf8 "中文 hello_world alpha.beta getUserName"); (2, utf8 "中文 hello planet alpha gamma")] in
    matching_ids reader <$>
      ["world"; "beta"; "hello world"; "hello_world alpha.beta"; "getUserName"; "user"]%string
    = Ok <$> [partial_ids; partial_ids; partial_ids; [1]; [1]; []])
    [("icu", []); ("icu/split", [1])]%string.
Lemma identifier_boundaries_test_passes : icu_modes_control_identifier_boundaries_after_reopening_index.
Proof. run_cases. Qed.

Definition icu_modes_support_mixed_language_phrase_queries : Prop :=
  Forall (λ tokenizer,
    phrase_ids (build_reader tokenizer
      [(1, utf8 "中文 Rust 搜索"); (2, utf8 "中文 Java Rust 搜索"); (3, utf8 "中文 Rust 高级 搜索")])
      "中文 rust 搜索" = Ok [1]) ["icu"; "icu/split"]%string.
Lemma mixed_phrase_test_passes : icu_modes_support_mixed_language_phrase_queries.
Proof. run_cases. Qed.

Definition icu_split_positions_support_identifier_phrases : Prop :=
  phrase_ids (build_reader "icu/split"
    [(1, utf8 "中文 hello_world 搜索"); (2, utf8 "中文 hello brave world 搜索"); (3, utf8 "中文 world hello 搜索")])
    "中文 hello world 搜索" = Ok [1].
Lemma identifier_phrase_test_passes : icu_split_positions_support_identifier_phrases.
Proof. vm_compute. reflexivity. Qed.

Definition icu_modes_apply_configured_english_filters : Prop :=
  Forall (λ tokenizer,
    let reader :=
      config ← map_err Failed (TokenizerConfig_from_options [(lit "tokenizer", lit tokenizer)]);
      bytes ← build (with_tokenizer config FullTextIndexConfig_new) [
        add_document 1 (utf8 "中文 The runners visited cafés"); add_document 2 (utf8 "中文 other text")];
      FullTextIndexReader_open (slice_reader bytes) in
    matching_ids reader <$> ["中文 RUNNER cafe"; "the"]%string = Ok <$> [[1]; []])
    ["icu"; "icu/split"]%string.
Lemma english_filters_test_passes : icu_modes_apply_configured_english_filters.
Proof. run_cases. Qed.
End TokenizerTests.

(** ** ffi/src/lib.rs *)
Module FfiTests.
(** [write_vec] and [read_vec]: the context is the vector. *)
Definition Vec : Type := list byte.
#[local] Instance write_vec : WriteCallbacks Vec := {
  WriteFn := unit;
  FlushFn := Empty_set;
  call_write _ out buf := (0, out ++ buf);
  call_flush f := match f with end
}.
#[local] Instance read_vec : ReadCallbacks Vec := {
  PreadFn := unit;
  call_pread _ input start len :=
    if blen input <? start + len then (-1, replicate (Z.to_nat len) x00, input)
    else (0, slice start len input, input)
}.

(** The caller's memory: C strings at 1, 2, .., arrays of pointers from
    20 on, a bitmap at 30, the results at 40 to 42 and metrics at 50 to 52. *)
Definition string_at (p : ptr) (s : str) : ptr * list byte := (p, as_bytes s).
Definition no_metrics : PaimonFtindexReadMetrics := paimon_metrics 0 0 0 0 0 0 0.
Definition Caller : Type :=
  World (Schema := ToySchema) (I := MiniWriter) (N := Vec) (Ix := MiniIndex) (Parsed := MiniParsed).
Definition caller (strings : list (ptr * list byte)) (arrays : list (ptr * list ptr)) (filter : list byte) : Caller :=
  world None ∅ ∅ (c_memory (list_to_map strings) (list_to_map arrays) {[30 := filter]} {[40 := replicate 4 0]}
    {[41 := replicate 4 f32_zero]} {[42 := 0]} {[50 := no_metrics; 51 := no_metrics; 52 := no_metrics]}).
Definition query : str := to_text (RoundTrip.match_query "paimon" "text").
Definition output : PaimonFtindexOutputFile Vec := output_file [] (Some tt) None.
Definition written (output : FfiOutputFile Vec) : PaimonFtindexInputFile Vec :=
  input_file (out_ctx (out_raw output)) (Some tt).
Definition first_row (w : Caller) : option Z := array ← row_id_arrays w !! 40; head array.
Definition first_score_is_positive (w : Caller) : bool :=
  match score_arrays w !! 41 with Some (score :: _) => f32_lt f32_zero score | _ => false end.

Definition ffi_round_trip_search : Prop :=
  let w := caller [string_at 1 (lit "Apache Paimon full text"); string_at 2 query] [] [] in
  let '(writer, w) := paimon_ftindex_writer_open PayloadOther 100 0 0 0 w in
  let '(added, w) := paimon_ftindex_writer_add_document 100 7 1 w in
  let '(wrote, (w, output)) := paimon_ftindex_writer_write_index 100 output w in
  let '(_, w) := paimon_ftindex_writer_free 100 w in
  let '(reader, w) := paimon_ftindex_reader_open 200 (written output) w in
  let '(measured, w) := paimon_ftindex_reader_read_metrics 200 50 w in
  let '(prewarmed, w) := paimon_ftindex_reader_prewarm 200 w in
  let '(measured_again, w) := paimon_ftindex_reader_read_metrics 200 51 w in
  let '(searched, w) := paimon_ftindex_reader_search 200 2 4 40 41 4 42 w in
  let '(measured_at_last, w) := paimon_ftindex_reader_read_metrics 200 52 w in
  let '(freed, w) := paimon_ftindex_reader_free 200 w in
  let metrics := default no_metrics (metrics_cells w !! 50) in
  let after_prewarm := default no_metrics (metrics_cells w !! 51) in
  let after_search := default no_metrics (metrics_cells w !! 52) in
  (writer, added, wrote, reader, measured) = (Some 100, Some 0, Some 0, Some 200, Some 0) ∧
  (prewarmed, measured_again, searched, measured_at_last, freed) = (Some 0, Some 0, Some 0, Some 0, Some tt) ∧
  2 ≤ m_pread_calls metrics ∧ 16 < m_pread_bytes metrics ∧
  m_pread_calls metrics < m_pread_calls after_prewarm ∧
  lengths w !! 42 = Some 1 ∧ first_row w = Some 7 ∧ first_score_is_positive w = true ∧
  m_pread_calls after_prewarm ≤ m_pread_calls after_search ∧
  m_cache_misses metrics ≤ m_cache_misses after_search.
Lemma ffi_round_trip_test_passes : ffi_round_trip_search.
Proof. vm_compute. repeat (split; [done|]). done. Qed.

Definition ffi_round_trip_search_with_roaring_filter : Prop :=
  let filter_bytes := RoundTrip.filter_of [9] in
  let w := caller [string_at 1 (lit "Apache Paimon full text"); string_at 2 (lit "Paimon filtered row");
                   string_at 3 query] [] filter_bytes in
  let '(writer, w) := paimon_ftindex_writer_open PayloadOther 100 0 0 0 w in
  let '(first_added, w) := paimon_ftindex_writer_add_document 100 7 1 w in
  let '(second_added, w) := paimon_ftindex_writer_add_document 100 9 2 w in
  let '(wrote, (w, output)) := paimon_ftindex_writer_write_index 100 output w in
  let '(_, w) := paimon_ftindex_writer_free 100 w in
  let '(reader, w) := paimon_ftindex_reader_open 200 (written output) w in
  let '(searched, w) :=
    paimon_ftindex_reader_search_with_roaring_filter 200 3 4 30 (blen filter_bytes) 40 41 4 42 w in
  let '(freed, w) := paimon_ftindex_reader_free 200 w in
  (writer, first_added, second_added, wrote, reader) = (Some 100, Some 0, Some 0, Some 0, Some 200) ∧
  (searched, freed) = (Some 0, Some tt) ∧
  lengths w !! 42 = Some 1 ∧ first_row w = Some 9 ∧ first_score_is_positive w = true.
Lemma ffi_filter_test_passes : ffi_round_trip_search_with_roaring_filter.
Proof. vm_compute. done. Qed.

Definition ffi_add_document_fields_searches_multi_field_index : Prop :=
  let query := to_text (obj [("multi_match", obj [
    ("query", text "paimon"); ("columns", JArray [text "title"; text "body"])])]%string) in
  let w := caller [string_at 1 (lit "text-fields"); string_at 2 (lit "title,body"); string_at 3 (lit "title");
                   string_at 4 (lit "body"); string_at 5 (lit "Apache Paimon"); string_at 6 (lit "lake storage");
                   string_at 7 query] [(20, [1]); (21, [2]); (22, [3; 4]); (23, [5; 6])] [] in
  let '(writer, w) := paimon_ftindex_writer_open PayloadOther 100 20 21 1 w in
  let '(added, w) := paimon_ftindex_writer_add_document_fields 100 17 22 23 2 w in
  let '(wrote, (w, output)) := paimon_ftindex_writer_write_index 100 output w in
  let '(_, w) := paimon_ftindex_writer_free 100 w in
  let '(reader, w) := paimon_ftindex_reader_open 200 (written output) w in
  let '(searched, w) := paimon_ftindex_reader_search 200 7 4 40 41 4 42 w in
  let '(freed, w) := paimon_ftindex_reader_free 200 w in
  (writer, added, wrote, reader) = (Some 100, Some 0, Some 0, Some 200) ∧
  (searched, freed) = (Some 0, Some tt) ∧
  lengths w !! 42 = Some 1 ∧ first_row w = Some 17.
Lemma ffi_fields_test_passes : ffi_add_document_fields_searches_multi_field_index.
Proof. vm_compute. done. Qed.
End FfiTests.

(** ** An archive whose file nobody can read

    Its header is accepted and names a file of 2^63 bytes; opening it reads
    that file. *)
Module PanicTests.
Import FfiTests.
#[local] Existing Instances read_vec ToyJava.toy_env Jni.JavaInput_SeekRead.
Definition huge_archive : list byte :=
  StorageTests.encode_header (index_header StorageTests.valid_metadata [archive_file (lit "meta.json") 0 (2 ^ 63)]).
Definition huge_input : PaimonFtindexInputFile Vec := input_file huge_archive (Some tt).

(** Behind the C interface the panic is an error like any other. *)
Example c_reader_reports_the_panic :
  let '(reader, w) := paimon_ftindex_reader_open 200 huge_input (caller [] [] []) in
  reader = Some 0 ∧ paimon_ftindex_last_error w = Some (lit "native panic: capacity overflow").
Proof. vm_compute. done. Qed.

(** Behind the JNI bridge it ends the process. *)
Definition java_with_file (object : Z) (bytes : list byte) :
    Jni.JavaWorld (Schema := ToySchema) (I := MiniWriter) (Ix := MiniIndex) (Parsed := MiniParsed) :=
  Jni.java_world (ToyJava.toy_jvm 1000 ∅ ∅ ∅ ∅ {[object := bytes]} ∅ ∅ None) ∅ ∅.
Definition java_object : Jni.JObject (J := ToyJava.ToyJvm) := 4.
Example java_reader_aborts :
  (Jni.FullTextNative_openReader 200 java_object (java_with_file 4 huge_archive)).1
  = Jni.Aborts (PayloadStr (lit "capacity overflow")).
Proof. vm_compute. reflexivity. Qed.
End PanicTests.
